(* ===== verification/_CoqProject ===== *)
-Q . S2P
Prelude.v
Order.v
Text.v
Sha256.v
Base64.v
Keys.v
Framing.v
RecordDigest.v
Floats.v
Rounding.v
Json.v
JsonRead.v
Dumps.v
Jcs.v
JcsNumber.v
JcsRead.v
Commitment.v
Jws.v
TctVectors.v
JcsVectors.v
Regex.v
Script.v
Citations.v
RootGen.v
SiblingQuotes.v
FrameworkProbe.v
VendoredSpec.v
DriftRows.v
DriftFetch.v
DriftReport.v
Drift.v
DriftProofs.v
DriftIssue.v
Dpop.v
DpopCheck.v
HttpHtu.v
AdminAuth.v
Smoke.v
Ids.v
Errors.v
StubProxy.v
Retry.v
Authorize.v
Decoders.v
Outcome.v
Connect.v
Client.v
Verbs.v
Verify.v
Refresh.v
Admin.v
AdminCalls.v
AdminStream.v
Identity.v
IdentityFile.v
Aio.v
AioTasks.v
Package.v
