(* ===== verification/Prelude.v ===== *)
(** * The Seam SDK for Python: a verification of its library and its tools

    The Python SDK ([src/python/seam_sdk]) is a client of a Seam server: agents admit themselves with a
    proof of possession of an Ed25519 key, ask for authorization of tool calls, take part in coordinated
    decisions, and verify sealed decisions and audit records locally, with no trust in the server beyond
    a pinned issuer; operators manage tenants, grants, erasures and event streams under a token that can be
    bound to a key. What makes it correct is (1) that every byte string it signs or hashes determines what
    was signed, (2) that its verifiers accept exactly what they should, (3) that its decoders fail closed,
    (4) that its ticket lifecycle sends, refreshes and retries as documented, also under concurrency and
    cancellation, (5) that every management call carries its own proof, and (6) that an identity file is
    created whole or not at all and loads back. The repository's tools ([src/scripts]) guard its releases: what
    makes them correct is that their exit codes mean what they say - a green is backed by evidence gathered
    in that run, a finding too, and a fault of the instrument is neither. This library translates that code
    into executable definitions and proves these properties.

    ** Conventions

    - Python data: [bytes] and [str] are lists of integers ([bytes], [pystr]: code points, lone surrogates
      included); an argument whose type the code inspects is a [pyval]. Floats are binary64 values of
      [SpecFloat]. Integers keep their widths where the code packs them ([pack_u32le], [to_bytes_be64]).
    - Errors: a computation is a [res], a value or an exception [exn] with the attributes a caller can
      read. [except] clauses are [try_except], [catch] or a match.
    - State: a method of the client runs in the monad [M] of [Client], over the ticket caches, the clock
      readings and the log of wire calls; one of the operator client in [AM] of [Admin]; the creation of an
      identity file in [FM] of [IdentityFile]; an [async] method is a coroutine [co] of [Aio]. A tool is a
      [Script] over the commands it ran and the lines it printed, ending in a value, in the tool's own
      failure or in a Python exception that escapes; a printed line is data, not its wording.
    - Code outside the repository is a parameter: Ed25519 (the class [Ed25519] with [Ed25519Laws]), the
      server, the clock, randomness and protobuf's serializer (the classes [World], [AdminWorld],
      [StreamWorld]), the file system's other users ([FsWorld]), the enum numbers of the generated protobuf
      modules (one class per enum), the commands a tool runs ([Machine], [DriftWorld], [Siblings], [Host]:
      functions of everything asked before, so a command may answer differently each time), and the forms
      of [datetime.fromisoformat] beyond the ones in use ([OtherIso]). The witnesses instantiate each of them. SHA-256, base64, UTF-8 and
      UTF-16, [json.loads], [json.dumps], the regular expressions and float printing are modelled, so the
      repository's conformance vectors are evaluated ([..._vector], [jcs_...] examples).
    - Digest theorems conclude "the same content, or these two preimages are a SHA-256 collision": the
      collision is exhibited, never assumed away.

    ** Files

    - [Prelude]: Python values, exceptions, the [res] monad, fixed-width integers, prefix-free encodings
      with the tactics [inv_ok], [peel], [dlia]. [Order]: lexicographic order and sorting.
      [Text], [Base64], [Sha256], [Floats], [Json], [Dumps]: the parts of the Python library the SDK uses;
      [JsonRead]: which texts the JSON reader reads back. [Jws]: compact tokens over JSON. [Regex]: Python's
      [re] - patterns as data, the backtracking matcher, what a pattern can match, [sub] and [finditer].
      [Script]: the monad of the tools with the inversion lemmas and tactics ([inv_done], [keep], [chain])
      their proofs use, and the [str] methods they call.
    - [Keys] ([crypto.py]): AIDs, derived UUIDs, the admission presentation.
    - [Framing] ([crypto.py]): the framed payloads agents sign (authorize v2 and v3, request credential,
      enrolment proof); equal payloads mean the same operation with the same fields.
    - [RecordDigest] ([crypto.py]): the v4 record, participants and context digests with their strip
      refusals, and the chain-head attestation with its exact acceptance condition.
    - [Jcs] ([crypto.py]): RFC 8785 canonicalization and the tool-input digest. [Rounding]: what reading a decimal
      as a binary64 and printing the shortest one mean - [float_of_decimal] rounds correctly, ties to even, and the
      digits [repr] prints read back as the float they came from. [JcsNumber]: canonical numbers read back, and
      the integer shortcut [_jcs_int] is the documented rule. [JcsRead]: canonical bytes read back as the value
      they denote and canonicalize to themselves.
    - [Commitment] ([crypto.py]): explanation and commitment digests and [verify_tct], with its exact
      acceptance condition.
    - [Ids] ([ids.py]), [Errors] ([errors.py]: the reader of [google.rpc.Status] details and the typed
      errors), [Retry] ([retry.py]), [Authorize] ([_authorize.py]), [Decoders] ([_collective.py], [_seal.py],
      [_policy.py]), [Outcome] ([_outcome.py], [tenant.py]). [StubProxy] ([errors.py], [aio.py]): the proxies the stubs are
      called through, and what a consumer of a call or a stream sees.
    - [Client] ([client.py]): agents, the handshake, the per-AID ticket caches, [authorize], [_signed_once]
      and [_credentialed_call]. The relation [exchange] is the specification of a credentialed call - one
      ticket, one signed attempt, and after an [UNAUTHENTICATED] refusal one refresh and one re-signed
      attempt - and [credentialed_call_refines] the refinement.
    - [Verbs] ([client.py]): the public verbs, and that each of them signs what it sends.
    - [Verify] ([client.py]): [verify_decision] end to end.
    - [Refresh] ([client.py]): the critical sections of concurrent callers of one identity as a step
      relation; mutual exclusion, coalescing of refreshes, absence of deadlock. The lemmas
      [refresh_ticket_check], [ticket_for_check] and [invalidate_ticket_check] tie the steps to the
      sequential methods.
    - [Aio] ([aio.py]): every method and verb of the async client as a coroutine; run alone it is the
      synchronous method ([aio_matches_sync]). [AioTasks]: many coroutines on one event loop, answered in
      any order and cancelled anywhere: the lock discipline, termination without deadlock, and what a
      cancellation leaves in a cache.
    - [Dpop] ([dpop.py]): operator keys, JWKs, proofs, targets, the look into a token; [HttpHtu]: the
      grammar of http targets; [DpopCheck]: the receiver's check of [docs/specs/mgmt-dpop.md], which accepts
      a proof exactly for the call it was made for.
    - [AdminAuth] ([admin.py]): the interceptors and the pairing of token, key and audience; [Admin]
      ([admin.py]): the verbs and their request messages, the event stream, streamed digests;
      [AdminCalls], [AdminStream]: what reaches the wire over any sequence of verbs and stream operations.
    - [Identity] ([identity.py]): the loaders and the file body, with the round trip; [IdentityFile]: the
      creation of the file among other processes, with a small Hoare logic over the file system.
    - [Connect] ([client.py], [aio.py], [admin.py], [tenant.py]): [connect], [close], [with] and the tenant
      interceptors: one channel is opened or none, and what its calls carry.
    - [VendoredSpec] ([scripts/check_vendored_spec.py]): the pin header and its pattern, the two sources
      ([GitHub], [LocalCheckout]), [check] and [main]; a green copy is exactly a sound one
      ([check_green_iff]), whatever the commands answer, commands of that run vouched for it
      ([main_green_vouched]), and a pin written as documented is read back ([pin_header_roundtrip]).
    - [scripts/check_registry_drift.py] in six files. [DriftRows]: registry rows, versions, instants, grace
      tiers and the period of the schedule. [DriftFetch]: the questions to [git] and to the two registries,
      each behind a canary. [DriftReport]: GitHub issues - the listing fetched once, [report_drift], the
      heartbeat. [Drift]: [main], split as the source splits it: [gather] asks, [read_clock] and
      [decide_verdict] judge, [report] files. [DriftProofs], over the run as one ordered trace of commands and
      printed lines: what each exit code is backed by, that a grace tier never touches GitHub, one listing per
      run, the decision table of [report_drift]. [DriftIssue]: the statements an issue's body makes.
    - [TctVectors] ([scripts/emit_tct_exp_vectors.py]): the oracle of token expiry agrees with [verify_tct] on
      every expiry and clock. [JcsVectors] ([scripts/emit_jcs_int_vectors.py]): the integer vectors say what
      [jcs_canonicalize] does, whatever is drawn.
    - [Citations] ([scripts/shift_changelog_citations.py]): every text reads in one way as citations and other
      characters ([reads_as]); shifting moves the former and nothing else, and shifting back undoes it.
    - [SiblingQuotes] ([scripts/check_sibling_quotes.py]), [FrameworkProbe]
      ([scripts/probe_framework_coinstall.py]): exit codes 0 and 1 are verdicts on positive answers.
    - [Smoke] ([scripts/smoke/mgmt_dpop_aws_stg.py]): the redactor hides every secret value and every part of
      one that is long enough, so no line of a run tells one; what a green live run is evidence of.

    - [RootGen] ([scripts/root_gen.py]): the substitution is a statement about lines ([root_text_lines]); what the
      script leaves of a tree of files, and that it is idempotent ([main_roots]).
    - [Package] ([__init__.py] and every module's top level): the import statements of the modules, which import one
      another in a circle through [__init__], run by a model of Python's import system: no import order breaks
      ([imports_in_any_order]), and which modules load as single files ([standalone_loads]).

    ** Fuel

    [json_loads] gives its scanner twice the length of the text and [json_loads_fuel] shows that it never
    runs out; [_fields] the length of the buffer (each field takes at least one byte); [retry_loop] is
    proved to return for any fuel of at least [max_attempts]; [enc_varint] the ten bytes of a 64-bit varint;
    [write_all] the length of its buffer (each [write] takes at least a byte), shown to be enough by
    [write_all_owns]; [star_loop] of [Regex] the length of the text ahead (an iteration consumes a character),
    shown to be enough by [star_matcher]; [pieces_from] and [str_replace] the length of the text, by
    [reads_pieces] and [replace_leaves_none]; the search of [JcsVectors] any number of draws, with
    [searched_ends] saying when it has ended; [import_module] of [Package] one level
    more than there are modules (an import inside an import is of a module not yet begun), shown to be enough by
    [imports_in_any_order].

    ** Not modelled

    CPython's recursion limit and memory; human-readable messages, except where a theorem names one - the
    lines, errors and issue statements of the tools are values that name what the text names; [argparse];
    the diff [check_vendored_spec.py] prints; the parsing of a Python module by [ast] and of the manifest by
    [tomllib] (parameters of [SiblingQuotes] and [FrameworkProbe]); the refusals of protobuf's own
    constructors; [KNOWN_KINDS] of [admin.py], a constant no operation reads; the generated protobuf modules, which are not in the repository; the docstring decoration of the
    [submit_] verbs and the [DeprecationWarning] of [resume_session] ([client.py], [aio.py]), which change nothing a
    caller of a verb is answered, unless the process makes warnings errors. The decimal digits of Unicode in [Script] are those of version 14. *)

From stdpp Require Import base list numbers option strings.
From Stdlib Require Import SpecFloat Ascii.

#[export] Set Default Goal Selector "!".

Declare Scope seam_scope.
Delimit Scope seam_scope with seam.
Global Open Scope Z_scope.

(** ** Python data *)

(** A [bytes] object, one integer per byte. *)
Abbreviation bytes := (list Z).

(** A [str] object: its code points, lone surrogates included. *)
Abbreviation pystr := (list Z).

(** The text of an ASCII literal, as code points and as bytes alike. *)
Definition lit (s : string) : list Z :=
  (λ c, Z.of_N (N_of_ascii c)) <$> String.list_ascii_of_string s.
Global Open Scope seam_scope.

(** A Python object, as far as the source distinguishes objects: [PBuf] is an exporter of the buffer
    protocol other than [bytes] (its item size, whether it is C-contiguous, its raw bytes); [PObj] is
    any other object, named by its type. A [dict] is its items in insertion order. *)
Inductive pyval :=
| PNone
| PBool (b : bool)
| PInt (z : Z)
| PFloat (f : spec_float)
| PStr (s : pystr)
| PBytes (b : bytes)
| PBuf (itemsize : Z) (contiguous : bool) (raw : bytes)
| PList (l : list pyval)
| PTuple (l : list pyval)
| PDict (kv : list (pyval * pyval))
| PObj (type_name : pystr).

(** [v is None] *)
Definition is_none (v : pyval) : bool := match v with PNone => true | _ => false end.

(** [v == s] for a [str] [s]: only an equal [str] compares equal. *)
Definition py_eq_str (v : pyval) (s : pystr) : bool :=
  match v with PStr t => bool_decide (t = s) | _ => false end.

Lemma py_eq_str_true v s : py_eq_str v s = true ↔ v = PStr s.
Proof. destruct v; simpl; rewrite ?bool_decide_eq_true; naive_solver. Qed.

(** The value of the entry [k] among the items of a [dict]. *)
Fixpoint dict_find {A} (k : pystr) (d : list (pyval * A)) : option A :=
  match d with
  | [] => None
  | (k', a) :: d => if py_eq_str k' k then Some a else dict_find k d
  end.

(** Induction on a Python object through the values it contains. *)
Section pyval_rect.
Context (P : pyval → Prop).
Context (PNone_ok : P PNone) (PBool_ok : ∀ b, P (PBool b)) (PInt_ok : ∀ z, P (PInt z))
  (PFloat_ok : ∀ f, P (PFloat f)) (PStr_ok : ∀ s, P (PStr s)) (PBytes_ok : ∀ b, P (PBytes b))
  (PBuf_ok : ∀ i c r, P (PBuf i c r)) (PList_ok : ∀ l, Forall P l → P (PList l))
  (PTuple_ok : ∀ l, Forall P l → P (PTuple l))
  (PDict_ok : ∀ kv, Forall (λ p, P p.2) kv → P (PDict kv)) (PObj_ok : ∀ t, P (PObj t)).

Fixpoint pyval_deep_ind (v : pyval) : P v :=
  let fix elems (l : list pyval) : Forall P l :=
    match l with [] => List.Forall_nil _ | x :: l => List.Forall_cons _ x l (pyval_deep_ind x) (elems l) end in
  let fix items (l : list (pyval * pyval)) : Forall (λ p, P p.2) l :=
    match l with
    | [] => List.Forall_nil _
    | x :: l => List.Forall_cons _ x l (pyval_deep_ind x.2) (items l)
    end in
  match v with
  | PNone => PNone_ok | PBool b => PBool_ok b | PInt z => PInt_ok z | PFloat f => PFloat_ok f
  | PStr s => PStr_ok s | PBytes b => PBytes_ok b | PBuf i c r => PBuf_ok i c r
  | PList l => PList_ok l (elems l) | PTuple l => PTuple_ok l (elems l)
  | PDict kv => PDict_ok kv (items kv) | PObj t => PObj_ok t
  end.
End pyval_rect.

(** ** gRPC status codes and error classes *)

(** [grpc.StatusCode]. *)
Inductive StatusCode :=
| OK | CANCELLED | UNKNOWN | INVALID_ARGUMENT | DEADLINE_EXCEEDED | NOT_FOUND | ALREADY_EXISTS
| PERMISSION_DENIED | RESOURCE_EXHAUSTED | FAILED_PRECONDITION | ABORTED | OUT_OF_RANGE
| UNIMPLEMENTED | INTERNAL | UNAVAILABLE | DATA_LOSS | UNAUTHENTICATED.

Global Instance StatusCode_eq_dec : EqDecision StatusCode.
Proof. solve_decision. Defined.

(** The [SeamRpcError] subclasses of [errors.py]. *)
Inductive rpc_class :=
| InvalidArgumentError | FailedPreconditionError | PermissionDeniedError | UnauthenticatedError
| NotFoundError | AlreadyExistsError | ResourceExhaustedError | UnavailableError
| DeadlineExceededError | UnimplementedError | InternalError.

Global Instance rpc_class_eq_dec : EqDecision rpc_class.
Proof. solve_decision. Defined.

(** Trailing metadata as the typed error keeps it: [(key, value)] pairs, or [None]. *)
Abbreviation metadata := (list (pyval * pyval)).

(** What a raw [grpc.RpcError] offers the mapping layer: each accessor may be missing ([None]), [code]
    and [details] may return [None], and [trailing_metadata] may raise ([Some None]) or return anything. *)
Record raw_rpc := RawRpc {
  raw_code : option (option StatusCode);
  raw_details : option (option pystr);
  raw_trailing : option (option pyval);
}.

(** ** Exceptions

    The exceptions the modelled code raises or lets through, with the attributes a caller can read off
    them. Human-readable messages are left out, except for the identifier refusals, whose [reason] is
    itself an attribute, and the bootstrap-file refusals, which two loaders promise to share; an
    [OSError] keeps its [errno], of which [FileNotFoundError] and [FileExistsError] are two values;
    [CancelledError] is [asyncio]'s, a [BaseException] no [except Exception] catches. *)
Inductive oserror := ENOENT | EEXIST | EOther (errno : Z).
Global Instance oserror_eq_dec : EqDecision oserror.
Proof. solve_decision. Defined.

Inductive exn :=
| TypeError
| ValueError
| JSONDecodeError
| KeyError
| AttributeError
| IndexError
| OverflowError
| RecursionError
| UnicodeEncodeError
| UnicodeDecodeError
| StructError
| BinasciiError
| InvalidSignature
| CanonicalizationError
| IssuerMismatchError (proof_issuer expected_issuer : pystr)
| UnknownVerdictError (raw_value : Z) (authorize_id : pystr)
| UnknownCollectiveVerdictError (raw_value : Z) (decision_id : pystr)
| ProtocolViolationError (authorize_id : pystr)
| RecordDigestStripError (field : string) (wire_tag : Z)
| UnsupportedRecordDigestVersion (schema_version : pyval)
| ContextProvenanceError (index : nat) (field : string)
| InvalidSessionIdError (reason : pystr)
| InvalidDecisionIdError (reason : pystr)
| DpopError
| DpopKeyError
| IdentityFileError (refusal : string)
| OSError (errno : oserror)
| StopIteration
| CancelledError
| SeamRpcError (cls : rpc_class) (code : StatusCode) (details : pystr) (trailing : option metadata)
| RawRpcError (raw : raw_rpc)
| OtherException (type_name : pystr).

(** The classes an [except] clause of the modelled code can name, with their place in the hierarchy. *)
Inductive exn_class :=
| CException | CValueError | CTypeError | CSeamError | COverflowError | CUnicodeDecodeError
| CJSONDecodeError | CDpopError | CRecursionError | COSError | CFileNotFoundError | CFileExistsError.

Definition isa (e : exn) (c : exn_class) : bool :=
  match c, e with
  | CException, CancelledError => false
  | CException, _ => true
  | CTypeError, (TypeError | CanonicalizationError) => true
  | CValueError, (ValueError | JSONDecodeError | DpopError | DpopKeyError | IdentityFileError _
                 | UnicodeEncodeError | UnicodeDecodeError | BinasciiError
                 | CanonicalizationError | RecordDigestStripError _ _
                 | UnsupportedRecordDigestVersion _ | ContextProvenanceError _ _
                 | InvalidSessionIdError _ | InvalidDecisionIdError _) => true
  | CSeamError, (CanonicalizationError | IssuerMismatchError _ _ | UnknownVerdictError _ _
                | UnknownCollectiveVerdictError _ _ | ProtocolViolationError _
                | SeamRpcError _ _ _ _) => true
  | COverflowError, OverflowError => true
  | CUnicodeDecodeError, UnicodeDecodeError => true
  | CJSONDecodeError, JSONDecodeError => true
  | CDpopError, (DpopError | DpopKeyError) => true
  | CRecursionError, RecursionError => true
  | COSError, OSError _ => true
  | CFileNotFoundError, OSError ENOENT => true
  | CFileExistsError, OSError EEXIST => true
  | _, _ => false
  end.

(** The outcome of a Python computation: a value, or the exception that escapes it. *)
Inductive res (A : Type) := Ok (a : A) | Raise (e : exn).
Arguments Ok {A} _.
Arguments Raise {A} _.

Global Instance res_ret : MRet res := @Ok.
Global Instance res_bind : MBind res := λ A B f m,
  match m with Ok a => f a | Raise e => Raise e end.
Global Instance res_fmap : FMap res := λ A B f m,
  match m with Ok a => Ok (f a) | Raise e => Raise e end.

(** [if not b: raise e] *)
Definition guard_raise (b : bool) (e : exn) : res () := if b then Ok () else Raise e.

(** [try: m except c: h] *)
Definition try_except {A} (m : res A) (c : exn_class) (h : exn → res A) : res A :=
  match m with
  | Ok a => Ok a
  | Raise e => if isa e c then h e else Raise e
  end.

(** [list(v)] / [for x in v]: the elements of an iterable, or [TypeError]. A [str] iterates over its
    characters, a [bytes] over its integers, a [dict] over its keys. *)
Definition py_iter (v : pyval) : res (list pyval) :=
  match v with
  | PList l | PTuple l => Ok l
  | PStr s => Ok ((λ c, PStr [c]) <$> s)
  | PBytes b => Ok (PInt <$> b)
  | PDict kv => Ok (fst <$> kv)
  | _ => Raise TypeError
  end.

Section res_lemmas.
Context {A B : Type}.

Lemma bind_Ok (m : res A) (k : A → res B) b :
  (m ≫= k) = Ok b ↔ ∃ a, m = Ok a ∧ k a = Ok b.
Proof. destruct m; [by split; [eauto|intros (? & [= ->] & ?)]|by split; [|intros (? & ? & ?)]]. Qed.

Lemma bind_Raise (m : res A) (k : A → res B) e :
  (m ≫= k) = Raise e ↔ m = Raise e ∨ ∃ a, m = Ok a ∧ k a = Raise e.
Proof.
  destruct m as [a|e']; split.
  - intros H. right. by exists a.
  - by intros [?|(? & [= ->] & ?)].
  - intros [= ->]. by left.
  - by intros [[= ->]|(? & ? & ?)].
Qed.

Lemma fmap_Ok (m : res A) (f : A → B) b :
  (f <$> m) = Ok b ↔ ∃ a, m = Ok a ∧ b = f a.
Proof. destruct m; [by split; [intros [= <-]; eauto|intros (? & [= ->] & ->)]|by split; [|intros (? & ? & ?)]]. Qed.

Lemma fmap_Raise (m : res A) (f : A → B) e : (f <$> m) = Raise e ↔ m = Raise e.
Proof. destruct m; split; intros H; simplify_eq/=; by try inversion H. Qed.

Lemma mret_Ok (a b : A) : (mret a : res A) = Ok b ↔ a = b.
Proof. split; [by intros [= ->]|by intros ->]. Qed.
End res_lemmas.

Lemma guard_raise_Ok b e u : guard_raise b e = Ok u ↔ b = true.
Proof. by destruct b, u. Qed.

Lemma guard_raise_Raise b E e : guard_raise b E = Raise e ↔ b = false ∧ e = E.
Proof. destruct b; simpl; split; [done|by intros []|by intros [= ->]|by intros [_ ->]]. Qed.

Lemma Ok_inj {A} (a b : A) : Ok a = Ok b → a = b.
Proof. congruence. Qed.

(** Break every hypothesis that says a monadic computation returned. *)
Ltac inv_ok :=
  repeat match goal with
  | H : (_ ≫= _) = Ok _ |- _ => apply bind_Ok in H as (? & ? & ?)
  | H : (_ <$> _) = Ok _ |- _ => apply fmap_Ok in H as (? & ? & ?)
  | H : mret _ = Ok _ |- _ => apply (proj1 (mret_Ok _ _)) in H
  | H : guard_raise _ _ = Ok _ |- _ => apply guard_raise_Ok in H
  | H : Ok _ = Ok _ |- _ => apply Ok_inj in H
  | H : Raise _ = Ok _ |- _ => discriminate H
  | H : Ok _ = Raise _ |- _ => discriminate H
  | H : () = () |- _ => clear H
  | u : unit |- _ => destruct u
  end; simplify_eq.

(** Break every hypothesis that says a monadic computation raised, one goal per place it can raise. *)
Ltac inv_raise :=
  repeat match goal with
  | H : (_ ≫= _) = Raise _ |- _ => apply bind_Raise in H as [H|(? & ? & H)]
  | H : (_ <$> _) = Raise _ |- _ => apply fmap_Raise in H
  | H : guard_raise _ _ = Raise _ |- _ => apply guard_raise_Raise in H as [? H]
  | H : Ok _ = Raise _ |- _ => discriminate H
  | H : mret _ = Raise _ |- _ => discriminate H
  | H : Raise _ = Raise _ |- _ => injection H as H
  end.

Lemma mapM_res_cons {A B} (f : A → res B) a l r :
  mapM f (a :: l) = Ok r ↔ ∃ b bs, f a = Ok b ∧ mapM f l = Ok bs ∧ r = b :: bs.
Proof.
  simpl. split.
  - intros H. inv_ok. eauto.
  - intros (b & bs & -> & Hl & ->). simpl. by rewrite Hl.
Qed.

Lemma mapM_res_length {A B} (f : A → res B) l r : mapM f l = Ok r → length r = length l.
Proof.
  revert r. induction l as [|a l IH]; intros r.
  - by intros [= <-].
  - intros (b & bs & _ & Hl & ->)%mapM_res_cons. simpl. by rewrite (IH _ Hl).
Qed.

Lemma mapM_res_inj {A B} (f : A → res B) l1 l2 e :
  (∀ a b c, f a = Ok c → f b = Ok c → a = b) → mapM f l1 = Ok e → mapM f l2 = Ok e → l1 = l2.
Proof.
  intros Hinj. revert l1 l2. induction e as [|c e IH]; intros l1 l2 H1 H2;
    destruct l1, l2; repeat match goal with
    | H : mapM f (_ :: _) = Ok _ |- _ => apply mapM_res_cons in H as (? & ? & ? & ? & ?)
    end; simplify_eq/=; try done.
  f_equal; [by eapply Hinj|by apply IH].
Qed.

Lemma mapM_res_perm {A B} (f : A → res B) l1 e1 e2 :
  mapM f l1 = Ok e1 → e1 ≡ₚ e2 → ∃ l2, l1 ≡ₚ l2 ∧ mapM f l2 = Ok e2.
Proof.
  intros H Hp. revert l1 H. induction Hp as [|c e1 e2 Hp IH|c d e|e1 e2 e3 Hp1 IH1 Hp2 IH2]; intros l1 H.
  - eauto.
  - destruct l1 as [|a l1]; [done|]. apply mapM_res_cons in H as (? & ? & Ha & H & [= <- <-]).
    destruct (IH _ H) as (l2 & Hl & Hl2). exists (a :: l2). split; [by rewrite Hl|].
    apply mapM_res_cons. eauto.
  - destruct l1 as [|a [|b l]]; [done|..].
    { apply mapM_res_cons in H as (? & ? & _ & ? & ?). simplify_eq/=. }
    apply mapM_res_cons in H as (? & ? & Ha & H & [= <- <-]).
    apply mapM_res_cons in H as (? & ? & Hb & H & [= <- <-]).
    exists (b :: a :: l). split; [constructor|].
    apply mapM_res_cons. do 2 eexists. split_and!; [done| |done]. apply mapM_res_cons. eauto.
  - destruct (IH1 _ H) as (l2 & Hl2 & H2). destruct (IH2 _ H2) as (l3 & Hl3 & H3).
    exists l3. by rewrite Hl2.
Qed.

Lemma mapM_Raise_in {A B} (f : A → res B) l e :
  mapM f l = Raise e → ∃ a, a ∈ l ∧ f a = Raise e.
Proof.
  induction l as [|a l IH]; [done|]. simpl.
  intros [H|(b & _ & [H|(bs & _ & H)]%bind_Raise)]%bind_Raise; [|apply IH in H as (c & ? & ?)|done].
  - exists a. split; [left|done].
  - exists c. split; [by right|done].
Qed.

Lemma mapM_res_perm_fwd {A B} (f : A → res B) l1 l2 e1 :
  l1 ≡ₚ l2 → mapM f l1 = Ok e1 → ∃ e2, mapM f l2 = Ok e2 ∧ e1 ≡ₚ e2.
Proof.
  intros Hp. revert e1. induction Hp as [|a l1 l2 _ IH|a b l|l1 l2 l3 _ IH1 _ IH2]; intros e1 H.
  - eauto.
  - apply mapM_res_cons in H as (x & e & Ha & He & ->). destruct (IH _ He) as (e2 & He2 & Hp).
    exists (x :: e2). split; [apply mapM_res_cons; eauto|by constructor].
  - apply mapM_res_cons in H as (x & e & Ha & (y & e' & Hb & He & ->)%mapM_res_cons & ->).
    exists (y :: x :: e'). split; [|constructor]. apply mapM_res_cons. do 2 eexists.
    split_and!; [done| |done]. apply mapM_res_cons. eauto.
  - destruct (IH1 _ H) as (e2 & H2 & Hp2). destruct (IH2 _ H2) as (e3 & H3 & Hp3).
    exists e3. by rewrite Hp2.
Qed.

(** Mapping over a permuted list: both runs return permuted results, or both raise the one exception
    the function can raise. *)
Lemma mapM_res_perm_cases {A B} (f : A → res B) l1 l2 E :
  l1 ≡ₚ l2 → (∀ a e, f a = Raise e → e = E) →
  (∃ e1 e2, mapM f l1 = Ok e1 ∧ mapM f l2 = Ok e2 ∧ e1 ≡ₚ e2) ∨
  mapM f l1 = Raise E ∧ mapM f l2 = Raise E.
Proof.
  intros Hp HE. destruct (mapM f l1) as [e1|x] eqn:H1.
  - left. destruct (mapM_res_perm_fwd f l1 l2 e1 Hp H1) as (e2 & -> & ?). eauto.
  - right. destruct (mapM_Raise_in f l1 x H1) as (a & _ & ->%HE). split; [done|].
    destruct (mapM f l2) as [e2|y] eqn:H2.
    + destruct (mapM_res_perm_fwd f l2 l1 e2 (symmetry Hp) H2) as (e1 & ? & _). congruence.
    + by destruct (mapM_Raise_in f l2 y H2) as (b & _ & ->%HE).
Qed.

(** [d.get(k)] on a [dict] with literal keys. *)
Fixpoint assoc {V} (k : string) (d : list (string * V)) : option V :=
  match d with
  | [] => None
  | (k', v) :: d => if String.eqb k k' then Some v else assoc k d
  end.

(** Facts that close side conditions on their own: lengths as rewrites, membership facts as hints. *)
Create HintDb seam discriminated.
Create Rewrite HintDb seam_length.

(** Linear arithmetic with division and remainder by constants. *)
Ltac dlia := Z.div_mod_to_equations; lia.

(** ** Fixed-width integers *)

Fixpoint le_bytes (n : nat) (z : Z) : bytes :=
  match n with O => [] | S n => z mod 256 :: le_bytes n (z / 256) end.
Definition be_bytes (n : nat) (z : Z) : bytes := rev (le_bytes n z).

Lemma le_bytes_length n z : length (le_bytes n z) = n.
Proof. revert z. induction n; intros z; simpl; [done|by rewrite IHn]. Qed.

Lemma be_bytes_length n z : length (be_bytes n z) = n.
Proof. unfold be_bytes. by rewrite length_rev, le_bytes_length. Qed.

Lemma le_bytes_inj (n : nat) x y :
  0 ≤ x < 256 ^ Z.of_nat n → 0 ≤ y < 256 ^ Z.of_nat n → le_bytes n x = le_bytes n y → x = y.
Proof.
  revert x y. induction n as [|n IH]; intros x y Hx Hy; simpl.
  { rewrite Z.pow_0_r in *. lia. }
  rewrite Nat2Z.inj_succ, Z.pow_succ_r in Hx, Hy by lia.
  intros [= Hm Hd]. apply IH in Hd.
  { rewrite (Z.div_mod x 256), (Z.div_mod y 256) by lia. by rewrite Hm, Hd. }
  all: split; [apply Z.div_pos; lia|apply Z.div_lt_upper_bound; lia].
Qed.

Lemma be_bytes_inj (n : nat) x y :
  0 ≤ x < 256 ^ Z.of_nat n → 0 ≤ y < 256 ^ Z.of_nat n → be_bytes n x = be_bytes n y → x = y.
Proof.
  intros Hx Hy H. apply (le_bytes_inj n); [done..|].
  unfold be_bytes in H. apply (f_equal (@rev Z)) in H. by rewrite !rev_involutive in H.
Qed.

#[export] Hint Rewrite le_bytes_length be_bytes_length : seam_length.

Definition is_byte (b : Z) : Prop := 0 ≤ b < 256.

Lemma le_bytes_are_bytes n z : Forall is_byte (le_bytes n z).
Proof.
  revert z. induction n; intros z; simpl; constructor; [|done].
  apply Z.mod_pos_bound. lia.
Qed.

Lemma be_bytes_are_bytes n z : Forall is_byte (be_bytes n z).
Proof. apply Forall_rev, le_bytes_are_bytes. Qed.

#[export] Hint Resolve le_bytes_are_bytes be_bytes_are_bytes : seam.

(** [len] as the code uses it. *)
Abbreviation zlen l := (Z.of_nat (length l)).

(** [struct.pack("<I", z)], [struct.pack("<Q", z)]: [struct.error] out of range. *)
Definition pack_u32le (z : Z) : res bytes :=
  if (0 <=? z) && (z <? 2 ^ 32) then Ok (le_bytes 4 z) else Raise StructError.
Definition pack_u64le (z : Z) : res bytes :=
  if (0 <=? z) && (z <? 2 ^ 64) then Ok (le_bytes 8 z) else Raise StructError.
(** [z.to_bytes(8, "big")]: [OverflowError] out of range. *)
Definition to_bytes_be64 (z : Z) : res bytes :=
  if (0 <=? z) && (z <? 2 ^ 64) then Ok (be_bytes 8 z) else Raise OverflowError.

(** [b.join(l)] *)
Abbreviation bjoin := (@concat Z).

(** ** Prefix-free encodings

    The digests and signed payloads are concatenations of self-delimiting pieces. [PrefixFree enc]
    says that one piece can be peeled off the front of a byte string in at most one way; the framing
    lemmas give the instances, and [peel] walks two equal concatenations piece by piece. *)
Class PrefixFree {A} (enc : A → res bytes) : Prop :=
  prefix_free a b ea eb x y :
    enc a = Ok ea → enc b = Ok eb → ea ++ x = eb ++ y → a = b ∧ x = y.

Lemma prefix_free_inj {A} (enc : A → res bytes) `{!PrefixFree enc} a b e :
  enc a = Ok e → enc b = Ok e → a = b.
Proof. intros Ha Hb. by destruct (prefix_free a b e e [] [] Ha Hb eq_refl). Qed.

Lemma prefix_free_mapM {A} (enc : A → res bytes) `{!PrefixFree enc} l1 l2 e1 e2 x y :
  length l1 = length l2 → mapM enc l1 = Ok e1 → mapM enc l2 = Ok e2 →
  bjoin e1 ++ x = bjoin e2 ++ y → l1 = l2 ∧ x = y.
Proof.
  revert l2 e1 e2. induction l1 as [|a l1 IH]; intros [|b l2] e1 e2 Hlen; try done.
  { by intros [= <-] [= <-]. }
  intros (c1 & r1 & Ha & Hl1 & ->)%mapM_res_cons (c2 & r2 & Hb & Hl2 & ->)%mapM_res_cons Heq.
  simpl in Heq. rewrite <-!(assoc_L (++)) in Heq.
  apply (prefix_free a b) in Heq as [-> Heq]; [|done..].
  destruct (IH l2 r1 r2) as [-> ->]; naive_solver.
Qed.

Lemma prefix_free_mapM_end {A} (enc : A → res bytes) `{!PrefixFree enc} l1 l2 e1 e2 :
  mapM enc l1 = Ok e1 → mapM enc l2 = Ok e2 → bjoin e1 = bjoin e2 → length l1 = length l2 → l1 = l2.
Proof.
  intros H1 H2 Heq Hlen. apply (prefix_free_mapM enc l1 l2 e1 e2 [] []); [done..|].
  by rewrite !app_nil_r.
Qed.

(** Fixed-length pieces need no delimiter. *)
Lemma app_inj_len {A} (l1 l2 x y : list A) :
  length l1 = length l2 → l1 ++ x = l2 ++ y → l1 = l2 ∧ x = y.
Proof. intros. by apply app_inj_1. Qed.

Lemma pack_u32le_Ok z b : pack_u32le z = Ok b ↔ 0 ≤ z < 2 ^ 32 ∧ b = le_bytes 4 z.
Proof.
  unfold pack_u32le. destruct ((0 <=? z) && (z <? 2 ^ 32)) eqn:E.
  - apply andb_true_iff in E as [?%Z.leb_le ?%Z.ltb_lt]. split; [by intros [= <-]|by intros [_ ->]].
  - apply andb_false_iff in E as [?%Z.leb_gt|?%Z.ltb_ge]; split; (done || lia).
Qed.

Lemma pack_u64le_Ok z b : pack_u64le z = Ok b ↔ 0 ≤ z < 2 ^ 64 ∧ b = le_bytes 8 z.
Proof.
  unfold pack_u64le. destruct ((0 <=? z) && (z <? 2 ^ 64)) eqn:E.
  - apply andb_true_iff in E as [?%Z.leb_le ?%Z.ltb_lt]. split; [by intros [= <-]|by intros [_ ->]].
  - apply andb_false_iff in E as [?%Z.leb_gt|?%Z.ltb_ge]; split; (done || lia).
Qed.

Lemma to_bytes_be64_Ok z b : to_bytes_be64 z = Ok b ↔ 0 ≤ z < 2 ^ 64 ∧ b = be_bytes 8 z.
Proof.
  unfold to_bytes_be64. destruct ((0 <=? z) && (z <? 2 ^ 64)) eqn:E.
  - apply andb_true_iff in E as [?%Z.leb_le ?%Z.ltb_lt]. split; [by intros [= <-]|by intros [_ ->]].
  - apply andb_false_iff in E as [?%Z.leb_gt|?%Z.ltb_ge]; split; (done || lia).
Qed.

Global Instance pack_u32le_prefix_free : PrefixFree pack_u32le.
Proof.
  intros a b ea eb x y [Ha ->]%pack_u32le_Ok [Hb ->]%pack_u32le_Ok Heq.
  apply app_inj_len in Heq as [Heq ->]; [|by autorewrite with seam_length].
  by apply (le_bytes_inj 4) in Heq as ->.
Qed.

Global Instance pack_u64le_prefix_free : PrefixFree pack_u64le.
Proof.
  intros a b ea eb x y [Ha ->]%pack_u64le_Ok [Hb ->]%pack_u64le_Ok Heq.
  apply app_inj_len in Heq as [Heq ->]; [|by autorewrite with seam_length].
  by apply (le_bytes_inj 8) in Heq as ->.
Qed.

Global Instance to_bytes_be64_prefix_free : PrefixFree to_bytes_be64.
Proof.
  intros a b ea eb x y [Ha ->]%to_bytes_be64_Ok [Hb ->]%to_bytes_be64_Ok Heq.
  apply app_inj_len in Heq as [Heq ->]; [|by autorewrite with seam_length].
  by apply (be_bytes_inj 8) in Heq as ->.
Qed.

(** Peel the leading piece off both sides of an equation between concatenations, using the hypotheses
    that say how the two pieces were encoded. *)
Ltac peel :=
  match goal with
  | H : ?ea ++ _ = ?eb ++ _, Ha : ?enc ?a = Ok ?ea, Hb : ?enc ?b = Ok ?eb |- _ =>
      let E := fresh "E" in
      apply (prefix_free a b ea eb _ _ Ha Hb) in H as [E H]
  end.

(** The same for a list of pieces whose count is already known to agree: in the middle of the
    concatenation ([peel_list]) or at its end ([peel_end]). *)
Ltac peel_list :=
  match goal with
  | H : bjoin ?ea ++ _ = bjoin ?eb ++ _, Ha : mapM ?enc ?a = Ok ?ea, Hb : mapM ?enc ?b = Ok ?eb |- _ =>
      let E := fresh "E" in
      apply (prefix_free_mapM enc a b ea eb _ _ ltac:(lia) Ha Hb) in H as [E H]
  end.
Ltac peel_end :=
  match goal with
  | H : bjoin ?ea = bjoin ?eb, Ha : mapM ?enc ?a = Ok ?ea, Hb : mapM ?enc ?b = Ok ?eb |- _ =>
      apply (λ H, prefix_free_mapM_end enc a b ea eb Ha Hb H ltac:(lia)) in H
  end.
