(* ===== verification/Order.v ===== *)
(** * Order: [sorted] over byte strings and over pairs of byte strings

    Python compares [bytes] lexicographically and tuples by their first difference. Both orders are
    total, transitive and antisymmetric, so [sorted] has one possible result and depends only on the
    multiset of its input. *)

From stdpp Require Import base list numbers option sorting.
From S2P Require Import Prelude.

Fixpoint lex_leb (a b : list Z) : bool :=
  match a, b with
  | [], _ => true
  | _ :: _, [] => false
  | x :: a, y :: b => if x =? y then lex_leb a b else x <? y
  end.
Definition lex_le (a b : list Z) : Prop := lex_leb a b = true.

Definition pair_leb (p q : list Z * list Z) : bool :=
  if decide (p.1 = q.1) then lex_leb p.2 q.2 else lex_leb p.1 q.1.
Definition pair_le (p q : list Z * list Z) : Prop := pair_leb p q = true.

Global Instance lex_le_dec : RelDecision lex_le.
Proof. intros a b. unfold lex_le. apply _. Defined.
Global Instance pair_le_dec : RelDecision pair_le.
Proof. intros a b. unfold pair_le. apply _. Defined.

Lemma lex_leb_cons x a y b : lex_leb (x :: a) (y :: b) = true ↔ x < y ∨ x = y ∧ lex_leb a b = true.
Proof. simpl. destruct (Z.eqb_spec x y); [naive_solver lia|]. rewrite Z.ltb_lt. lia. Qed.

Global Instance lex_le_trans : Transitive lex_le.
Proof.
  unfold lex_le. intros a b c. revert b c. induction a as [|x a IH]; intros [|y b] [|z c]; try done.
  rewrite !lex_leb_cons. intros [|[-> ?]] [|[-> ?]]; [lia..|]. right. naive_solver.
Qed.

Global Instance lex_le_antisymm : AntiSymm (=) lex_le.
Proof.
  unfold lex_le. intros a. induction a as [|x a IH]; intros [|y b]; try done.
  rewrite !lex_leb_cons. intros [|[-> ?]] [|[? ?]]; [lia..|]. f_equal. by apply IH.
Qed.

Global Instance lex_le_total : Total lex_le.
Proof.
  unfold lex_le. intros a. induction a as [|x a IH]; intros [|y b]; [by left..|by right|].
  rewrite !lex_leb_cons. destruct (IH b); destruct (Z.lt_trichotomy x y) as [|[->|]]; auto.
Qed.

Lemma lex_le_refl a : lex_le a a.
Proof. by destruct (total lex_le a a). Qed.

Lemma pair_le_spec p q : pair_le p q ↔ p.1 ≠ q.1 ∧ lex_le p.1 q.1 ∨ p.1 = q.1 ∧ lex_le p.2 q.2.
Proof. unfold pair_le, pair_leb, lex_le. case_decide; naive_solver. Qed.

Global Instance pair_le_trans : Transitive pair_le.
Proof.
  intros p q r. rewrite !pair_le_spec. intros [[Hpq Hle]|[Heq Hle]] [[Hqr Hle']|[Heq' Hle']].
  - left. split; [|by etrans]. intros E. rewrite <-E in Hle'. by apply Hpq, (anti_symm lex_le).
  - left. by rewrite <-Heq'.
  - left. by rewrite Heq.
  - right. split; by etrans.
Qed.

Global Instance pair_le_antisymm : AntiSymm (=) pair_le.
Proof.
  intros [a b] [c d]. rewrite !pair_le_spec. simpl.
  intros [[Hne ?]|[-> ?]] [[Hne' ?]|[? ?]]; try congruence.
  - by destruct Hne; apply (anti_symm lex_le).
  - f_equal. by apply (anti_symm lex_le).
Qed.

Global Instance pair_le_total : Total pair_le.
Proof.
  intros [a b] [c d]. rewrite !pair_le_spec. simpl. destruct (decide (a = c)) as [->|].
  - destruct (total lex_le b d); auto.
  - destruct (total lex_le a c); auto.
Qed.

(** [sorted] under an order with the three properties. *)
Section sorted.
Context {A} (R : relation A) `{!RelDecision R, !Transitive R, !AntiSymm (=) R, !Total R}.

Lemma merge_sort_perm_eq l1 l2 : l1 ≡ₚ l2 → merge_sort R l1 = merge_sort R l2.
Proof.
  intros Hp. apply (Sorted_unique R); [apply (Sorted_merge_sort R)..|].
  by rewrite !merge_sort_Permutation.
Qed.

Lemma merge_sort_eq_perm l1 l2 : merge_sort R l1 = merge_sort R l2 → l1 ≡ₚ l2.
Proof. intros H. by rewrite <-(merge_sort_Permutation R l1), H, merge_sort_Permutation. Qed.

Lemma merge_sort_length l : length (merge_sort R l) = length l.
Proof. apply Permutation_length, merge_sort_Permutation. Qed.
End sorted.
