(* ===== verification/Text.v ===== *)
(** * Text: the [str]/[bytes] conversions of the standard library

    [str.encode("utf-8")] and the strict [bytes.decode("utf-8")], [str.encode("utf-16-be")], decimal
    [str(int)], [bytes.hex] and [bytes.fromhex], as the modelled code uses them, with the round trips
    the digest theorems rest on. *)

From stdpp Require Import base list numbers option strings.
From S2P Require Import Prelude.

(** ** UTF-8 *)

(** A code point outside [0, 0x110000) does not occur in a [str]; it is refused like a surrogate. *)
Definition utf8_char (c : Z) : res bytes :=
  if c <? 0 then Raise UnicodeEncodeError
  else if c <? 0x80 then Ok [c]
  else if c <? 0x800 then Ok [0xC0 + c / 64; 0x80 + c mod 64]
  else if (0xD800 <=? c) && (c <? 0xE000) then Raise UnicodeEncodeError
  else if c <? 0x10000 then Ok [0xE0 + c / 4096; 0x80 + c / 64 mod 64; 0x80 + c mod 64]
  else if c <? 0x110000 then
    Ok [0xF0 + c / 262144; 0x80 + c / 4096 mod 64; 0x80 + c / 64 mod 64; 0x80 + c mod 64]
  else Raise UnicodeEncodeError.

Definition utf8_encode (s : pystr) : res bytes := bjoin <$> mapM utf8_char s.

Definition is_cont (b : Z) : bool := (0x80 <=? b) && (b <? 0xC0).

Fixpoint utf8_decode (b : bytes) : res pystr :=
  match b with
  | [] => Ok []
  | b0 :: r0 =>
    if (0 <=? b0) && (b0 <? 0x80) then cons b0 <$> utf8_decode r0
    else if (0xC2 <=? b0) && (b0 <? 0xE0) then
      match r0 with
      | b1 :: r1 =>
        if is_cont b1 then cons ((b0 - 0xC0) * 64 + (b1 - 0x80)) <$> utf8_decode r1
        else Raise UnicodeDecodeError
      | _ => Raise UnicodeDecodeError
      end
    else if (0xE0 <=? b0) && (b0 <? 0xF0) then
      match r0 with
      | b1 :: b2 :: r2 =>
        let c := (b0 - 0xE0) * 4096 + (b1 - 0x80) * 64 + (b2 - 0x80) in
        if is_cont b1 && is_cont b2 && (0x800 <=? c) && negb ((0xD800 <=? c) && (c <? 0xE000))
        then cons c <$> utf8_decode r2 else Raise UnicodeDecodeError
      | _ => Raise UnicodeDecodeError
      end
    else if (0xF0 <=? b0) && (b0 <? 0xF8) then
      match r0 with
      | b1 :: b2 :: b3 :: r3 =>
        let c := (b0 - 0xF0) * 262144 + (b1 - 0x80) * 4096 + (b2 - 0x80) * 64 + (b3 - 0x80) in
        if is_cont b1 && is_cont b2 && is_cont b3 && (0x10000 <=? c) && (c <? 0x110000)
        then cons c <$> utf8_decode r3 else Raise UnicodeDecodeError
      | _ => Raise UnicodeDecodeError
      end
    else Raise UnicodeDecodeError
  end.

(** Case analysis on the first integer comparison of the goal, or of the hypotheses. *)
Ltac cmp_step :=
  match goal with
  | |- context [?a <? ?b] => destruct (Z.ltb_spec a b); try lia
  | |- context [?a <=? ?b] => destruct (Z.leb_spec a b); try lia
  | |- context [?a =? ?b] => destruct (Z.eqb_spec a b); try lia
  | H : context [?a <? ?b] |- _ => destruct (Z.ltb_spec a b); try lia
  | H : context [?a <=? ?b] |- _ => destruct (Z.leb_spec a b); try lia
  | H : context [?a =? ?b] |- _ => destruct (Z.eqb_spec a b); try lia
  end.
Ltac cmp := repeat (cmp_step; simpl in *; try discriminate).

(** Name the quotient and remainder of a division by 64, so that what is left is linear. *)
Ltac split64 c q r :=
  let Hq := fresh in let Hr := fresh in
  pose proof (Z.div_mod c 64 ltac:(lia)) as Hq; pose proof (Z.mod_pos_bound c 64 ltac:(lia)) as Hr;
  generalize dependent (c / 64); intros q; generalize dependent (c mod 64); intros r; intros.

Lemma utf8_decode_char c e rest :
  utf8_char c = Ok e → utf8_decode (e ++ rest) = cons c <$> utf8_decode rest.
Proof.
  unfold utf8_char. replace (c / 262144) with (c / 64 / 64 / 64) by (rewrite !Z.div_div by lia; done).
  replace (c / 4096) with (c / 64 / 64) by (rewrite !Z.div_div by lia; done).
  split64 c q r. split64 q q1 r1. split64 q1 q2 r2.
  cmp_step; [done|]. cmp_step; [|cmp_step; [|repeat cmp_step; simpl in *]]; simplify_eq/=; unfold is_cont.
  all: repeat cmp_step; simpl; first [done|do 2 f_equal; lia].
Qed.

Lemma utf8_decode_encode s b : utf8_encode s = Ok b → utf8_decode b = Ok s.
Proof.
  unfold utf8_encode. intros H. inv_ok. revert x H. induction s as [|c s IH]; intros x H.
  { by injection H as <-. }
  apply mapM_res_cons in H as (e & es & He & Hs & ->). simpl.
  by rewrite (utf8_decode_char c), (IH es).
Qed.

Lemma utf8_encode_inj s t b : utf8_encode s = Ok b → utf8_encode t = Ok b → s = t.
Proof. intros ?%utf8_decode_encode ?%utf8_decode_encode. congruence. Qed.

Lemma utf8_encode_Raise s e : utf8_encode s = Raise e → e = UnicodeEncodeError.
Proof.
  unfold utf8_encode. intros (c & _ & Hc)%fmap_Raise%mapM_Raise_in. revert Hc.
  unfold utf8_char. repeat case_match; congruence.
Qed.

Lemma utf8_encode_app s t bs bt :
  utf8_encode s = Ok bs → utf8_encode t = Ok bt → utf8_encode (s ++ t) = Ok (bs ++ bt).
Proof.
  unfold utf8_encode. intros (es & Hs & ->)%fmap_Ok (et & Ht & ->)%fmap_Ok.
  revert es Hs. induction s as [|c s IH]; intros es Hs.
  { injection Hs as <-. simpl. by rewrite Ht. }
  apply mapM_res_cons in Hs as (e & es' & He & Hs & ->). specialize (IH es' Hs).
  apply fmap_Ok in IH as (est & E & IH). simpl. rewrite He. simpl. rewrite E. simpl.
  by rewrite <-IH, <-(assoc_L (++)).
Qed.

(** ASCII text is its own encoding. *)
Definition is_ascii (s : pystr) : bool := forallb (λ c, (0 <=? c) && (c <? 0x80)) s.

Lemma utf8_encode_ascii s : is_ascii s = true → utf8_encode s = Ok s.
Proof.
  induction s as [|c s IH]; [done|]. simpl. intros [Hc Hs]%andb_true_iff.
  specialize (IH Hs). unfold utf8_encode in *. simpl.
  assert (utf8_char c = Ok [c]) as -> by (unfold utf8_char; cmp; done).
  apply fmap_Ok in IH as (es & E & ->). simpl. by rewrite E.
Qed.

(** [str.encode("ascii")] *)
Definition ascii_encode (s : pystr) : res bytes :=
  if is_ascii s then Ok s else Raise UnicodeEncodeError.

(** ** UTF-16, big endian: the JCS sort key *)

Definition utf16be_char (c : Z) : res bytes :=
  if (c <? 0) || ((0xD800 <=? c) && (c <? 0xE000)) then Raise UnicodeEncodeError
  else if c <? 0x10000 then Ok (be_bytes 2 c)
  else if c <? 0x110000 then
    Ok (be_bytes 2 (0xD800 + (c - 0x10000) / 1024) ++ be_bytes 2 (0xDC00 + (c - 0x10000) mod 1024))
  else Raise UnicodeEncodeError.

Definition utf16be_encode (s : pystr) : res bytes := bjoin <$> mapM utf16be_char s.

(** ** Decimal integers *)

Fixpoint dec_digits (fuel : nat) (n : Z) (acc : pystr) : pystr :=
  match fuel with
  | O => acc
  | S fuel =>
    if n <? 10 then (48 + n) :: acc else dec_digits fuel (n / 10) ((48 + n mod 10) :: acc)
  end.

(** [str(n)], which is [int.__repr__(n)]; [Z.log2 n + 2] steps are always enough. *)
Definition str_of_nonneg (n : Z) : pystr := dec_digits (S (S (Z.to_nat (Z.log2 n)))) n [].
Definition str_of_int (n : Z) : pystr :=
  if n <? 0 then 45 :: str_of_nonneg (- n) else str_of_nonneg n.

Definition is_digit (c : Z) : bool := (48 <=? c) && (c <=? 57).
Definition dec_value (s : pystr) : Z := fold_left (λ acc c, acc * 10 + (c - 48)) s 0.

(** [int(s)] on the texts [str] produces. *)
Definition int_of_str (s : pystr) : option Z :=
  match s with
  | [] => None
  | c :: ds =>
    if c =? 45 then if forallb is_digit ds then Some (- dec_value ds) else None
    else if forallb is_digit s then Some (dec_value s) else None
  end.

(** A JSON text, written with single quotes for its double ones. *)
Definition quoted (s : string) : pystr := (λ c, if c =? 39 then 34 else c) <$> lit s.

(** [int(text)] refuses more than 4300 digits. *)
Definition MAX_STR_DIGITS : Z := 4300.

(** Reading in text mode: a carriage return, alone or before a line feed, is a line feed. *)
Fixpoint universal_newlines (s : pystr) : pystr :=
  match s with
  | [] => []
  | 13 :: r => 10 :: match r with 10 :: r' => universal_newlines r' | _ => universal_newlines r end
  | c :: r => c :: universal_newlines r
  end.

Lemma newlines_cons c s : c ≠ 13 → universal_newlines (c :: s) = c :: universal_newlines s.
Proof. intros Hc. cbn [universal_newlines]. repeat case_match; done. Qed.
(** Text without carriage returns is what text mode reads. *)
Lemma universal_newlines_id s : 13 ∉ s → universal_newlines s = s.
Proof.
  induction s as [|c s IH]; [done|]. intros [Hc Hs]%not_elem_of_cons. rewrite newlines_cons by congruence. by rewrite IH.
Qed.

Lemma dec_value_app s t : dec_value (s ++ t) = dec_value s * 10 ^ zlen t + dec_value t.
Proof.
  unfold dec_value. rewrite fold_left_app. generalize (fold_left (λ acc c, acc * 10 + (c - 48)) s 0).
  induction t as [|c t IH]; intros a; cbn [fold_left length].
  { change (zlen []) with 0. lia. }
  rewrite IH, (IH (0 * 10 + _)). rewrite Nat2Z.inj_succ, Z.pow_succ_r by lia. lia.
Qed.

Lemma dec_digits_spec fuel n acc :
  0 ≤ n < 2 ^ Z.of_nat fuel →
  ∃ ds, dec_digits (S fuel) n acc = ds ++ acc ∧ forallb is_digit ds = true ∧ dec_value ds = n
        ∧ ds ≠ [].
Proof.
  revert n acc. induction fuel as [|fuel IH]; intros n acc Hn.
  { exists [48 + n]. change (2 ^ Z.of_nat 0) with 1 in Hn. assert (n = 0) as -> by lia. done. }
  cbn [dec_digits]. destruct (Z.ltb_spec n 10).
  { exists [48 + n]. repeat split; [|unfold dec_value; simpl; lia|done].
    simpl. unfold is_digit. cmp; done. }
  rewrite Nat2Z.inj_succ, Z.pow_succ_r in Hn by lia.
  pose proof (Z.mod_pos_bound n 10 ltac:(lia)) as Hm. pose proof (Z.div_mod n 10 ltac:(lia)) as Hd.
  destruct (IH (n / 10) ((48 + n mod 10) :: acc)) as (ds & Heq & Hds & Hval & Hne).
  { split; [apply Z.div_pos; lia|apply Z.div_lt_upper_bound; lia]. }
  exists (ds ++ [48 + n mod 10]). cbn [dec_digits] in Heq.
  rewrite Heq, <-(assoc_L (++)). repeat split; [|..|by destruct ds].
  - rewrite forallb_app, Hds. simpl. unfold is_digit. cmp; done.
  - rewrite dec_value_app, Hval. change (zlen [_]) with 1. unfold dec_value; simpl fold_left. lia.
Qed.

Lemma str_of_nonneg_spec n :
  0 ≤ n → forallb is_digit (str_of_nonneg n) = true ∧ dec_value (str_of_nonneg n) = n
          ∧ str_of_nonneg n ≠ [].
Proof.
  intros Hn. destruct (dec_digits_spec (S (Z.to_nat (Z.log2 n))) n []) as (ds & Heq & Hds & Hval & Hne).
  { split; [done|]. rewrite Nat2Z.inj_succ, Z2Nat.id by apply Z.log2_nonneg.
    destruct (decide (n = 0)) as [->|]; [done|]. apply Z.log2_spec; lia. }
  unfold str_of_nonneg. by rewrite Heq, app_nil_r.
Qed.

Lemma is_digit_spec c : is_digit c = true ↔ 48 ≤ c ≤ 57.
Proof. unfold is_digit. by rewrite andb_true_iff, !Z.leb_le. Qed.

Lemma dec_digits_head fuel n acc :
  0 < n → n < 2 ^ Z.of_nat fuel → ∃ c ds, dec_digits (S fuel) n acc = c :: ds ∧ c ≠ 48.
Proof.
  revert n acc. induction fuel as [|fuel IH]; intros n acc Hn Hf; [change (2 ^ Z.of_nat 0) with 1 in Hf; lia|].
  cbn [dec_digits]. destruct (Z.ltb_spec n 10); [do 2 eexists; split; [done|lia]|].
  rewrite Nat2Z.inj_succ, Z.pow_succ_r in Hf by lia. apply IH; [|apply Z.div_lt_upper_bound; lia].
  apply Z.div_str_pos. lia.
Qed.

Lemma str_of_nonneg_head n r : 0 ≤ n → str_of_nonneg n = 48 :: r → r = [].
Proof.
  intros Hn. destruct (decide (n = 0)) as [->|]; [by intros [= <-]|].
  unfold str_of_nonneg. destruct (dec_digits_head (S (Z.to_nat (Z.log2 n))) n []) as (c & ds & -> & Hc); [lia| |].
  - rewrite Nat2Z.inj_succ, Z2Nat.id by apply Z.log2_nonneg. apply Z.log2_spec. lia.
  - congruence.
Qed.

Lemma dec_value_cons c t : dec_value (c :: t) = (c - 48) * 10 ^ zlen t + dec_value t.
Proof. exact (dec_value_app [c] t). Qed.
Lemma dec_value_bound ds : forallb is_digit ds = true → 0 ≤ dec_value ds < 10 ^ zlen ds.
Proof.
  induction ds as [|c ds IH]; [done|]. cbn [forallb]. intros [Hc%is_digit_spec Hd]%andb_true_iff. specialize (IH Hd).
  rewrite dec_value_cons. cbn [length]. rewrite Nat2Z.inj_succ, Z.pow_succ_r by lia. nia.
Qed.
(** Digits that do not start with a zero are as many as the number has. *)
Lemma dec_value_low c ds : forallb is_digit (c :: ds) = true → c ≠ 48 → 10 ^ zlen ds ≤ dec_value (c :: ds).
Proof.
  cbn [forallb]. intros [Hc%is_digit_spec Hd]%andb_true_iff Hn. pose proof (dec_value_bound ds Hd).
  rewrite dec_value_cons. nia.
Qed.
Lemma str_of_nonneg_length n : 0 < n → 10 ^ (zlen (str_of_nonneg n) - 1) ≤ n < 10 ^ zlen (str_of_nonneg n).
Proof.
  intros Hn. destruct (str_of_nonneg_spec n) as (Hd & Hv & Hne); [lia|]. pose proof (str_of_nonneg_head n) as Hh.
  destruct (str_of_nonneg n) as [|c ds]; [done|]. rewrite <- Hv. split; [|by apply dec_value_bound].
  cbn [length]. rewrite Nat2Z.inj_succ, Z.sub_1_r, Z.pred_succ. apply dec_value_low; [done|]. intros ->.
  rewrite (Hh ds) in Hv by (done || lia). unfold dec_value in Hv. cbn in Hv. lia.
Qed.
Lemma dec_value_inj ds ds' : forallb is_digit ds = true → forallb is_digit ds' = true → length ds = length ds' →
  dec_value ds = dec_value ds' → ds = ds'.
Proof.
  revert ds'. induction ds as [|c ds IH]; intros [|c' ds']; try done. cbn [forallb].
  intros [Hc%is_digit_spec Hd]%andb_true_iff [Hc'%is_digit_spec Hd']%andb_true_iff [= Hl] Hv.
  pose proof (dec_value_bound ds Hd) as B. pose proof (dec_value_bound ds' Hd') as B'. rewrite !dec_value_cons in Hv.
  rewrite <- Hl in *. assert (c = c') as -> by nia. f_equal. apply IH; [done..|]. lia.
Qed.
(** [str] gives back the digits of a number written without a leading zero. *)
Lemma str_of_nonneg_value c ds : forallb is_digit (c :: ds) = true → c ≠ 48 → str_of_nonneg (dec_value (c :: ds)) = c :: ds.
Proof.
  intros Hd Hc. pose proof (dec_value_low c ds Hd Hc) as Hlo. pose proof (dec_value_bound _ Hd) as [_ Hhi].
  assert (0 < 10 ^ zlen ds) by (apply Z.pow_pos_nonneg; lia). set (n := dec_value (c :: ds)) in *.
  destruct (str_of_nonneg_spec n) as (Hd' & Hv & _); [lia|]. pose proof (str_of_nonneg_length n ltac:(lia)) as [Hl Hh].
  apply dec_value_inj; [done..| |done]. cbn [length] in *. rewrite Nat2Z.inj_succ in Hhi.
  assert (zlen (str_of_nonneg n) - 1 < zlen ds + 1) by (apply (Z.pow_lt_mono_r_iff 10); lia).
  assert (zlen ds < zlen (str_of_nonneg n)) by (apply (Z.pow_lt_mono_r_iff 10); lia). lia.
Qed.

(** [int(str(n)) == n] *)
Lemma int_of_str_of_int n : int_of_str (str_of_int n) = Some n.
Proof.
  unfold str_of_int. destruct (Z.ltb_spec n 0).
  - destruct (str_of_nonneg_spec (- n)) as (Hd & Hv & _); [lia|].
    simpl. rewrite Hd, Hv. f_equal. lia.
  - destruct (str_of_nonneg_spec n) as (Hd & Hv & Hne); [lia|].
    destruct (str_of_nonneg n) as [|c ds]; [done|].
    assert (c ≠ 45) by (simpl in Hd; apply andb_true_iff in Hd as [Hd _]; unfold is_digit in Hd; cmp).
    unfold int_of_str. rewrite Hd, Hv. by destruct (Z.eqb_spec c 45).
Qed.

Lemma str_of_int_inj m n : str_of_int m = str_of_int n → m = n.
Proof. intros H. apply (f_equal int_of_str) in H. rewrite !int_of_str_of_int in H. congruence. Qed.

Lemma str_of_nonneg_ascii n : 0 ≤ n → is_ascii (str_of_nonneg n) = true.
Proof.
  intros (Hd & _ & _)%str_of_nonneg_spec. unfold is_ascii. apply forallb_forall. intros c Hc.
  eapply forallb_forall in Hd; [|done]. unfold is_digit in Hd. cmp; done.
Qed.

(** ** Hexadecimal *)

Definition hex_char (d : Z) : Z := if d <? 10 then 48 + d else 87 + d.

(** [bytes.hex()], and [hexdigest()] of a digest. *)
Definition hex_of_bytes (b : bytes) : pystr := b ≫= λ x, [hex_char (x / 16); hex_char (x mod 16)].

Definition hex_digit (c : Z) : option Z :=
  if (48 <=? c) && (c <=? 57) then Some (c - 48)
  else if (97 <=? c) && (c <=? 102) then Some (c - 87)
  else if (65 <=? c) && (c <=? 70) then Some (c - 55)
  else None.

Definition is_space (c : Z) : bool := (c =? 32) || ((9 <=? c) && (c <=? 13)).

(** [bytes.fromhex(s)]: pairs of hex digits, ASCII white space skipped between the pairs. *)
Fixpoint bytes_fromhex (s : pystr) : res bytes :=
  match s with
  | [] => Ok []
  | c :: r =>
    if is_space c then bytes_fromhex r
    else match r with
    | d :: r' =>
      match hex_digit c, hex_digit d with
      | Some h, Some l => cons (h * 16 + l) <$> bytes_fromhex r'
      | _, _ => Raise ValueError
      end
    | [] => Raise ValueError
    end
  end.

Lemma hex_digit_char d : 0 ≤ d < 16 → hex_digit (hex_char d) = Some d ∧ is_space (hex_char d) = false.
Proof. intros Hd. unfold hex_digit, hex_char, is_space. split; cmp; f_equal; lia. Qed.

Lemma bytes_fromhex_hex b : Forall is_byte b → bytes_fromhex (hex_of_bytes b) = Ok b.
Proof.
  induction 1 as [|x b Hx _ IH]; [done|]. unfold is_byte in Hx.
  destruct (hex_digit_char (x / 16)) as [Hh Hs].
  { split; [apply Z.div_pos; lia|apply Z.div_lt_upper_bound; lia]. }
  destruct (hex_digit_char (x mod 16)) as [Hl _]; [apply Z.mod_pos_bound; lia|].
  simpl. rewrite Hs, Hh, Hl. change (b ≫= _) with (hex_of_bytes b). rewrite IH. simpl. do 2 f_equal.
  rewrite (Z.div_mod x 16) at 3 by lia. lia.
Qed.

Lemma hex_of_bytes_inj a b :
  Forall is_byte a → Forall is_byte b → hex_of_bytes a = hex_of_bytes b → a = b.
Proof. intros Ha%bytes_fromhex_hex Hb%bytes_fromhex_hex H. rewrite H in Ha. congruence. Qed.
