(* ===== verification/Sha256.v ===== *)
(** * SHA-256: [hashlib.sha256]

    The hash function itself, so that every digest of the model is a concrete byte string and the
    repository's conformance vectors can be evaluated. FIPS 180-4, 32-bit words as integers modulo
    [2^32]. *)

From stdpp Require Import base list numbers option strings.
From S2P Require Import Prelude Text.

Definition w32 (z : Z) : Z := Z.land z 0xFFFFFFFF.
Definition rotr (n x : Z) : Z := Z.lor (Z.shiftr x n) (w32 (Z.shiftl x (32 - n))).
Definition not32 (x : Z) : Z := Z.lxor x 0xFFFFFFFF.

Definition Ch (x y z : Z) := Z.lxor (Z.land x y) (Z.land (not32 x) z).
Definition Maj (x y z : Z) := Z.lxor (Z.lxor (Z.land x y) (Z.land x z)) (Z.land y z).
Definition Sigma0 x := Z.lxor (Z.lxor (rotr 2 x) (rotr 13 x)) (rotr 22 x).
Definition Sigma1 x := Z.lxor (Z.lxor (rotr 6 x) (rotr 11 x)) (rotr 25 x).
Definition sigma0 x := Z.lxor (Z.lxor (rotr 7 x) (rotr 18 x)) (Z.shiftr x 3).
Definition sigma1 x := Z.lxor (Z.lxor (rotr 17 x) (rotr 19 x)) (Z.shiftr x 10).

(** The constants of FIPS 180-4: the first 32 bits of the fractional parts of the cube roots of the first
    64 primes, and of the square roots of the first 8. [root_from] finds the [k]-th root of [n], rounded
    down, bit by bit. *)
Fixpoint root_from (bits : nat) (k n r : Z) : Z :=
  match bits with
  | O => r
  | S bits =>
    let r' := r + 2 ^ Z.of_nat bits in
    root_from bits k n (if r' ^ k <=? n then r' else r)
  end.
Definition fractional_root (k p : Z) : Z := root_from 40 k (p * 2 ^ (32 * k)) 0 mod 2 ^ 32.
Definition is_prime (n : Z) : bool := forallb (λ d, negb (n mod d =? 0)) (seqZ 2 (n - 2)).
Definition first_primes : list Z := List.filter is_prime (seqZ 2 310).

Definition round_constants : list Z := Eval vm_compute in fractional_root 3 <$> first_primes.

Record hstate := HState { ha : Z; hb : Z; hc : Z; hd_ : Z; he : Z; hf : Z; hg : Z; hh : Z }.

Definition initial_state : hstate := Eval vm_compute in
  match fractional_root 2 <$> take 8 first_primes with
  | [a; b; c; d; e; f; g; h] => HState a b c d e f g h
  | _ => HState 0 0 0 0 0 0 0 0
  end.

(** The message schedule, newest word first. *)
Fixpoint extend_schedule (n : nat) (ws : list Z) : list Z :=
  match n with
  | O => ws
  | S n =>
    extend_schedule n
      (w32 (sigma1 (nth 1 ws 0) + nth 6 ws 0 + sigma0 (nth 14 ws 0) + nth 15 ws 0) :: ws)
  end.

Fixpoint words_of (b : bytes) : list Z :=
  match b with
  | b0 :: b1 :: b2 :: b3 :: r => (b0 * 2 ^ 24 + b1 * 2 ^ 16 + b2 * 2 ^ 8 + b3) :: words_of r
  | _ => []
  end.

Definition schedule (block : bytes) : list Z := rev (extend_schedule 48 (rev (words_of block))).

Definition sha_round (s : hstate) (kw : Z * Z) : hstate :=
  let t1 := hh s + Sigma1 (he s) + Ch (he s) (hf s) (hg s) + kw.1 + kw.2 in
  let t2 := Sigma0 (ha s) + Maj (ha s) (hb s) (hc s) in
  HState (w32 (t1 + t2)) (ha s) (hb s) (hc s) (w32 (hd_ s + t1)) (he s) (hf s) (hg s).

Definition compress (s : hstate) (block : bytes) : hstate :=
  let r := fold_left sha_round (zip round_constants (schedule block)) s in
  HState (w32 (ha s + ha r)) (w32 (hb s + hb r)) (w32 (hc s + hc r)) (w32 (hd_ s + hd_ r))
         (w32 (he s + he r)) (w32 (hf s + hf r)) (w32 (hg s + hg r)) (w32 (hh s + hh r)).

Definition sha_pad (m : bytes) : bytes :=
  m ++ 0x80 :: repeat 0 (Z.to_nat ((55 - zlen m) mod 64)) ++ be_bytes 8 (8 * zlen m).

Fixpoint sha_blocks (n : nat) (s : hstate) (b : bytes) : hstate :=
  match n with
  | O => s
  | S n => sha_blocks n (compress s (take 64 b)) (drop 64 b)
  end.

(** [hashlib.sha256(m).digest()] *)
Definition sha256 (m : bytes) : bytes :=
  let p := sha_pad m in
  let s := sha_blocks (length p / 64) initial_state p in
  bjoin (be_bytes 4 <$> [ha s; hb s; hc s; hd_ s; he s; hf s; hg s; hh s]).

Arguments sha256 : simpl never.

(** [hashlib.sha256(m).hexdigest()] *)
Definition sha256_hex (m : bytes) : pystr := hex_of_bytes (sha256 m).

Lemma sha256_length m : length (sha256 m) = 32%nat.
Proof. unfold sha256. cbn [fmap list_fmap concat]. rewrite !length_app. by autorewrite with seam_length. Qed.

Lemma sha256_are_bytes m : Forall is_byte (sha256 m).
Proof.
  unfold sha256. cbn [fmap list_fmap concat].
  repeat (apply Forall_app; split; [auto with seam|]). constructor.
Qed.
#[export] Hint Resolve sha256_length sha256_are_bytes : seam.

Lemma sha256_hex_inj m1 m2 : sha256_hex m1 = sha256_hex m2 → sha256 m1 = sha256 m2.
Proof. apply hex_of_bytes_inj; apply sha256_are_bytes. Qed.

(** Two messages that are different and hash alike. *)
Definition sha256_collision (m1 m2 : bytes) : Prop := m1 ≠ m2 ∧ sha256 m1 = sha256 m2.

Lemma sha256_eq_or_collision m1 m2 : sha256 m1 = sha256 m2 → m1 = m2 ∨ sha256_collision m1 m2.
Proof. intros H. destruct (decide (m1 = m2)); [by left|by right]. Qed.

(** FIPS 180-4 test vectors. *)
Example sha256_empty :
  sha256_hex [] = lit "e3b0c44298fc1c149afbf4c8996fb92427ae41e4649b934ca495991b7852b855".
Proof. vm_compute. reflexivity. Qed.

Example sha256_abc :
  sha256_hex (lit "abc") = lit "ba7816bf8f01cfea414140de5dae2223b00361a396177a9cb410ff61f20015ad".
Proof. vm_compute. reflexivity. Qed.

Example sha256_two_blocks :
  sha256_hex (lit "abcdbcdecdefdefgefghfghighijhijkijkljklmklmnlmnomnopnopq")
  = lit "248d6a61d20638b8e5c026930c3e6039a33ce45964ff2167f6ecedd419db06c1".
Proof. vm_compute. reflexivity. Qed.
