(* ===== verification/Base64.v ===== *)
(** * Base64url: [base64.urlsafe_b64encode] and [urlsafe_b64decode]

    The decoder is CPython's lenient one: characters outside the alphabet are skipped, both the
    standard and the URL-safe spelling of digits 62 and 63 are read, and a complete padding sequence
    ends the input. *)

From stdpp Require Import base list numbers option strings.
From S2P Require Import Prelude Text.

Definition b64_char (d : Z) : Z :=
  if d <? 26 then 65 + d else if d <? 52 then 71 + d else if d <? 62 then d - 4
  else if d =? 62 then 45 else 95.

Definition b64_value (c : Z) : option Z :=
  if (65 <=? c) && (c <=? 90) then Some (c - 65)
  else if (97 <=? c) && (c <=? 122) then Some (c - 71)
  else if (48 <=? c) && (c <=? 57) then Some (c + 4)
  else if (c =? 43) || (c =? 45) then Some 62
  else if (c =? 47) || (c =? 95) then Some 63
  else None.

(** [_b64url_nopad]: the URL-safe encoding without its padding. *)
Fixpoint _b64url_nopad (b : bytes) : pystr :=
  match b with
  | [] => []
  | [x] => [b64_char (x / 4); b64_char (x mod 4 * 16)]
  | [x; y] => [b64_char (x / 4); b64_char (x mod 4 * 16 + y / 16); b64_char (y mod 16 * 4)]
  | x :: y :: z :: r =>
    b64_char (x / 4) :: b64_char (x mod 4 * 16 + y / 16) :: b64_char (y mod 16 * 4 + z / 64)
    :: b64_char (z mod 64) :: _b64url_nopad r
  end.

(** [binascii.a2b_base64] without [strict_mode]: position in the quad, carried bits, pads seen. *)
Fixpoint a2b_base64 (quad_pos leftchar pads : Z) (s : pystr) : res bytes :=
  match s with
  | [] => if quad_pos =? 0 then Ok [] else Raise BinasciiError
  | c :: r =>
    if c =? 61 then
      if (2 <=? quad_pos) && (4 <=? quad_pos + (pads + 1)) then Ok []
      else a2b_base64 quad_pos leftchar (if 2 <=? quad_pos then pads + 1 else pads) r
    else match b64_value c with
    | None => a2b_base64 quad_pos leftchar pads r
    | Some v =>
      if quad_pos =? 0 then a2b_base64 1 v 0 r
      else if quad_pos =? 1 then cons (leftchar * 4 + v / 16) <$> a2b_base64 2 (v mod 16) 0 r
      else if quad_pos =? 2 then cons (leftchar * 16 + v / 4) <$> a2b_base64 3 (v mod 4) 0 r
      else cons (leftchar * 64 + v) <$> a2b_base64 0 0 0 r
    end
  end.

(** [_b64url_decode]: re-pad to a multiple of four and decode; non-ASCII text is a [ValueError]. *)
Definition _b64url_decode (s : pystr) : res bytes :=
  if is_ascii s then a2b_base64 0 0 0 (s ++ repeat 61 (Z.to_nat (- zlen s mod 4)))
  else Raise ValueError.

Lemma b64_value_char d : 0 ≤ d < 64 → b64_value (b64_char d) = Some d ∧ b64_char d ≠ 61.
Proof. intros Hd. unfold b64_value, b64_char. cmp; split; (lia || f_equal; lia). Qed.

Lemma b64_char_ascii d : 0 ≤ d < 64 → 0 ≤ b64_char d < 128.
Proof. intros Hd. unfold b64_char. cmp. Qed.

(** One data character, wherever it falls in its quad. *)
Lemma a2b_base64_char q l p d r :
  0 ≤ d < 64 →
  a2b_base64 q l p (b64_char d :: r) =
    if q =? 0 then a2b_base64 1 d 0 r
    else if q =? 1 then cons (l * 4 + d / 16) <$> a2b_base64 2 (d mod 16) 0 r
    else if q =? 2 then cons (l * 16 + d / 4) <$> a2b_base64 3 (d mod 4) 0 r
    else cons (l * 64 + d) <$> a2b_base64 0 0 0 r.
Proof.
  intros [Hv Hp]%b64_value_char. simpl. rewrite Hv. by destruct (Z.eqb_spec (b64_char d) 61).
Qed.

(** Induction three bytes at a time. *)
Lemma chunk3_ind (P : list Z → Prop) :
  P [] → (∀ x, P [x]) → (∀ x y, P [x; y]) → (∀ x y z r, P r → P (x :: y :: z :: r)) → ∀ b, P b.
Proof.
  intros H0 H1 H2 H3. fix IH 1. intros [|x [|y [|z r]]]; [done|done|done|]. apply H3, IH.
Qed.

Lemma a2b_nopad (b : list Z) pad :
  Forall is_byte b → pad = repeat 61 (Z.to_nat (- zlen (_b64url_nopad b) mod 4)) →
  a2b_base64 0 0 0 (_b64url_nopad b ++ pad) = Ok b.
Proof.
  revert pad. induction b as [|x|x y|x y z r IH] using chunk3_ind; intros pad Hb ->.
  - done.
  - inversion_clear Hb as [|?? Hx _]. unfold is_byte in Hx.
    simpl app. rewrite !a2b_base64_char by dlia. simpl. do 2 f_equal. dlia.
  - inversion_clear Hb as [|?? Hx Hb']. inversion_clear Hb' as [|?? Hy _]. unfold is_byte in *.
    simpl app. rewrite !a2b_base64_char by dlia. simpl. repeat f_equal; dlia.
  - inversion_clear Hb as [|?? Hx Hb']. inversion_clear Hb' as [|?? Hy Hb].
    inversion_clear Hb as [|?? Hz Hr]. unfold is_byte in Hx, Hy, Hz.
    cbn [_b64url_nopad app]. rewrite !a2b_base64_char by dlia. simpl Z.eqb. cbv iota.
    rewrite IH; [|done|f_equal; f_equal; rewrite !length_cons; dlia].
    simpl. repeat f_equal; dlia.
Qed.

Lemma b64url_nopad_ascii (b : list Z) : Forall is_byte b → is_ascii (_b64url_nopad b) = true.
Proof.
  unfold is_ascii. induction b as [|x|x y|x y z r IH] using chunk3_ind; intros Hb;
    repeat match goal with H : Forall _ (_ :: _) |- _ => inversion_clear H end;
    unfold is_byte in *; cbn [_b64url_nopad forallb]; [done|..].
  all: repeat match goal with
    | |- context [b64_char ?d] =>
        let H := fresh in
        assert (0 ≤ b64_char d < 128) as H by (apply b64_char_ascii; dlia);
        generalize dependent (b64_char d); intros
    end.
  all: rewrite ?IH by done; cmp; done.
Qed.

(** Decoding undoes the unpadded encoding. *)
Lemma b64url_decode_nopad b : Forall is_byte b → _b64url_decode (_b64url_nopad b) = Ok b.
Proof. intros Hb. unfold _b64url_decode. rewrite b64url_nopad_ascii by done. by apply a2b_nopad. Qed.

Lemma b64url_nopad_inj a b :
  Forall is_byte a → Forall is_byte b → _b64url_nopad a = _b64url_nopad b → a = b.
Proof. intros Ha%b64url_decode_nopad Hb%b64url_decode_nopad H. rewrite H in Ha. congruence. Qed.

Lemma b64url_nopad_length (b : list Z) : zlen (_b64url_nopad b) = (4 * zlen b + 2) / 3.
Proof.
  induction b as [|x|x y|x y z r IH] using chunk3_ind; [done..|].
  cbn [_b64url_nopad]. rewrite !length_cons, !Nat2Z.inj_succ, IH, ?Nat2Z.inj_succ. dlia.
Qed.

(** Characters of [[A-Za-z0-9_-]]. *)
Definition is_b64url_char (c : Z) : bool :=
  ((65 <=? c) && (c <=? 90)) || ((97 <=? c) && (c <=? 122)) || ((48 <=? c) && (c <=? 57))
  || (c =? 95) || (c =? 45).

Lemma b64_char_url d : 0 ≤ d < 64 → is_b64url_char (b64_char d) = true.
Proof. intros Hd. unfold is_b64url_char, b64_char. cmp; done. Qed.

Lemma b64url_nopad_chars (b : list Z) :
  Forall is_byte b → forallb is_b64url_char (_b64url_nopad b) = true.
Proof.
  induction b as [|x|x y|x y z r IH] using chunk3_ind; intros Hb;
    repeat match goal with H : Forall _ (_ :: _) |- _ => inversion_clear H end;
    unfold is_byte in *; cbn [_b64url_nopad forallb]; [done|..].
  all: rewrite ?b64_char_url by dlia; simpl; auto.
Qed.

(** The decoder yields bytes. *)
Definition quad_ok (q l : Z) : Prop :=
  q = 0 ∨ q = 1 ∧ 0 ≤ l < 64 ∨ q = 2 ∧ 0 ≤ l < 16 ∨ q = 3 ∧ 0 ≤ l < 4.

Lemma b64_value_range c v : b64_value c = Some v → 0 ≤ v < 64.
Proof. unfold b64_value. intros H. repeat case_match; simplify_eq; cmp; lia. Qed.

Lemma a2b_base64_bytes q l p s b : quad_ok q l → a2b_base64 q l p s = Ok b → Forall is_byte b.
Proof.
  revert q l p b. induction s as [|c s IH]; intros q l p b Hq H; simpl in H.
  { case_match; simplify_eq. constructor. }
  destruct (c =? 61).
  { case_match; [simplify_eq; constructor|by eapply IH]. }
  destruct (b64_value c) as [v|] eqn:Ev; [|by eapply IH]. apply b64_value_range in Ev.
  destruct (Z.eqb_spec q 0); [eapply IH, H; right; left; lia|].
  destruct (Z.eqb_spec q 1);
    [|destruct (Z.eqb_spec q 2)]; apply fmap_Ok in H as (r & Hr & ->); (constructor; [|eapply IH, Hr]);
    unfold is_byte, quad_ok in *; dlia.
Qed.

Lemma b64url_decode_bytes s b : _b64url_decode s = Ok b → Forall is_byte b.
Proof.
  unfold _b64url_decode. case_match; [|done]. apply a2b_base64_bytes. by left.
Qed.

Lemma a2b_base64_error q l p s e : a2b_base64 q l p s = Raise e → e = BinasciiError.
Proof.
  revert q l p. induction s as [|c s IH]; intros q l p; simpl; [case_match; congruence|].
  repeat case_match; try done; try apply IH; intros Hr%fmap_Raise; by eapply IH.
Qed.

Lemma b64url_decode_error s e : _b64url_decode s = Raise e → e = BinasciiError ∨ e = ValueError.
Proof. unfold _b64url_decode. case_match; [intros Hs%a2b_base64_error; by left|right; congruence]. Qed.

Lemma b64url_char_value c : is_b64url_char c = true → c ≠ 61 ∧ ∃ v, b64_value c = Some v.
Proof.
  unfold is_b64url_char, b64_value. intros Hc. split; [intros ->; done|].
  repeat (case_match; [by eauto|]). exfalso. cmp.
Qed.

(** Alphabet characters, in any number but one more than a multiple of four, decode. *)
Lemma a2b_base64_total q l v :
  0 ≤ q < 4 → forallb is_b64url_char v = true → (q + zlen v) mod 4 ≠ 1 →
  ∃ b, a2b_base64 q l 0 (v ++ repeat 61 (Z.to_nat (- (q + zlen v) mod 4))) = Ok b.
Proof.
  revert q l. induction v as [|c v IH]; intros q l Hq Hv Hm.
  { simpl in *. assert (q = 0 ∨ q = 2 ∨ q = 3) as [->|[->| ->]]; [|by eexists..].
    destruct (decide (q = 1)) as [->|]; [done|lia]. }
  simpl in Hv. apply andb_true_iff in Hv as [Hc Hv]. apply b64url_char_value in Hc as (Hc & d & Ed).
  rewrite length_cons, Nat2Z.inj_succ in *.
  replace (q + Z.succ (zlen v)) with (q + 1 + zlen v) in * by lia.
  cbn [app a2b_base64]. destruct (Z.eqb_spec c 61); [done|]. rewrite Ed.
  destruct (Z.eqb_spec q 0) as [->|]; [by apply (IH 1)|].
  destruct (Z.eqb_spec q 1) as [->|]; [change (1 + 1) with 2 in *; destruct (IH 2 (d mod 16)) as [b ->]; try done; by eexists|].
  destruct (Z.eqb_spec q 2) as [->|]; [change (2 + 1) with 3 in *; destruct (IH 3 (d mod 4)) as [b ->]; try done; by eexists|].
  assert (q = 3) as -> by lia.
  assert (∀ x, (3 + 1 + x) mod 4 = (0 + x) mod 4) as E4 by (intros; dlia).
  replace (- (3 + 1 + zlen v) mod 4) with (- (0 + zlen v) mod 4) by dlia.
  destruct (IH 0 0) as [b ->]; [lia|done|by rewrite <-E4|by eexists].
Qed.

Lemma b64url_decode_total v :
  forallb is_b64url_char v = true → zlen v mod 4 ≠ 1 → ∃ b, _b64url_decode v = Ok b.
Proof.
  intros Hv Hm. unfold _b64url_decode. assert (is_ascii v = true) as ->.
  { apply forallb_forall. intros c Hc. eapply forallb_forall in Hv; [|done].
    unfold is_b64url_char in Hv. cmp; done. }
  by apply (a2b_base64_total 0).
Qed.
