(* ===== verification/Keys.v ===== *)
(** * Keys: the Ed25519 interface, agent identifiers and the admission presentation

    [crypto.py]: [aid_from_pubkey], [_aid_to_pubkey], [derived_uuid], [pop_message_id] and
    [build_presentation]. Ed25519 itself is the [cryptography] package: the class [Ed25519] is the
    part of it the SDK calls, and [Ed25519Laws] what the SDK relies on. *)

From stdpp Require Import base list numbers option strings.
From S2P Require Import Prelude Text Sha256 Base64.

(** ** Ed25519 *)

Class Ed25519 := {
  ed_public : bytes → bytes;                (** seed to public key *)
  ed_sign : bytes → bytes → bytes;          (** seed, message to signature *)
  ed_verify : bytes → bytes → bytes → bool; (** public key, signature, message *)
}.

(** Documented behaviour: a signature made with a seed verifies under the seed's public key, and a
    public key is 32 bytes. *)
Class Ed25519Laws `{Ed25519} : Prop := {
  ed_verify_sign seed msg : length seed = 32%nat → ed_verify (ed_public seed) (ed_sign seed msg) msg = true;
  ed_public_length seed : length seed = 32%nat → length (ed_public seed) = 32%nat;
  ed_public_bytes seed : Forall is_byte (ed_public seed);
  ed_sign_bytes seed msg : Forall is_byte (ed_sign seed msg);
}.

(** A concrete instance of the interface, which shows the laws can hold. *)
Definition toy_ed25519 : Ed25519 := {|
  ed_public seed := sha256 seed;
  ed_sign seed msg := sha256 (sha256 seed ++ msg);
  ed_verify pk sig msg := bool_decide (sig = sha256 (pk ++ msg));
|}.

Lemma toy_ed25519_laws : @Ed25519Laws toy_ed25519.
Proof.
  split; intros; cbn [ed_verify ed_public ed_sign toy_ed25519].
  - by apply bool_decide_eq_true.
  - auto with seam.
  - auto with seam.
  - auto with seam.
Qed.

Section keys.
Context `{Ed25519}.

(** [Ed25519PrivateKey.from_private_bytes], [Ed25519PublicKey.from_public_bytes]: [ValueError] unless
    given 32 bytes. *)
Definition private_from_bytes (seed : bytes) : res bytes :=
  if decide (length seed = 32%nat) then Ok seed else Raise ValueError.
Definition public_from_bytes (pk : bytes) : res bytes :=
  if decide (length pk = 32%nat) then Ok pk else Raise ValueError.
(** [key.verify(signature, data)] *)
Definition key_verify (pk sig msg : bytes) : res () :=
  if ed_verify pk sig msg then Ok () else Raise InvalidSignature.
End keys.

(** ** Agent identifiers *)

Definition aid_prefix : pystr := lit "aid:pubkey:ed25519:".
Definition aid_prefix_short : pystr := lit "aid:pubkey:".

Definition aid_from_pubkey (pubkey : bytes) : pystr := aid_prefix ++ _b64url_nopad pubkey.

(** [s.startswith(p)], and [s[len(p):]] when it does. *)
Fixpoint strip_prefix (p s : list Z) : option (list Z) :=
  match p, s with
  | [], _ => Some s
  | x :: p, y :: s => if x =? y then strip_prefix p s else None
  | _ :: _, [] => None
  end.

Definition _aid_to_pubkey (aid : pystr) : res bytes :=
  match strip_prefix aid_prefix aid with
  | Some rest => _b64url_decode rest
  | None =>
    match strip_prefix aid_prefix_short aid with
    | Some rest => _b64url_decode rest
    | None => Raise ValueError
    end
  end.

Lemma strip_prefix_app p s : strip_prefix p (p ++ s) = Some s.
Proof. induction p as [|x p IH]; [done|]. simpl. by rewrite Z.eqb_refl. Qed.

Lemma strip_prefix_Some p s r : strip_prefix p s = Some r ↔ s = p ++ r.
Proof.
  split; [|intros ->; apply strip_prefix_app].
  revert s. induction p as [|x p IH]; intros s; [by intros [= ->]|].
  destruct s as [|y s]; [done|]. simpl. destruct (Z.eqb_spec x y) as [->|]; [|done].
  by intros ->%IH.
Qed.

(** ** Derived UUIDs *)

(** A [uuid.UUID] is its 16 bytes; [str] is the lowercase 8-4-4-4-12 form. *)
Definition uuid_str (u : bytes) : pystr :=
  let h := hex_of_bytes u in
  take 8 h ++ 45 :: take 4 (drop 8 h) ++ 45 :: take 4 (drop 12 h) ++ 45 :: take 4 (drop 16 h)
  ++ 45 :: drop 20 h.

Definition derived_uuid (tag : pystr) (data : bytes) : res bytes :=
  t ← ascii_encode tag;
  let h := take 16 (sha256 (t ++ 0 :: data)) in
  let h := <[6%nat := Z.lor (Z.land (nth 6 h 0) 0x0F) 0x40]> h in
  let h := <[8%nat := Z.lor (Z.land (nth 8 h 0) 0x3F) 0x80]> h in
  Ok h.

Definition POP_MESSAGE_ID_TAG : pystr := lit "seam-pop-mid-v1".

Definition pop_message_id (pop_nonce : pystr) : res bytes :=
  n ← ascii_encode pop_nonce;
  derived_uuid POP_MESSAGE_ID_TAG n.

(** ** The admission presentation *)

Definition _PROOF_DOMAIN : bytes := lit "aitp-pinned-key-v1" ++ [0].

Record presentation := Presentation {
  sender_aid : pystr;
  descriptor_type : pystr;
  descriptor_subject : pystr;
  descriptor_proof : pystr;
  descriptor_public_key : pystr;
  message_id : pystr;
  timestamp : Z;
  pres_pop_nonce : pystr;
}.

(** The bytes whose SHA-256 the presentation signs. *)
Definition proof_input (sender receiver mid : bytes) (ts : Z) (nonce : bytes) : bytes :=
  _PROOF_DOMAIN ++ sender ++ [0] ++ receiver ++ [0] ++ mid ++ [0] ++ str_of_int ts ++ [0] ++ nonce.

Definition build_presentation `{Ed25519} (agent_seed : bytes) (receiver_aid pop_nonce : pystr)
    (now_ms : Z) : res presentation :=
  sk ← private_from_bytes agent_seed;
  let pub := ed_public sk in
  let sender := aid_from_pubkey pub in
  mid ← pop_message_id pop_nonce;
  let ts := now_ms / 1000 in
  sender_b ← utf8_encode sender;
  receiver_b ← utf8_encode receiver_aid;
  mid_b ← utf8_encode (uuid_str mid);
  nonce_b ← _b64url_decode pop_nonce;
  let proof := _b64url_nopad (ed_sign sk (sha256 (proof_input sender_b receiver_b mid_b ts nonce_b))) in
  Ok (Presentation sender (lit "pinned_key") sender proof (_b64url_nopad pub) (uuid_str mid) ts pop_nonce).

(** ** Properties *)

Lemma aid_from_pubkey_ascii pk : Forall is_byte pk → is_ascii (aid_from_pubkey pk) = true.
Proof.
  intros Hpk. unfold is_ascii, aid_from_pubkey. rewrite forallb_app.
  by apply andb_true_iff; split; [|apply b64url_nopad_ascii].
Qed.

(** The AID of a key gives the key back. *)
Lemma aid_roundtrip pk : Forall is_byte pk → _aid_to_pubkey (aid_from_pubkey pk) = Ok pk.
Proof.
  intros Hpk. unfold _aid_to_pubkey, aid_from_pubkey. rewrite strip_prefix_app.
  by apply b64url_decode_nopad.
Qed.

Lemma hex_of_bytes_length b : length (hex_of_bytes b) = (2 * length b)%nat.
Proof. induction b as [|x b IH]; [done|]. simpl. change (b ≫= _) with (hex_of_bytes b). lia. Qed.

Lemma derived_uuid_length tag data u : derived_uuid tag data = Ok u → length u = 16%nat.
Proof.
  unfold derived_uuid. intros (t & _ & <-%Ok_inj)%bind_Ok.
  by rewrite !length_insert, length_take, sha256_length.
Qed.

(** Check a boolean fact about bytes by going through all of them. *)
Lemma byte_forall (f : Z → bool) b : forallb f (seqZ 0 256) = true → is_byte b → f b = true.
Proof.
  intros Hf Hb. eapply forallb_forall in Hf; [done|].
  apply list_elem_of_In, elem_of_seqZ. unfold is_byte in Hb. lia.
Qed.

Lemma uuid_version_byte b : is_byte b → 64 ≤ Z.lor (Z.land b 0x0F) 0x40 < 80.
Proof.
  intros Hb. assert ((64 <=? Z.lor (Z.land b 0x0F) 0x40) && (Z.lor (Z.land b 0x0F) 0x40 <? 80) = true) as E.
  { by apply (byte_forall (λ b, (64 <=? Z.lor (Z.land b 0x0F) 0x40) && (Z.lor (Z.land b 0x0F) 0x40 <? 80))). }
  apply andb_true_iff in E as [?%Z.leb_le ?%Z.ltb_lt]. done.
Qed.

Lemma uuid_variant_byte b : is_byte b → 128 ≤ Z.lor (Z.land b 0x3F) 0x80 < 192.
Proof.
  intros Hb. assert ((128 <=? Z.lor (Z.land b 0x3F) 0x80) && (Z.lor (Z.land b 0x3F) 0x80 <? 192) = true) as E.
  { by apply (byte_forall (λ b, (128 <=? Z.lor (Z.land b 0x3F) 0x80) && (Z.lor (Z.land b 0x3F) 0x80 <? 192))). }
  apply andb_true_iff in E as [?%Z.leb_le ?%Z.ltb_lt]. done.
Qed.

Lemma nth_bytes i (b : bytes) : Forall is_byte b → is_byte (nth i b 0).
Proof.
  intros Hb. destruct (decide (i < length b)%nat) as [Hi|Hi].
  - eapply Forall_forall in Hb; [done|]. apply list_elem_of_In, nth_In, Hi.
  - rewrite nth_overflow by lia. unfold is_byte. lia.
Qed.

(** RFC 9562: version 4 and the 10 variant, on 16 bytes. *)
Lemma derived_uuid_bits tag data u :
  derived_uuid tag data = Ok u →
  Forall is_byte u ∧ length u = 16%nat ∧ 64 ≤ nth 6 u 0 < 80 ∧ 128 ≤ nth 8 u 0 < 192.
Proof.
  intros Hu. pose proof (derived_uuid_length _ _ _ Hu) as Hlen. revert Hu. unfold derived_uuid.
  intros (t & _ & <-%Ok_inj)%bind_Ok. set (h := take 16 _) in *.
  assert (Forall is_byte h) as Hh by (apply Forall_take, sha256_are_bytes).
  assert (length h = 16%nat) as Hl by (unfold h; by rewrite length_take, sha256_length).
  pose proof (uuid_version_byte _ (nth_bytes 6 h Hh)) as Hv.
  set (h' := <[6%nat:=_]> h) in *.
  assert (Forall is_byte h') as Hh'.
  { apply Forall_insert; [done|]. unfold is_byte. lia. }
  pose proof (uuid_variant_byte _ (nth_bytes 8 h' Hh')) as Hv'.
  split; [apply Forall_insert; [done|unfold is_byte; lia]|]. split; [done|].
  split.
  - rewrite nth_lookup, list_lookup_insert_ne by done. unfold h'. by rewrite list_lookup_insert_eq by lia.
  - by rewrite nth_lookup, list_lookup_insert_eq by (unfold h'; rewrite length_insert; lia).
Qed.

(** The repository's conformance vectors ([conformance/vectors.json], [derived_uuid]). *)
Example derived_uuid_kat_001 :
  uuid_str <$> derived_uuid (lit "aitp-kat-derived-uuid-v1") (lit "kat-derived-uuid-001/input")
  = Ok (lit "27b131ae-bcc6-4466-ab32-1d0f896453b1").
Proof. vm_compute. reflexivity. Qed.

Example pop_message_id_vector :
  uuid_str <$> pop_message_id (lit "c2VhbS1jb25mb3JtLTAwMQ")
  = Ok (lit "786ec92e-a43a-40b5-98d8-848ff365ea78").
Proof. vm_compute. reflexivity. Qed.

(** Whatever [build_presentation] returns, its sender AID decodes
    to the agent's public key, its proof decodes to a signature that verifies under that key over the
    documented bytes, and the timestamp is the clock in whole seconds. *)
Theorem build_presentation_verifies `{Ed25519Laws} seed receiver nonce now_ms p :
  build_presentation seed receiver nonce now_ms = Ok p →
  ∃ sig sender_b receiver_b mid_b nonce_b,
    _aid_to_pubkey (sender_aid p) = Ok (ed_public seed) ∧
    _b64url_decode (descriptor_proof p) = Ok sig ∧
    utf8_encode (sender_aid p) = Ok sender_b ∧ utf8_encode receiver = Ok receiver_b ∧
    utf8_encode (message_id p) = Ok mid_b ∧ _b64url_decode nonce = Ok nonce_b ∧
    timestamp p = now_ms / 1000 ∧
    ed_verify (ed_public seed) sig
      (sha256 (proof_input sender_b receiver_b mid_b (timestamp p) nonce_b)) = true.
Proof.
  unfold build_presentation, private_from_bytes. case_decide as Hlen; [|done].
  intros (? & <-%Ok_inj & (mid & Hmid & (sb & Hsb & (rb & Hrb & (mb & Hmb & (nb & Hnb & <-%Ok_inj)%bind_Ok)%bind_Ok)%bind_Ok)%bind_Ok)%bind_Ok)%bind_Ok.
  eexists _, sb, rb, mb, nb. cbn [sender_aid descriptor_proof message_id timestamp].
  split; [apply aid_roundtrip, ed_public_bytes|].
  split; [apply b64url_decode_nopad, ed_sign_bytes|].
  repeat (split; [done|]). by apply ed_verify_sign.
Qed.

Lemma build_presentation_verifies_witness :
  ∃ p sig, @build_presentation toy_ed25519 (repeat 42 32) (lit "aid:pubkey:x") (lit "c2VhbS1jb25mb3JtLTAwMQ")
             1700000000000 = Ok p ∧ timestamp p = 1700000000 ∧ _b64url_decode (descriptor_proof p) = Ok sig.
Proof.
  destruct (@build_presentation toy_ed25519 (repeat 42 32) (lit "aid:pubkey:x")
              (lit "c2VhbS1jb25mb3JtLTAwMQ") 1700000000000) as [p|e] eqn:E.
  - pose proof (@build_presentation_verifies toy_ed25519 toy_ed25519_laws _ _ _ _ _ E)
      as (sig & ? & ? & ? & ? & _ & Hsig & _ & _ & _ & _ & Ht & _).
    exists p, sig. split; [done|]. split; [|done]. rewrite Ht. reflexivity.
  - vm_compute in E. discriminate E.
Defined.
