(* ===== verification/Framing.v ===== *)
(** * Framing: the signed payloads of the data plane

    [crypto.py]: [_frame], [_be64_frame], [call_sig_payload], [call_sig_v3_payload],
    [request_sig_payload], [enroll_pop_payload] and the functions that sign them. Every payload is a
    concatenation of length-prefixed fields that starts with its own domain tag; the main theorem is
    that the bytes determine the operation and all of its fields. *)

From stdpp Require Import base list numbers option strings sorting.
From S2P Require Import Prelude Order Text Sha256 Base64 Keys.

(** ** Length-prefixed fields *)

(** [struct.pack("<I", len(b)) + b] *)
Definition _frame (b : bytes) : res bytes := p ← pack_u32le (zlen b); Ok (p ++ b).

(** [len(field).to_bytes(8, "big") + field] *)
Definition _be64_frame (field : bytes) : res bytes := p ← to_bytes_be64 (zlen field); Ok (p ++ field).

(** [_frame(s.encode("utf-8"))] *)
Definition frame_text (s : pystr) : res bytes := b ← utf8_encode s; _frame b.
Definition be64_frame_text (s : pystr) : res bytes := b ← utf8_encode s; _be64_frame b.

Global Instance frame_prefix_free : PrefixFree _frame.
Proof.
  intros a b ea eb x y. unfold _frame.
  intros (pa & Ha & <-%Ok_inj)%bind_Ok (pb & Hb & <-%Ok_inj)%bind_Ok Heq.
  rewrite <-!(assoc_L (++)) in Heq. peel.
  apply app_inj_len in Heq as [-> ->]; [done|lia].
Qed.

Global Instance be64_frame_prefix_free : PrefixFree _be64_frame.
Proof.
  intros a b ea eb x y. unfold _be64_frame.
  intros (pa & Ha & <-%Ok_inj)%bind_Ok (pb & Hb & <-%Ok_inj)%bind_Ok Heq.
  rewrite <-!(assoc_L (++)) in Heq. peel.
  apply app_inj_len in Heq as [-> ->]; [done|lia].
Qed.

(** An injective map in front of a prefix-free encoding keeps it prefix-free. *)
Lemma prefix_free_precompose {A B} (f : A → res B) (enc : B → res bytes) `{!PrefixFree enc} :
  (∀ a b c, f a = Ok c → f b = Ok c → a = b) → PrefixFree (λ a, b ← f a; enc b).
Proof.
  intros Hinj a b ea eb x y (fa & Ha & Hea)%bind_Ok (fb & Hb & Heb)%bind_Ok Heq.
  apply (prefix_free fa fb) in Heq as [-> ->]; [|done..]. split; [|done]. by eapply Hinj.
Qed.

Global Instance frame_text_prefix_free : PrefixFree frame_text.
Proof. apply (prefix_free_precompose utf8_encode _frame). apply utf8_encode_inj. Qed.

Global Instance be64_frame_text_prefix_free : PrefixFree be64_frame_text.
Proof. apply (prefix_free_precompose utf8_encode _be64_frame). apply utf8_encode_inj. Qed.

(** [opt(x)]: a presence byte, then the encoding when present. *)
Definition opt_enc {A} (enc : A → res bytes) (x : option A) : res bytes :=
  match x with None => Ok [0] | Some a => e ← enc a; Ok (1 :: e) end.

Global Instance opt_enc_prefix_free {A} (enc : A → res bytes) `{!PrefixFree enc} :
  PrefixFree (opt_enc enc).
Proof.
  intros [a|] [b|] ea eb x y; simpl.
  - intros (e1 & H1 & <-%Ok_inj)%bind_Ok (e2 & H2 & <-%Ok_inj)%bind_Ok [= Heq]. by peel; simplify_eq.
  - by intros (e1 & H1 & <-%Ok_inj)%bind_Ok <-%Ok_inj [=].
  - by intros <-%Ok_inj (e2 & H2 & <-%Ok_inj)%bind_Ok [=].
  - by intros <-%Ok_inj <-%Ok_inj [= ->].
Qed.

(** ** Payloads *)

Definition CALL_SIG_CONTEXT : bytes := lit "seam-authorize-call-v2".
Definition CALL_SIG_V3_CONTEXT : bytes := lit "seam-authorize-call-v3".
Definition REQUEST_SIG_CONTEXT : bytes := lit "seam-request-call-v1".
Definition ENROLL_POP_V1_CONTEXT : bytes := lit "seam-enroll-pop-v1".

Definition call_sig_payload (ticket : bytes) (tool_input_digest tool_name agent_id : pystr) : res bytes :=
  d ← utf8_encode tool_input_digest;
  t ← utf8_encode tool_name;
  a ← utf8_encode agent_id;
  bjoin <$> mapM _frame [CALL_SIG_CONTEXT; ticket; d; t; a].

Definition request_sig_payload (ticket : bytes) (rpc_full_name resource_id body_digest : pystr) : res bytes :=
  r ← utf8_encode rpc_full_name;
  i ← utf8_encode resource_id;
  d ← utf8_encode body_digest;
  bjoin <$> mapM _frame [REQUEST_SIG_CONTEXT; ticket; r; i; d].

(** [dict[str, str] | None]; the items in insertion order. *)
Abbreviation str_dict := (list (pystr * pystr)).

Definition encode_pair (kv : pystr * pystr) : res (bytes * bytes) :=
  k ← utf8_encode kv.1; v ← utf8_encode kv.2; Ok (k, v).

Definition frame_pair (kv : bytes * bytes) : res bytes :=
  k ← _frame kv.1; v ← _frame kv.2; Ok (k ++ v).

(** [_frame(struct.pack("<I", n))] *)
Definition frame_u32 (n : Z) : res bytes := p ← pack_u32le n; _frame p.
Definition frame_u64 (n : Z) : res bytes := p ← pack_u64le n; _frame p.

Definition call_sig_v3_payload (ticket : bytes) (tool_input_digest tool_name agent_id subject : pystr)
    (subjects : list pystr) (client_request_id session_id : pystr) (features : option str_dict)
    : res bytes :=
  enc ← mapM encode_pair (default [] features);
  let feats := merge_sort pair_le enc in
  f0 ← _frame CALL_SIG_V3_CONTEXT;
  f1 ← _frame ticket;
  f2 ← frame_text tool_input_digest;
  f3 ← frame_text tool_name;
  f4 ← frame_text agent_id;
  f5 ← frame_text subject;
  f6 ← frame_u32 (zlen subjects);
  fs ← mapM frame_text subjects;
  f7 ← frame_text client_request_id;
  f8 ← frame_text session_id;
  f9 ← frame_u32 (zlen feats);
  ff ← mapM frame_pair feats;
  Ok (bjoin ([f0; f1; f2; f3; f4; f5; f6] ++ fs ++ [f7; f8; f9] ++ ff)).

(** [_require_int]: the type half of the range check; [bool] is not an [int] here. *)
Definition _require_int (value : pyval) : res Z :=
  match value with PInt z => Ok z | _ => Raise TypeError end.

Definition _uint_slot (value : pyval) (bits : Z) : res Z :=
  z ← _require_int value;
  if (0 <=? z) && (z <? 2 ^ bits) then Ok z else Raise ValueError.

Definition enroll_pop_payload (subject_aid tenant namespace : pystr) (issued_at_ms : pyval) (nonce : pystr)
    : res bytes :=
  f0 ← _frame ENROLL_POP_V1_CONTEXT;
  f1 ← frame_text subject_aid;
  f2 ← frame_text tenant;
  f3 ← frame_text namespace;
  t ← _uint_slot issued_at_ms 64;
  f4 ← frame_u64 t;
  f5 ← frame_text nonce;
  Ok (bjoin [f0; f1; f2; f3; f4; f5]).

(** ** Signing *)

Section signing.
Context `{Ed25519}.

Definition sign_with (agent_seed : bytes) (payload : res bytes) : res bytes :=
  sk ← private_from_bytes agent_seed; p ← payload; Ok (ed_sign sk p).

Definition call_sig (agent_seed ticket : bytes) (digest tool_name agent_id : pystr) : res bytes :=
  sign_with agent_seed (call_sig_payload ticket digest tool_name agent_id).

Definition request_sig (agent_seed ticket : bytes) (rpc_full_name resource_id body_digest : pystr)
    : res bytes :=
  sign_with agent_seed (request_sig_payload ticket rpc_full_name resource_id body_digest).

Definition call_sig_v3 (agent_seed ticket : bytes) (digest tool_name agent_id subject : pystr)
    (subjects : list pystr) (client_request_id session_id : pystr) (features : option str_dict)
    : res bytes :=
  sign_with agent_seed
    (call_sig_v3_payload ticket digest tool_name agent_id subject subjects client_request_id
       session_id features).

(** *** Enrolment proof of possession *)

Definition ENROLL_POP_NONCE_MAX_LEN : Z := 128.

Definition validate_enroll_pop_nonce (nonce : pyval) : res pystr :=
  match nonce with
  | PStr s =>
    if negb ((1 <=? zlen s) && (zlen s <=? ENROLL_POP_NONCE_MAX_LEN)) then Raise ValueError
    else if forallb is_b64url_char s then Ok s else Raise ValueError
  | _ => Raise TypeError
  end.

(** [new_enroll_pop_nonce]: the 16 bytes are [secrets.token_bytes(16)]. *)
Definition new_enroll_pop_nonce (token_bytes : bytes) : pystr := _b64url_nopad token_bytes.

Record EnrollProof := { ep_issued_at_ms : pyval; ep_nonce : pystr; ep_signature : bytes }.

Definition signature_b64url (p : EnrollProof) : pystr := _b64url_nopad (ep_signature p).
Definition to_rest (p : EnrollProof) : list (pystr * pyval) :=
  [(lit "issued_at_ms", ep_issued_at_ms p); (lit "nonce", PStr (ep_nonce p)); (lit "signature", PStr (signature_b64url p))].

Definition enroll_pop (agent_seed : bytes) (tenant namespace : pystr) (issued_at_ms nonce : pyval)
    : res EnrollProof :=
  n ← validate_enroll_pop_nonce nonce;
  sk ← private_from_bytes agent_seed;
  let subject_aid := aid_from_pubkey (ed_public sk) in
  payload ← enroll_pop_payload subject_aid tenant namespace issued_at_ms n;
  Ok {| ep_issued_at_ms := issued_at_ms; ep_nonce := n; ep_signature := ed_sign sk payload |}.

(** [except Exception: return False] around the whole check. *)
Definition verify_enroll_pop (subject_aid tenant namespace : pystr) (issued_at_ms : pyval)
    (nonce : pystr) (signature : bytes) : bool :=
  match
    (k ← _aid_to_pubkey subject_aid;
     pk ← public_from_bytes k;
     payload ← enroll_pop_payload subject_aid tenant namespace issued_at_ms nonce;
     key_verify pk signature payload)
  with Ok _ => true | Raise _ => false end.
End signing.

(** ** Injectivity *)

Lemma encode_pair_inj p q c : encode_pair p = Ok c → encode_pair q = Ok c → p = q.
Proof.
  unfold encode_pair. destruct p as [a b], q as [a' b']. simpl. intros Hp Hq. inv_ok.
  f_equal; by eapply utf8_encode_inj.
Qed.

Global Instance frame_pair_prefix_free : PrefixFree frame_pair.
Proof.
  intros [a b] [c d] ea eb x y. unfold frame_pair. simpl.
  intros (p1 & H1 & (p2 & H2 & <-%Ok_inj)%bind_Ok)%bind_Ok.
  intros (q1 & K1 & (q2 & K2 & <-%Ok_inj)%bind_Ok)%bind_Ok Heq.
  rewrite <-!(assoc_L (++)) in Heq. do 2 peel. by simplify_eq.
Qed.

Global Instance frame_u32_prefix_free : PrefixFree frame_u32.
Proof. apply (prefix_free_precompose pack_u32le _frame), prefix_free_inj. apply _. Qed.
Global Instance frame_u64_prefix_free : PrefixFree frame_u64.
Proof. apply (prefix_free_precompose pack_u64le _frame), prefix_free_inj. apply _. Qed.

(** ** What a signature commits to *)

(** The four operations whose payload the SDK signs, with the fields of each. *)
Inductive signed_op :=
| OpCallV2 (ticket : bytes) (digest tool_name agent_id : pystr)
| OpCallV3 (ticket : bytes) (digest tool_name agent_id subject : pystr) (subjects : list pystr)
    (client_request_id session_id : pystr) (features : option str_dict)
| OpRequest (ticket : bytes) (rpc_full_name resource_id body_digest : pystr)
| OpEnroll (subject_aid tenant namespace : pystr) (issued_at_ms : pyval) (nonce : pystr).

Definition payload_of (o : signed_op) : res bytes :=
  match o with
  | OpCallV2 t d n a => call_sig_payload t d n a
  | OpCallV3 t d n a s ss c i f => call_sig_v3_payload t d n a s ss c i f
  | OpRequest t r i b => request_sig_payload t r i b
  | OpEnroll s t n i x => enroll_pop_payload s t n i x
  end.

Definition context_of (o : signed_op) : bytes :=
  match o with
  | OpCallV2 _ _ _ _ => CALL_SIG_CONTEXT
  | OpCallV3 _ _ _ _ _ _ _ _ _ => CALL_SIG_V3_CONTEXT
  | OpRequest _ _ _ _ => REQUEST_SIG_CONTEXT
  | OpEnroll _ _ _ _ _ => ENROLL_POP_V1_CONTEXT
  end.

(** The same operation, up to the order in which the features dict lists its items. *)
Definition same_op (o1 o2 : signed_op) : Prop :=
  match o1, o2 with
  | OpCallV3 t d n a s ss c i f, OpCallV3 t' d' n' a' s' ss' c' i' f' =>
      (t, d, n, a, s, ss, c, i) = (t', d', n', a', s', ss', c', i') ∧ default [] f ≡ₚ default [] f'
  | _, _ => o1 = o2
  end.

Ltac open_binds :=
  repeat match goal with
  | H : (_ ≫= _) = Ok _ |- _ => apply bind_Ok in H as (? & ? & ?)
  | H : (_ <$> _) = Ok _ |- _ => apply fmap_Ok in H as (? & ? & ?)
  | H : mapM _ (_ :: _) = Ok _ |- _ => apply mapM_res_cons in H as (? & ? & ? & ? & ?)
  | H : mapM _ [] = Ok _ |- _ => apply Ok_inj in H
  | H : Ok _ = Ok _ |- _ => apply Ok_inj in H
  end; subst.

Lemma payload_head o p :
  payload_of o = Ok p → ∃ f rest, _frame (context_of o) = Ok f ∧ p = f ++ rest.
Proof.
  destruct o; simpl; unfold call_sig_payload, call_sig_v3_payload, request_sig_payload,
    enroll_pop_payload; intros Hp; open_binds; simpl; eauto.
Qed.

Lemma uint_slot_Ok v bits z : _uint_slot v bits = Ok z ↔ v = PInt z ∧ 0 ≤ z < 2 ^ bits.
Proof.
  unfold _uint_slot, _require_int. destruct v; simpl; try naive_solver.
  destruct ((0 <=? z0) && (z0 <? 2 ^ bits)) eqn:E.
  - apply andb_true_iff in E as [?%Z.leb_le ?%Z.ltb_lt]. naive_solver.
  - apply andb_false_iff in E as [?%Z.leb_gt|?%Z.ltb_ge]; naive_solver lia.
Qed.

Lemma call_sig_payload_inj t d n a t' d' n' a' p :
  call_sig_payload t d n a = Ok p → call_sig_payload t' d' n' a' = Ok p →
  (t, d, n, a) = (t', d', n', a').
Proof.
  unfold call_sig_payload. intros (b1 & E1 & (b2 & E2 & (b3 & E3 & (e & He & ->)%fmap_Ok)%bind_Ok)%bind_Ok)%bind_Ok.
  intros (c1 & K1 & (c2 & K2 & (c3 & K3 & (e' & He' & Heq)%fmap_Ok)%bind_Ok)%bind_Ok)%bind_Ok.
  pose proof (prefix_free_mapM_end _frame _ _ e e' He He' Heq eq_refl). simplify_eq.
  by rewrite (utf8_encode_inj d d' c1), (utf8_encode_inj n n' c2), (utf8_encode_inj a a' c3).
Qed.

Lemma request_sig_payload_inj t d n a t' d' n' a' p :
  request_sig_payload t d n a = Ok p → request_sig_payload t' d' n' a' = Ok p →
  (t, d, n, a) = (t', d', n', a').
Proof.
  unfold request_sig_payload. intros (b1 & E1 & (b2 & E2 & (b3 & E3 & (e & He & ->)%fmap_Ok)%bind_Ok)%bind_Ok)%bind_Ok.
  intros (c1 & K1 & (c2 & K2 & (c3 & K3 & (e' & He' & Heq)%fmap_Ok)%bind_Ok)%bind_Ok)%bind_Ok.
  pose proof (prefix_free_mapM_end _frame _ _ e e' He He' Heq eq_refl). simplify_eq.
  by rewrite (utf8_encode_inj d d' c1), (utf8_encode_inj n n' c2), (utf8_encode_inj a a' c3).
Qed.

Lemma enroll_pop_payload_inj s t n i x s' t' n' i' x' p :
  enroll_pop_payload s t n i x = Ok p → enroll_pop_payload s' t' n' i' x' = Ok p →
  (s, t, n, i, x) = (s', t', n', i', x').
Proof.
  unfold enroll_pop_payload. intros H1 H2. open_binds. simpl in *.
  repeat match goal with H : _uint_slot _ _ = Ok _ |- _ => apply uint_slot_Ok in H as [-> _] end.
  do 6 peel. by simplify_eq.
Qed.

Lemma call_sig_v3_payload_inj t d n a s ss c i f t' d' n' a' s' ss' c' i' f' p :
  call_sig_v3_payload t d n a s ss c i f = Ok p →
  call_sig_v3_payload t' d' n' a' s' ss' c' i' f' = Ok p →
  same_op (OpCallV3 t d n a s ss c i f) (OpCallV3 t' d' n' a' s' ss' c' i' f').
Proof.
  unfold call_sig_v3_payload. intros H1 H2.
  apply bind_Ok in H1 as (enc1 & Henc1 & H1). apply bind_Ok in H2 as (enc2 & Henc2 & H2).
  open_binds. match goal with H : bjoin _ = bjoin _ |- _ => rename H into Heq end. symmetry in Heq.
  rewrite !concat_app in Heq. simpl in Heq. rewrite <-?(assoc_L (++)) in Heq. simpl in Heq.
  do 7 peel. peel_list. do 3 peel. peel_end. rename Heq into Hf.
  apply (merge_sort_eq_perm pair_le) in Hf.
  eapply mapM_res_perm in Henc1 as (l & Hl & Hl'); [|done].
  eapply (mapM_res_inj encode_pair) in Henc2; [|apply encode_pair_inj|done].
  simpl. split; [by simplify_eq|by rewrite Hl, Henc2].
Qed.

(** C25. The bytes an agent signs determine what it signed: two operations with the same payload are the
    same kind of operation (authorize v2, authorize v3, request credential, enrolment proof) with the
    same fields, the order of the feature items apart. So no captured signature can be re-pointed at
    another ticket, tool, agent, subject list, resource, body, tenant or operation kind. *)
Theorem signed_payload_injective o1 o2 p :
  payload_of o1 = Ok p → payload_of o2 = Ok p → same_op o1 o2.
Proof.
  intros H1 H2.
  destruct (payload_head o1 p H1) as (f1 & r1 & Hf1 & ->).
  destruct (payload_head o2 _ H2) as (f2 & r2 & Hf2 & Heq).
  apply (prefix_free _ _ _ _ _ _ Hf1 Hf2) in Heq as [Hctx _].
  destruct o1, o2; try (vm_compute in Hctx; discriminate Hctx); unfold payload_of in *.
  - simpl. by pose proof (call_sig_payload_inj _ _ _ _ _ _ _ _ _ H1 H2); simplify_eq.
  - by apply (call_sig_v3_payload_inj _ _ _ _ _ _ _ _ _ _ _ _ _ _ _ _ _ _ _ H1 H2).
  - simpl. by pose proof (request_sig_payload_inj _ _ _ _ _ _ _ _ _ H1 H2); simplify_eq.
  - simpl. by pose proof (enroll_pop_payload_inj _ _ _ _ _ _ _ _ _ _ _ H1 H2); simplify_eq.
Qed.

(** Only encoding errors can stop a field from being encoded. *)
Lemma mapM_encode_pair_Raise l e : mapM encode_pair l = Raise e → e = UnicodeEncodeError.
Proof.
  intros (p & _ & Hp)%mapM_Raise_in. revert Hp. unfold encode_pair.
  intros [?|(k & _ & [?|(v & _ & ?)]%bind_Raise)]%bind_Raise; [by eapply utf8_encode_Raise..|done].
Qed.

(** A features dict is signed as a set: the payload does not depend on the order in which the dict
    lists its items, and an absent dict signs the same bytes as an empty one. *)
Theorem call_sig_v3_features_unordered t d n a s ss c i f f' :
  default [] f ≡ₚ default [] f' →
  call_sig_v3_payload t d n a s ss c i f = call_sig_v3_payload t d n a s ss c i f'.
Proof.
  intros Hp. unfold call_sig_v3_payload.
  destruct (mapM encode_pair (default [] f)) as [e|x] eqn:E.
  - destruct (mapM_res_perm_fwd _ _ _ _ Hp E) as (e' & -> & He).
    cbn. by rewrite (merge_sort_perm_eq pair_le e e').
  - destruct (mapM encode_pair (default [] f')) as [e'|x'] eqn:E'.
    + symmetry in Hp. destruct (mapM_res_perm_fwd _ _ _ _ Hp E') as (e'' & He & _). congruence.
    + apply mapM_encode_pair_Raise in E as ->. by apply mapM_encode_pair_Raise in E' as ->.
Qed.

(** ** Enrolment proofs *)

Lemma new_enroll_pop_nonce_valid (token : bytes) :
  length token = 16%nat → Forall is_byte token →
  validate_enroll_pop_nonce (PStr (new_enroll_pop_nonce token)) = Ok (new_enroll_pop_nonce token).
Proof.
  intros Hlen Hb. unfold validate_enroll_pop_nonce, new_enroll_pop_nonce.
  rewrite b64url_nopad_length, Hlen. simpl. by rewrite b64url_nopad_chars.
Qed.

(** Enrolment proofs check out: a proof made by [enroll_pop] with a seed verifies for the AID of that
    seed's key and for the tenant, namespace, time and nonce it was made for. *)
Theorem enroll_pop_verifies `{Ed25519Laws} seed tenant ns issued nonce proof :
  enroll_pop seed tenant ns issued nonce = Ok proof →
  verify_enroll_pop (aid_from_pubkey (ed_public seed)) tenant ns (ep_issued_at_ms proof)
    (ep_nonce proof) (ep_signature proof) = true ∧
  ep_issued_at_ms proof = issued ∧ nonce = PStr (ep_nonce proof).
Proof.
  unfold enroll_pop, private_from_bytes. case_decide as Hlen.
  - intros (n & Hn & (sk & <-%Ok_inj & (p & Hp & <-%Ok_inj)%bind_Ok)%bind_Ok)%bind_Ok. simpl.
    split_and!; [|done|].
    + unfold verify_enroll_pop. rewrite aid_roundtrip by apply ed_public_bytes.
      cbn [mbind res_bind]. unfold public_from_bytes.
      rewrite decide_True by by apply ed_public_length. cbn [mbind res_bind].
      rewrite Hp. cbn [mbind res_bind]. unfold key_verify. by rewrite ed_verify_sign.
    + revert Hn. unfold validate_enroll_pop_nonce. repeat case_match; intros; simplify_eq; done.
  - by intros (n & _ & (sk & ? & _)%bind_Ok)%bind_Ok.
Qed.

(** ** Conformance vectors and witnesses *)

Definition vector_ticket : bytes := seqZ 1 16.
Definition vector_digest : pystr :=
  lit "sha256:abababababababababababababababababababababababababababababababab".

(** [conformance/call_sig_v3_payload_vector.json], case [full]. *)
Definition vector_v3 (features : str_dict) : signed_op :=
  OpCallV3 vector_ticket vector_digest (lit "read_file") (lit "billing-agent") (lit "user-1")
    [lit "user-2"; lit "user-3"] (lit "req-0001") (lit "sess-9") (Some features).

Example call_sig_v3_vector_full :
  hex_of_bytes <$> payload_of
    (vector_v3 [(lit "region", lit "eu"); (lit "amount_bucket", lit "high")])
  = Ok (lit "160000007365616d2d617574686f72697a652d63616c6c2d7633100000000102030405060708090a0b0c0d0e0f10470000007368613235363a6162616261626162616261626162616261626162616261626162616261626162616261626162616261626162616261626162616261626162616261626162616209000000726561645f66696c650d00000062696c6c696e672d6167656e7406000000757365722d31040000000200000006000000757365722d3206000000757365722d33080000007265712d3030303106000000736573732d3904000000020000000d000000616d6f756e745f6275636b6574040000006869676806000000726567696f6e020000006575").
Proof. vm_compute. reflexivity. Qed.

(** [conformance/request_sig_payload_vector.json], case [bodyless-read]. *)
Example request_sig_vector_bodyless :
  hex_of_bytes <$> request_sig_payload vector_ticket (lit "/seam.api.v1.SeamCoordination/GetDecision")
    (lit "dec:0193f2a4-7c1e-7b3a-9f21-5d8e2c4a6b70") []
  = Ok (lit "140000007365616d2d726571756573742d63616c6c2d7631100000000102030405060708090a0b0c0d0e0f10290000002f7365616d2e6170692e76312e5365616d436f6f7264696e6174696f6e2f4765744465636973696f6e280000006465633a30313933663261342d376331652d376233612d396632312d35643865326334613662373000000000").
Proof. vm_compute. reflexivity. Qed.

(** [conformance/enroll_pop_v1_payload_vector.json], case [basic]. *)
Example enroll_pop_vector_basic :
  hex_of_bytes <$> enroll_pop_payload
    (lit "aid:pubkey:ed25519:11qYAYKxCrfVS_7TyWQHOg7hcvPapiMlrwIaaPcHURo") (lit "acme") (lit "fraud")
    (PInt 1760000000000) (lit "AAECAwQFBgcICQoLDA0ODw")
  = Ok (lit "120000007365616d2d656e726f6c6c2d706f702d76313e0000006169643a7075626b65793a656432353531393a3131715941594b7843726656535f3754795751484f6737686376506170694d6c727749616150634855526f0400000061636d650500000066726175640800000000c02cc8990100001600000041414543417751464267634943516f4c4441304f4477").
Proof. vm_compute. reflexivity. Qed.

Lemma signed_payload_injective_witness :
  same_op (vector_v3 [(lit "region", lit "eu"); (lit "amount_bucket", lit "high")])
          (vector_v3 [(lit "amount_bucket", lit "high"); (lit "region", lit "eu")]).
Proof. eapply signed_payload_injective; vm_compute; reflexivity. Defined.

Lemma call_sig_v3_features_unordered_witness :
  call_sig_v3_payload vector_ticket vector_digest (lit "t") [] [] [] [] []
    (Some [(lit "b", lit "2"); (lit "a", lit "1")])
  = call_sig_v3_payload vector_ticket vector_digest (lit "t") [] [] [] [] []
    (Some [(lit "a", lit "1"); (lit "b", lit "2")]).
Proof. apply call_sig_v3_features_unordered. simpl. constructor. Defined.

Lemma enroll_pop_verifies_witness :
  ∃ proof, @enroll_pop toy_ed25519 (repeat 7 32) (lit "acme") (lit "fraud") (PInt 1760000000000)
             (PStr (lit "AAECAwQFBgcICQoLDA0ODw")) = Ok proof ∧
    @verify_enroll_pop toy_ed25519 (aid_from_pubkey (@ed_public toy_ed25519 (repeat 7 32)))
      (lit "acme") (lit "fraud") (ep_issued_at_ms proof) (ep_nonce proof) (ep_signature proof) = true.
Proof.
  destruct (@enroll_pop toy_ed25519 (repeat 7 32) (lit "acme") (lit "fraud") (PInt 1760000000000)
             (PStr (lit "AAECAwQFBgcICQoLDA0ODw"))) as [proof|e] eqn:E.
  - exists proof. split; [done|].
    apply (@enroll_pop_verifies toy_ed25519 toy_ed25519_laws _ _ _ _ _ _ E).
  - vm_compute in E. discriminate E.
Defined.
