(* ===== verification/RecordDigest.v ===== *)
(** * Record digests: the v4 audit digests and the chain-head attestation

    [crypto.py]: [_as_bytes] through [record_digest_v4] (the streamed [DECISION_SEALED] digest and its
    strip refusals), [participants_digest_v4], [context_digest_v4], and the chain-head attestation
    digest with its verification. Arguments whose type the code checks are [pyval]s. *)

From stdpp Require Import base list numbers option strings.
From S2P Require Import Prelude Text Sha256 Base64 Keys Framing.

(** ** Slots of the v4 preimage *)

Definition _SUB_DIGEST_LEN : Z := 32.

(** The bytes of a contiguous buffer of one-byte items; anything else is not a byte sequence. *)
Definition _as_bytes (value : pyval) : option bytes :=
  match value with
  | PBytes b => Some b
  | PBuf itemsize contiguous raw => if (itemsize =? 1) && contiguous then Some raw else None
  | _ => None
  end.

Definition _sub_digest (name : string) (tag : Z) (value : pyval) (optional : bool) : res (option bytes) :=
  if is_none value || (negb optional && match _as_bytes value with Some [] => true | _ => false end) then
    if optional then Ok None else Raise (RecordDigestStripError name tag)
  else
    match _as_bytes value with
    | None => Raise (RecordDigestStripError name tag)
    | Some raw =>
      if negb (zlen raw =? _SUB_DIGEST_LEN) then Raise (RecordDigestStripError name tag)
      else Ok (Some raw)
    end.

(** [_rd_text]; [_rd_enc] is [utf8_encode] (the unbound [str.encode]). *)
Definition _rd_text (value : pyval) (optional : bool) : res (option pystr) :=
  if optional && is_none value then Ok None
  else match value with PStr s => Ok (Some s) | _ => Raise TypeError end.

Definition _mandatory_text (name : string) (tag : Z) (value : pyval) : res (option pystr) :=
  match value with
  | PNone | PStr [] => Raise (RecordDigestStripError name tag)
  | _ => _rd_text value false
  end.

(** The value of a slot that is not optional; [len(None)] would be a [TypeError]. *)
Definition required {A} (m : res (option A)) : res A :=
  o ← m; match o with Some a => Ok a | None => Raise TypeError end.

Definition _rd_opt_text (x : option pystr) : res bytes := opt_enc frame_text x.
Definition _opt_bytes (b : option bytes) : res bytes := opt_enc _frame b.

(** ** The v4 record digest *)

Definition RECORD_DIGEST_SCHEMA_VERSION : Z := 4.

(** The arguments of [record_digest_v4], as passed. *)
Record record_args := {
  a_decision_id : pyval; a_tenant : pyval; a_namespace : pyval; a_ciphertext_digest : pyval;
  a_sealed_at : pyval; a_outcome : pyval; a_mode : pyval; a_policy_version : pyval;
  a_supersedes : pyval; a_context_digest : pyval; a_participation_digest : pyval;
  a_policy_rules_digest : pyval; a_classification : pyval; a_participants_digest : pyval;
  a_trust_basis_commitment : pyval; a_auth_method : pyval; a_schema_version : pyval;
}.

(** The same slots once validated. *)
Record record_slots := {
  r_decision_id : pystr; r_tenant : pystr; r_namespace : pystr; r_ciphertext_digest : bytes;
  r_sealed_at : Z; r_outcome : pystr; r_mode : option pystr; r_policy_version : option pystr;
  r_supersedes : option pystr; r_context_digest : bytes; r_participation_digest : bytes;
  r_policy_rules_digest : option bytes; r_classification : pystr; r_participants_digest : bytes;
  r_trust_basis_commitment : pystr; r_auth_method : pystr; r_schema_version : Z;
}.

Definition schema_is_4 (v : pyval) : bool :=
  match v with PInt z => z =? RECORD_DIGEST_SCHEMA_VERSION | _ => false end.

(** Every check of [record_digest_v4], in its order: the version gate, the sub-digests (tags 11, 12,
    13, 15), the mandatory texts (14, 16, 17), the ciphertext digest, the other texts, [sealed_at]. *)
Definition validate_record (a : record_args) : res record_slots :=
  _ ← guard_raise (schema_is_4 (a_schema_version a)) (UnsupportedRecordDigestVersion (a_schema_version a));
  context_digest ← required (_sub_digest "context_digest" 11 (a_context_digest a) false);
  participation_digest ←
    required (_sub_digest "participation_digest" 12 (a_participation_digest a) false);
  policy_rules_digest ← _sub_digest "policy_rules_digest" 13 (a_policy_rules_digest a) true;
  participants_digest ←
    required (_sub_digest "participants_digest" 15 (a_participants_digest a) false);
  classification ← required (_mandatory_text "classification" 14 (a_classification a));
  trust_basis_commitment ←
    required (_mandatory_text "trust_basis_commitment" 16 (a_trust_basis_commitment a));
  auth_method ← required (_mandatory_text "auth_method" 17 (a_auth_method a));
  ciphertext_bytes ← match _as_bytes (a_ciphertext_digest a) with
                     | Some b => Ok b | None => Raise TypeError end;
  decision_id ← required (_rd_text (a_decision_id a) false);
  tenant ← required (_rd_text (a_tenant a) false);
  namespace ← required (_rd_text (a_namespace a) false);
  outcome ← required (_rd_text (a_outcome a) false);
  mode ← _rd_text (a_mode a) true;
  policy_version ← _rd_text (a_policy_version a) true;
  supersedes ← _rd_text (a_supersedes a) true;
  sealed_at ← _uint_slot (a_sealed_at a) 64;
  Ok {| r_decision_id := decision_id; r_tenant := tenant; r_namespace := namespace;
        r_ciphertext_digest := ciphertext_bytes; r_sealed_at := sealed_at; r_outcome := outcome;
        r_mode := mode; r_policy_version := policy_version; r_supersedes := supersedes;
        r_context_digest := context_digest; r_participation_digest := participation_digest;
        r_policy_rules_digest := policy_rules_digest; r_classification := classification;
        r_participants_digest := participants_digest;
        r_trust_basis_commitment := trust_basis_commitment; r_auth_method := auth_method;
        r_schema_version := RECORD_DIGEST_SCHEMA_VERSION |}.

Definition record_digest_domain : bytes := lit "seam.audit.record-digest.v4".

Definition record_preimage (r : record_slots) : res bytes :=
  f0 ← _frame record_digest_domain;
  f1 ← frame_text (r_decision_id r);
  f2 ← frame_text (r_tenant r);
  f3 ← frame_text (r_namespace r);
  f4 ← _frame (r_ciphertext_digest r);
  f5 ← frame_u64 (r_sealed_at r);
  f6 ← frame_text (r_outcome r);
  f7 ← _rd_opt_text (r_mode r);
  f8 ← _rd_opt_text (r_policy_version r);
  f9 ← _rd_opt_text (r_supersedes r);
  f10 ← _frame (r_context_digest r);
  f11 ← _frame (r_participation_digest r);
  f12 ← _opt_bytes (r_policy_rules_digest r);
  f13 ← frame_text (r_classification r);
  f14 ← _frame (r_participants_digest r);
  f15 ← frame_text (r_trust_basis_commitment r);
  f16 ← frame_text (r_auth_method r);
  f17 ← frame_u32 (r_schema_version r);
  Ok (bjoin [f0; f1; f2; f3; f4; f5; f6; f7; f8; f9; f10; f11; f12; f13; f14; f15; f16; f17]).

Definition record_digest_v4 (a : record_args) : res bytes :=
  r ← validate_record a;
  pre ← record_preimage r;
  Ok (sha256 pre).

(** ** The participants sub-digest (wire tag 15) *)

Definition PARTICIPANTS_DIGEST_DOMAIN_V4 : bytes := lit "seam.audit.participants.v4".

Definition participants_preimage (ids : list pystr) : res bytes :=
  f0 ← _frame PARTICIPANTS_DIGEST_DOMAIN_V4;
  n ← pack_u32le (zlen ids);
  fs ← mapM frame_text ids;
  Ok (f0 ++ n ++ bjoin fs).

Definition participants_digest_v4 (participants : pyval) : res bytes :=
  match participants with
  | PStr _ | PBytes _ => Raise TypeError
  | _ =>
    l ← py_iter participants;
    ids ← mapM (λ x, required (_rd_text x false)) l;
    pre ← participants_preimage ids;
    Ok (sha256 pre)
  end.

(** ** The context-provenance sub-digest (wire tag 11) *)

Definition CONTEXT_PROVENANCE_DOMAIN_V4 : bytes := lit "seam.audit.context-provenance.v4".
Definition RECEIPT_KEY_STATUSES : list pystr := [lit "Current"; lit "Historical"].

(** A [pb.ContextBinding] message: [option] where the proto field has explicit presence. *)
Record ContextBinding := {
  cb_ctx_ref : pystr; cb_fidelity : pystr; cb_classification : pystr; cb_version : Z;
  cb_derived_from : list pystr; cb_lineage_id : option pystr; cb_content_hash : option pystr;
  cb_receipt_hash : option pystr; cb_key_status : option pystr; cb_resolved_status : option pystr;
  cb_receipt_key_status : option pystr;
}.

(** One binding: a message, or a [dict] keyed by the spec's field names. *)
Inductive ctx_binding := CtxMsg (m : ContextBinding) | CtxDict (d : list (string * pyval)).

Definition opt_str (o : option pystr) : pyval := match o with Some s => PStr s | None => PNone end.

(** [_ctx_get]: on a message an unset optional field reads as [None], never as the proto default; on a
    [dict] a missing mandatory key is a [KeyError]. *)
Definition _ctx_get (b : ctx_binding) (name : string) (optional : bool) : res pyval :=
  match b with
  | CtxDict d =>
    match assoc name d with
    | Some v => Ok v
    | None => if optional then Ok PNone else Raise KeyError
    end
  | CtxMsg m =>
    if String.eqb name "ctx_ref" then Ok (PStr (cb_ctx_ref m))
    else if String.eqb name "fidelity" then Ok (PStr (cb_fidelity m))
    else if String.eqb name "classification" then Ok (PStr (cb_classification m))
    else if String.eqb name "version" then Ok (PInt (cb_version m))
    else if String.eqb name "derived_from" then Ok (PList (PStr <$> cb_derived_from m))
    else if String.eqb name "lineage_id" then Ok (opt_str (cb_lineage_id m))
    else if String.eqb name "content_hash" then Ok (opt_str (cb_content_hash m))
    else if String.eqb name "receipt_hash" then Ok (opt_str (cb_receipt_hash m))
    else if String.eqb name "key_status" then Ok (opt_str (cb_key_status m))
    else if String.eqb name "resolved_status" then Ok (opt_str (cb_resolved_status m))
    else if String.eqb name "receipt_key_status" then Ok (opt_str (cb_receipt_key_status m))
    else Raise AttributeError
  end.

(** One validated row: [text], [lineage], [version], [derived], [tail]. *)
Record ctx_row := {
  row_ctx_ref : pystr; row_fidelity : pystr; row_classification : pystr;
  row_lineage : option pystr; row_version : Z; row_derived : list pystr;
  row_content_hash : option pystr; row_receipt_hash : option pystr; row_key_status : option pystr;
  row_resolved_status : option pystr; row_receipt_key_status : option pystr;
}.

Definition ctx_text (b : ctx_binding) (name : string) : res pystr :=
  v ← _ctx_get b name false; required (_rd_text v false).
Definition ctx_opt_text (b : ctx_binding) (name : string) : res (option pystr) :=
  v ← _ctx_get b name true; _rd_text v true.

Definition ctx_row_of (i : nat) (b : ctx_binding) : res ctx_row :=
  ctx_ref ← ctx_text b "ctx_ref";
  fidelity ← ctx_text b "fidelity";
  classification ← ctx_text b "classification";
  lineage ← ctx_opt_text b "lineage_id";
  v ← _ctx_get b "version" false;
  version ← _uint_slot v 32;
  d ← _ctx_get b "derived_from" true;
  derived ← (if is_none d then Ok [] else py_iter d);
  derived ← mapM (λ x, required (_rd_text x false)) derived;
  content_hash ← ctx_opt_text b "content_hash";
  receipt_hash ← ctx_opt_text b "receipt_hash";
  key_status ← ctx_opt_text b "key_status";
  resolved_status ← ctx_opt_text b "resolved_status";
  receipt_key_status ← ctx_opt_text b "receipt_key_status";
  _ ← guard_raise (bool_decide (is_Some receipt_key_status ↔ is_Some receipt_hash))
        (ContextProvenanceError i "receipt_key_status");
  _ ← guard_raise (match receipt_key_status with
                   | Some s => bool_decide (s ∈ RECEIPT_KEY_STATUSES) | None => true end)
        (ContextProvenanceError i "receipt_key_status");
  Ok {| row_ctx_ref := ctx_ref; row_fidelity := fidelity; row_classification := classification;
        row_lineage := lineage; row_version := version; row_derived := derived;
        row_content_hash := content_hash; row_receipt_hash := receipt_hash;
        row_key_status := key_status; row_resolved_status := resolved_status;
        row_receipt_key_status := receipt_key_status |}.

Definition ctx_row_bytes (r : ctx_row) : res bytes :=
  f0 ← frame_text (row_ctx_ref r);
  f1 ← frame_text (row_fidelity r);
  f2 ← frame_text (row_classification r);
  f3 ← _rd_opt_text (row_lineage r);
  f4 ← frame_u32 (row_version r);
  n ← pack_u32le (zlen (row_derived r));
  fs ← mapM frame_text (row_derived r);
  f5 ← _rd_opt_text (row_content_hash r);
  f6 ← _rd_opt_text (row_receipt_hash r);
  f7 ← _rd_opt_text (row_key_status r);
  f8 ← _rd_opt_text (row_resolved_status r);
  f9 ← _rd_opt_text (row_receipt_key_status r);
  Ok (bjoin [f0; f1; f2; f3; f4; n] ++ bjoin fs ++ bjoin [f5; f6; f7; f8; f9]).

Definition context_preimage (rows : list ctx_row) : res bytes :=
  f0 ← _frame CONTEXT_PROVENANCE_DOMAIN_V4;
  n ← pack_u32le (zlen rows);
  fs ← mapM ctx_row_bytes rows;
  Ok (f0 ++ n ++ bjoin fs).

Fixpoint ctx_rows (i : nat) (bs : list ctx_binding) : res (list ctx_row) :=
  match bs with
  | [] => Ok []
  | b :: bs => r ← ctx_row_of i b; rs ← ctx_rows (S i) bs; Ok (r :: rs)
  end.

(** [BindingsSingle] is a [str], [bytes] or [dict] passed where a list belongs. *)
Inductive bindings_arg := BindingsSingle | BindingsList (l : list ctx_binding).

Definition context_digest_v4 (bindings : bindings_arg) : res bytes :=
  match bindings with
  | BindingsSingle => Raise TypeError
  | BindingsList l => rows ← ctx_rows 0 l; pre ← context_preimage rows; Ok (sha256 pre)
  end.

(** ** Chain-head attestations *)

Definition CHAIN_HEAD_ATTESTATION_DOMAIN_V1 : bytes := lit "seam.audit.chain-head-attestation.v1".
Definition CHAIN_HEAD_ATTESTATION_DOMAIN_V2 : bytes := lit "seam.audit.chain-head-attestation.v2".

Definition chain_head_preimage (attested_len : Z) (attested_head : bytes)
    (attested_at digest_schema : Z) (issuer_aid : pystr) (tenant : option pystr) : res bytes :=
  f0 ← _frame (if tenant is Some _ then CHAIN_HEAD_ATTESTATION_DOMAIN_V2 else CHAIN_HEAD_ATTESTATION_DOMAIN_V1);
  f1 ← frame_u64 attested_len;
  f2 ← _frame attested_head;
  f3 ← frame_u64 attested_at;
  f4 ← frame_u32 digest_schema;
  f5 ← frame_text issuer_aid;
  f6 ← match tenant with Some t => frame_text t | None => Ok [] end;
  Ok (bjoin [f0; f1; f2; f3; f4; f5; f6]).

Definition _chain_head_attestation_digest (attested_len : Z) (attested_head : bytes)
    (attested_at digest_schema : Z) (issuer_aid : pystr) (tenant : option pystr) : res bytes :=
  sha256 <$> chain_head_preimage attested_len attested_head attested_at digest_schema issuer_aid tenant.

Section attestation.
Context `{Ed25519}.

Record attestation_args := {
  at_issuer_aid : pyval; at_len : pyval; at_head : pyval; at_at : pyval; at_schema : pyval;
  at_signature : pyval; at_tenant : pyval;
}.

Definition as_str (v : pyval) : res pystr :=
  match v with PStr s => Ok s | _ => Raise TypeError end.
Definition as_buffer (v : pyval) : res bytes :=
  match _as_bytes v with Some b => Ok b | None => Raise TypeError end.

(** The range pass of the three integer slots. *)
Definition in_range (v : pyval) (bits : Z) : bool :=
  match _uint_slot v bits with Ok _ => true | Raise _ => false end.

(** Types of every argument first, then ranges (out of range is [False]), then the key (unreadable is
    [False]), then one signature check under the framing the tenant selects. *)
Definition verify_chain_head_attestation (a : attestation_args) : res bool :=
  attested_len ← _require_int (at_len a);
  attested_at ← _require_int (at_at a);
  digest_schema ← _require_int (at_schema a);
  head ← as_buffer (at_head a);
  issuer_aid ← as_str (at_issuer_aid a);
  tenant ← as_str (at_tenant a);
  signature ← as_buffer (at_signature a);
  if negb (in_range (at_len a) 64 && in_range (at_at a) 64 && in_range (at_schema a) 32) then Ok false
  else
    match (k ← _aid_to_pubkey issuer_aid; public_from_bytes k) with
    | Raise _ => Ok false
    | Ok key =>
      digest ← _chain_head_attestation_digest attested_len head attested_at digest_schema issuer_aid
                 (match tenant with [] => None | _ => Some tenant end);
      Ok (ed_verify key signature digest)
    end.

(** A [ChainHeadAttestation] message; its fields are read as they are. *)
Record chain_head_message := {
  ch_issuer_aid : pyval; ch_len : pyval; ch_head : pyval; ch_at : pyval; ch_schema : pyval;
  ch_signature : pyval; ch_tenant : pyval;
}.

Definition verify_chain_head_attestation_message (issuer_aid : pyval) (m : chain_head_message) : res bool :=
  pinned ← as_str issuer_aid;
  match ch_issuer_aid m with
  | PStr named =>
    if decide (named = pinned) then
      verify_chain_head_attestation
        {| at_issuer_aid := issuer_aid; at_len := ch_len m; at_head := ch_head m; at_at := ch_at m;
           at_schema := ch_schema m; at_signature := ch_signature m; at_tenant := ch_tenant m |}
    else Ok false
  | _ => Ok false
  end.
End attestation.

(** ** Injectivity of the preimages *)

Ltac peel_all := repeat peel; simplify_eq/=.

Global Instance rd_opt_text_prefix_free : PrefixFree _rd_opt_text.
Proof. unfold _rd_opt_text. apply _. Qed.
Global Instance opt_bytes_prefix_free : PrefixFree _opt_bytes.
Proof. unfold _opt_bytes. apply _. Qed.

Lemma record_preimage_inj r1 r2 p :
  record_preimage r1 = Ok p → record_preimage r2 = Ok p → r1 = r2.
Proof.
  unfold record_preimage. intros H1 H2. open_binds.
  match goal with H : bjoin _ = bjoin _ |- _ => rename H into Heq end. simpl in Heq.
  do 18 peel. destruct r1, r2; simpl in *. f_equal; first [assumption|symmetry; assumption].
Qed.

Lemma participants_preimage_inj l1 l2 p :
  participants_preimage l1 = Ok p → participants_preimage l2 = Ok p → l1 = l2.
Proof.
  unfold participants_preimage. intros H1 H2. open_binds.
  match goal with H : _ ++ _ = _ ++ _ |- _ => rename H into Heq end.
  do 2 peel. by peel_end.
Qed.

Global Instance ctx_row_bytes_prefix_free : PrefixFree ctx_row_bytes.
Proof.
  intros r1 r2 e1 e2 x y. unfold ctx_row_bytes. intros H1 H2 Heq. open_binds.
  simpl in Heq. rewrite ?app_nil_r in Heq. rewrite <-?(assoc_L (++)) in Heq. do 6 peel.
  peel_list.
  simpl in Heq. do 5 peel. destruct r1, r2; simpl in *. split; [|done].
  f_equal; first [assumption|symmetry; assumption].
Qed.

Lemma context_preimage_inj l1 l2 p :
  context_preimage l1 = Ok p → context_preimage l2 = Ok p → l1 = l2.
Proof.
  unfold context_preimage. intros H1 H2. open_binds.
  match goal with H : _ ++ _ = _ ++ _ |- _ => rename H into Heq end.
  do 2 peel. by peel_end.
Qed.

Lemma chain_head_preimage_inj n h a d i t n' h' a' d' i' t' p :
  chain_head_preimage n h a d i t = Ok p → chain_head_preimage n' h' a' d' i' t' = Ok p →
  (n, h, a, d, i, t) = (n', h', a', d', i', t').
Proof.
  unfold chain_head_preimage. intros H1 H2. open_binds.
  match goal with H : bjoin _ = bjoin _ |- _ => rename H into Heq end. simpl in Heq.
  destruct t as [t|], t' as [t'|].
  - do 7 peel. by simplify_eq.
  - peel. match goal with E : _ = CHAIN_HEAD_ATTESTATION_DOMAIN_V2 |- _ => by vm_compute in E
      | E : CHAIN_HEAD_ATTESTATION_DOMAIN_V2 = _ |- _ => by vm_compute in E end.
  - peel. match goal with E : _ = CHAIN_HEAD_ATTESTATION_DOMAIN_V2 |- _ => by vm_compute in E
      | E : CHAIN_HEAD_ATTESTATION_DOMAIN_V2 = _ |- _ => by vm_compute in E end.
  - do 6 peel. by simplify_eq.
Qed.

(** ** Properties of the record digest *)

(** The bytes [record_digest_v4] hashes. *)
Definition record_pre (a : record_args) : res bytes := r ← validate_record a; record_preimage r.

Lemma record_digest_v4_pre a : record_digest_v4 a = sha256 <$> record_pre a.
Proof. unfold record_digest_v4, record_pre. by destruct (validate_record a). Qed.

(** The values of a digest slot: the bytes, whichever buffer holds them. *)
Definition same_bytes (v w : pyval) : Prop := ∃ b, _as_bytes v = Some b ∧ _as_bytes w = Some b.

(** Two records of version 4 that agree on every slot, as passed: the same texts, the same time, the same bytes; an
    optional text is [None] in both or the same text in both, the empty one included, and the optional
    sub-digest is [None] in both or the same bytes in both. *)
Definition same_record (a b : record_args) : Prop :=
  (a_decision_id a = a_decision_id b ∧ a_tenant a = a_tenant b ∧ a_namespace a = a_namespace b ∧ a_outcome a = a_outcome b ∧
   a_classification a = a_classification b ∧ a_trust_basis_commitment a = a_trust_basis_commitment b ∧
   a_auth_method a = a_auth_method b) ∧
  (a_mode a = a_mode b ∧ a_policy_version a = a_policy_version b ∧ a_supersedes a = a_supersedes b) ∧
  (a_sealed_at a = a_sealed_at b ∧ a_schema_version a = PInt 4 ∧ a_schema_version b = PInt 4) ∧
  (same_bytes (a_ciphertext_digest a) (a_ciphertext_digest b) ∧ same_bytes (a_context_digest a) (a_context_digest b) ∧
   same_bytes (a_participation_digest a) (a_participation_digest b) ∧ same_bytes (a_participants_digest a) (a_participants_digest b)) ∧
  (a_policy_rules_digest a = PNone ∧ a_policy_rules_digest b = PNone ∨ same_bytes (a_policy_rules_digest a) (a_policy_rules_digest b)).

(** The validated record holds the values of the slots. *)
Definition reads (a : record_args) (r : record_slots) : Prop :=
  (a_decision_id a = PStr (r_decision_id r) ∧ a_tenant a = PStr (r_tenant r) ∧ a_namespace a = PStr (r_namespace r) ∧
   a_outcome a = PStr (r_outcome r) ∧ a_classification a = PStr (r_classification r) ∧
   a_trust_basis_commitment a = PStr (r_trust_basis_commitment r) ∧ a_auth_method a = PStr (r_auth_method r)) ∧
  (a_mode a = opt_str (r_mode r) ∧ a_policy_version a = opt_str (r_policy_version r) ∧ a_supersedes a = opt_str (r_supersedes r)) ∧
  (a_sealed_at a = PInt (r_sealed_at r) ∧ a_schema_version a = PInt 4) ∧
  (_as_bytes (a_ciphertext_digest a) = Some (r_ciphertext_digest r) ∧ _as_bytes (a_context_digest a) = Some (r_context_digest r) ∧
   _as_bytes (a_participation_digest a) = Some (r_participation_digest r) ∧
   _as_bytes (a_participants_digest a) = Some (r_participants_digest r)) ∧
  match r_policy_rules_digest r with
  | None => a_policy_rules_digest a = PNone
  | Some b => _as_bytes (a_policy_rules_digest a) = Some b
  end.

Lemma sub_digest_Ok name tag v o b : _sub_digest name tag v o = Ok b →
  match b with None => v = PNone | Some raw => _as_bytes v = Some raw end.
Proof.
  unfold _sub_digest. destruct (is_none v) eqn:En; cbn [orb].
  - destruct o; [intros [= <-]|done]. by destruct v.
  - destruct (_as_bytes v) as [[|x raw]|]; destruct o; cbn [negb andb]; try done; case_match; try done; by intros [= <-].
Qed.
Lemma rd_text_Ok v o b : _rd_text v o = Ok b → v = opt_str b.
Proof. unfold _rd_text. destruct v, o; cbn [is_none andb]; try done; by intros [= <-]. Qed.
Lemma mandatory_text_Ok name tag v b : _mandatory_text name tag v = Ok b → v = opt_str b.
Proof. destruct v as [| | | |[|]| | | | | |]; try done; by intros [= <-]. Qed.
Lemma required_Ok {A} (m : res (option A)) a : required m = Ok a → m = Ok (Some a).
Proof. unfold required. destruct m as [[x|]|]; [by intros [= ->]|done..]. Qed.

Lemma validate_record_reads a r : validate_record a = Ok r → reads a r.
Proof.
  unfold validate_record. rewrite bind_Ok. intros (? & Hs%guard_raise_Ok & Hv).
  repeat (apply bind_Ok in Hv as (? & ? & Hv)). apply Ok_inj in Hv as <-. unfold reads.
  cbn [r_decision_id r_tenant r_namespace r_ciphertext_digest r_sealed_at r_outcome r_mode r_policy_version r_supersedes
    r_context_digest r_participation_digest r_policy_rules_digest r_classification r_participants_digest
    r_trust_basis_commitment r_auth_method].
  repeat match goal with
  | H : required _ = Ok _ |- _ => apply required_Ok in H
  | H : _sub_digest _ _ _ _ = Ok _ |- _ => apply sub_digest_Ok in H
  | H : _mandatory_text _ _ _ = Ok _ |- _ => apply mandatory_text_Ok in H
  | H : _rd_text _ _ = Ok _ |- _ => apply rd_text_Ok in H
  | H : _uint_slot _ _ = Ok _ |- _ => apply uint_slot_Ok in H as [H _]
  end.
  split_and!; try done.
  - unfold schema_is_4 in Hs. destruct (a_schema_version a); try done. by apply Z.eqb_eq in Hs as ->.
  - match goal with H : match _as_bytes _ with _ => _ end = _ |- _ => destruct (_as_bytes (a_ciphertext_digest a)); [by injection H as ->|done] end.
Qed.

Lemma reads_same a b r : reads a r → reads b r → same_record a b.
Proof.
  unfold reads, same_record, same_bytes.
  intros ((?&?&?&?&?&?&?)&(?&?&?)&(?&?)&(?&?&?&?)&Ha) ((?&?&?&?&?&?&?)&(?&?&?)&(?&?)&(?&?&?&?)&Hb).
  split_and!; try congruence; eauto. destruct (r_policy_rules_digest r); [right; by eexists|by left].
Qed.

(** C26. A v4 record digest determines the record: two records with the same digest agree on every slot as it was passed,
    the seven texts, the three optional texts ([None] and the empty text apart), the time, the version and the
    five digests (the optional one absent in both or present in both), unless their two preimages are a SHA-256
    collision. *)
Theorem record_digest_v4_binding a b d :
  record_digest_v4 a = Ok d → record_digest_v4 b = Ok d →
  same_record a b ∨
  ∃ p q, record_pre a = Ok p ∧ record_pre b = Ok q ∧ sha256_collision p q.
Proof.
  rewrite !record_digest_v4_pre. intros (p & Hp & ->)%fmap_Ok (q & Hq & Heq)%fmap_Ok.
  apply sha256_eq_or_collision in Heq as [->|]; [|by eauto 6]. left.
  unfold record_pre in *. apply bind_Ok in Hp as (r & Ha%validate_record_reads & Hr), Hq as (r' & Hb%validate_record_reads & Hr').
  rewrite (record_preimage_inj _ _ _ Hr Hr') in Ha. by eapply reads_same.
Qed.

(** Absence of a mandatory slot: [None], or the empty value. *)
Definition absent (v : pyval) : bool :=
  match v with
  | PNone | PBytes [] | PStr [] => true
  | PBuf 1 true [] => true
  | _ => false
  end.
Definition text_or_none (v : pyval) : bool := match v with PNone | PStr _ => true | _ => false end.

Definition mandatory_slots (a : record_args) : list pyval :=
  [a_context_digest a; a_participation_digest a; a_participants_digest a; a_classification a;
   a_trust_basis_commitment a; a_auth_method a].

(** The seven slots that are checked first, in the order they are: name, tag, kind and value. *)
Inductive slot_kind := SubDigest | PolicyDigest | MandatoryText.
Definition checked_slots (a : record_args) : list (string * Z * slot_kind * pyval) :=
  [("context_digest", 11, SubDigest, a_context_digest a); ("participation_digest", 12, SubDigest, a_participation_digest a);
   ("policy_rules_digest", 13, PolicyDigest, a_policy_rules_digest a); ("participants_digest", 15, SubDigest, a_participants_digest a);
   ("classification", 14, MandatoryText, a_classification a); ("trust_basis_commitment", 16, MandatoryText, a_trust_basis_commitment a);
   ("auth_method", 17, MandatoryText, a_auth_method a)]%string.

(** What a slot is refused with: a digest that is not 32 bytes, and a text that is [None] or empty, with the strip of that
    slot; a text slot that holds no text with a [TypeError]. The policy digest may be [None]. *)
Definition is_digest (v : pyval) : bool := match _as_bytes v with Some raw => zlen raw =? 32 | None => false end.
Definition slot_refusal (s : string * Z * slot_kind * pyval) : option exn :=
  let '(field, tag, kind, v) := s in
  match kind with
  | SubDigest => if is_digest v then None else Some (RecordDigestStripError field tag)
  | PolicyDigest => if is_none v || is_digest v then None else Some (RecordDigestStripError field tag)
  | MandatoryText =>
    if text_or_none v && absent v then Some (RecordDigestStripError field tag)
    else if text_or_none v then None else Some TypeError
  end.
Definition first_refusal (a : record_args) : option exn := head (omap slot_refusal (checked_slots a)).

Definition slot_res {A} (m : res A) (refusal : option exn) : Prop :=
  match refusal with Some e => m = Raise e | None => ∃ x, m = Ok x end.

Lemma sub_digest_refusal field tag v : slot_res (required (_sub_digest field tag v false)) (slot_refusal (field, tag, SubDigest, v)).
Proof.
  unfold slot_refusal, is_digest, required, _sub_digest, _SUB_DIGEST_LEN. destruct (is_none v) eqn:En; cbn [orb]; [by destruct v|].
  destruct (_as_bytes v) as [[|x raw]|]; cbn [negb andb]; [done| |done].
  destruct (zlen (x :: raw) =? 32); cbn [negb]; [by eexists|done].
Qed.
Lemma policy_digest_refusal field tag v : slot_res (_sub_digest field tag v true) (slot_refusal (field, tag, PolicyDigest, v)).
Proof.
  unfold slot_refusal, is_digest, _sub_digest, _SUB_DIGEST_LEN. destruct (is_none v); cbn [orb negb andb]; [by eexists|].
  destruct (_as_bytes v) as [raw|]; [|done]. destruct (zlen raw =? 32); cbn [negb]; [by eexists|done].
Qed.
Lemma mandatory_text_refusal field tag v : slot_res (required (_mandatory_text field tag v)) (slot_refusal (field, tag, MandatoryText, v)).
Proof. destruct v as [| | | |[|c s]| | | | | |]; try done; by eexists. Qed.

(** A computation that never reports a strip. *)
Definition never_strips {A} (m : res A) : Prop := ∀ field tag, m ≠ Raise (RecordDigestStripError field tag).
Lemma never_strips_bind {A B} (m : res A) (k : A → res B) : never_strips m → (∀ a, never_strips (k a)) → never_strips (m ≫= k).
Proof. intros Hm Hk. destruct m as [a|e]; [apply Hk|]. intros f t [= ->]. by eapply Hm. Qed.
Lemma never_strips_Ok {A} (a : A) : never_strips (Ok a).
Proof. done. Qed.
Lemma never_strips_rd_text v : never_strips (required (_rd_text v false)).
Proof. by destruct v. Qed.
Lemma never_strips_rd_opt v : never_strips (_rd_text v true).
Proof. by destruct v. Qed.
Lemma never_strips_encode s : never_strips (utf8_encode s).
Proof.
  unfold utf8_encode. assert (never_strips (mapM utf8_char s)) as Hm.
  { induction s as [|c s IH]; [done|]. apply never_strips_bind; [unfold utf8_char; intros f t; by repeat case_match|].
    intros b. by apply never_strips_bind. }
  destruct (mapM _ _) as [x|e]; [done|]. intros f t [= ->]. by eapply Hm.
Qed.
Lemma never_strips_frame b : never_strips (_frame b).
Proof. apply never_strips_bind; [|done]. unfold pack_u32le. intros f t. by repeat case_match. Qed.
Lemma never_strips_text s : never_strips (frame_text s).
Proof. apply never_strips_bind; [apply never_strips_encode|apply never_strips_frame]. Qed.
Lemma never_strips_u64 n : never_strips (frame_u64 n).
Proof. apply never_strips_bind; [|apply never_strips_frame]. unfold pack_u64le. intros f t. by repeat case_match. Qed.
Lemma never_strips_u32 n : never_strips (frame_u32 n).
Proof. apply never_strips_bind; [|apply never_strips_frame]. unfold pack_u32le. intros f t. by repeat case_match. Qed.
Lemma never_strips_opt {A} (enc : A → res bytes) o : (∀ a, never_strips (enc a)) → never_strips (opt_enc enc o).
Proof. intros He. destruct o; [|done]. by apply never_strips_bind. Qed.
Lemma never_strips_uint v n : never_strips (_uint_slot v n).
Proof. apply never_strips_bind; [by destruct v|]. intros z f t. by case_match. Qed.

Lemma record_preimage_strips r : never_strips (record_preimage r).
Proof.
  unfold record_preimage, _rd_opt_text, _opt_bytes.
  do 18 (apply never_strips_bind;
    [first [apply never_strips_frame|apply never_strips_text|apply never_strips_u64|apply never_strips_u32|
            apply never_strips_opt; intros ?; first [apply never_strips_text|apply never_strips_frame]]|intros ?]). done.
Qed.

Lemma omap_slots x l : omap slot_refusal (x :: l) = option_list (slot_refusal x) ++ omap slot_refusal l.
Proof. cbn. by destruct (slot_refusal x). Qed.

Ltac next_slot lemma := rewrite omap_slots;
  match goal with |- context [slot_refusal (?f, ?t, ?k, ?v)] =>
    let Hr := fresh in let x := fresh "x" in
    pose proof (lemma f t v) as Hr; destruct (slot_refusal (f, t, k, v)) as [?|]; [by rewrite Hr|destruct Hr as [x ->]; cbn [mbind res_bind option_list app]]
  end.

(** In version 4 the first refused slot decides, and nothing after the seven slots reports a strip. *)
Lemma checked_first a : schema_is_4 (a_schema_version a) = true →
  match first_refusal a with Some e => record_digest_v4 a = Raise e | None => never_strips (record_digest_v4 a) end.
Proof.
  intros Hs. unfold record_digest_v4, validate_record, first_refusal, checked_slots. rewrite Hs. cbn [guard_raise mbind res_bind].
  next_slot sub_digest_refusal. next_slot sub_digest_refusal. next_slot policy_digest_refusal. next_slot sub_digest_refusal.
  do 3 next_slot mandatory_text_refusal. cbn [omap list_omap head].
  apply never_strips_bind; [|intros r; apply never_strips_bind; [apply record_preimage_strips|done]].
  apply never_strips_bind; [by destruct (_as_bytes _)|intros ?].
  do 7 (apply never_strips_bind; [first [apply never_strips_rd_text|apply never_strips_rd_opt]|intros ?]).
  apply never_strips_bind; [apply never_strips_uint|done].
Qed.

Lemma absent_refused a : existsb absent (mandatory_slots a) = true → is_Some (first_refusal a).
Proof.
  intros (v & Hv & Ha)%existsb_exists. unfold first_refusal. assert (∃ f t k, (f, t, k, v) ∈ checked_slots a ∧ k ≠ PolicyDigest) as (f & t & k & Hin & Hk).
  { unfold mandatory_slots, checked_slots in *. cbn in Hv. repeat destruct Hv as [<-|Hv]; [..|done];
      eexists _, _, _; (split; [rewrite !elem_of_cons; by eauto 20|done]). }
  assert (slot_refusal (f, t, k, v) ≠ None) as Hr.
  { unfold slot_refusal, is_digest. destruct k; [|done|]; destruct v; cbn in *; repeat case_match; by simplify_eq. }
  destruct (slot_refusal (f, t, k, v)) as [e|] eqn:E; [|done].
  assert (e ∈ omap slot_refusal (checked_slots a)) as He by (apply list_elem_of_omap; by eauto).
  destruct (omap slot_refusal (checked_slots a)); [by apply not_elem_of_nil in He|by eexists].
Qed.

(** C35. Strips are refused, not digested. A record of another schema version is refused as unsupported whatever its
    fields. In version 4 the slots are checked in the order context, participation, policy rules and participants
    digest (tags 11, 12, 13, 15), classification, trust basis and auth method (14, 16, 17), and the first that is refused
    decides: a digest that is not 32 bytes (missing and empty included; the policy digest may be [None]) and a text
    that is [None] or empty raise [RecordDigestStripError] with that slot's own field and tag, and a text slot that
    holds something else a [TypeError]. When none is refused, no strip is reported. So a mandatory slot that is missing or
    empty always ends in the refusal of the first such slot or of one before it, and when a digest is returned
    no mandatory slot was. *)
Theorem record_digest_v4_strips a :
  (schema_is_4 (a_schema_version a) = false →
     record_digest_v4 a = Raise (UnsupportedRecordDigestVersion (a_schema_version a))) ∧
  (schema_is_4 (a_schema_version a) = true →
     match first_refusal a with
     | Some e => record_digest_v4 a = Raise e
     | None => ∀ field tag, record_digest_v4 a ≠ Raise (RecordDigestStripError field tag)
     end) ∧
  (existsb absent (mandatory_slots a) = true → is_Some (first_refusal a)) ∧
  (∀ d, record_digest_v4 a = Ok d → existsb absent (mandatory_slots a) = false).
Proof.
  assert (schema_is_4 (a_schema_version a) = false →
     record_digest_v4 a = Raise (UnsupportedRecordDigestVersion (a_schema_version a))) as Hu
    by (unfold record_digest_v4, validate_record; by intros ->).
  split_and!; [exact Hu|apply checked_first|apply absent_refused|].
  intros d Hd. destruct (existsb _ _) eqn:Ea; [|done]. apply absent_refused in Ea as [e He].
  destruct (schema_is_4 (a_schema_version a)) eqn:Hs; [|by rewrite Hu in Hd].
  apply checked_first in Hs. rewrite He, Hd in Hs. discriminate Hs.
Qed.

(** ** Properties of the sub-digests *)

(** The ids and rows the two sub-digests frame. *)
Definition participant_ids (participants : pyval) : res (list pystr) :=
  match participants with
  | PStr _ | PBytes _ => Raise TypeError
  | _ => l ← py_iter participants; mapM (λ x, required (_rd_text x false)) l
  end.

Lemma participants_digest_v4_eq p :
  participants_digest_v4 p = ids ← participant_ids p; sha256 <$> participants_preimage ids.
Proof.
  unfold participants_digest_v4, participant_ids.
  destruct p; simpl; try done; by destruct (mapM _ _); simpl; try destruct (participants_preimage _).
Qed.

(** The participants sub-digest is over the roster as stored: equal digests mean the same ids in the
    same order with the same repetitions, or a SHA-256 collision of the two preimages. *)
Theorem participants_digest_v4_binding p q d :
  participants_digest_v4 p = Ok d → participants_digest_v4 q = Ok d →
  participant_ids p = participant_ids q ∨
  ∃ ids ids' m m', participant_ids p = Ok ids ∧ participant_ids q = Ok ids' ∧
    participants_preimage ids = Ok m ∧ participants_preimage ids' = Ok m' ∧ sha256_collision m m'.
Proof.
  rewrite !participants_digest_v4_eq.
  intros (ids & -> & (m & Hm & ->)%fmap_Ok)%bind_Ok (ids' & -> & (m' & Hm' & Heq)%fmap_Ok)%bind_Ok.
  apply sha256_eq_or_collision in Heq as [->|]; [left|right; by eauto 10].
  by rewrite (participants_preimage_inj _ _ _ Hm Hm').
Qed.

Lemma ctx_rows_receipts i l rows :
  ctx_rows i l = Ok rows →
  Forall (λ r, (row_receipt_key_status r = None ↔ row_receipt_hash r = None) ∧
               ∀ s, row_receipt_key_status r = Some s → s ∈ RECEIPT_KEY_STATUSES) rows.
Proof.
  revert i rows. induction l as [|b l IH]; intros i rows H; simpl in H.
  { by apply Ok_inj in H as <-. }
  apply bind_Ok in H as (r & Hr & (rs & Hrs & <-%Ok_inj)%bind_Ok). constructor; [|by eapply IH].
  unfold ctx_row_of in Hr. open_binds.
  repeat match goal with H : guard_raise _ _ = Ok _ |- _ => apply guard_raise_Ok in H end.
  cbn [row_receipt_key_status row_receipt_hash].
  match goal with H : bool_decide _ = true |- _ => apply bool_decide_eq_true in H; rename H into Hb end.
  match goal with H : match ?o with Some _ => _ | None => _ end = true |- _ =>
    destruct o as [st|]; [apply bool_decide_eq_true in H|] end.
  - split; [|by intros ? [= <-]]. split; [done|]. intros E. rewrite E in Hb.
    destruct Hb as [Hb _]. by destruct (Hb (mk_is_Some _ _ eq_refl)).
  - split; [|done]. split; [|done]. intros _. destruct Hb as [_ Hb].
    match goal with |- ?o = None => destruct o; [|done] end.
    by destruct (Hb (mk_is_Some _ _ eq_refl)).
Qed.

(** The context sub-digest is over the bindings as stored, and only over bindings an honest seal can
    produce: equal digests mean the same rows in the same order or a SHA-256 collision of the two
    preimages, and in every row that was hashed [receipt_key_status] is present exactly when
    [receipt_hash] is and is one of [Current], [Historical]. *)
Theorem context_digest_v4_binding l l' d :
  context_digest_v4 (BindingsList l) = Ok d → context_digest_v4 (BindingsList l') = Ok d →
  ∃ rows rows', ctx_rows 0 l = Ok rows ∧ ctx_rows 0 l' = Ok rows' ∧
    Forall (λ r, (row_receipt_key_status r = None ↔ row_receipt_hash r = None) ∧
                 ∀ s, row_receipt_key_status r = Some s → s ∈ RECEIPT_KEY_STATUSES) rows ∧
    (rows = rows' ∨
     ∃ m m', context_preimage rows = Ok m ∧ context_preimage rows' = Ok m' ∧ sha256_collision m m').
Proof.
  simpl. intros (rows & Hr & (m & Hm & <-%Ok_inj)%bind_Ok)%bind_Ok.
  intros (rows' & Hr' & (m' & Hm' & Heq%Ok_inj)%bind_Ok)%bind_Ok.
  exists rows, rows'. split_and!; [done|done|by eapply ctx_rows_receipts|].
  symmetry in Heq. apply sha256_eq_or_collision in Heq as [->|]; [left|right; by eauto].
  by eapply context_preimage_inj.
Qed.

(** ** Properties of the chain-head attestation *)

Definition is_int (v : pyval) : bool := match v with PInt _ => true | _ => false end.
Definition is_str (v : pyval) : bool := match v with PStr _ => true | _ => false end.
Definition is_buffer (v : pyval) : bool := match _as_bytes v with Some _ => true | None => false end.

Definition well_typed (a : attestation_args) : bool :=
  is_int (at_len a) && is_int (at_at a) && is_int (at_schema a) && is_buffer (at_head a) &&
  is_str (at_issuer_aid a) && is_str (at_tenant a) && is_buffer (at_signature a).

(** Types first: when any argument of [verify_chain_head_attestation] has the wrong type, the call
    raises [TypeError], even if an integer slot is out of range or the issuer is unreadable; it is
    never reported as an attestation that did not verify. *)
Theorem attestation_types_first `{Ed25519} a :
  well_typed a = false → verify_chain_head_attestation a = Raise TypeError.
Proof.
  unfold well_typed, verify_chain_head_attestation, is_buffer, as_buffer.
  destruct (at_len a); try done. destruct (at_at a); try done. destruct (at_schema a); try done.
  destruct (_as_bytes (at_head a)); [|done]. destruct (at_issuer_aid a); try done.
  destruct (at_tenant a); try done. by destruct (_as_bytes (at_signature a)).
Qed.

(** The framing a tenant selects. *)
Definition framing_of (tenant : pystr) : option pystr :=
  match tenant with [] => None | _ => Some tenant end.

(** The call once every argument has the type it needs. *)
Definition in_range_b (z bits : Z) : bool := (0 <=? z) && (z <? 2 ^ bits).

Lemma in_range_b_true z bits : in_range_b z bits = true ↔ 0 ≤ z < 2 ^ bits.
Proof. unfold in_range_b. rewrite andb_true_iff, Z.leb_le, Z.ltb_lt. done. Qed.

Lemma well_typed_shape a :
  well_typed a = true →
  ∃ n h t s aid ten sig,
    at_len a = PInt n ∧ _as_bytes (at_head a) = Some h ∧ at_at a = PInt t ∧ at_schema a = PInt s ∧
    at_issuer_aid a = PStr aid ∧ at_tenant a = PStr ten ∧ _as_bytes (at_signature a) = Some sig.
Proof.
  unfold well_typed, is_buffer. destruct (at_len a); try done. destruct (at_at a); try done.
  destruct (at_schema a); try done. destruct (_as_bytes (at_head a)); [|done].
  destruct (at_issuer_aid a); try done. destruct (at_tenant a); try done.
  destruct (_as_bytes (at_signature a)); [|done]. intros _. by eauto 15.
Qed.

Lemma verify_attestation_typed `{Ed25519} a n h t s aid ten sig :
  at_len a = PInt n → _as_bytes (at_head a) = Some h → at_at a = PInt t → at_schema a = PInt s →
  at_issuer_aid a = PStr aid → at_tenant a = PStr ten → _as_bytes (at_signature a) = Some sig →
  verify_chain_head_attestation a =
  if negb (in_range_b n 64 && in_range_b t 64 && in_range_b s 32) then Ok false
  else match (k ← _aid_to_pubkey aid; public_from_bytes k) with
       | Raise _ => Ok false
       | Ok key => digest ← _chain_head_attestation_digest n h t s aid (framing_of ten);
                   Ok (ed_verify key sig digest)
       end.
Proof.
  unfold verify_chain_head_attestation, as_buffer. intros -> -> -> -> -> -> ->.
  cbn [_require_int mbind res_bind as_str]. unfold in_range, _uint_slot, in_range_b.
  cbn [_require_int mbind res_bind]. unfold guard_raise.
  destruct ((0 <=? n) && (n <? 2 ^ 64)), ((0 <=? t) && (t <? 2 ^ 64)), ((0 <=? s) && (s <? 2 ^ 32));
    reflexivity.
Qed.

(** C27. What acceptance means: [verify_chain_head_attestation] returns [True] exactly when the arguments
    are well typed, the three integers are in range, the pinned AID carries a 32-byte key, and that key
    verifies the signature over the digest of these fields under the framing the tenant selects (v1
    for the empty tenant, v2 for any other, no fallback). *)
Theorem attestation_accepted_iff `{Ed25519} a :
  verify_chain_head_attestation a = Ok true ↔
  ∃ n h t s aid ten sig key digest,
    at_len a = PInt n ∧ _as_bytes (at_head a) = Some h ∧ at_at a = PInt t ∧ at_schema a = PInt s ∧
    at_issuer_aid a = PStr aid ∧ at_tenant a = PStr ten ∧ _as_bytes (at_signature a) = Some sig ∧
    0 ≤ n < 2 ^ 64 ∧ 0 ≤ t < 2 ^ 64 ∧ 0 ≤ s < 2 ^ 32 ∧
    _aid_to_pubkey aid = Ok key ∧ length key = 32%nat ∧
    _chain_head_attestation_digest n h t s aid (framing_of ten) = Ok digest ∧
    ed_verify key sig digest = true.
Proof.
  split.
  - intros Hv. assert (well_typed a = true) as Hw.
    { destruct (well_typed a) eqn:E; [done|]. by rewrite (attestation_types_first a E) in Hv. }
    destruct (well_typed_shape a Hw) as (n & h & t & s & aid & ten & sig & E1 & E2 & E3 & E4 & E5 & E6 & E7).
    rewrite (verify_attestation_typed a n h t s aid ten sig) in Hv by done.
    destruct (in_range_b n 64) eqn:R1, (in_range_b t 64) eqn:R2, (in_range_b s 32) eqn:R3; try done.
    destruct (_aid_to_pubkey aid) as [k|] eqn:Ek; [|done]. cbn [mbind res_bind] in Hv.
    unfold public_from_bytes in Hv. destruct (decide (length k = 32%nat)) as [Hk|Hk]; [|done].
    cbn [andb negb] in Hv. destruct (_chain_head_attestation_digest _ _ _ _ _ _) as [dg|] eqn:Ed; [|done].
    apply in_range_b_true in R1, R2, R3. exists n, h, t, s, aid, ten, sig, k, dg.
    split_and!; (done || lia || by apply Ok_inj in Hv).
  - intros (n & h & t & s & aid & ten & sig & key & dg & E1 & E2 & E3 & E4 & E5 & E6 & E7 & R1 & R2 & R3
            & Ek & Hl & Ed & Hv).
    rewrite (verify_attestation_typed a n h t s aid ten sig) by done.
    apply in_range_b_true in R1, R2, R3. rewrite R1, R2, R3, Ek. cbn [mbind res_bind andb negb].
    unfold public_from_bytes. rewrite decide_True by done. rewrite Ed. cbn [mbind res_bind]. by rewrite Hv.
Qed.

(** The signed digest commits to every field and to the framing: two attestations (of any length,
    head, time, schema, issuer and tenant, system partition included) with the same digest are the same
    attestation, or their preimages are a SHA-256 collision. In particular no tenant can be relabelled,
    added or removed under a signature. *)
Theorem attestation_digest_binding n h a s i t n' h' a' s' i' t' d :
  _chain_head_attestation_digest n h a s i t = Ok d →
  _chain_head_attestation_digest n' h' a' s' i' t' = Ok d →
  (n, h, a, s, i, t) = (n', h', a', s', i', t') ∨
  ∃ p q, chain_head_preimage n h a s i t = Ok p ∧ chain_head_preimage n' h' a' s' i' t' = Ok q ∧
         sha256_collision p q.
Proof.
  unfold _chain_head_attestation_digest. intros (p & Hp & ->)%fmap_Ok (q & Hq & Heq)%fmap_Ok.
  apply sha256_eq_or_collision in Heq as [->|]; [|by eauto 6]. left. by eapply chain_head_preimage_inj.
Qed.

(** An honest issuer's attestation verifies, in either framing, and only while the message names the
    pinned issuer: signed over the digest of its own fields it is accepted under the issuer's AID, and
    under any other pinned AID the answer is [False] before any signature work. *)
Theorem attestation_signed_verifies `{Ed25519Laws} seed n h t s ten digest other :
  length seed = 32%nat → 0 ≤ n < 2 ^ 64 → 0 ≤ t < 2 ^ 64 → 0 ≤ s < 2 ^ 32 →
  let aid := aid_from_pubkey (ed_public seed) in
  _chain_head_attestation_digest n h t s aid (framing_of ten) = Ok digest →
  let m := {| ch_issuer_aid := PStr aid; ch_len := PInt n; ch_head := PBytes h; ch_at := PInt t;
              ch_schema := PInt s; ch_signature := PBytes (ed_sign seed digest); ch_tenant := PStr ten |} in
  verify_chain_head_attestation_message (PStr aid) m = Ok true ∧
  (other ≠ aid → verify_chain_head_attestation_message (PStr other) m = Ok false).
Proof.
  intros Hs Hn Ht Hd aid Hdig m. unfold verify_chain_head_attestation_message. cbn [as_str mbind res_bind].
  change (ch_issuer_aid m) with (PStr aid). split; [|intros Ho; by rewrite decide_False by congruence].
  rewrite decide_True by done.
  erewrite verify_attestation_typed; [|reflexivity..].
  apply in_range_b_true in Hn, Ht, Hd. rewrite Hn, Ht, Hd. cbn [andb negb].
  unfold aid at 1. rewrite aid_roundtrip by apply ed_public_bytes. cbn [mbind res_bind].
  unfold public_from_bytes. rewrite decide_True by by apply ed_public_length.
  rewrite Hdig. cbn [mbind res_bind]. by rewrite ed_verify_sign.
Qed.

(** A [str] that [.encode()] refuses. *)
Definition unencodable (s : pystr) : Prop := utf8_encode s = Raise UnicodeEncodeError.

(** The one tampered input that is not answered [False]: with every argument well typed and in range,
    a readable key and a tenant holding a lone surrogate, the encoding of the tenant escapes the call as
    [UnicodeEncodeError]. (A tenant read from a protobuf message cannot hold one.) *)
Theorem attestation_surrogate_tenant_raises `{Ed25519} a n h t s aid ten sig key pre :
  at_len a = PInt n → _as_bytes (at_head a) = Some h → at_at a = PInt t → at_schema a = PInt s →
  at_issuer_aid a = PStr aid → at_tenant a = PStr ten → _as_bytes (at_signature a) = Some sig →
  0 ≤ n < 2 ^ 64 → 0 ≤ t < 2 ^ 64 → 0 ≤ s < 2 ^ 32 →
  _aid_to_pubkey aid = Ok key → length key = 32%nat →
  chain_head_preimage n h t s aid None = Ok pre → unencodable ten →
  verify_chain_head_attestation a = Raise UnicodeEncodeError.
Proof.
  intros E1 E2 E3 E4 E5 E6 E7 R1 R2 R3 Ek Hl Hp Hu.
  rewrite (verify_attestation_typed a n h t s aid ten sig) by done.
  apply in_range_b_true in R1, R2, R3. rewrite R1, R2, R3, Ek. cbn [mbind res_bind andb negb].
  unfold public_from_bytes. rewrite decide_True by done.
  destruct ten as [|c ten]; [done|]. unfold _chain_head_attestation_digest, chain_head_preimage in *.
  cbn [framing_of].
  assert (frame_text (c :: ten) = Raise UnicodeEncodeError) as -> by (unfold frame_text; by rewrite Hu).
  change (_frame CHAIN_HEAD_ATTESTATION_DOMAIN_V2) with
    (Ok (le_bytes 4 (zlen CHAIN_HEAD_ATTESTATION_DOMAIN_V2) ++ CHAIN_HEAD_ATTESTATION_DOMAIN_V2) : res bytes).
  apply bind_Ok in Hp as (f0 & _ & (f1 & -> & (f2 & -> & (f3 & -> & (f4 & -> & (f5 & -> & _)
    %bind_Ok)%bind_Ok)%bind_Ok)%bind_Ok)%bind_Ok). reflexivity.
Qed.

(** ** Witnesses *)

Definition sample_record : record_args := {|
  a_decision_id := PStr (lit "dec:1"); a_tenant := PStr (lit "acme"); a_namespace := PStr (lit "ops");
  a_ciphertext_digest := PBytes (repeat 1 32); a_sealed_at := PInt 1760000000000;
  a_outcome := PStr (lit "approved"); a_mode := PNone; a_policy_version := PStr [];
  a_supersedes := PNone; a_context_digest := PBytes (repeat 2 32);
  a_participation_digest := PBytes (repeat 3 32); a_policy_rules_digest := PNone;
  a_classification := PStr (lit "Internal"); a_participants_digest := PBuf 1 true (repeat 4 32);
  a_trust_basis_commitment := PStr (lit "tb"); a_auth_method := PStr (lit "aid");
  a_schema_version := PInt 4;
|}.

Definition strip_record : record_args :=
  {| a_decision_id := a_decision_id sample_record; a_tenant := a_tenant sample_record;
     a_namespace := a_namespace sample_record; a_ciphertext_digest := a_ciphertext_digest sample_record;
     a_sealed_at := a_sealed_at sample_record; a_outcome := a_outcome sample_record;
     a_mode := PNone; a_policy_version := PNone; a_supersedes := PNone;
     a_context_digest := a_context_digest sample_record;
     a_participation_digest := a_participation_digest sample_record; a_policy_rules_digest := PNone;
     a_classification := PStr (lit "Internal");
     a_participants_digest := a_participants_digest sample_record;
     a_trust_basis_commitment := PNone; a_auth_method := PStr (lit "aid"); a_schema_version := PInt 4 |}.

Lemma record_digest_v4_binding_witness :
  ∃ d, record_digest_v4 sample_record = Ok d ∧
    (same_record sample_record sample_record ∨
     ∃ p q, record_pre sample_record = Ok p ∧ record_pre sample_record = Ok q ∧ sha256_collision p q).
Proof.
  destruct (record_digest_v4 sample_record) as [d|e] eqn:E; [|vm_compute in E; discriminate E].
  exists d. split; [done|]. apply (record_digest_v4_binding _ _ _ E E).
Defined.

Lemma record_digest_v4_strips_witness :
  schema_is_4 (a_schema_version strip_record) = true ∧
  first_refusal strip_record = Some (RecordDigestStripError "trust_basis_commitment" 16) ∧
  match first_refusal strip_record with
  | Some e => record_digest_v4 strip_record = Raise e
  | None => ∀ field tag, record_digest_v4 strip_record ≠ Raise (RecordDigestStripError field tag)
  end.
Proof. split; [done|]. split; [by vm_compute|]. apply (record_digest_v4_strips strip_record). done. Defined.

Definition sample_roster : pyval := PTuple [PStr (lit "b"); PStr (lit "a"); PStr (lit "b")].

Lemma participants_digest_v4_binding_witness :
  ∃ d, participants_digest_v4 sample_roster = Ok d ∧
    (participant_ids sample_roster = participant_ids sample_roster ∨
     ∃ ids ids' m m', participant_ids sample_roster = Ok ids ∧ participant_ids sample_roster = Ok ids' ∧
       participants_preimage ids = Ok m ∧ participants_preimage ids' = Ok m' ∧ sha256_collision m m').
Proof.
  destruct (participants_digest_v4 sample_roster) as [d|e] eqn:E; [|vm_compute in E; discriminate E].
  exists d. split; [done|]. apply (participants_digest_v4_binding _ _ _ E E).
Defined.

Definition sample_binding : ctx_binding :=
  CtxDict [("ctx_ref", PStr (lit "ctx:1")); ("fidelity", PStr (lit "Full"));
           ("classification", PStr (lit "Internal")); ("version", PInt 3);
           ("receipt_hash", PStr (lit "ab")); ("receipt_key_status", PStr (lit "Current"))]%string.

Lemma context_digest_v4_binding_witness :
  ∃ rows rows', ctx_rows 0 [sample_binding] = Ok rows ∧ ctx_rows 0 [sample_binding] = Ok rows' ∧
    Forall (λ r, (row_receipt_key_status r = None ↔ row_receipt_hash r = None) ∧
                 ∀ s, row_receipt_key_status r = Some s → s ∈ RECEIPT_KEY_STATUSES) rows ∧
    (rows = rows' ∨
     ∃ m m', context_preimage rows = Ok m ∧ context_preimage rows' = Ok m' ∧ sha256_collision m m').
Proof.
  destruct (context_digest_v4 (BindingsList [sample_binding])) as [d|e] eqn:E;
    [|vm_compute in E; discriminate E].
  apply (context_digest_v4_binding _ _ _ E E).
Defined.

Definition mistyped_attestation : attestation_args := {|
  at_issuer_aid := PStr (lit "nonsense"); at_len := PInt (2 ^ 64); at_head := PBytes [];
  at_at := PStr (lit "7"); at_schema := PInt 4; at_signature := PBytes []; at_tenant := PStr [] |}.

Lemma attestation_types_first_witness :
  @verify_chain_head_attestation toy_ed25519 mistyped_attestation = Raise TypeError.
Proof. apply attestation_types_first. reflexivity. Defined.

Definition toy_seed : bytes := repeat 7 32.
Definition toy_aid : pystr := aid_from_pubkey (@ed_public toy_ed25519 toy_seed).

Lemma attestation_digest_binding_witness :
  ∃ d, _chain_head_attestation_digest 9 [1; 2] 7 4 toy_aid (Some (lit "acme")) = Ok d ∧
    ((9, [1; 2], 7, 4, toy_aid, Some (lit "acme")) = (9, [1; 2], 7, 4, toy_aid, Some (lit "acme")) ∨
     ∃ p q, chain_head_preimage 9 [1; 2] 7 4 toy_aid (Some (lit "acme")) = Ok p ∧
            chain_head_preimage 9 [1; 2] 7 4 toy_aid (Some (lit "acme")) = Ok q ∧ sha256_collision p q).
Proof.
  destruct (_chain_head_attestation_digest 9 [1; 2] 7 4 toy_aid (Some (lit "acme"))) as [d|e] eqn:E;
    [|vm_compute in E; discriminate E].
  exists d. split; [done|].
  apply (attestation_digest_binding _ _ _ _ _ _ _ _ _ _ _ _ _ E E).
Defined.

Lemma attestation_signed_verifies_witness :
  ∃ m, @verify_chain_head_attestation_message toy_ed25519 (PStr toy_aid) m = Ok true ∧
       @verify_chain_head_attestation_message toy_ed25519 (PStr (lit "aid:other")) m = Ok false.
Proof.
  destruct (_chain_head_attestation_digest 9 [1; 2] 7 4 toy_aid (framing_of (lit "acme"))) as [d|e] eqn:E;
    [|vm_compute in E; discriminate E].
  destruct (@attestation_signed_verifies toy_ed25519 toy_ed25519_laws toy_seed 9 [1; 2] 7 4 (lit "acme") d
              (lit "aid:other")) as [Ha Hb]; [reflexivity|lia..|exact E|].
  eexists. split; [exact Ha|]. apply Hb. vm_compute. discriminate.
Defined.

Lemma attestation_surrogate_tenant_raises_witness :
  @verify_chain_head_attestation toy_ed25519
    {| at_issuer_aid := PStr toy_aid; at_len := PInt 9; at_head := PBytes [1; 2]; at_at := PInt 7;
       at_schema := PInt 4; at_signature := PBytes []; at_tenant := PStr [0xD800] |}
  = Raise UnicodeEncodeError.
Proof.
  destruct (chain_head_preimage 9 [1; 2] 7 4 toy_aid None) as [pre|e] eqn:E; [|vm_compute in E; discriminate E].
  apply (attestation_surrogate_tenant_raises _ 9 [1; 2] 7 4 toy_aid [0xD800] []
           (@ed_public toy_ed25519 toy_seed) pre); try reflexivity; try lia; try exact E;
  vm_compute; reflexivity.
Defined.
