(* ===== verification/Floats.v ===== *)
(** * Floats: the IEEE binary64 operations the code uses

    [float(int)], [float(str)] of a decimal literal, [int(float)], [struct.pack(">d", x)], comparison
    and the shortest [repr], over the Standard Library's [spec_float] at precision 53. *)

From stdpp Require Import base list numbers option strings.
From Stdlib Require Import SpecFloat.
From S2P Require Import Prelude Text.

Definition prec : Z := 53.
Definition emax : Z := 1024.

Definition f64_add : spec_float → spec_float → spec_float := SFadd prec emax.
Definition f64_sub : spec_float → spec_float → spec_float := SFsub prec emax.
Definition f64_mul : spec_float → spec_float → spec_float := SFmul prec emax.
Definition f64_div : spec_float → spec_float → spec_float := SFdiv prec emax.

Definition is_finite (f : spec_float) : bool :=
  match f with S754_zero _ | S754_finite _ _ _ => true | _ => false end.
Definition is_nan (f : spec_float) : bool := match f with S754_nan => true | _ => false end.
Definition is_inf (f : spec_float) : bool := match f with S754_infinity _ => true | _ => false end.

(** The sign bit, as [math.copysign] reads it. *)
Definition sign_bit (f : spec_float) : bool :=
  match f with S754_zero s | S754_infinity s | S754_finite s _ _ => s | S754_nan => false end.

(** Round an integer, or a quotient of integers, to the nearest double. *)
Definition f64_round_int (z : Z) : spec_float := binary_normalize prec emax z 0 false.
Definition f64_round_ratio (neg : bool) (num den : positive) : spec_float :=
  SFdiv prec emax (S754_finite neg num 0) (S754_finite false den 0).

(** [float(z)]: [OverflowError] past the largest double. *)
Definition float_of_int (z : Z) : res spec_float :=
  let f := f64_round_int z in if is_inf f then Raise OverflowError else Ok f.

(** [float(text)] of the decimal literal [± m * 10 ^ e]. Beyond [10 ^ 309] the result is an infinity and
    below [10 ^ -324] a zero, so the powers of ten that are computed stay small. *)
Definition float_of_decimal (neg : bool) (m e : Z) : spec_float :=
  match m with
  | Zpos p =>
    let mag := e + zlen (str_of_nonneg m) in
    if 310 <=? mag then S754_infinity neg
    else if mag <=? -324 then S754_zero neg
    else if 0 <=? e then
      let f := f64_round_int (m * 10 ^ e) in if neg then SFopp f else f
    else match 10 ^ (- e) with Zpos d => f64_round_ratio neg p d | _ => S754_nan end
  | _ => S754_zero neg
  end.

(** The exact value of a finite double as a ratio, and [int(x)]: truncation toward zero. *)
Definition f64_ratio (f : spec_float) : Z * Z :=
  match f with
  | S754_finite s m e =>
    let n := if s then - Zpos m else Zpos m in
    if 0 <=? e then (n * 2 ^ e, 1) else (n, 2 ^ (- e))
  | _ => (0, 1)
  end.
Definition int_of_float (f : spec_float) : res Z :=
  match f with
  | S754_nan => Raise ValueError
  | S754_infinity _ => Raise OverflowError
  | _ => let '(n, d) := f64_ratio f in Ok (Z.quot n d)
  end.

(** The bit pattern of a double, and [struct.pack(">d", x)]. *)
Definition float_bits (f : spec_float) : Z :=
  let sgn := if sign_bit f then 2 ^ 63 else 0 in
  match f with
  | S754_zero _ => sgn
  | S754_infinity _ => sgn + 0x7FF * 2 ^ 52
  | S754_nan => 0x7FF8 * 2 ^ 48
  | S754_finite _ m e =>
    if Zpos m <? 2 ^ 52 then sgn + Zpos m
    else sgn + (e + 1075) * 2 ^ 52 + (Zpos m - 2 ^ 52)
  end.
Definition pack_d (f : spec_float) : bytes := be_bytes 8 (float_bits f mod 2 ^ 64).

(** A double the machine can hold: 53-bit mantissa, normalised. *)
Definition is_f64 (f : spec_float) : bool := valid_binary prec emax f.

(** ** The shortest repr

    [repr(x)] prints the fewest digits that read back as [x], the nearest such to [x], ties to the even
    digit. [shortest num den] finds them for [num / den > 0]: for [k = 1 .. 17] it tries the two
    [k]-digit decimals around the value; the answer is [(digits, exponent)] with value
    [digits * 10 ^ exponent]. Seventeen digits always read back. *)

(** The [n] with [10 ^ (n - 1) <= num / den < 10 ^ n], from a start value by at most [fuel] steps. *)
Fixpoint decpt_search (fuel : nat) (num den n : Z) : Z :=
  match fuel with
  | O => n
  | S fuel =>
    let le_pow (k : Z) := if 0 <=? k then den * 10 ^ k <=? num else den <=? num * 10 ^ (- k) in
    if le_pow n then decpt_search fuel num den (n + 1)
    else if le_pow (n - 1) then n else decpt_search fuel num den (n - 1)
  end.

(** [floor (num / den / 10 ^ p)] with its remainder, over the common denominator. *)
Definition scaled (num den p : Z) : Z * Z :=
  if 0 <=? p then (num, den * 10 ^ p) else (num * 10 ^ (- p), den).

Definition f64_eqb (a b : spec_float) : bool := SFeqb a b.

Definition candidate (f : spec_float) (num den p : Z) : option Z :=
  let '(a, b) := scaled num den p in
  let lo := a / b in
  let up := lo + 1 in
  let reads d := f64_eqb (float_of_decimal false d p) f in
  let below := 2 * (a - lo * b) in           (** twice the distance to [lo], against [b] *)
  let prefer_lo := (below <? b) || ((below =? b) && Z.even lo) in
  let first := if prefer_lo then lo else up in
  let second := if prefer_lo then up else lo in
  if reads first then Some first else if reads second then Some second else None.

Fixpoint shortest_from (fuel : nat) (f : spec_float) (num den decpt k : Z) : Z * Z :=
  let p := decpt - k in
  match fuel, candidate f num den p with
  | _, Some d => (d, p)
  | O, None => let '(a, b) := scaled num den p in ((2 * a + b) / (2 * b), p)
  | S fuel, None => shortest_from fuel f num den decpt (k + 1)
  end.

Definition shortest (f : spec_float) : Z * Z :=
  let '(num, den) := f64_ratio f in
  let decpt := decpt_search 700 num den (Z.log2 num * 3 / 10 - Z.log2 den * 3 / 10) in
  shortest_from 16 f num den decpt 1.

(** [Decimal(repr(x)).as_tuple()] for [x > 0]: [repr] writes positional notation for exponents in
    [-4, 16), where an integral value gets a trailing [.0]. *)
Definition repr_decimal (f : spec_float) : pystr * Z :=
  let '(d, p) := shortest f in
  let ds := str_of_nonneg d in
  let decpt := zlen ds + p in
  if (-4 <? decpt) && (decpt <=? 16) && (0 <=? p)
  then (ds ++ repeat 48 (Z.to_nat (p + 1)), -1) else (ds, p).

Example shortest_tenth : shortest (float_of_decimal false 1 (-1)) = (1, -1).
Proof. vm_compute. reflexivity. Qed.
Example shortest_min : shortest (S754_finite false 1 (-1074)) = (5, -324).
Proof. vm_compute. reflexivity. Qed.
Example shortest_2p60 : shortest (f64_round_int (2 ^ 60)) = (1152921504606847, 3).
Proof. vm_compute. reflexivity. Qed.
Example shortest_tie : shortest (float_of_decimal false 112589990684262475 (-2)) = (11258999068426248, -1).
Proof. vm_compute. reflexivity. Qed.
Example shortest_max : shortest (S754_finite false 9007199254740991 971) = (17976931348623157, 292).
Proof. vm_compute. reflexivity. Qed.
Example pack_one : hex_of_bytes (pack_d (f64_round_int 1)) = lit "3ff0000000000000".
Proof. vm_compute. reflexivity. Qed.
Example pack_095 : hex_of_bytes (pack_d (float_of_decimal false 95 (-2))) = lit "3fee666666666666".
Proof. vm_compute. reflexivity. Qed.
