(* ===== verification/Rounding.v ===== *)
(** * Rounding: what the binary64 operations of [Floats] round to

    The result of rounding an integer or a quotient is determined by the rational number alone ([rounds],
    unique by [rounds_unique]); hence [float_of_decimal] depends on the value of a literal and not on how it is
    written ([float_of_decimal_shift]), and the digits [repr] prints read back as the float they were printed
    for ([shortest_reads]): seventeen digits always do. *)

From stdpp Require Import base list numbers option.
From Stdlib Require Import SpecFloat.
From S2P Require Import Prelude Text Floats.

Local Open Scope Z_scope.

(** A large power as a variable, and local definitions as variables, so that arithmetic does not compute with them. *)
Ltac opaque t := let x := fresh "c" in set (x := t) in *; clearbody x.
Ltac flat := repeat match goal with x := _ : Z |- _ => clearbody x end.

(** ** Truncation with a location

    [X / W] is [q] units and a rest that the round and the sticky bit of [q] describe. *)

Definition located (X W : Z) (q : shr_record) : Prop :=
  0 < W ∧ 0 ≤ shr_m q ∧ 0 ≤ X - shr_m q * W < W ∧
  match shr_r q, shr_s q with
  | false, false => X - shr_m q * W = 0
  | false, true => 0 < X - shr_m q * W ∧ 2 * (X - shr_m q * W) < W
  | true, false => 2 * (X - shr_m q * W) = W
  | true, true => W < 2 * (X - shr_m q * W)
  end.

Lemma located_scale c X W q : 0 < c → located X W q → located (c * X) (c * W) q.
Proof.
  intros Hc (HW & Hm & Hr & Hb). unfold located.
  replace (c * X - shr_m q * (c * W)) with (c * (X - shr_m q * W)) by ring. set (ρ := X - shr_m q * W) in *.
  split_and!; [nia|done|nia|nia|]. destruct (shr_r q), (shr_s q); nia.
Qed.

Lemma shr_1_located X W q : located X W q → located X (2 * W) (shr_1 q).
Proof.
  destruct q as [m r s]. intros (HW & Hm & Hr & Hb). cbn [shr_m shr_r shr_s] in *.
  destruct m as [|p|p]; [| |lia].
  - unfold located. destruct r, s; cbn [shr_1 orb shr_m shr_r shr_s]; lia.
  - destruct p as [p|p|]; cbn [shr_1].
    + rewrite Pos2Z.inj_xI in *. replace ((2 * Z.pos p + 1) * W) with (Z.pos p * (2 * W) + W) in * by ring.
      unfold located. cbn [shr_m shr_r shr_s]. destruct r, s; cbn [orb]; lia.
    + rewrite Pos2Z.inj_xO in *. replace (2 * Z.pos p * W) with (Z.pos p * (2 * W)) in * by ring.
      unfold located. cbn [shr_m shr_r shr_s]. destruct r, s; cbn [orb]; lia.
    + unfold located. cbn [shr_m shr_r shr_s]. destruct r, s; cbn [orb]; lia.
Qed.

Lemma iter_located X p : ∀ W q, located X W q → located X (2 ^ Zpos p * W) (iter_pos shr_1 p q).
Proof.
  induction p as [p IH|p IH|]; intros W q Hq; cbn [iter_pos].
  - replace (Z.pos p~1) with (Z.pos p + Z.pos p + 1) by lia. rewrite !Z.pow_add_r by lia. change (2 ^ 1) with 2.
    replace (2 ^ Z.pos p * 2 ^ Z.pos p * 2 * W) with (2 ^ Z.pos p * (2 ^ Z.pos p * (2 * W))) by ring.
    by apply IH, IH, shr_1_located.
  - replace (Z.pos p~0) with (Z.pos p + Z.pos p) by lia. rewrite Z.pow_add_r by lia. rewrite <- Z.mul_assoc. by apply IH, IH.
  - by apply shr_1_located.
Qed.

Lemma shr_located X W q e n : located X W q → 0 ≤ n →
  ∃ q', shr q e n = (q', e + n) ∧ located X (2 ^ n * W) q'.
Proof.
  intros Hq Hn. destruct n as [|p|p]; cbn [shr]; [|exists (iter_pos shr_1 p q); split; [done|by apply iter_located]|lia].
  exists q. rewrite Z.add_0_r. split; [done|]. by rewrite Z.pow_0_r, Z.mul_1_l.
Qed.

(** Round to the nearest, ties to even. *)
Definition nearest (X W M : Z) : Prop := 2 * Z.abs (X - M * W) ≤ W ∧ (2 * Z.abs (X - M * W) = W → Z.even M = true).

Lemma round_nearest X W q : located X W q →
  nearest X W (round_nearest_even (shr_m q) (loc_of_shr_record q)) ∧
  shr_m q ≤ round_nearest_even (shr_m q) (loc_of_shr_record q) ≤ shr_m q + 1.
Proof.
  destruct q as [m r s]. intros (HW & Hm & Hr & Hb). cbn [shr_m shr_r shr_s] in *. unfold nearest.
  assert (E : ∀ n, X - (n + 1) * W = X - n * W - W) by (intros; ring).
  destruct r, s; cbn [loc_of_shr_record round_nearest_even]; rewrite ?E; set (ρ := X - m * W) in *; [| |lia|lia].
  - lia.
  - destruct (Z.even m) eqn:Em; [split; [split; [lia|done]|lia]|]. rewrite E. fold ρ. split; [split; [lia|]|lia]. intros _.
    by rewrite Z.even_add, Em.
Qed.

Lemma nearest_unique X W M M' : 0 < W → nearest X W M → nearest X W M' → M = M'.
Proof.
  intros HW [H1 T1] [H2 T2]. assert (E : M' * W = M * W + (M' - M) * W) by ring. set (d := M' - M) in *.
  destruct (Z.eq_dec d 0) as [?|Hd]; [lia|]. exfalso. rewrite E in *.
  assert (Hd1 : d = 1 ∨ d = -1) by nia.
  assert (Ev : Z.even M' = negb (Z.even M)).
  { replace M' with (M + d) by lia. rewrite Z.even_add. destruct Hd1 as [->| ->]; by destruct (Z.even M). }
  destruct Hd1 as [Hd1|Hd1]; rewrite Hd1 in *; rewrite T1, T2 in Ev by lia; done.
Qed.

(** ** The rounding of a ratio

    Exponents count from the smallest one: a unit of exponent [k - 1074] of [N / D] is [D * 2 ^ k] against
    [N * 2 ^ 1074]. *)

Definition finish (sx : bool) (M e : Z) : spec_float :=
  match M with
  | Zpos m => if e <=? 971 then S754_finite sx m e else S754_infinity sx
  | _ => S754_zero sx
  end.
Definition settle (sx : bool) (M e : Z) : spec_float := if M =? 2 ^ 53 then finish sx (2 ^ 52) (e + 1) else finish sx M e.

(** The exponent at which [N / D] has 53 bits, or the smallest one. *)
Definition in_binade (N D k : Z) : Prop :=
  0 ≤ k ∧ N * 2 ^ 1074 < 2 ^ 53 * (D * 2 ^ k) ∧ (k = 0 ∨ 2 ^ 52 * (D * 2 ^ k) ≤ N * 2 ^ 1074).

(** [g] is [N / D], rounded to nearest even. *)
Definition rounds (sx : bool) (N D : Z) (g : spec_float) : Prop :=
  ∃ k M, in_binade N D k ∧ nearest (N * 2 ^ 1074) (D * 2 ^ k) M ∧ g = settle sx M (k - 1074).

Lemma in_binade_unique N D k k' : 0 < D → in_binade N D k → in_binade N D k' → k = k'.
Proof.
  intros HD. assert (H : ∀ k k', in_binade N D k → in_binade N D k' → ¬ k < k').
  { intros a b (Ha & Hb & _) (_ & _ & [->|Hc]) Hlt; [lia|].
    replace b with (a + 1 + (b - a - 1)) in Hc by lia. rewrite !Z.pow_add_r in Hc by lia.
    assert (0 < 2 ^ (b - a - 1)) by (apply Z.pow_pos_nonneg; lia). assert (0 < 2 ^ a) by (apply Z.pow_pos_nonneg; lia).
    change (2 ^ 1) with 2 in Hc. change (2 ^ 53) with (2 * 2 ^ 52) in Hb. set (x := 2 ^ (b - a - 1)) in *.
    set (y := D * 2 ^ a) in *. assert (0 < y) by (apply Z.mul_pos_pos; lia).
    replace (D * (2 ^ a * 2 * x)) with (2 * (y * x)) in Hc by (unfold y; ring). assert (y ≤ y * x) by nia. lia. }
  intros Hk Hk'. pose proof (H k k' Hk Hk'). pose proof (H k' k Hk' Hk). lia.
Qed.

(** A ratio rounds to one float. *)
Lemma rounds_unique sx N D g g' : 0 < D → rounds sx N D g → rounds sx N D g' → g = g'.
Proof.
  intros HD (k & M & Hk & Hn & ->) (k' & M' & Hk' & Hn' & ->). rewrite <- (in_binade_unique N D k k' HD Hk Hk') in *.
  assert (0 < D * 2 ^ k) by (apply Z.mul_pos_pos; [lia|]; apply Z.pow_pos_nonneg; [lia|apply Hk]).
  by rewrite (nearest_unique _ _ M M' H Hn Hn').
Qed.

(** Rounding looks at the rational number only. *)
Lemma rounds_scale c sx N D g : 0 < c → rounds sx N D g → rounds sx (c * N) (c * D) g.
Proof.
  intros Hc (k & M & (Hk & Hu & Hl) & [Hn Ht] & ->). exists k, M. unfold in_binade, nearest.
  rewrite <- !(Z.mul_assoc c). set (X := N * 2 ^ 1074) in *. set (W := D * 2 ^ k) in *.
  replace (c * X - M * (c * W)) with (c * (X - M * W)) by ring. rewrite Z.abs_mul, (Z.abs_eq c) by lia.
  split_and!; [done|nia|destruct Hl as [->|Hl]; [by left|right; nia]|nia|intros; apply Ht; nia|done].
Qed.

Lemma digits_spec p : 2 ^ (Zpos (digits2_pos p) - 1) ≤ Zpos p < 2 ^ Zpos (digits2_pos p).
Proof.
  induction p as [p IH|p IH|]; cbn [digits2_pos]; [| |done].
  all: rewrite Pos2Z.inj_succ; replace (Z.succ (Z.pos (digits2_pos p)) - 1) with (Z.succ (Z.pos (digits2_pos p) - 1)) by lia;
    rewrite !Z.pow_succ_r by lia; lia.
Qed.
(** [n] is between [2 ^ (Zdigits2 n - 1)] and [2 ^ Zdigits2 n]. *)
Lemma Zdigits_spec n : 0 ≤ n → 0 ≤ Zdigits2 n ∧ n < 2 ^ Zdigits2 n ∧ (n = 0 ∨ 2 ^ (Zdigits2 n - 1) ≤ n).
Proof. destruct n as [|p|p]; [cbn; lia| |lia]. intros _. pose proof (digits_spec p). cbn [Zdigits2]. split_and!; [lia|lia|right; lia]. Qed.
Lemma Zdigits_bound n d : 0 ≤ n → n < 2 ^ d → 0 ≤ d → Zdigits2 n ≤ d.
Proof.
  intros H0 Hn Hd. destruct (Zdigits_spec n H0) as (_ & _ & [->|Hl]); [done|].
  destruct (Z.le_gt_cases (Zdigits2 n) d); [done|]. pose proof (Z.pow_le_mono_r 2 d (Zdigits2 n - 1)). lia.
Qed.
Lemma Zdigits_low n d : 0 ≤ n → 2 ^ d ≤ n → 0 ≤ d → d < Zdigits2 n.
Proof.
  intros H0 Hn Hd. destruct (Zdigits_spec n H0) as (_ & Hu & _). destruct (Z.lt_ge_cases d (Zdigits2 n)); [done|].
  pose proof (Z.pow_le_mono_r 2 (Zdigits2 n) d). lia.
Qed.

Abbreviation fexp64 := (fexp prec emax).
Lemma fexp64_max e : fexp64 e = Z.max (e - 53) (-1074).
Proof. done. Qed.

(** ** The operations round *)

Lemma record_m mx lx : shr_m (shr_record_of_loc mx lx) = mx.
Proof. by destruct lx as [|[]]. Qed.

Lemma binade_of_digits N D mx ex lx : 0 < D → 0 ≤ mx → -1074 ≤ ex ≤ fexp64 (Zdigits2 mx + ex) →
  located (N * 2 ^ 1074) (D * 2 ^ (ex + 1074)) (shr_record_of_loc mx lx) → in_binade N D (fexp64 (Zdigits2 mx + ex) + 1074).
Proof.
  intros HD Hm Hex (HW & _ & Hr & _). rewrite record_m in Hr. rewrite fexp64_max in *.
  destruct (Zdigits_spec mx Hm) as (Hd0 & Hu & Hl). set (d := Zdigits2 mx) in *. set (X := N * 2 ^ 1074) in *.
  assert (HX : mx * (D * 2 ^ (ex + 1074)) ≤ X < 2 ^ d * (D * 2 ^ (ex + 1074))) by nia. clear Hr.
  replace (2 ^ d * (D * 2 ^ (ex + 1074))) with (D * 2 ^ (d + (ex + 1074))) in HX by (rewrite (Z.pow_add_r 2 d) by lia; ring).
  set (e := Z.max (d + ex - 53) (-1074)) in *. unfold in_binade. fold X.
  assert (He0 : -1074 ≤ e ∧ d + ex - 53 ≤ e ∧ (e = -1074 ∨ e = d + ex - 53)) by lia.
  assert (Hp : ∀ a, 0 ≤ a → 2 ^ a * (D * 2 ^ (e + 1074)) = D * 2 ^ (a + e + 1074)).
  { intros a Ha. replace (a + e + 1074) with (a + (e + 1074)) by lia. rewrite (Z.pow_add_r 2 a) by lia. ring. }
  split_and!; [lia| |].
  - rewrite Hp by lia. eapply Z.lt_le_trans; [apply HX|]. apply Z.mul_le_mono_nonneg_l; [lia|]. apply Z.pow_le_mono_r; lia.
  - destruct (Z.eq_dec e (-1074)) as [->|He]; [by left|right]. rewrite Hp by lia.
    destruct Hl as [E|Hl]; [subst d; rewrite E in *; cbn in *; lia|].
    etrans; [|apply HX]. replace (52 + e + 1074) with (d - 1 + (ex + 1074)) by lia.
    destruct (Z.eq_dec d 0) as [Ed|Hd]; [lia|]. rewrite (Z.pow_add_r 2 (d - 1)) by lia.
    replace (D * (2 ^ (d - 1) * 2 ^ (ex + 1074))) with (2 ^ (d - 1) * (D * 2 ^ (ex + 1074))) by ring.
    apply Z.mul_le_mono_nonneg_r; lia.
Qed.

Lemma round_aux_rounds sx N D mx ex lx : 0 < D → 0 ≤ mx → -1074 ≤ ex ≤ fexp64 (Zdigits2 mx + ex) →
  located (N * 2 ^ 1074) (D * 2 ^ (ex + 1074)) (shr_record_of_loc mx lx) → rounds sx N D (binary_round_aux prec emax sx mx ex lx).
Proof.
  intros HD Hm Hex Hl. pose proof (binade_of_digits N D mx ex lx HD Hm Hex Hl) as Hb.
  unfold binary_round_aux, shr_fexp at 1. set (e := fexp64 (Zdigits2 mx + ex)) in *.
  destruct (shr_located _ _ _ ex (e - ex) Hl) as (q & Hs & Hq); [lia|]. fold e in Hs. rewrite Hs. clear Hs.
  replace (ex + (e - ex)) with e by lia.
  replace (2 ^ (e - ex) * (D * 2 ^ (ex + 1074))) with (D * 2 ^ (e + 1074)) in Hq
    by (replace (e + 1074) with (e - ex + (ex + 1074)) by lia; rewrite (Z.pow_add_r 2 (e - ex)) by lia; ring).
  destruct (round_nearest _ _ _ Hq) as [Hn HM]. set (M := round_nearest_even _ _) in *.
  assert (Hr : 0 ≤ M ≤ 2 ^ 53).
  { destruct Hb as (_ & Hu & _), Hq as (HW & Hq0 & Hq & _). nia. }
  exists (e + 1074), M. replace (e + 1074 - 1074) with e by lia. split_and!; [done|done|].
  unfold settle. destruct (Z.eqb_spec M (2 ^ 53)) as [->|HM'].
  - unfold shr_fexp. change (Zdigits2 (2 ^ 53)) with 54. rewrite fexp64_max.
    replace (Z.max (54 + e - 53) (-1074) - e) with 1 by lia. done.
  - unfold shr_fexp. assert (Zdigits2 M ≤ 53) by (apply Zdigits_bound; lia). rewrite fexp64_max.
    assert (Hle : Z.max (Zdigits2 M + e - 53) (-1074) - e ≤ 0) by lia.
    assert (Hsh : ∀ q n, n ≤ 0 → shr q e n = (q, e)) by (intros q' [|p|p] ?; [done|lia|done]).
    rewrite Hsh by done. cbn [shr_record_of_loc shr_m]. by destruct M as [|m|m]; [| |lia].
Qed.

(** A quotient. *)
Lemma new_location_located A B : 0 < B → 0 ≤ A → located A B (shr_record_of_loc (A / B) (new_location B (A mod B))).
Proof.
  intros HB HA. pose proof (Z.div_mod A B). pose proof (Z.mod_pos_bound A B HB). pose proof (Z.div_pos A B HA HB).
  set (q := A / B) in *. set (r := A mod B) in *. assert (E : A - q * B = r) by lia.
  unfold new_location, new_location_even, new_location_odd. destruct (Z.even B) eqn:Ev.
  - destruct (Z.eqb_spec r 0); [unfold located; cbn; rewrite E; lia|].
    destruct (Z.compare_spec (2 * r) B); unfold located; cbn [shr_record_of_loc shr_m shr_r shr_s]; rewrite E; lia.
  - assert (Ho : ∃ h, B = 2 * h + 1) by (apply Z.odd_spec; by rewrite <- Z.negb_even, Ev). destruct Ho as [h Hh].
    destruct (Z.eqb_spec r 0); [unfold located; cbn; rewrite E; lia|].
    destruct (Z.compare_spec (2 * r + 1) B); unfold located; cbn [shr_record_of_loc shr_m shr_r shr_s]; rewrite E; lia.
Qed.

Lemma ratio_rounds neg n d : rounds neg (Zpos n) (Zpos d) (f64_round_ratio neg n d).
Proof.
  unfold f64_round_ratio, SFdiv, SFdiv_core_binary. rewrite xorb_false_r, !Z.add_0_r.
  destruct (Zdigits_spec (Zpos n) ltac:(lia)) as (_ & Hn & [?|Hn']); [lia|]. destruct (Zdigits_spec (Zpos d) ltac:(lia)) as (_ & Hd & [?|Hd']); [lia|].
  set (dn := Zdigits2 (Zpos n)) in *. set (dd := Zdigits2 (Zpos d)) in *. change (0 - 0) with 0.
  assert (Hdg : 1 ≤ dn ∧ 1 ≤ dd) by (unfold dn, dd; cbn [Zdigits2]; lia).
  remember (Z.min (fexp64 (dn - dd)) 0) as e eqn:Ee. rewrite fexp64_max in Ee. assert (He : -1074 ≤ e ≤ 0) by lia.
  assert (Em : (match 0 - e with Z0 => Zpos n | Zpos _ => Z.shiftl (Zpos n) (0 - e) | Zneg _ => 0 end) = Zpos n * 2 ^ (- e)).
  { destruct (Z.eq_dec e 0) as [E0|]; [rewrite E0; change (0 - 0) with 0; change (2 ^ (- 0)) with 1; lia|]. rewrite <- Z.shiftl_mul_pow2 by lia. destruct (0 - e) eqn:E; try lia. f_equal. lia. }
  rewrite Em. clear Em. set (A := Zpos n * 2 ^ (- e)). assert (0 < 2 ^ (- e)) by (apply Z.pow_pos_nonneg; lia).
  assert (HA : 0 < A) by (unfold A; lia).
  assert (Ed : Z.div_eucl A (Zpos d) = (A / Zpos d, A mod Zpos d)) by (unfold Z.div, Z.modulo; by destruct (Z.div_eucl _ _)).
  rewrite Ed. cbn beta iota. clear Ed. set (q := A / Zpos d).
  assert (Hq0 : 0 ≤ q) by (apply Z.div_pos; lia).
  apply round_aux_rounds; [lia|done| |].
  - split; [lia|]. rewrite fexp64_max. enough (dn - dd ≤ Zdigits2 q + e) by lia.
    destruct (Z.le_gt_cases (dn - dd - e) 0); [pose proof (proj1 (Zdigits_spec q Hq0)); lia|].
    assert (dn - dd - e - 1 < Zdigits2 q); [|lia]. apply Zdigits_low; [done| |lia].
    apply Z.div_le_lower_bound; [lia|]. unfold A.
    assert (2 ^ (dn - 1) * 2 ^ (- e) = 2 ^ dd * 2 ^ (dn - dd - e - 1)) as E2 by (rewrite <- !Z.pow_add_r by lia; f_equal; lia).
    assert (0 < 2 ^ (dn - dd - e - 1)) by (apply Z.pow_pos_nonneg; lia). nia.
  - replace (Zpos n * 2 ^ 1074) with (2 ^ (e + 1074) * A)
      by (unfold A; rewrite (Z.mul_comm (Zpos n)), Z.mul_assoc, <- Z.pow_add_r by lia; replace (e + 1074 + - e) with 1074 by lia; ring).
    rewrite (Z.mul_comm (Zpos d)). apply located_scale; [apply Z.pow_pos_nonneg; lia|]. apply new_location_located; lia.
Qed.

(** An integer. *)
Lemma shl_align_spec p e : shl_align p 0 e = (Z.to_pos (Zpos p * 2 ^ (- Z.min e 0)), Z.min e 0).
Proof.
  unfold shl_align. rewrite Z.sub_0_r. destruct e as [|q|q]; cbn [Z.min Z.compare]; rewrite ?Z.mul_1_r; [done..|].
  cbn [Z.opp]. f_equal. apply Pos2Z.inj. rewrite Z2Pos.id; [|apply Z.mul_pos_pos; [lia|by apply Z.pow_pos_nonneg]].
  rewrite <- Z.shiftl_mul_pow2 by lia. unfold Z.shiftl.
  assert (H : ∀ q, Zpos (Pos.iter xO p q) = Pos.iter (Z.mul 2) (Zpos p) q).
  { clear. intros q. induction q as [|q IH] using Pos.peano_ind; [done|]. rewrite !Pos.iter_succ, <- IH. done. }
  by rewrite H.
Qed.
Lemma int_rounds sx p : rounds sx (Zpos p) 1 (binary_round prec emax sx p 0).
Proof.
  unfold binary_round. rewrite shl_align_spec. set (e := fexp64 _). set (ez := Z.min e 0).
  destruct (Zdigits_spec (Zpos p) ltac:(lia)) as (Hd0 & Hu & [?|Hl]); [lia|]. cbn [Zdigits2] in Hd0, Hu, Hl.
  assert (He : e = Z.max (Zpos (digits2_pos p) + 0 - 53) (-1074)) by done.
  assert (Hz : -1074 ≤ ez ≤ 0) by lia. assert (0 < 2 ^ (- ez)) by (apply Z.pow_pos_nonneg; lia).
  rewrite Z2Pos.id by lia. set (m := Zpos p * 2 ^ (- ez)). cbn beta iota.
  apply round_aux_rounds; [lia|lia| |].
  - split; [lia|]. rewrite fexp64_max. enough (Zpos (digits2_pos p) + - ez - 1 < Zdigits2 m) by lia.
    apply Zdigits_low; [lia| |lia].
    replace (Zpos (digits2_pos p) + - ez - 1) with (Zpos (digits2_pos p) - 1 + - ez) by lia.
    rewrite Z.pow_add_r by lia. unfold m. nia.
  - replace (Zpos p * 2 ^ 1074) with (m * 2 ^ (ez + 1074))
      by (unfold m; rewrite <- Z.mul_assoc, <- Z.pow_add_r by lia; do 2 f_equal; lia).
    assert (0 < 2 ^ (ez + 1074)) by (apply Z.pow_pos_nonneg; lia). unfold located. cbn [shr_record_of_loc shr_m shr_r shr_s]. lia.
Qed.

(** ** Decimal literals *)

(** [d * 10 ^ p] as a ratio. *)
Definition decimal_num (d p : Z) : Z := if 0 <=? p then d * 10 ^ p else d.
Definition decimal_den (p : Z) : Z := if 0 <=? p then 1 else 10 ^ (- p).
Abbreviation rounds_decimal sx d p := (rounds sx (decimal_num d p) (decimal_den p)).

Lemma decimal_den_pos p : 0 < decimal_den p.
Proof. unfold decimal_den. destruct (Z.leb_spec 0 p); [done|]. apply Z.pow_pos_nonneg; lia. Qed.

Lemma SFopp_finish sx M e : SFopp (finish sx M e) = finish (negb sx) M e.
Proof. unfold finish. destruct M; [done| |done]. by destruct (e <=? 971). Qed.
Lemma SFopp_rounds sx N D g : rounds sx N D g → rounds (negb sx) N D (SFopp g).
Proof.
  intros (k & M & Hk & Hn & ->). exists k, M. split_and!; [done..|]. unfold settle.
  by destruct (M =? 2 ^ 53); rewrite SFopp_finish.
Qed.

Lemma round_int_rounds z : 0 < z → rounds false z 1 (f64_round_int z).
Proof. destruct z as [|p|p]; [done| |done]. intros _. apply int_rounds. Qed.
Lemma ratio_exists sx N D : 0 < N → 0 < D → ∃ g, rounds sx N D g.
Proof. destruct N as [|n|n], D as [|d|d]; try done. intros _ _. exists (f64_round_ratio sx n d). apply ratio_rounds. Qed.

(** Too large, and too small. *)
Lemma rounds_inf sx N D : 0 < D → 2 ^ 1024 * D ≤ N → rounds sx N D (S754_infinity sx).
Proof.
  intros HD HN. destruct (ratio_exists sx N D) as (g & k & M & Hk & Hn & Hg); [lia|done|].
  exists k, M. split_and!; [done..|]. destruct Hk as (Hk0 & Hu & Hl).
  assert (HW : 0 < D * 2 ^ k) by (apply Z.mul_pos_pos; [done|apply Z.pow_pos_nonneg; lia]).
  assert (Hk : 2045 < k).
  { apply (Z.pow_lt_mono_r_iff 2); [lia..|]. apply (Z.mul_lt_mono_pos_r (2 ^ 53 * D)); [lia|].
    assert (E : 2 ^ 2045 * 2 ^ 53 = 2 ^ 1024 * 2 ^ 1074) by by rewrite <- !Z.pow_add_r.
    rewrite Z.mul_assoc, E, <- (Z.mul_assoc _ _ D), (Z.mul_comm _ D), Z.mul_assoc. clear E.
    replace (2 ^ k * (2 ^ 53 * D)) with (2 ^ 53 * (D * 2 ^ k)) by ring. eapply Z.le_lt_trans; [|exact Hu].
    by apply Z.mul_le_mono_nonneg_r. }
  destruct Hl as [->|Hl]; [lia|]. destruct Hn as [Hn _].
  assert (HM : 0 < M) by (opaque (2 ^ 1074); clear - Hl HW Hn; nia). unfold settle, finish.
  destruct (M =? 2 ^ 53); [|destruct M; try lia]; by rewrite (proj2 (Z.leb_gt _ _)) by lia.
Qed.
Lemma rounds_zero sx N D : 0 < N → 2 ^ 1075 * N < D → rounds sx N D (S754_zero sx).
Proof.
  intros HN HD. exists 0, 0. unfold in_binade, nearest. rewrite Z.mul_1_r, Z.mul_0_l, Z.sub_0_r, Z.abs_eq by lia.
  change (2 ^ 1075) with (2 ^ 1074 * 2) in HD. set (x := 2 ^ 1074) in *. assert (0 < x) by done.
  assert (0 < N * x) by nia. split_and!; [done|lia|by left|lia|lia|done].
Qed.

Lemma pow_1024 : 2 ^ 1024 ≤ 10 ^ 309.
Proof. by vm_compute. Qed.
Lemma pow_1075 : 2 ^ 1075 < 10 ^ 324.
Proof. by vm_compute. Qed.

(** A literal rounds to its value. *)
Lemma decimal_rounds neg d p : 0 < d → rounds_decimal neg d p (float_of_decimal neg d p).
Proof.
  intros Hd. pose proof (str_of_nonneg_length d Hd) as [Hlo Hhi]. pose proof (decimal_den_pos p) as HD.
  unfold float_of_decimal. destruct d as [|n|n]; [done| |done]. set (L := zlen (str_of_nonneg (Zpos n))) in *.
  assert (HL : 1 ≤ L).
  { destruct (str_of_nonneg_spec (Zpos n)) as (_ & _ & Hne); [done|]. unfold L. destruct (str_of_nonneg _); [done|]. cbn [length]. lia. }
  destruct (Z.leb_spec 310 (p + L)) as [Hm|Hm]; [|destruct (Z.leb_spec (p + L) (-324)) as [Hm'|Hm']].
  - apply rounds_inf; [done|]. unfold decimal_num, decimal_den. etrans; [apply Z.mul_le_mono_nonneg_r; [|exact pow_1024]|].
    { destruct (Z.leb_spec 0 p); [done|]. by apply Z.pow_nonneg. }
    destruct (Z.leb_spec 0 p).
    + etrans; [|apply Z.mul_le_mono_nonneg_r; [by apply Z.pow_nonneg|exact Hlo]]. rewrite Z.mul_1_r, <- Z.pow_add_r by lia. apply Z.pow_le_mono_r; lia.
    + etrans; [|exact Hlo]. rewrite <- Z.pow_add_r by lia. apply Z.pow_le_mono_r; lia.
  - unfold decimal_num, decimal_den in *. destruct (Z.leb_spec 0 p); [lia|]. apply rounds_zero; [done|].
    eapply Z.lt_le_trans; [apply Z.mul_lt_mono_pos_r; [done|exact pow_1075]|]. etrans; [apply Z.mul_le_mono_nonneg_l; [by apply Z.pow_nonneg|apply Z.lt_le_incl, Hhi]|].
    rewrite <- Z.pow_add_r by lia. apply Z.pow_le_mono_r; lia.
  - unfold decimal_num, decimal_den in *. destruct (Z.leb_spec 0 p).
    + assert (H10 : 0 < 10 ^ p) by (apply Z.pow_pos_nonneg; lia).
      pose proof (round_int_rounds (Zpos n * 10 ^ p) ltac:(lia)). destruct neg; [by apply (SFopp_rounds false)|done].
    + destruct (10 ^ (- p)) as [|q|q]; [done| |done]. apply ratio_rounds.
Qed.

(** What a literal reads as depends on its value, not on how many of its digits stand before the exponent. *)
Lemma float_of_decimal_shift neg d p j : 0 < d → 0 ≤ j → float_of_decimal neg (d * 10 ^ j) (p - j) = float_of_decimal neg d p.
Proof.
  intros Hd Hj. assert (0 < 10 ^ j) by (apply Z.pow_pos_nonneg; lia).
  pose proof (decimal_rounds neg (d * 10 ^ j) (p - j) ltac:(lia)) as H1. pose proof (decimal_rounds neg d p Hd) as H2.
  pose proof (decimal_den_pos p). pose proof (decimal_den_pos (p - j)).
  apply (rounds_scale (decimal_den p)) in H1; [|done]. apply (rounds_scale (decimal_den (p - j))) in H2; [|done].
  eapply rounds_unique; [|exact H1|]; [lia|].
  rewrite (Z.mul_comm (decimal_den p) (decimal_den (p - j))). enough (E : decimal_den p * decimal_num (d * 10 ^ j) (p - j) = decimal_den (p - j) * decimal_num d p) by by rewrite E.
  unfold decimal_num, decimal_den. destruct (Z.leb_spec 0 p), (Z.leb_spec 0 (p - j)); try lia.
  - rewrite !Z.mul_1_l, <- Z.mul_assoc, <- Z.pow_add_r by lia. do 2 f_equal. lia.
  - assert (E : 10 ^ j = 10 ^ p * 10 ^ (- (p - j))) by (rewrite <- Z.pow_add_r by lia; f_equal; lia). rewrite E. ring.
  - replace (- (p - j)) with (- p + j) by lia. rewrite Z.pow_add_r by lia. ring.
Qed.

(** ** The shortest digits read back *)

Lemma is_f64_finite s m e : is_f64 (S754_finite s m e) = true ↔
  -1074 ≤ e ≤ 971 ∧ Zpos m < 2 ^ 53 ∧ (e = -1074 ∨ 2 ^ 52 ≤ Zpos m).
Proof.
  unfold is_f64, valid_binary, bounded, canonical_mantissa. rewrite andb_true_iff, Z.eqb_eq, Z.leb_le, fexp64_max.
  change (emax - prec) with 971. pose proof (digits_spec m) as [Hl Hu]. set (d := Zpos (digits2_pos m)) in *.
  assert (H1 : 1 ≤ d) by lia. clearbody d. split.
  - intros [E He]. assert (d ≤ 53) by lia. pose proof (Z.pow_le_mono_r 2 d 53). split_and!; [lia..|].
    destruct (Z.eq_dec e (-1074)); [by left|right]. assert (d = 53) as -> by lia. done.
  - intros (He & Hm & Hc). split; [|lia]. assert (d ≤ 53).
    { destruct (Z.le_gt_cases d 53); [done|]. pose proof (Z.pow_le_mono_r 2 53 (d - 1)). lia. }
    destruct Hc as [->|Hc]; [lia|]. destruct (Z.le_gt_cases 53 d); [lia|]. pose proof (Z.pow_le_mono_r 2 d 52). lia.
Qed.

(** A ratio closer to [m * 2 ^ e] than to the neighbours of that float rounds to it. *)
Lemma rounds_near N D m k : 0 < D → is_f64 (S754_finite false m (k - 1074)) = true →
  let X := N * 2 ^ 1074 in let W := D * 2 ^ k in
  2 * Z.abs (X - Zpos m * W) < W → (Zpos m = 2 ^ 52 → 4 * Z.abs (X - Zpos m * W) < W) →
  rounds false N D (S754_finite false m (k - 1074)).
Proof.
  intros HD (He & Hm & Hc)%is_f64_finite X W Hn Hn4.
  assert (HW : 0 < W) by (apply Z.mul_pos_pos; [done|apply Z.pow_pos_nonneg; lia]).
  destruct (decide (k = 0 ∨ 2 ^ 52 * W ≤ X)) as [Hb|Hb].
  - exists k, (Zpos m). split_and!; [split_and!; [lia| |exact Hb]| |].
    + fold X W. change (2 ^ 53 * W) with (2 ^ 53 * W). assert (Zpos m * W ≤ (2 ^ 53 - 1) * W) by (apply Z.mul_le_mono_nonneg_r; flat; lia). flat. lia.
    + fold X W. flat. split; lia.
    + unfold settle, finish. rewrite (proj2 (Z.eqb_neq _ _)) by lia. by rewrite (proj2 (Z.leb_le _ _)) by lia.
  - assert (Hk : k ≠ 0 ∧ X < 2 ^ 52 * W) by (flat; lia). clear Hb. destruct Hk as [Hk HX]. destruct Hc as [Hc|Hc]; [lia|].
    assert (Em : Zpos m = 2 ^ 52) by (flat; nia). specialize (Hn4 Em). rewrite Em in *.
    assert (HW2 : W = 2 * (D * 2 ^ (k - 1))).
    { unfold W. replace k with (k - 1 + 1) at 1 by lia. rewrite Z.pow_add_r by lia. ring. }
    set (W' := D * 2 ^ (k - 1)) in *. exists (k - 1), (2 ^ 53). fold X W'.
    split_and!; [split_and!; fold X W'; [flat; lia..|]|split; fold X W'; [|]|]; [flat; right; nia|flat; lia|flat; lia|].
    unfold settle, finish. change (2 ^ 53 =? 2 ^ 53) with true. cbn iota. replace (k - 1 - 1074 + 1) with (k - 1074) by lia.
    rewrite <- Em. by rewrite (proj2 (Z.leb_le _ _)) by lia.
Qed.

(** [10 ^ k <= num / den] *)
Definition le_pow (num den k : Z) : bool := if 0 <=? k then den * 10 ^ k <=? num else den <=? num * 10 ^ (- k).

(** [10 ^ (n - 1) <= num / den < 10 ^ n] *)
Definition decimal_point (num den n : Z) : Prop := le_pow num den (n - 1) = true ∧ le_pow num den n = false.

Lemma decpt_search_step fuel num den n : decpt_search (S fuel) num den n =
  if le_pow num den n then decpt_search fuel num den (n + 1)
  else if le_pow num den (n - 1) then n else decpt_search fuel num den (n - 1).
Proof. done. Qed.
Lemma decpt_search_up fuel num den hi n : le_pow num den (n - 1) = true → le_pow num den hi = false → n ≤ hi →
  hi - n < Z.of_nat fuel → decimal_point num den (decpt_search fuel num den n).
Proof.
  revert n. induction fuel as [|fuel IH]; intros n Hn Hh Hle Hf; [lia|]. rewrite decpt_search_step.
  destruct (le_pow num den n) eqn:E; [|by rewrite Hn]. destruct (Z.eq_dec n hi) as [->|]; [congruence|].
  apply IH; [by replace (n + 1 - 1) with n by lia|done|lia|lia].
Qed.
Lemma decpt_search_down fuel num den lo n : le_pow num den n = false → le_pow num den lo = true → lo < n →
  n - lo ≤ Z.of_nat fuel → decimal_point num den (decpt_search fuel num den n).
Proof.
  revert n. induction fuel as [|fuel IH]; intros n Hn Hl Hlt Hf; [lia|]. rewrite decpt_search_step, Hn.
  destruct (le_pow num den (n - 1)) eqn:E; [done|]. destruct (Z.eq_dec (n - 1) lo) as [<-|]; [congruence|]. apply IH; [done|done|lia|lia].
Qed.
Lemma decpt_search_low num den lo hi n fuel : le_pow num den lo = true → le_pow num den hi = false → lo ≤ n ≤ hi →
  hi - lo < Z.of_nat fuel → decimal_point num den (decpt_search (S fuel) num den n).
Proof.
  intros Hl Hh Hn Hf. destruct (le_pow num den n) eqn:E.
  - rewrite decpt_search_step, E. destruct (Z.eq_dec n hi) as [->|]; [congruence|].
    apply (decpt_search_up _ _ _ hi); [by replace (n + 1 - 1) with n by lia|done|lia|lia].
  - destruct (Z.eq_dec n lo) as [->|]; [congruence|]. apply (decpt_search_down _ _ _ lo); [done|done|lia|lia].
Qed.

(** The exact value of a float, over the grid of its exponent. *)
Lemma f64_ratio_spec m e num den : is_f64 (S754_finite false m e) = true → f64_ratio (S754_finite false m e) = (num, den) →
  0 < num < 2 ^ 1024 ∧ 0 < den < 2 ^ 1075 ∧ num * 2 ^ 1074 = Zpos m * 2 ^ (e + 1074) * den ∧
  num < 2 ^ 1024 * den ∧ den ≤ num * 2 ^ 1074.
Proof.
  intros (He & Hm & _)%is_f64_finite. cbn [f64_ratio]. change (2 ^ 1024) with (2 ^ 53 * 2 ^ 971). change (2 ^ 1075) with (2 ^ 1074 * 2).
  assert (1 < 2 ^ 971 ∧ 1 < 2 ^ 1074) as [? ?] by done. destruct (Z.leb_spec 0 e); intros [= <- <-].
  - assert (0 < 2 ^ e ≤ 2 ^ 971) by (split; [apply Z.pow_pos_nonneg|apply Z.pow_le_mono_r]; lia).
    rewrite (Z.pow_add_r 2 e) by lia. set (x := 2 ^ 971) in *. set (y := 2 ^ 1074) in *. clearbody x y. split_and!; [lia|nia|lia|lia|ring|nia|nia].
  - assert (0 < 2 ^ (- e) ≤ 2 ^ 1074) by (split; [apply Z.pow_pos_nonneg|apply Z.pow_le_mono_r]; lia).
    assert (E : 2 ^ 1074 = 2 ^ (e + 1074) * 2 ^ (- e)) by (rewrite <- Z.pow_add_r by lia; f_equal; lia).
    set (x := 2 ^ 971) in *. set (y := 2 ^ 1074) in *. clearbody x y. split_and!; [lia|nia|lia|lia|rewrite E; ring|nia|nia].
Qed.

Lemma decpt_search_f64 m e num den : is_f64 (S754_finite false m e) = true → f64_ratio (S754_finite false m e) = (num, den) →
  decimal_point num den (decpt_search 700 num den (Z.log2 num * 3 / 10 - Z.log2 den * 3 / 10)).
Proof.
  intros Hv E. destruct (f64_ratio_spec m e num den Hv E) as (H1 & H2 & _ & H3 & H4). clear Hv E.
  assert (0 ≤ Z.log2 num < 1024 ∧ 0 ≤ Z.log2 den < 1075) as [? ?].
  { split; (split; [apply Z.log2_nonneg|apply Z.log2_lt_pow2; lia]). }
  apply (decpt_search_low _ _ (-324) 309); [| |Z.div_mod_to_equations; lia|cbn; lia].
  - unfold le_pow. change (0 <=? -324) with false. cbn iota. apply Z.leb_le. change (- -324) with 324.
    etrans; [exact H4|]. apply Z.mul_le_mono_nonneg_l; [lia|by vm_compute].
  - unfold le_pow. change (0 <=? 309) with true. cbn iota. apply Z.leb_gt. eapply Z.lt_le_trans; [exact H3|]. rewrite Z.mul_comm. apply Z.mul_le_mono_nonneg_l; [lia|exact pow_1024].
Qed.

(** Over the denominator [b]: the decimal [d * 10 ^ p] is [d * b], the float is [a]. *)
Lemma scaled_spec num den p a b : 0 < den → scaled num den p = (a, b) →
  0 < b ∧ a = num * decimal_den p ∧ ∀ d, decimal_num d p * den = d * b.
Proof.
  intros Hd. unfold scaled, decimal_num, decimal_den. destruct (Z.leb_spec 0 p); intros [= <- <-].
  - assert (0 < 10 ^ p) by (apply Z.pow_pos_nonneg; lia). split_and!; [nia|ring|intros; ring].
  - split_and!; [done|ring|done].
Qed.

Lemma f64_eqb_refl f : is_finite f = true → f64_eqb f f = true.
Proof.
  intros Hf. unfold f64_eqb, SFeqb. destruct f as [s| | |s m e]; try done. cbn [SFcompare]. rewrite Z.compare_refl.
  change (Pos.compare_cont Eq m m) with (m ?= m)%positive. rewrite Pos.compare_refl. by destruct s.
Qed.
Lemma f64_eqb_finite g m e : f64_eqb g (S754_finite false m e) = true → g = S754_finite false m e.
Proof.
  unfold f64_eqb, SFeqb. destruct g as [[]|[]| |[] m' e']; try done. cbn [SFcompare].
  destruct (Z.compare_spec e' e) as [->|?|?]; try done. change (Pos.compare_cont Eq m' m) with (m' ?= m)%positive.
  destruct (Pos.compare_spec m' m) as [->|?|?]; try done.
Qed.

(** Seventeen digits read back. *)
Lemma candidate_17 m e num den p : is_f64 (S754_finite false m e) = true → f64_ratio (S754_finite false m e) = (num, den) →
  le_pow num den (p + 16) = true → candidate (S754_finite false m e) num den p ≠ None.
Proof.
  intros Hv E Hp. destruct (f64_ratio_spec m e num den Hv E) as ([H1 _] & [H2 _] & HX & _).
  pose proof (proj1 (is_f64_finite false m e) Hv) as (He & Hm & _).
  unfold candidate. destruct (scaled num den p) as [a b] eqn:Es. destruct (scaled_spec _ _ _ _ _ H2 Es) as (Hb & Ha & Hd).
  pose proof (decimal_den_pos p) as HD.
  assert (Hab : 10 ^ 16 * b ≤ a).
  { rewrite Ha, <- (Hd (10 ^ 16)). unfold decimal_num, decimal_den, le_pow in *.
    destruct (Z.leb_spec 0 (p + 16)) as [Hq|Hq]; apply Z.leb_le in Hp; destruct (Z.leb_spec 0 p); try lia.
    - rewrite <- Z.pow_add_r, (Z.add_comm 16) by lia. lia.
    - assert (E1 : 10 ^ 16 = 10 ^ (p + 16) * 10 ^ (- p)) by (rewrite <- Z.pow_add_r by lia; f_equal; lia).
      assert (0 < 10 ^ (- p)) by (apply Z.pow_pos_nonneg; lia). rewrite E1. nia.
    - assert (E1 : 10 ^ (- p) = 10 ^ 16 * 10 ^ (- (p + 16))) by (rewrite <- Z.pow_add_r by lia; f_equal; lia).
      rewrite E1. nia. }
  cbn beta iota zeta. set (lo := a / b). set (first := if (2 * (a - lo * b) <? b) || _ then lo else lo + 1).
  assert (Hn : 2 * Z.abs (first * b - a) ≤ b ∧ 0 < first).
  { pose proof (Z.div_mod a b ltac:(lia)) as Hdm. pose proof (Z.mod_pos_bound a b Hb) as Hmb. fold lo in Hdm.
    assert (0 < lo) by (unfold lo; apply Z.div_str_pos; change (10 ^ 16) with 10000000000000000 in Hab; lia).
    unfold first. destruct (Z.ltb_spec (2 * (a - lo * b)) b); cbn [orb]; [lia|].
    destruct (Z.eqb_spec (2 * (a - lo * b)) b); cbn [orb andb]; [|lia]. destruct (Z.even lo); lia. }
  destruct Hn as [Hn H0]. clearbody first lo.
  assert (HW : 0 < 2 ^ (e + 1074)) by (apply Z.pow_pos_nonneg; lia).
  assert (Hr : rounds_decimal false first p (S754_finite false m e)).
  { assert (Hclose : ∀ c, 0 < c → c * b * 2 ^ 1074 < den * decimal_den p * 2 ^ (e + 1074) →
      c * 2 * Z.abs (decimal_num first p * 2 ^ 1074 - Zpos m * (decimal_den p * 2 ^ (e + 1074))) < decimal_den p * 2 ^ (e + 1074) * 1 ).
    { intros c Hc Hlt. apply (Z.mul_lt_mono_pos_l den); [lia|].
      replace (den * (c * 2 * Z.abs (decimal_num first p * 2 ^ 1074 - Zpos m * (decimal_den p * 2 ^ (e + 1074)))))
        with (c * 2 ^ 1074 * (2 * Z.abs (first * b - a))).
      2: { transitivity (c * 2 * Z.abs (den * (decimal_num first p * 2 ^ 1074 - Zpos m * (decimal_den p * 2 ^ (e + 1074)))));
           [|rewrite Z.abs_mul, (Z.abs_eq den) by lia; ring].
           replace (den * (decimal_num first p * 2 ^ 1074 - Zpos m * (decimal_den p * 2 ^ (e + 1074)))) with (2 ^ 1074 * (first * b - a)).
           - rewrite Z.abs_mul, (Z.abs_eq (2 ^ 1074)) by done. ring.
           - rewrite Ha, <- Hd. replace (2 ^ 1074 * (decimal_num first p * den - num * decimal_den p))
               with (decimal_num first p * den * 2 ^ 1074 - num * 2 ^ 1074 * decimal_den p) by ring. rewrite HX. ring. }
      eapply Z.le_lt_trans; [apply Z.mul_le_mono_nonneg_l; [apply Z.mul_nonneg_nonneg; [lia|done]|exact Hn]|].
      set (T := 2 ^ 1074) in *. clearbody T. clear - Hlt. lia. }
    assert (Hab' : 10 ^ 16 * b * 2 ^ 1074 ≤ Zpos m * (den * decimal_den p * 2 ^ (e + 1074))).
    { replace (Zpos m * (den * decimal_den p * 2 ^ (e + 1074))) with (a * 2 ^ 1074) by (rewrite Ha; lia).
      by apply Z.mul_le_mono_nonneg_r. }
    set (Z := den * decimal_den p * 2 ^ (e + 1074)) in *. assert (0 < Z) by (repeat apply Z.mul_pos_pos; done || lia). set (x := b * 2 ^ 1074) in *.
    assert (E2 : ∀ c, c * b * 2 ^ 1074 = c * x) by (intros; unfold x; ring). rewrite E2 in Hab'.
    replace e with (e + 1074 - 1074) by lia. apply rounds_near; [done|by replace (e + 1074 - 1074) with e by lia|..].
    - specialize (Hclose 1). rewrite E2, Z.mul_1_r in Hclose. apply Hclose; [done|].
      assert (Zpos m * Z ≤ (2 ^ 53 - 1) * Z) by (apply Z.mul_le_mono_nonneg_r; lia). lia.
    - intros Em. specialize (Hclose 2). rewrite E2, Z.mul_1_r in Hclose. apply Hclose; [done|]. rewrite Em in Hab'. lia. }
  rewrite (rounds_unique _ _ _ _ _ HD (decimal_rounds false first p H0) Hr). by rewrite f64_eqb_refl.
Qed.

(** The digits [repr] prints for a positive float read back as it. *)
Lemma shortest_reads m e d p : is_f64 (S754_finite false m e) = true → shortest (S754_finite false m e) = (d, p) →
  0 < d ∧ float_of_decimal false d p = S754_finite false m e.
Proof.
  intros Hv. unfold shortest. destruct (f64_ratio (S754_finite false m e)) as [num den] eqn:E.
  pose proof (proj1 (decpt_search_f64 m e num den Hv E)) as Hlow. cbn zeta. set (decpt := decpt_search _ _ _ _) in *. clearbody decpt.
  assert (Hread : ∀ d p, candidate (S754_finite false m e) num den p = Some d → float_of_decimal false d p = S754_finite false m e).
  { intros d' p'. unfold candidate. destruct (scaled num den p') as [a b]. cbn beta iota zeta.
    intros Hc. apply f64_eqb_finite. destruct (f64_eqb (float_of_decimal false _ p') _) eqn:E1 in Hc; [by injection Hc as <-|].
    destruct (f64_eqb (float_of_decimal false _ p') _) eqn:E2 in Hc; [by injection Hc as <-|done]. }
  assert (Hall : ∀ fuel k, k + Z.of_nat fuel = 17 → shortest_from fuel (S754_finite false m e) num den decpt k = (d, p) →
    float_of_decimal false d p = S754_finite false m e).
  { induction fuel as [|fuel IH]; intros k Hk; cbn [shortest_from]; destruct (candidate _ _ _ _) as [d'|] eqn:Ec.
    - intros [= -> <-]. by apply Hread.
    - exfalso. apply (candidate_17 m e num den (decpt - k) Hv E) in Ec; [done|]. by replace (decpt - k + 16) with (decpt - 1) by lia.
    - intros [= -> <-]. by apply Hread.
    - apply IH. lia. }
  intros Hs%Hall; [|done]. split; [|done]. destruct d as [|q|q]; [done..|]. done.
Qed.

(** The sign is independent of the rounding. *)
Lemma float_of_decimal_neg d p : 0 < d → float_of_decimal true d p = SFopp (float_of_decimal false d p).
Proof.
  intros Hd. eapply rounds_unique; [apply (decimal_den_pos p)|by apply decimal_rounds|].
  by apply (SFopp_rounds false), decimal_rounds.
Qed.

Lemma zeros_value n : forallb is_digit (repeat 48 n) = true ∧ dec_value (repeat 48 n) = 0.
Proof. induction n as [|n [IH1 IH2]]; [done|]. cbn [repeat]. rewrite dec_value_cons, IH2. cbn [forallb]. by rewrite IH1. Qed.
Lemma dec_value_zeros ds n : dec_value (ds ++ repeat 48 n) = dec_value ds * 10 ^ Z.of_nat n.
Proof. by rewrite dec_value_app, (proj2 (zeros_value _)), repeat_length, Z.add_0_r. Qed.

(** Two ways of writing one decimal. *)
Definition same_decimal (d p d' p' : Z) : Prop := ∃ i j, 0 ≤ i ∧ 0 ≤ j ∧ d * 10 ^ i = d' * 10 ^ j ∧ p - i = p' - j.
Lemma same_decimal_reads neg d p d' p' : 0 < d → 0 < d' → same_decimal d p d' p' → float_of_decimal neg d p = float_of_decimal neg d' p'.
Proof.
  intros Hd Hd' (i & j & Hi & Hj & E & Ep).
  by rewrite <- (float_of_decimal_shift neg d p i), <- (float_of_decimal_shift neg d' p' j), E, Ep.
Qed.

(** What [repr_decimal] returns: digits without a leading zero, for the shortest decimal. *)
Lemma repr_decimal_digits f d q raw p : 0 < d → shortest f = (d, q) → repr_decimal f = (raw, p) →
  ∃ c ds, raw = c :: ds ∧ c ≠ 48 ∧ forallb is_digit raw = true ∧ same_decimal (dec_value raw) p d q.
Proof.
  intros Hd Es. unfold repr_decimal. rewrite Es. destruct (str_of_nonneg_spec d) as (Hg & Hval & Hne); [lia|].
  pose proof (str_of_nonneg_head d) as Hh. destruct (str_of_nonneg d) as [|c ds] eqn:Ed; [done|].
  assert (Hc : c ≠ 48).
  { intros ->. rewrite (Hh ds) in Hval by (done || lia). cbv in Hval. lia. }
  destruct (_ && _ && _) eqn:Ep; intros [= <- <-].
  - apply andb_true_iff in Ep as [_ Hq%Z.leb_le]. exists c, (ds ++ repeat 48 (Z.to_nat (q + 1))). rewrite (app_comm_cons ds).
    split_and!; [done|done|by rewrite forallb_app, Hg, (proj1 (zeros_value _))|].
    exists 0, (q + 1). rewrite dec_value_zeros, Hval, Z2Nat.id, Z.mul_1_r by lia. lia.
  - exists c, ds. split_and!; [done|done|done|]. exists 0, 0. rewrite Hval. lia.
Qed.

(** ** Integers below [2 ^ 53]

    They are doubles exactly, different ones have different doubles, and the shortest digits are their own. *)

Lemma settle_finite M k m e : 0 ≤ M ≤ 2 ^ 53 → 0 ≤ k → settle false M (k - 1074) = S754_finite false m e →
  k ≤ e + 1074 ∧ M * 2 ^ k = Zpos m * 2 ^ (e + 1074).
Proof.
  intros HM Hk. unfold settle, finish. destruct (Z.eqb_spec M (2 ^ 53)) as [->|HM'].
  - destruct (_ <=? 971); [|done]. intros [= <- <-]. split; [lia|].
    replace (k - 1074 + 1 + 1074) with (1 + k) by lia. rewrite (Z.pow_add_r 2 1) by lia. rewrite Z.mul_assoc. done.
  - destruct M as [|q|q]; [done| |done]. destruct (_ <=? 971); [|done]. intros [= <- <-].
    replace (k - 1074 + 1074) with k by lia. done.
Qed.

Lemma int_exact z : 0 < z < 2 ^ 53 → ∃ m e, f64_round_int z = S754_finite false m e ∧ is_f64 (S754_finite false m e) = true ∧
  e ≤ 0 ∧ z * 2 ^ 1074 = Zpos m * 2 ^ (e + 1074).
Proof.
  intros Hz. destruct (round_int_rounds z) as (k & M & Hk & Hn & Hf); [lia|]. rewrite Hf. clear Hf.
  pose proof Hk as (Hk0 & Hu & Hl). rewrite Z.mul_1_l in *.
  assert (Hk1 : k ≤ 1074).
  { destruct Hl as [->|Hl]; [done|]. assert (2 ^ k < 2 ^ 1075); [|apply Z.pow_lt_mono_r_iff in H; lia].
    change (2 ^ 1075) with (2 * 2 ^ 1074). set (y := 2 ^ 1074) in *. assert (0 < y) by done. clearbody y. clear - Hl Hz H. nia. }
  assert (E : 2 ^ 1074 = 2 ^ (1074 - k) * 2 ^ k) by (rewrite <- Z.pow_add_r by lia; f_equal; lia).
  set (Y := 2 ^ 1074) in *. clearbody Y. assert (0 < 2 ^ k ∧ 0 < 2 ^ (1074 - k)) as [? ?] by (split; apply Z.pow_pos_nonneg; lia).
  assert (EM : M = z * 2 ^ (1074 - k)).
  { apply (nearest_unique (z * Y) (2 ^ k)); [done|done|]. unfold nearest.
    replace (z * Y - z * 2 ^ (1074 - k) * 2 ^ k) with 0 by (rewrite E; ring). cbn [Z.abs]. lia. }
  assert (HM : 0 < M < 2 ^ 53 ∧ (k = 0 ∨ 2 ^ 52 ≤ M)).
  { rewrite E, Z.mul_assoc, <- EM in Hu, Hl. split; [|destruct Hl as [->|Hl]; [by left|right; nia]]. split; [rewrite EM; nia|nia]. }
  destruct M as [|m|m]; [lia| |lia]. exists m, (k - 1074). unfold settle, finish.
  rewrite (proj2 (Z.eqb_neq _ _)), (proj2 (Z.leb_le _ _)) by lia. split_and!; [done| |lia|].
  - apply is_f64_finite. destruct HM as [? [->|?]]; split_and!; lia.
  - replace (k - 1074 + 1074) with k by lia. rewrite EM, E. ring.
Qed.

Lemma int_double_inj N z : 0 < N → 0 < z < 2 ^ 53 → f64_round_int N = f64_round_int z → N = z.
Proof.
  intros HN Hz HE. destruct (int_exact z Hz) as (m & e & Hf & _ & He & Hv). rewrite Hf in HE.
  destruct (round_int_rounds N HN) as (k & M & Hk & [Hn _] & HE'). rewrite HE in HE'. destruct Hk as (Hk0 & Hu & Hl).
  rewrite Z.mul_1_l in *. assert (0 < 2 ^ k) by (apply Z.pow_pos_nonneg; lia).
  assert (HM : 0 ≤ M ≤ 2 ^ 53).
  { set (y := 2 ^ k) in *. assert (0 < N * 2 ^ 1074) by (apply Z.mul_pos_pos; [done|by vm_compute]). set (X := N * 2 ^ 1074) in *. clearbody X y. clear - Hu Hn H H0. nia. }
  symmetry in HE'. destruct (settle_finite M k m e HM Hk0 HE') as [Hke Hv']. rewrite Hv', <- Hv in Hn.
  assert (2 ^ k ≤ 2 ^ 1074) by (apply Z.pow_le_mono_r; lia). set (y := 2 ^ 1074) in *. assert (0 < y) by done. clearbody y.
  replace (N * y - z * y) with ((N - z) * y) in Hn by ring. nia.
Qed.

Lemma le_pow_int z den k : 0 < z → 0 < den → 0 ≤ k → le_pow (z * den) den k = (10 ^ k <=? z).
Proof.
  intros Hz Hd Hk. unfold le_pow. rewrite (proj2 (Z.leb_le _ _) Hk). apply eq_true_iff_eq. rewrite !Z.leb_le. nia.
Qed.

(** A decimal integer reads as its double. *)
Lemma decimal_int d p : 0 < d → 0 ≤ p → float_of_decimal false d p = f64_round_int (d * 10 ^ p).
Proof.
  intros Hd Hp. assert (0 < 10 ^ p) by (apply Z.pow_pos_nonneg; lia). pose proof (decimal_rounds false d p Hd) as Hdr.
  unfold decimal_num, decimal_den in Hdr. rewrite (proj2 (Z.leb_le _ _) Hp) in Hdr.
  apply (rounds_unique false (d * 10 ^ p) 1); [lia|exact Hdr|apply round_int_rounds; lia].
Qed.

Lemma candidate_int z m e den : 0 < z → 0 < den → f64_round_int z = S754_finite false m e →
  candidate (S754_finite false m e) (z * den) den 0 ≠ None.
Proof.
  intros Hz Hd Hf. unfold candidate, scaled. change (0 <=? 0) with true. cbn beta iota zeta. rewrite Z.mul_1_r.
  rewrite (Z.div_mul z den) by lia. replace (2 * (z * den - z * den) <? den) with true by (symmetry; apply Z.ltb_lt; lia).
  cbn [orb]. rewrite decimal_int, Z.mul_1_r, Hf, f64_eqb_refl by (done || lia). discriminate.
Qed.

Lemma decimal_point_int z den n : 0 < z < 2 ^ 53 → 0 < den → decimal_point (z * den) den n → 1 ≤ n ≤ 16.
Proof.
  intros Hz Hd [Hlo Hhi]. split.
  - destruct (Z.le_gt_cases 1 n); [done|]. unfold le_pow in Hhi. destruct (Z.leb_spec 0 n).
    + replace n with 0 in Hhi by lia. apply Z.leb_gt in Hhi. rewrite Z.mul_1_r in Hhi. nia.
    + apply Z.leb_gt in Hhi. assert (0 < 10 ^ (- n)) by (apply Z.pow_pos_nonneg; lia).
      assert (den ≤ z * den) by nia. set (x := z * den) in *. nia.
  - destruct (Z.le_gt_cases n 16); [done|]. rewrite le_pow_int in Hlo by lia. apply Z.leb_le in Hlo.
    pose proof (Z.pow_le_mono_r 10 16 (n - 1)). lia.
Qed.

Lemma shortest_from_int m e num den decpt fuel k d p : candidate (S754_finite false m e) num den 0 ≠ None →
  k + Z.of_nat fuel = 17 → k ≤ decpt ≤ 16 → shortest_from fuel (S754_finite false m e) num den decpt k = (d, p) → 0 ≤ p.
Proof.
  intros H0. revert k. induction fuel as [|fuel IH]; intros k Hk Hle; cbn [shortest_from];
    destruct (candidate (S754_finite false m e) num den (decpt - k)) as [d'|] eqn:Ec; [intros [= ? <-]; lia|lia|intros [= ? <-]; lia|].
  apply IH; [lia|]. destruct (Z.eq_dec k decpt) as [->|]; [by rewrite Z.sub_diag in Ec|lia].
Qed.

Lemma shortest_int z d p : 0 < z < 2 ^ 53 → shortest (f64_round_int z) = (d, p) → 0 ≤ p ∧ d * 10 ^ p = z.
Proof.
  intros Hz Hs. destruct (int_exact z Hz) as (m & e & Hf & Hv & He & Hval). rewrite Hf in Hs.
  destruct (shortest_reads m e d p Hv Hs) as [Hd Hr]. enough (Hp : 0 ≤ p).
  { split; [done|]. assert (0 < 10 ^ p) by (apply Z.pow_pos_nonneg; lia).
    apply int_double_inj; [lia|done|]. by rewrite Hf, <- Hr, decimal_int. }
  unfold shortest in Hs. destruct (f64_ratio (S754_finite false m e)) as [num den] eqn:E.
  destruct (f64_ratio_spec m e num den Hv E) as (_ & [Hden _] & Hnum & _).
  assert (En : num = z * den).
  { rewrite <- Hval in Hnum. apply (Z.mul_reg_r _ _ (2 ^ 1074)); [by apply Z.pow_nonzero|]. rewrite Hnum. ring. }
  pose proof (decpt_search_f64 m e num den Hv E) as Hdp. cbn zeta in Hs. generalize dependent (decpt_search 700 num den (Z.log2 num * 3 / 10 - Z.log2 den * 3 / 10)).
  intros decpt Hs Hdp. rewrite En in *. apply decimal_point_int in Hdp; [|done..].
  eapply (shortest_from_int m e (z * den) den decpt 16 1); [apply candidate_int; [lia|done|done]|done|lia|exact Hs].
Qed.
