(* ===== verification/Json.v ===== *)
(** * Json: [json.loads] as the code calls it

    [json.loads(data, object_pairs_hook=hook)] on [bytes]: encoding detection, decoding with
    [surrogatepass], and the scanner of CPython's [json] package (which also reads [NaN] and
    [Infinity]). Every refusal is a [ValueError]: [JSONDecodeError] and [UnicodeDecodeError] are both,
    and an integer of more than 4300 digits is refused by [int], with a plain [ValueError].

    [scan_once] recurses on fuel; [json_loads_str] gives it twice the length of the text, which
    [json_loads_fuel] shows is always enough. CPython's recursion limit is not modelled. *)

From stdpp Require Import base list numbers option strings sets.
From Stdlib Require Import SpecFloat.
From S2P Require Import Prelude Text Floats.

(** ** Decoding *)

Inductive encoding := Utf8 | Utf8Sig | Utf16 | Utf16Be | Utf16Le | Utf32 | Utf32Be | Utf32Le.

Definition detect_encoding (b : bytes) : encoding :=
  match b with
  | 0x00 :: 0x00 :: 0xFE :: 0xFF :: _ | 0xFF :: 0xFE :: 0x00 :: 0x00 :: _ => Utf32
  | 0xFE :: 0xFF :: _ | 0xFF :: 0xFE :: _ => Utf16
  | 0xEF :: 0xBB :: 0xBF :: _ => Utf8Sig
  | [b0; b1] => if b0 =? 0 then Utf16Be else if b1 =? 0 then Utf16Le else Utf8
  | b0 :: b1 :: b2 :: b3 :: _ =>
    if b0 =? 0 then if b1 =? 0 then Utf32Be else Utf16Be
    else if b1 =? 0 then if (b2 =? 0) && (b3 =? 0) then Utf32Le else Utf16Le
    else Utf8
  | _ => Utf8
  end.

(** UTF-8 with [surrogatepass]: like [utf8_decode], but three-byte surrogates are read. *)
Fixpoint utf8_decode_sp (b : bytes) : res pystr :=
  match b with
  | [] => Ok []
  | b0 :: r0 =>
    if (0 <=? b0) && (b0 <? 0x80) then cons b0 <$> utf8_decode_sp r0
    else if (0xC2 <=? b0) && (b0 <? 0xE0) then
      match r0 with
      | b1 :: r1 =>
        if is_cont b1 then cons ((b0 - 0xC0) * 64 + (b1 - 0x80)) <$> utf8_decode_sp r1
        else Raise UnicodeDecodeError
      | _ => Raise UnicodeDecodeError
      end
    else if (0xE0 <=? b0) && (b0 <? 0xF0) then
      match r0 with
      | b1 :: b2 :: r2 =>
        let c := (b0 - 0xE0) * 4096 + (b1 - 0x80) * 64 + (b2 - 0x80) in
        if is_cont b1 && is_cont b2 && (0x800 <=? c)
        then cons c <$> utf8_decode_sp r2 else Raise UnicodeDecodeError
      | _ => Raise UnicodeDecodeError
      end
    else if (0xF0 <=? b0) && (b0 <? 0xF8) then
      match r0 with
      | b1 :: b2 :: b3 :: r3 =>
        let c := (b0 - 0xF0) * 262144 + (b1 - 0x80) * 4096 + (b2 - 0x80) * 64 + (b3 - 0x80) in
        if is_cont b1 && is_cont b2 && is_cont b3 && (0x10000 <=? c) && (c <? 0x110000)
        then cons c <$> utf8_decode_sp r3 else Raise UnicodeDecodeError
      | _ => Raise UnicodeDecodeError
      end
    else Raise UnicodeDecodeError
  end.

(** The 16-bit and 32-bit units of a byte string. *)
Fixpoint units16 (big : bool) (b : bytes) : res (list Z) :=
  match b with
  | [] => Ok []
  | x :: y :: r => cons (if big then x * 256 + y else y * 256 + x) <$> units16 big r
  | _ => Raise UnicodeDecodeError
  end.
Fixpoint units32 (big : bool) (b : bytes) : res (list Z) :=
  match b with
  | [] => Ok []
  | x :: y :: z :: w :: r =>
    let c := if big then ((x * 256 + y) * 256 + z) * 256 + w else ((w * 256 + z) * 256 + y) * 256 + x in
    if c <? 0x110000 then cons c <$> units32 big r else Raise UnicodeDecodeError
  | _ => Raise UnicodeDecodeError
  end.

Definition is_high (c : Z) : bool := (0xD800 <=? c) && (c <? 0xDC00).
Definition is_low (c : Z) : bool := (0xDC00 <=? c) && (c <? 0xE000).
Definition join_pair (h l : Z) : Z := 0x10000 + (h - 0xD800) * 1024 + (l - 0xDC00).

(** Surrogate pairs joined, lone surrogates kept. *)
Fixpoint join_units (us : list Z) : pystr :=
  match us with
  | h :: ((l :: r) as us') =>
    if is_high h && is_low l then join_pair h l :: join_units r else h :: join_units us'
  | us => us
  end.

Definition utf16_decode (big : bool) (b : bytes) : res pystr := join_units <$> units16 big b.

Definition decode_json_bytes (b : bytes) : res pystr :=
  match detect_encoding b with
  | Utf8 => utf8_decode_sp b
  | Utf8Sig => utf8_decode_sp (drop 3 b)
  | Utf16 => utf16_decode (match b with 0xFE :: _ => true | _ => false end) (drop 2 b)
  | Utf16Be => utf16_decode true b
  | Utf16Le => utf16_decode false b
  | Utf32 => units32 (match b with 0x00 :: _ => true | _ => false end) (drop 4 b)
  | Utf32Be => units32 true b
  | Utf32Le => units32 false b
  end.

(** ** Scanner *)

Definition is_ws (c : Z) : bool := (c =? 32) || (c =? 9) || (c =? 10) || (c =? 13).
Fixpoint skip_ws (s : pystr) : pystr :=
  match s with c :: r => if is_ws c then skip_ws r else s | [] => [] end.

(** A four-digit escape. *)
Definition hex4 (a b c d : Z) : option Z :=
  match hex_digit a, hex_digit b, hex_digit c, hex_digit d with
  | Some a, Some b, Some c, Some d => Some (((a * 16 + b) * 16 + c) * 16 + d)
  | _, _, _, _ => None
  end.

Definition simple_escape (c : Z) : option Z :=
  if c =? 34 then Some 34 else if c =? 92 then Some 92 else if c =? 47 then Some 47
  else if c =? 98 then Some 8 else if c =? 102 then Some 12 else if c =? 110 then Some 10
  else if c =? 114 then Some 13 else if c =? 116 then Some 9 else None.

Definition cons_fst {A} (c : Z) (p : pystr * A) : pystr * A := (c :: p.1, p.2).

(** A low surrogate escape ahead of [r]. *)
Definition low_escape (r : pystr) : option (Z * pystr) :=
  match r with
  | b :: u :: a :: b' :: c :: d :: r' =>
    if (b =? 92) && (u =? 117) then
      match hex4 a b' c d with
      | Some l => if is_low l then Some (l, r') else None
      | None => None
      end
    else None
  | _ => None
  end.

(** The body of a string literal, up to and including its closing quote; control characters are
    refused ([strict]). *)
Fixpoint scan_string (fuel : nat) (s : pystr) : res (pystr * pystr) :=
  match fuel, s with
  | O, _ | _, [] => Raise JSONDecodeError
  | S fuel, c :: r =>
    if c =? 34 then Ok ([], r)
    else if c <? 32 then Raise JSONDecodeError
    else if negb (c =? 92) then cons_fst c <$> scan_string fuel r
    else match r with
    | e :: r1 =>
      if e =? 117 then
        match r1 with
        | a :: b :: c :: d :: r2 =>
          match hex4 a b c d with
          | Some h =>
            match (if is_high h then low_escape r2 else None) with
            | Some (l, r3) => cons_fst (join_pair h l) <$> scan_string fuel r3
            | None => cons_fst h <$> scan_string fuel r2
            end
          | None => Raise JSONDecodeError
          end
        | _ => Raise JSONDecodeError
        end
      else match simple_escape e with
      | Some x => cons_fst x <$> scan_string fuel r1
      | None => Raise JSONDecodeError
      end
    | [] => Raise JSONDecodeError
    end
  end.

Fixpoint span_digits (s : pystr) : pystr * pystr :=
  match s with
  | c :: r => if is_digit c then cons_fst c (span_digits r) else ([], s)
  | [] => ([], [])
  end.

(** The exponent part, if there is a well-formed one. *)
Definition scan_exponent (s : pystr) : option (Z * pystr) :=
  match s with
  | e :: r =>
    if (e =? 101) || (e =? 69) then
      let '(neg, r) := match r with
                       | c :: r' => if c =? 45 then (true, r') else if c =? 43 then (false, r') else (false, r)
                       | [] => (false, r)
                       end in
      match span_digits r with
      | ([], _) => None
      | (ds, r') => Some ((if neg then - dec_value ds else dec_value ds), r')
      end
    else None
  | [] => None
  end.

(** The fraction part, if there is a well-formed one. *)
Definition scan_fraction (s : pystr) : option (pystr * pystr) :=
  match s with
  | c :: r =>
    if c =? 46 then match span_digits r with ([], _) => None | p => Some p end else None
  | [] => None
  end.

(** The integer part: a zero, or digits that do not start with one. *)
Definition scan_int (s : pystr) : pystr * pystr :=
  match s with
  | c :: r => if c =? 48 then ([c], r) else span_digits s
  | [] => ([], [])
  end.

Definition scan_number (neg : bool) (s : pystr) : res (pyval * pystr) :=
  let '(ids, r) := scan_int s in
  match ids with
  | [] => Raise JSONDecodeError
  | _ =>
    match scan_fraction r, scan_exponent (match scan_fraction r with Some (_, r') => r' | None => r end) with
    | None, None =>
      if MAX_STR_DIGITS <? zlen ids then Raise ValueError
      else Ok (PInt (if neg then - dec_value ids else dec_value ids), r)
    | frac, ex =>
      let fds := match frac with Some (fds, _) => fds | None => [] end in
      let r := match frac with Some (_, r') => r' | None => r end in
      let '(e, r) := match ex with Some (e, r') => (e, r') | None => (0, r) end in
      Ok (PFloat (float_of_decimal neg (dec_value (ids ++ fds)) (e - zlen fds)), r)
    end
  end.

(** [prefix] is next: the text after it. *)
Fixpoint expect (prefix s : pystr) : option pystr :=
  match prefix, s with
  | [], _ => Some s
  | p :: ps, c :: r => if p =? c then expect ps r else None
  | _, [] => None
  end.

Section scanner.
Context (object_pairs_hook : list (pystr * pyval) → res pyval).

Definition scan_const (s : pystr) : res (pyval * pystr) :=
  match expect (lit "null") s with Some r => Ok (PNone, r) | None =>
  match expect (lit "true") s with Some r => Ok (PBool true, r) | None =>
  match expect (lit "false") s with Some r => Ok (PBool false, r) | None =>
  match expect (lit "NaN") s with Some r => Ok (PFloat S754_nan, r) | None =>
  match expect (lit "Infinity") s with Some r => Ok (PFloat (S754_infinity false), r) | None =>
  match expect (lit "-Infinity") s with Some r => Ok (PFloat (S754_infinity true), r) | None =>
  match s with
  | c :: r => if c =? 45 then scan_number true r else scan_number false s
  | [] => Raise JSONDecodeError
  end end end end end end end.

(** [scan_object] and [scan_array] start at a member; [acc] holds the earlier ones, latest first. *)
Fixpoint scan_once (fuel : nat) (s : pystr) : res (pyval * pystr) :=
  match fuel, s with
  | O, _ => Raise RecursionError
  | _, [] => Raise JSONDecodeError
  | S fuel, c :: r =>
    if c =? 34 then '(t, r') ← scan_string (S (length r)) r; Ok (PStr t, r')
    else if c =? 123 then
      match skip_ws r with
      | d :: r' => if d =? 125 then v ← object_pairs_hook []; Ok (v, r')
                   else scan_object fuel [] (d :: r')
      | [] => Raise JSONDecodeError
      end
    else if c =? 91 then
      match skip_ws r with
      | d :: r' => if d =? 93 then Ok (PList [], r') else scan_array fuel [] (d :: r')
      | [] => Raise JSONDecodeError
      end
    else scan_const s
  end
with scan_object (fuel : nat) (acc : list (pystr * pyval)) (s : pystr) : res (pyval * pystr) :=
  match fuel, s with
  | O, _ => Raise RecursionError
  | _, [] => Raise JSONDecodeError
  | S fuel, c :: r =>
    if c =? 34 then
      '(k, r) ← scan_string (S (length r)) r;
      match skip_ws r with
      | d :: r =>
        if d =? 58 then
          '(v, r) ← scan_once fuel (skip_ws r);
          match skip_ws r with
          | e :: r =>
            if e =? 44 then scan_object fuel ((k, v) :: acc) (skip_ws r)
            else if e =? 125 then o ← object_pairs_hook (rev ((k, v) :: acc)); Ok (o, r)
            else Raise JSONDecodeError
          | [] => Raise JSONDecodeError
          end
        else Raise JSONDecodeError
      | [] => Raise JSONDecodeError
      end
    else Raise JSONDecodeError
  end
with scan_array (fuel : nat) (acc : list pyval) (s : pystr) : res (pyval * pystr) :=
  match fuel with
  | O => Raise RecursionError
  | S fuel =>
    '(v, r) ← scan_once fuel s;
    match skip_ws r with
    | e :: r =>
      if e =? 44 then scan_array fuel (v :: acc) (skip_ws r)
      else if e =? 93 then Ok (PList (rev (v :: acc)), r)
      else Raise JSONDecodeError
    | [] => Raise JSONDecodeError
    end
  end.

Definition json_loads_str (s : pystr) : res pyval :=
  '(v, r) ← scan_once (2 * length s + 1) (skip_ws s);
  match skip_ws r with [] => Ok v | _ => Raise JSONDecodeError end.

Definition json_loads (b : bytes) : res pyval := s ← decode_json_bytes b; json_loads_str s.
End scanner.

(** ** The duplicate-key hook

    [crypto._no_duplicate_keys]: the pairs of an object as a [dict], in order, or [ValueError] when a
    key comes twice. *)
Fixpoint no_dup_pairs (seen : list pystr) (pairs : list (pystr * pyval)) : res (list (pyval * pyval)) :=
  match pairs with
  | [] => Ok []
  | (k, v) :: pairs =>
    if decide (k ∈ seen) then Raise ValueError
    else cons (PStr k, v) <$> no_dup_pairs (k :: seen) pairs
  end.
Definition _no_duplicate_keys (pairs : list (pystr * pyval)) : res pyval :=
  PDict <$> no_dup_pairs [] pairs.

(** Without a hook: a [dict] built pair by pair, where a repeated key keeps its first position and takes
    the last value. *)
Fixpoint dict_set (k : pystr) (v : pyval) (d : list (pyval * pyval)) : list (pyval * pyval) :=
  match d with
  | [] => [(PStr k, v)]
  | (k', v') :: d => if py_eq_str k' k then (k', v) :: d else (k', v') :: dict_set k v d
  end.
Definition dict_pairs (pairs : list (pystr * pyval)) : res pyval :=
  Ok (PDict (fold_left (λ d p, dict_set p.1 p.2 d) pairs [])).

(** ** Every scanner consumes input *)

Lemma skip_ws_length s : (length (skip_ws s) ≤ length s)%nat.
Proof. induction s as [|c s IH]; simpl; [done|]. case_match; simpl; lia. Qed.

Lemma low_escape_length r l r' : low_escape r = Some (l, r') → (length r' < length r)%nat.
Proof. unfold low_escape. intros H. repeat case_match; simplify_eq; simpl; lia. Qed.

Lemma scan_string_length fuel s t r : scan_string fuel s = Ok (t, r) → (length r < length s)%nat.
Proof.
  revert s t r. induction fuel as [|fuel IH]; intros s t r; [done|]. destruct s as [|c s]; [done|].
  simpl. repeat case_match; intros Hs; try done; simplify_eq/=; try lia;
    apply fmap_Ok in Hs as ([t' r'] & Hs%IH & Heq); injection Heq as _ ->; simpl in *;
    repeat match goal with L : low_escape _ = Some _ |- _ => apply low_escape_length in L end; lia.
Qed.

Lemma span_digits_app s : (span_digits s).1 ++ (span_digits s).2 = s.
Proof. induction s as [|c s IH]; [done|]. simpl. case_match; [|done]. simpl. by rewrite IH. Qed.

Lemma span_digits_length s ds r : span_digits s = (ds, r) → length s = (length ds + length r)%nat.
Proof. intros H. pose proof (span_digits_app s) as E. rewrite H in E. simpl in E. subst. apply length_app. Qed.

Lemma scan_fraction_length s ds r : scan_fraction s = Some (ds, r) → (length r < length s)%nat.
Proof.
  unfold scan_fraction. intros H. repeat case_match; simplify_eq/=.
  match goal with L : span_digits _ = _ |- _ => apply span_digits_length in L end. simpl in *. lia.
Qed.

Lemma scan_exponent_length s e r : scan_exponent s = Some (e, r) → (length r < length s)%nat.
Proof.
  unfold scan_exponent. intros H. repeat case_match; simplify_eq;
    repeat match goal with L : span_digits _ = _ |- _ => apply span_digits_length in L end; simpl in *; lia.
Qed.

Lemma scan_int_length s ds r : scan_int s = (ds, r) → length s = (length ds + length r)%nat.
Proof.
  unfold scan_int. destruct s as [|c s]; [by intros [= <- <-]|].
  case_match; [by intros [= <- <-]|apply span_digits_length].
Qed.

Lemma scan_number_length neg s v r : scan_number neg s = Ok (v, r) → (length r < length s)%nat.
Proof.
  unfold scan_number. intros H.
  destruct (scan_int s) as [ids r0] eqn:Hs.
  apply scan_int_length in Hs. destruct ids as [|i ids]; [done|]. simpl in Hs.
  destruct (scan_fraction r0) as [[fds r1]|] eqn:Ef; [apply scan_fraction_length in Ef|].
  - destruct (scan_exponent r1) as [[e r2]|] eqn:Ee; [apply scan_exponent_length in Ee|];
      simplify_eq; lia.
  - destruct (scan_exponent r0) as [[e r2]|] eqn:Ee; [apply scan_exponent_length in Ee; simplify_eq; lia|].
    case_match; simplify_eq; lia.
Qed.

(** What the scanner raises: [JSONDecodeError], or [int]'s refusal of a long literal. *)
Definition json_error (e : exn) : Prop := e = JSONDecodeError ∨ e = ValueError.

Lemma scan_number_error neg s e : scan_number neg s = Raise e → json_error e.
Proof. unfold scan_number, json_error. intros H. repeat case_match; simplify_eq; auto. Qed.

Lemma expect_app p s r : expect p s = Some r → s = p ++ r.
Proof.
  revert s. induction p as [|x p IH]; intros s H; simpl in H; [by injection H as ->|].
  destruct s as [|c s]; [done|]. destruct (Z.eqb_spec x c) as [->|]; [|done].
  simpl. f_equal. by apply IH.
Qed.

Lemma expect_length p s r : expect p s = Some r → p ≠ [] → (length r < length s)%nat.
Proof. intros ->%expect_app ?. rewrite length_app. destruct p; [done|]. simpl. lia. Qed.

Lemma scan_const_length s v r : scan_const s = Ok (v, r) → (length r < length s)%nat.
Proof.
  unfold scan_const. intros H.
  repeat (case_match; [by simplify_eq; eapply expect_length; [done|vm_compute]|]).
  destruct s as [|c s]; [done|]. case_match; [|by eapply scan_number_length].
  apply scan_number_length in H. simpl. lia.
Qed.

Lemma scan_const_error s e : scan_const s = Raise e → json_error e.
Proof.
  unfold scan_const. intros H. repeat (case_match; [done|]).
  destruct s as [|c s]; [left; congruence|]. case_match; by eapply scan_number_error.
Qed.

Lemma scan_string_error fuel s e : scan_string fuel s = Raise e → e = JSONDecodeError.
Proof.
  revert s. induction fuel as [|fuel IH]; intros s; simpl; [congruence|].
  destruct s as [|c s]; [congruence|]. repeat case_match; intros Hs; try congruence;
    apply fmap_Raise in Hs; by eapply IH.
Qed.

Section fuel.
Context (hook : list (pystr * pyval) → res pyval).
Context (hook_error : ∀ l e, hook l = Raise e → json_error e).

Definition consumes (m : res (pyval * pystr)) (s : pystr) : Prop :=
  ∀ v r, m = Ok (v, r) → (length r < length s)%nat.

Lemma scan_consumes fuel :
  (∀ s, consumes (scan_once hook fuel s) s) ∧
  (∀ acc s, consumes (scan_object hook fuel acc s) s) ∧
  (∀ acc s, consumes (scan_array hook fuel acc s) s).
Proof.
  induction fuel as [|fuel (IHo & IHm & IHa)]; [by split_and!|].
  assert (∀ r, (length (skip_ws r) ≤ length r)%nat) as Hws by apply skip_ws_length.
  split_and!.
  - intros [|c s] v r; cbn [scan_once]; [done|]. specialize (Hws s).
    destruct (c =? 34).
    { intros ([t r'] & H & Heq)%bind_Ok. apply scan_string_length in H. simplify_eq/=. lia. }
    destruct (c =? 123).
    { destruct (skip_ws s) as [|d r'] eqn:E; [done|]. simpl in Hws. destruct (d =? 125).
      - intros (o & _ & Heq)%bind_Ok. simplify_eq/=. lia.
      - intros H%IHm. simpl in *. lia. }
    destruct (c =? 91); [|apply scan_const_length].
    destruct (skip_ws s) as [|d r'] eqn:E; [done|]. simpl in Hws. destruct (d =? 93).
    + intros Heq. simplify_eq/=. lia.
    + intros H%IHa. simpl in *. lia.
  - intros acc [|c s] v r; cbn [scan_object]; [done|]. destruct (c =? 34); [|done].
    intros ([k r1] & Hk%scan_string_length & H)%bind_Ok. cbn in Hk.
    pose proof (Hws r1). destruct (skip_ws r1) as [|d r2]; [done|]. destruct (d =? 58); [|done].
    apply bind_Ok in H as ([w r3] & H3%IHo & H). pose proof (Hws r2). pose proof (Hws r3).
    destruct (skip_ws r3) as [|e r4]; [done|]. simpl in *. destruct (e =? 44).
    + apply IHm in H. pose proof (Hws r4). lia.
    + destruct (e =? 125); [|done]. apply bind_Ok in H as (o & _ & Heq). simplify_eq. lia.
  - intros acc s v r. cbn [scan_array]. intros ([w r3] & H3%IHo & H)%bind_Ok. pose proof (Hws r3).
    destruct (skip_ws r3) as [|e r4]; [done|]. simpl in *. destruct (e =? 44).
    + apply IHa in H. pose proof (Hws r4). lia.
    + destruct (e =? 93); [|done]. simplify_eq. lia.
Qed.

Ltac decode_error := try (left; congruence).

Lemma scan_errors fuel e :
  (∀ s, (2 * length s + 1 ≤ fuel)%nat → scan_once hook fuel s = Raise e → json_error e) ∧
  (∀ acc s, (2 * length s + 1 ≤ fuel)%nat → scan_object hook fuel acc s = Raise e → json_error e) ∧
  (∀ acc s, (2 * length s + 2 ≤ fuel)%nat → scan_array hook fuel acc s = Raise e → json_error e).
Proof.
  induction fuel as [|fuel (IHo & IHm & IHa)]; [split_and!; intros; lia|].
  assert (∀ r, (length (skip_ws r) ≤ length r)%nat) as Hws by apply skip_ws_length.
  destruct (scan_consumes fuel) as (Ho & _ & _).
  split_and!.
  - intros [|c s] Hf; cbn [scan_once]; intros H; decode_error. specialize (Hws s). simpl in Hf.
    destruct (c =? 34).
    { apply bind_Raise in H as [H%scan_string_error|([t r'] & _ & H)]; [by left|done]. }
    destruct (c =? 123).
    { destruct (skip_ws s) as [|d r'] eqn:E; decode_error. simpl in Hws. destruct (d =? 125).
      - apply bind_Raise in H as [H|(o & _ & H)]; [by apply (hook_error [])|done].
      - eapply IHm, H. simpl. lia. }
    destruct (c =? 91); [|by apply scan_const_error in H].
    destruct (skip_ws s) as [|d r'] eqn:E; decode_error. simpl in Hws. destruct (d =? 93); [done|].
    eapply IHa, H. simpl. lia.
  - intros acc [|c s] Hf; cbn [scan_object]; intros H; decode_error. simpl in Hf.
    destruct (c =? 34); decode_error.
    apply bind_Raise in H as [H%scan_string_error|([k r1] & Hk%scan_string_length & H)]; [by left|].
    pose proof (Hws r1). destruct (skip_ws r1) as [|d r2]; decode_error. destruct (d =? 58); decode_error.
    pose proof (Hws r2). simpl in *.
    apply bind_Raise in H as [H|([w r3] & H3%Ho & H)]; [apply IHo in H; [done|lia]|].
    pose proof (Hws r3). destruct (skip_ws r3) as [|q r4]; decode_error. simpl in *.
    pose proof (Hws r4). destruct (q =? 44); [eapply IHm, H; lia|].
    destruct (q =? 125); decode_error. apply bind_Raise in H as [H|(o & _ & H)]; [|done].
    by apply (hook_error _ _ H).
  - intros acc s Hf. cbn [scan_array]. intros H.
    apply bind_Raise in H as [H|([w r3] & H3%Ho & H)]; [apply IHo in H; [done|lia]|].
    pose proof (Hws r3). destruct (skip_ws r3) as [|q r4]; decode_error. simpl in *.
    pose proof (Hws r4). destruct (q =? 44); [eapply IHa, H; lia|]. by destruct (q =? 93); decode_error.
Qed.

(** Every refusal of [json_loads_str]; in particular its fuel never runs out. *)
Lemma json_loads_str_error s e : json_loads_str hook s = Raise e → json_error e.
Proof.
  unfold json_loads_str. intros [H|([v r] & _ & H)]%bind_Raise.
  - eapply (proj1 (scan_errors _ _)), H. pose proof (skip_ws_length s). lia.
  - by destruct (skip_ws r); decode_error.
Qed.

Lemma json_loads_fuel s : json_loads_str hook s ≠ Raise RecursionError.
Proof. by intros [H|H]%json_loads_str_error. Qed.
End fuel.

(** ** Results of the duplicate-key hook *)

Lemma no_dup_pairs_Ok seen pairs kv :
  no_dup_pairs seen pairs = Ok kv ↔
  kv = (λ p, (PStr p.1, p.2)) <$> pairs ∧ NoDup pairs.*1 ∧ Forall (λ k, k ∉ seen) pairs.*1.
Proof.
  revert seen kv. induction pairs as [|[k v] pairs IH]; intros seen kv; cbn [no_dup_pairs fmap list_fmap fst].
  { split; [intros <-%Ok_inj; repeat constructor|by intros (-> & _)]. }
  case_decide as Hk.
  { split; [done|]. intros (_ & _ & Hall). by inversion Hall. }
  rewrite fmap_Ok. setoid_rewrite IH. split.
  - intros (r & (-> & Hnd & Hall) & ->). split_and!; [done|..].
    + constructor; [|done]. intros Hin. rewrite Forall_forall in Hall. apply Hall in Hin. set_solver.
    + constructor; [done|]. eapply Forall_impl; [done|]. set_solver.
  - intros (-> & [Hk' Hnd]%NoDup_cons & [_ Hall]%Forall_cons). eexists. split; [|done].
    split_and!; [done|done|]. apply Forall_forall. intros x Hx. rewrite Forall_forall in Hall.
    specialize (Hall x Hx). set_solver.
Qed.

Lemma no_duplicate_keys_Ok pairs v :
  _no_duplicate_keys pairs = Ok v ↔ NoDup pairs.*1 ∧ v = PDict ((λ p, (PStr p.1, p.2)) <$> pairs).
Proof.
  unfold _no_duplicate_keys. rewrite fmap_Ok. setoid_rewrite no_dup_pairs_Ok. split.
  - intros (kv & (-> & ? & _) & ->). done.
  - intros (? & ->). eexists. split; [|done]. split_and!; [done|done|]. apply Forall_forall. set_solver.
Qed.

Lemma no_dup_pairs_error seen pairs e : no_dup_pairs seen pairs = Raise e → e = ValueError.
Proof.
  revert seen. induction pairs as [|[k v] pairs IH]; intros seen; simpl; [done|].
  case_decide; [congruence|]. rewrite fmap_Raise. apply IH.
Qed.

Lemma no_duplicate_keys_error pairs e : _no_duplicate_keys pairs = Raise e → e = ValueError.
Proof. unfold _no_duplicate_keys. rewrite fmap_Raise. apply no_dup_pairs_error. Qed.

(** A hook that reads distinct keys as the [dict] of the pairs, in order. *)
Class DictHook (hook : list (pystr * pyval) → res pyval) : Prop :=
  dict_hook_ok pairs : NoDup pairs.*1 → hook pairs = Ok (PDict ((λ p, (PStr p.1, p.2)) <$> pairs)).

Global Instance no_duplicate_keys_hook : DictHook _no_duplicate_keys.
Proof. intros pairs Hn. by apply no_duplicate_keys_Ok. Qed.

Lemma dict_set_new k v d : PStr k ∉ d.*1 → dict_set k v d = d ++ [(PStr k, v)].
Proof.
  induction d as [|[k' v'] d IH]; simpl; [done|]. rewrite not_elem_of_cons. intros [Hk Hd].
  destruct (py_eq_str k' k) eqn:E; [by apply py_eq_str_true in E|]. by rewrite IH.
Qed.

Lemma dict_pairs_app pairs d :
  NoDup pairs.*1 → (∀ k, k ∈ pairs.*1 → PStr k ∉ d.*1) →
  fold_left (λ d p, dict_set p.1 p.2 d) pairs d = d ++ ((λ p, (PStr p.1, p.2)) <$> pairs).
Proof.
  revert d. induction pairs as [|[k v] pairs IH]; intros d Hn Hd; [by rewrite app_nil_r|].
  rewrite fmap_cons in Hn. apply NoDup_cons in Hn as [Hk Hn]. simpl.
  rewrite dict_set_new by (apply Hd; left). rewrite IH; [by rewrite <-(assoc_L (++))|done|].
  intros k' Hk'. rewrite fmap_app, not_elem_of_app. split; [by apply Hd; right|].
  simpl. rewrite list_elem_of_singleton. intros [= ->]. done.
Qed.

Global Instance dict_pairs_hook : DictHook dict_pairs.
Proof. intros pairs Hn. unfold dict_pairs. rewrite dict_pairs_app; [done|done|]. intros k _ ?%not_elem_of_nil. done. Qed.

(** Every [dict] inside a value has distinct [str] keys. *)
Inductive unique_keys : pyval → Prop :=
| uk_none : unique_keys PNone
| uk_bool b : unique_keys (PBool b)
| uk_int z : unique_keys (PInt z)
| uk_float f : unique_keys (PFloat f)
| uk_str s : unique_keys (PStr s)
| uk_list l : Forall unique_keys l → unique_keys (PList l)
| uk_dict (pairs : list (pystr * pyval)) :
    NoDup pairs.*1 → Forall (λ p, unique_keys p.2) pairs →
    unique_keys (PDict ((λ p, (PStr p.1, p.2)) <$> pairs)).
#[export] Hint Constructors unique_keys : core.

Lemma scan_number_unique neg s v r : scan_number neg s = Ok (v, r) → unique_keys v.
Proof. unfold scan_number. intros H. repeat case_match; simplify_eq; auto. Qed.

Lemma scan_const_unique s v r : scan_const s = Ok (v, r) → unique_keys v.
Proof.
  unfold scan_const. intros H. do 6 (case_match; [simplify_eq; by auto|]).
  destruct s; [done|]. case_match; by eapply scan_number_unique.
Qed.

Lemma hook_unique pairs v :
  Forall (λ p, unique_keys p.2) pairs → _no_duplicate_keys pairs = Ok v → unique_keys v.
Proof. intros Hp (Hnd & ->)%no_duplicate_keys_Ok. by constructor. Qed.

Lemma scan_unique fuel :
  (∀ s v r, scan_once _no_duplicate_keys fuel s = Ok (v, r) → unique_keys v) ∧
  (∀ acc s v r, Forall (λ p, unique_keys p.2) acc →
     scan_object _no_duplicate_keys fuel acc s = Ok (v, r) → unique_keys v) ∧
  (∀ acc s v r, Forall unique_keys acc →
     scan_array _no_duplicate_keys fuel acc s = Ok (v, r) → unique_keys v).
Proof.
  induction fuel as [|fuel (IHo & IHm & IHa)]; [by split_and!|]. split_and!.
  - intros [|c s] v r; cbn [scan_once]; [done|]. destruct (c =? 34).
    { intros ([t r'] & _ & Heq)%bind_Ok. simplify_eq. auto. }
    destruct (c =? 123).
    { destruct (skip_ws s) as [|d r']; [done|]. destruct (d =? 125); [|by apply IHm].
      intros (o & Ho & Heq)%bind_Ok. simplify_eq. by eapply (hook_unique []). }
    destruct (c =? 91); [|apply scan_const_unique].
    destruct (skip_ws s) as [|d r']; [done|]. destruct (d =? 93); [|by apply IHa].
    intros Heq. simplify_eq. auto.
  - intros acc [|c s] v r Hacc; cbn [scan_object]; [done|]. destruct (c =? 34); [|done].
    intros ([k r1] & _ & H)%bind_Ok. destruct (skip_ws r1) as [|d r2]; [done|].
    destruct (d =? 58); [|done]. apply bind_Ok in H as ([w r3] & H3%IHo & H).
    destruct (skip_ws r3) as [|e r4]; [done|].
    destruct (e =? 44); [eapply IHm, H; by constructor|].
    destruct (e =? 125); [|done]. apply bind_Ok in H as (o & Ho & Heq). simplify_eq.
    eapply hook_unique, Ho. apply Forall_rev. by constructor.
  - intros acc s v r Hacc. cbn [scan_array]. intros ([w r3] & H3%IHo & H)%bind_Ok.
    destruct (skip_ws r3) as [|e r4]; [done|].
    destruct (e =? 44); [eapply IHa, H; by constructor|].
    destruct (e =? 93); [|done]. injection H as <- _. constructor. apply Forall_app.
    split; [by apply Forall_rev|by constructor].
Qed.

(** A duplicate key anywhere in the text is refused: what [json.loads] returns has none. *)
Lemma json_loads_unique b v : json_loads _no_duplicate_keys b = Ok v → unique_keys v.
Proof.
  unfold json_loads, json_loads_str. intros (s & _ & ([v' r] & Hs & H)%bind_Ok)%bind_Ok.
  apply scan_unique in Hs. destruct (skip_ws r); by simplify_eq.
Qed.

(** ** Refusals of [json_loads] *)

Lemma utf8_decode_sp_error b e : utf8_decode_sp b = Raise e → e = UnicodeDecodeError.
Proof.
  revert e. induction b as [b IH] using (induction_ltof1 _ (@length Z)); intros e. unfold ltof in IH.
  destruct b as [|b0 r0]; [done|]. cbn [utf8_decode_sp].
  repeat case_match; try congruence; intros Hr%fmap_Raise; (eapply IH, Hr; simpl; lia).
Qed.

Lemma units16_error big b e : units16 big b = Raise e → e = UnicodeDecodeError.
Proof.
  revert e. induction b as [b IH] using (induction_ltof1 _ (@length Z)); intros e. unfold ltof in IH.
  destruct b as [|x [|y r]]; cbn [units16]; try congruence. intros Hr%fmap_Raise. eapply IH, Hr. simpl. lia.
Qed.

Lemma units32_error big b e : units32 big b = Raise e → e = UnicodeDecodeError.
Proof.
  revert e. induction b as [b IH] using (induction_ltof1 _ (@length Z)); intros e. unfold ltof in IH.
  destruct b as [|x [|y [|z [|w r]]]]; cbn [units32]; try congruence.
  destruct (_ <? _); [|congruence]. intros Hr%fmap_Raise. eapply IH, Hr. simpl. lia.
Qed.

Lemma decode_json_bytes_error b e : decode_json_bytes b = Raise e → e = UnicodeDecodeError.
Proof.
  unfold decode_json_bytes, utf16_decode.
  destruct (detect_encoding b); try apply utf8_decode_sp_error; try apply units32_error;
    intros Hr%fmap_Raise; by eapply units16_error.
Qed.

(** [json.loads] of bytes without a hook only raises [ValueError]s. *)
Lemma json_loads_error b e : json_loads dict_pairs b = Raise e → isa e CValueError = true.
Proof.
  unfold json_loads. intros [->%decode_json_bytes_error|(s & _ & Hs)]%bind_Raise; [done|].
  by apply json_loads_str_error in Hs as [->| ->].
Qed.
