(* ===== verification/JsonRead.v ===== *)
(** * JsonRead: texts that [json.loads] reads back

    [reads hook t x]: wherever the text [t] stands in a JSON document, the scanner reads the value [x] from
    it. The lemmas give the texts of constants, integers, string literals and objects, in the layouts the
    encoders of the code produce (compact, spaced, indented). *)

From stdpp Require Import base list numbers option strings sets.
From Stdlib Require Import SpecFloat.
From S2P Require Import Prelude Text Floats Json.

(** [sep.join(parts)] *)
Fixpoint sep_join (sep : pystr) (parts : list pystr) : pystr :=
  match parts with
  | [] => []
  | [p] => p
  | p :: ps => p ++ sep ++ sep_join sep ps
  end.

Lemma sep_join_cons sep t ts : ts ≠ [] → sep_join sep (t :: ts) = t ++ sep ++ sep_join sep ts.
Proof. by destruct ts. Qed.

Section reading.
Context (hook : list (pystr * pyval) → res pyval) `{!DictHook hook}.
(** What may follow a value: nothing that could continue a number. *)
Definition delim (rest : pystr) : Prop :=
  match rest with [] => True | c :: _ => is_digit c = false ∧ c ≠ 46 ∧ c ≠ 101 ∧ c ≠ 69 end.

Definition starts (t : pystr) : Prop :=
  match t with [] => False | c :: _ => is_ws c = false ∧ c ≠ 93 ∧ c ≠ 125 end.

Definition reads (t : pystr) (x : pyval) : Prop :=
  starts t ∧ ∀ fuel rest, (2 * length t + 1 ≤ fuel)%nat → delim rest →
    scan_once hook fuel (t ++ rest) = Ok (x, rest).

Lemma skip_ws_starts t rest : starts t → skip_ws (t ++ rest) = t ++ rest.
Proof. destruct t as [|c t]; [done|]. intros [Hc _]. simpl. by rewrite Hc. Qed.

(** White space before a value is skipped. *)
Lemma skip_ws_run w t rest :
  forallb is_ws w = true → starts t → skip_ws (w ++ t ++ rest) = t ++ rest.
Proof.
  intros Hw Ht. induction w as [|c w IH]; [by apply (skip_ws_starts t)|]. simpl in Hw.
  apply andb_true_iff in Hw as [Hc Hw]. simpl. rewrite Hc. by apply IH.
Qed.

Lemma skip_ws_char w c rest : forallb is_ws w = true → is_ws c = false → skip_ws (w ++ c :: rest) = c :: rest.
Proof.
  intros Hw Hc. induction w as [|d w IH]; simpl; [by rewrite Hc|]. simpl in Hw.
  apply andb_true_iff in Hw as [-> Hw]. by apply IH.
Qed.

(** ** String literals *)

(** [q] is a literal of [s], as both string positions of the scanner meet it. *)
Definition literal (q s : pystr) : Prop := ∀ rest,
  ∃ body, q ++ rest = 34 :: body ∧ scan_string (S (length body)) body = Ok (s, rest).

Lemma literal_head q s : literal q s → ∃ q', q = 34 :: q'.
Proof.
  intros H. destruct (H []) as (body & E & _). rewrite app_nil_r in E. by exists body.
Qed.

Lemma reads_literal q s : literal q s → reads q (PStr s).
Proof.
  intros Hq. split; [by destruct (literal_head q s Hq) as [q' ->]|].
  intros [|fuel] rest Hf _; [lia|].
  destruct (Hq rest) as (body & -> & Hb). cbn [scan_once]. change (34 =? 34) with true.
  cbn iota. by rewrite Hb.
Qed.

Lemma reads_const t x :
  t = lit "null" ∧ x = PNone ∨ t = lit "true" ∧ x = PBool true ∨ t = lit "false" ∧ x = PBool false →
  reads t x.
Proof.
  intros H. split; [by destruct H as [[-> _]|[[-> _]|[-> _]]]|].
  intros [|fuel] rest Hf _; [lia|]. by destruct H as [[-> ->]|[[-> ->]|[-> ->]]].
Qed.

(** ** Integers *)

(** Digits end where no digit follows. *)
Definition digits_end (rest : pystr) : Prop := match rest with c :: _ => is_digit c = false | [] => True end.

Lemma span_digits_until ds rest : forallb is_digit ds = true → digits_end rest → span_digits (ds ++ rest) = (ds, rest).
Proof.
  intros Hd Hr. induction ds as [|c ds IH]; simpl.
  - destruct rest as [|c rest]; [done|]. simpl. by rewrite Hr.
  - simpl in Hd. apply andb_true_iff in Hd as [-> Hd]. by rewrite IH.
Qed.
Lemma span_digits_run ds rest : forallb is_digit ds = true → delim rest → span_digits (ds ++ rest) = (ds, rest).
Proof. intros Hd Hr. apply span_digits_until; [done|]. destruct rest; [done|apply Hr]. Qed.

Lemma scan_int_str n rest : 0 ≤ n → delim rest → scan_int (str_of_nonneg n ++ rest) = (str_of_nonneg n, rest).
Proof.
  intros Hn Hr. destruct (str_of_nonneg_spec n Hn) as (Hd & _ & Hne).
  pose proof (str_of_nonneg_head n) as Hh. pose proof (span_digits_run _ _ Hd Hr) as Hs.
  destruct (str_of_nonneg n) as [|c ds]; [done|]. cbn [app scan_int].
  destruct (Z.eqb_spec c 48) as [->|]; [by rewrite (Hh ds)|done].
Qed.

Lemma scan_number_str neg n rest :
  0 ≤ n → delim rest → zlen (str_of_nonneg n) ≤ MAX_STR_DIGITS →
  scan_number neg (str_of_nonneg n ++ rest) = Ok (PInt (if neg then - n else n), rest).
Proof.
  intros Hn Hr Hl. unfold scan_number. rewrite scan_int_str by done.
  destruct (str_of_nonneg_spec n Hn) as (_ & Hv & Hne). destruct (str_of_nonneg n) as [|c ds]; [done|].
  assert (scan_fraction rest = None ∧ scan_exponent rest = None) as [-> ->].
  { unfold scan_fraction, scan_exponent. destruct rest as [|x rest]; [done|].
    destruct Hr as (_ & H1 & H2 & H3). destruct (Z.eqb_spec x 46), (Z.eqb_spec x 101), (Z.eqb_spec x 69); done. }
  destruct (Z.ltb_spec MAX_STR_DIGITS (zlen (c :: ds))); [lia|]. by rewrite Hv.
Qed.

Lemma expect_head p c q r : match p with x :: _ => x ≠ c | [] => False end → expect p (c :: q ++ r) = None.
Proof. destruct p as [|x p]; [done|]. intros Hx. simpl. by destruct (Z.eqb_spec x c). Qed.

Lemma scan_const_digit (neg : bool) c s :
  is_digit c = true → scan_const ((if neg then [45] else []) ++ c :: s) = scan_number neg (c :: s).
Proof.
  intros Hc. assert (48 ≤ c ≤ 57) by by apply is_digit_spec.
  unfold scan_const. destruct neg; cbn -[Z.eqb scan_number];
    repeat (match goal with |- context [?x =? ?y] => destruct (Z.eqb_spec x y); [lia|]; cbn [negb] end
            || match goal with |- context [45 =? 45] => change (45 =? 45) with true end); try done.
Qed.

(** ** Numbers with a fraction or an exponent

    A number text that the scanner reads to its end is read the same way wherever it stands. *)

Lemma span_digits_stop s ds r rest :
  span_digits s = (ds, r) → delim rest → span_digits (s ++ rest) = (ds, r ++ rest).
Proof.
  intros Hs Hr. revert ds r Hs. induction s as [|c s IH]; intros ds r; cbn [span_digits app].
  - intros [= <- <-]. by apply (span_digits_run []).
  - destruct (is_digit c) eqn:Hc; [|by intros [= <- <-]].
    destruct (span_digits s) as [ds' r'] eqn:E. intros [= <- <-]. by rewrite (IH ds' r').
Qed.

Lemma scan_fraction_stop s rest : delim rest →
  scan_fraction (s ++ rest) = (λ p, (p.1, p.2 ++ rest)) <$> scan_fraction s.
Proof.
  intros Hr. destruct s as [|c s]; cbn [app].
  - destruct rest as [|x rest]; [done|]. destruct Hr as (_ & H1 & _). cbn. by destruct (Z.eqb_spec x 46).
  - unfold scan_fraction. destruct (c =? 46); [|done].
    destruct (span_digits s) as [ds r] eqn:E. rewrite (span_digits_stop _ _ _ _ E Hr). by destruct ds.
Qed.

Lemma scan_exponent_stop s e : scan_exponent s = Some (e, []) → ∀ rest, delim rest →
  scan_exponent (s ++ rest) = Some (e, rest).
Proof.
  unfold scan_exponent. destruct s as [|c s]; [done|]. cbn [app]. destruct ((c =? 101) || (c =? 69)); [|done].
  intros H rest Hr.
  assert (∀ s' (neg : bool), (match span_digits s' with ([], _) => None
      | (ds, r') => Some ((if neg then - dec_value ds else dec_value ds), r') end) = Some (e, []) →
    (match span_digits (s' ++ rest) with ([], _) => None
      | (ds, r') => Some ((if neg then - dec_value ds else dec_value ds), r') end) = Some (e, rest)) as Hs.
  { intros s' neg. destruct (span_digits s') as [ds r] eqn:E. rewrite (span_digits_stop _ _ _ _ E Hr).
    destruct ds; [done|]. by intros [= <- ->]. }
  destruct s as [|d s]; [done|]. cbn [app]. destruct (d =? 45); [by apply (Hs s true)|].
  destruct (d =? 43); [by apply (Hs s false)|by apply (Hs (d :: s) false)].
Qed.

Lemma scan_exponent_nil rest : delim rest → scan_exponent rest = None.
Proof.
  destruct rest as [|x rest]; [done|]. intros (_ & _ & H2 & H3). cbn.
  by destruct (Z.eqb_spec x 101), (Z.eqb_spec x 69).
Qed.

Lemma scan_number_stop neg s v : scan_number neg s = Ok (v, []) → ∀ rest, delim rest →
  scan_number neg (s ++ rest) = Ok (v, rest).
Proof.
  unfold scan_number. intros H rest Hr. destruct (scan_int s) as [ids r] eqn:Ei.
  assert (ids ≠ [] → scan_int (s ++ rest) = (ids, r ++ rest)) as Hi.
  { unfold scan_int in *. destruct s as [|c s]; [by injection Ei as <- <-|]. cbn [app].
    destruct (c =? 48); [by injection Ei as <- <-|]. intros _. by apply (span_digits_stop (c :: s)). }
  destruct ids as [|i ids]; [done|]. rewrite Hi by done. rewrite (scan_fraction_stop r rest Hr).
  destruct (scan_fraction r) as [[fds r']|]; cbn [fmap option_fmap option_map fst snd].
  - destruct (scan_exponent r') as [[e r2]|] eqn:Ee.
    + injection H as <- ->. by rewrite (scan_exponent_stop _ _ Ee rest Hr).
    + injection H as <- ->. cbn [app]. by rewrite (scan_exponent_nil rest Hr).
  - destruct (scan_exponent r) as [[e r2]|] eqn:Ee.
    + injection H as <- ->. by rewrite (scan_exponent_stop _ _ Ee rest Hr).
    + destruct (_ <? _); [done|]. injection H as <- ->. cbn [app]. by rewrite (scan_exponent_nil rest Hr).
Qed.

(** A number, as a sign and a text that starts with a digit. *)
Definition signed (neg : bool) (s : pystr) : pystr := (if neg then [45] else []) ++ s.

Lemma reads_number neg c s v :
  is_digit c = true → scan_number neg (c :: s) = Ok (v, []) → reads (signed neg (c :: s)) v.
Proof.
  intros Hc Hs. assert (48 ≤ c ≤ 57) by by apply is_digit_spec. unfold signed. split.
  { destruct neg; simpl; [done|]. unfold is_ws. split; [cmp; lia|lia]. }
  intros [|fuel] rest Hf Hr; [lia|]. rewrite <-(assoc_L (++)). cbn [app].
  assert (∀ s, scan_once hook (S fuel) ((if neg then [45] else []) ++ c :: s) =
               scan_const ((if neg then [45] else []) ++ c :: s)) as ->.
  { intros s'. destruct neg; cbn [app scan_once]; [done|].
    destruct (Z.eqb_spec c 34), (Z.eqb_spec c 123), (Z.eqb_spec c 91); (lia || done). }
  rewrite scan_const_digit by done. by apply (scan_number_stop neg (c :: s)).
Qed.

Lemma reads_int z : zlen (str_of_int z) ≤ MAX_STR_DIGITS → reads (str_of_int z) (PInt z).
Proof.
  intros Hl. set (n := Z.abs z). set (neg := z <? 0).
  assert (str_of_int z = signed neg (str_of_nonneg n)) as E.
  { unfold signed, str_of_int, neg, n. destruct (Z.ltb_spec z 0); simpl; do 2 f_equal; lia. }
  assert (0 ≤ n) as Hn by (unfold n; lia). destruct (str_of_nonneg_spec n Hn) as (Hd & _ & Hne).
  assert (zlen (str_of_nonneg n) ≤ MAX_STR_DIGITS) as Hl'.
  { unfold signed in E. rewrite E, length_app in Hl. lia. }
  assert (PInt z = PInt (if neg then - n else n)) as ->.
  { f_equal. unfold neg, n. destruct (Z.ltb_spec z 0); lia. }
  pose proof (scan_number_str neg n [] Hn I Hl') as Hs. rewrite app_nil_r in Hs.
  rewrite E. destruct (str_of_nonneg n) as [|c ds]; [done|]. simpl in Hd. apply andb_true_iff in Hd as [Hc _].
  by apply reads_number.
Qed.

Lemma str_of_int_chars z c : c ∈ str_of_int z → is_digit c = true ∨ c = 45.
Proof.
  assert (∀ n d, 0 ≤ n → d ∈ str_of_nonneg n → is_digit d = true) as Hd.
  { intros n d (H & _)%str_of_nonneg_spec Hin. rewrite forallb_forall in H. by apply H, list_elem_of_In. }
  unfold str_of_int. destruct (Z.ltb_spec z 0).
  - intros [->|Hin]%elem_of_cons; [by right|]. left. eapply Hd, Hin. lia.
  - intros Hin. left. eapply Hd, Hin. lia.
Qed.

Lemma dec_digits_length fuel n acc : (length (dec_digits fuel n acc) ≤ fuel + length acc)%nat.
Proof.
  revert n acc. induction fuel as [|fuel IH]; intros n acc; simpl; [done|].
  case_match; simpl; [lia|]. etrans; [apply IH|]. simpl. lia.
Qed.

Lemma str_of_int_short z : - 2 ^ 53 ≤ z ≤ 2 ^ 53 → zlen (str_of_int z) ≤ MAX_STR_DIGITS.
Proof.
  intros Hz. assert (∀ n, 0 ≤ n ≤ 2 ^ 53 → zlen (str_of_nonneg n) ≤ 60) as Hn.
  { intros n [Hn Hle]. unfold str_of_nonneg.
    pose proof (dec_digits_length (S (S (Z.to_nat (Z.log2 n)))) n []) as H. simpl (length []) in H.
    pose proof (Z.log2_le_mono n (2 ^ 53) Hle) as Hlog. change (Z.log2 (2 ^ 53)) with 53 in Hlog. lia. }
  unfold str_of_int, MAX_STR_DIGITS. destruct (Z.ltb_spec z 0).
  - specialize (Hn (- z)). cbn [length]. lia.
  - specialize (Hn z). lia.
Qed.

(** ** Objects *)

Lemma delim_punct c rest : c = 44 ∨ c = 93 ∨ c = 125 → delim (c :: rest).
Proof. intros [->|[->| ->]]; by repeat split. Qed.

Lemma reads_once t x fuel rest :
  reads t x → (2 * length t + 1 ≤ fuel)%nat → delim rest → scan_once hook fuel (t ++ rest) = Ok (x, rest).
Proof. intros [_ H]. apply H. Qed.

(** The layout of an object: how keys are quoted, and the white space after a colon, after a comma, after
    the opening brace and before the closing one. *)
Section layout.
Context (quote : pystr → pystr) (kw iw ow cw : pystr).
Context (Hkw : forallb is_ws kw = true) (Hiw : forallb is_ws iw = true)
  (How : forallb is_ws ow = true) (Hcw : forallb is_ws cw = true).

(** The members of an object: key, text and value. *)
Definition member_text (m : pystr * (pystr * pyval)) : pystr := quote m.1 ++ 58 :: kw ++ m.2.1.
Definition member_reads (m : pystr * (pystr * pyval)) : Prop := literal (quote m.1) m.1 ∧ reads m.2.1 m.2.2.
Definition member_pair (m : pystr * (pystr * pyval)) : pystr * pyval := (m.1, m.2.2).

Lemma member_step fuel k t x acc s :
  literal (quote k) k → reads t x → (2 * length t + 1 ≤ fuel)%nat → delim s →
  scan_object hook (S fuel) acc (member_text (k, (t, x)) ++ s) =
  match skip_ws s with
  | e :: r =>
    if e =? 44 then scan_object hook fuel ((k, x) :: acc) (skip_ws r)
    else if e =? 125 then o ← hook (rev ((k, x) :: acc)); Ok (o, r)
    else Raise JSONDecodeError
  | [] => Raise JSONDecodeError
  end.
Proof.
  intros Hk Ht Hf Hs. unfold member_text. cbn [fst snd].
  destruct (Hk (58 :: kw ++ t ++ s)) as (body & E & Hb).
  rewrite <-(assoc_L (++)). cbn [app]. rewrite <-(assoc_L (++)), E.
  cbn [scan_object]. change (34 =? 34) with true. cbn iota.
  rewrite Hb. cbn [mbind res_bind]. change (skip_ws (58 :: ?r)) with (58 :: r). cbn iota.
  change (58 =? 58) with true. cbn iota. destruct Ht as [Hst Ht]. rewrite skip_ws_run by done.
  by rewrite Ht.
Qed.

Lemma member_starts m : member_reads m → starts (member_text m).
Proof. intros [Hq _]. unfold member_text. by destruct (literal_head _ _ Hq) as [q ->]. Qed.

Lemma join_head m ms : ∃ rest, sep_join (44 :: iw) (member_text <$> m :: ms) = member_text m ++ rest.
Proof. destruct ms; [exists []; by rewrite app_nil_r|]. by eexists. Qed.

Lemma delim_ws w c rest : forallb is_ws w = true → c = 44 ∨ c = 93 ∨ c = 125 → delim (w ++ c :: rest).
Proof.
  intros Hw Hc. destruct w as [|d w]; [by apply delim_punct|]. simpl in Hw. apply andb_true_iff in Hw as [Hd _].
  unfold is_ws in Hd. rewrite !orb_true_iff, !Z.eqb_eq in Hd.
  destruct Hd as [[[->| ->]| ->]| ->]; by repeat split.
Qed.

Lemma scan_object_join ms : Forall member_reads ms → ms ≠ [] → ∀ fuel acc rest,
  (2 * length (sep_join (44%Z :: iw) (member_text <$> ms)) + 1 ≤ fuel)%nat →
  scan_object hook fuel acc (sep_join (44 :: iw) (member_text <$> ms) ++ cw ++ 125 :: rest) =
  o ← hook (rev acc ++ (member_pair <$> ms)); Ok (o, rest).
Proof.
  induction 1 as [|[k [t x]] ms [Hk Ht] Hall IH]; [done|]. intros _ [|fuel] acc rest Hf; [lia|].
  assert (length t + 1 ≤ length (member_text (k, (t, x))))%nat as Hlen.
  { unfold member_text. rewrite length_app. cbn [fst snd length]. rewrite length_app. lia. }
  destruct ms as [|m ms].
  - cbn [fmap list_fmap sep_join] in *.
    rewrite member_step by (done || lia || (apply delim_ws; auto)). by rewrite skip_ws_char.
  - rewrite (fmap_cons member_text (k, (t, x))), sep_join_cons in * by done. rewrite !length_app in Hf. cbn [length] in Hf.
    rewrite <-(assoc_L (++)). cbn [app].
    rewrite member_step by (done || lia || (apply delim_punct; auto)).
    change (skip_ws (44 :: ?s)) with (44 :: s). cbn iota. change (44 =? 44) with true. cbn iota.
    destruct (join_head m ms) as [rest' E].
    rewrite <-(assoc_L (++)), E, <-(assoc_L (++)).
    rewrite skip_ws_run by (done || apply member_starts; by apply Forall_cons in Hall as [? _]).
    rewrite (assoc_L (++) (member_text m)), <-E, IH by (done || lia).
    cbn [rev]. by rewrite <-(assoc_L (++)).
Qed.

Lemma reads_object ms :
  Forall member_reads ms → ms ≠ [] → NoDup (member_pair <$> ms).*1 →
  reads (123 :: ow ++ sep_join (44 :: iw) (member_text <$> ms) ++ cw ++ [125])
        (PDict ((λ p, (PStr p.1, p.2)) <$> (member_pair <$> ms))).
Proof.
  intros Hall Hne Hnd. split; [done|]. intros [|fuel] rest Hf _; [lia|].
  cbn [app scan_once]. change (123 =? 34) with false. change (123 =? 123) with true. cbn iota.
  rewrite <-!(assoc_L (++)). destruct ms as [|m ms]; [done|]. destruct (join_head m ms) as [rest' E].
  assert (literal (quote m.1) m.1) as [q Hq]%literal_head by (by apply Forall_cons in Hall as [[? _] _]).
  rewrite E, <-(assoc_L (++)).
  rewrite skip_ws_run by (done || apply member_starts; by apply Forall_cons in Hall as [? _]).
  assert (∃ s, member_text m ++ rest' ++ cw ++ [125] ++ rest = 34 :: s) as (s & Es).
  { unfold member_text. rewrite Hq. by eexists. }
  rewrite Es. change (34 =? 125) with false. cbn iota. rewrite <-Es.
  rewrite (assoc_L (++) (member_text m)), <-E. cbn [app]. rewrite scan_object_join; [|done|done|].
  - cbn [rev app]. by rewrite (dict_hook_ok (member_pair <$> m :: ms) Hnd).
  - cbn [length] in Hf. rewrite !length_app in Hf. cbn [length] in Hf. lia.
Qed.
End layout.

Lemma reads_empty_object : reads (lit "{}") (PDict []).
Proof.
  split; [done|]. intros [|fuel] rest Hf _; [lia|]. cbn. by rewrite (dict_hook_ok []) by constructor.
Qed.

(** ** Arrays *)

Section array.
Context (iw ow cw : pystr).
Context (Hiw : forallb is_ws iw = true) (How : forallb is_ws ow = true) (Hcw : forallb is_ws cw = true).

Definition element_reads (m : pystr * pyval) : Prop := reads m.1 m.2.

Lemma scan_array_join ms : Forall element_reads ms → ms ≠ [] → ∀ fuel acc rest,
  (2 * length (sep_join (44%Z :: iw) ms.*1) + 2 ≤ fuel)%nat →
  scan_array hook fuel acc (sep_join (44 :: iw) ms.*1 ++ cw ++ 93 :: rest) = Ok (PList (rev acc ++ ms.*2), rest).
Proof.
  induction 1 as [|[t x] ms [Hst Ht] Hall IH]; [done|]. intros _ [|fuel] acc rest Hf; [lia|].
  cbn [fst snd] in Hst, Ht. destruct ms as [|m ms].
  - cbn [fmap list_fmap sep_join scan_array fst snd] in *.
    rewrite Ht by (lia || (apply delim_ws; auto)). cbn [mbind res_bind]. by rewrite skip_ws_char.
  - rewrite (fmap_cons fst (t, x)), sep_join_cons in * by done. rewrite !length_app in Hf. cbn [length] in Hf.
    rewrite <-!(assoc_L (++)). cbn [scan_array]. cbn [fst] in *.
    rewrite Ht by (lia || (apply delim_punct; auto)). cbn [mbind res_bind app].
    change (skip_ws (44 :: ?s)) with (44 :: s). cbn iota. change (44 =? 44) with true. cbn iota.
    assert (∃ rest', sep_join (44 :: iw) (m :: ms).*1 = m.1 ++ rest') as [rest' E].
    { destruct ms; [exists []; by rewrite app_nil_r|by eexists]. }
    rewrite E, <-(assoc_L (++)).
    rewrite skip_ws_run by (done || by apply Forall_cons in Hall as [[? _] _]).
    rewrite (assoc_L (++) m.1), <-E, IH by (done || lia).
    cbn [rev]. by rewrite <-(assoc_L (++)).
Qed.

Lemma reads_array ms : Forall element_reads ms → ms ≠ [] →
  reads (91 :: ow ++ sep_join (44 :: iw) ms.*1 ++ cw ++ [93]) (PList ms.*2).
Proof.
  intros Hall Hne. split; [done|]. intros [|fuel] rest Hf _; [lia|].
  cbn [app scan_once]. change (91 =? 34) with false. change (91 =? 123) with false. change (91 =? 91) with true.
  cbn iota. rewrite <-!(assoc_L (++)). destruct ms as [|m ms]; [done|].
  assert (∃ rest', sep_join (44 :: iw) (m :: ms).*1 = m.1 ++ rest') as [rest' E].
  { destruct ms; [exists []; by rewrite app_nil_r|by eexists]. }
  assert (starts m.1) as Hs by by apply Forall_cons in Hall as [[? _] _].
  rewrite E, <-(assoc_L (++)). rewrite skip_ws_run by done.
  assert (∀ s, m.1 ++ s = match m.1 with c :: t => c :: t ++ s | [] => s end) as Hm by (intros; by destruct m.1).
  pose proof (scan_array_join (m :: ms) Hall Hne fuel [] rest) as Hj. rewrite E in Hj.
  rewrite <-(assoc_L (++)) in Hj. rewrite Hm in *. destruct m.1 as [|c t] eqn:Em; [done|].
  destruct Hs as (_ & H1 & _). destruct (Z.eqb_spec c 93); [done|]. cbn [app] in *. apply Hj.
  cbn [length] in Hf. rewrite !length_app in Hf. rewrite E in Hf. cbn [length] in *. rewrite !length_app in *. cbn [length] in *. lia.
Qed.
End array.

Lemma reads_empty_array : reads (lit "[]") (PList []).
Proof. split; [done|]. by intros [|fuel] rest Hf _; [lia|]. Qed.

(** A text that reads as [x] is JSON for [x]. *)
Lemma reads_loads t x : reads t x → json_loads_str hook t = Ok x.
Proof.
  intros [Hst Hr]. unfold json_loads_str. rewrite <-(app_nil_r t), skip_ws_starts by done.
  rewrite Hr; [done|rewrite app_nil_r; lia|done].
Qed.
End reading.
