(* ===== verification/Dumps.v ===== *)
(** * Dumps: [json.dumps] as the code calls it

    The encoder with [ensure_ascii], in the three layouts the code uses: the default separators (the admission
    presentation), [separators=(",", ":")] (the DPoP header and claims, the tokens of the test vectors) and
    [indent=2] (the bootstrap file). What it emits is ASCII and reads back as the value. *)

From stdpp Require Import base list numbers option strings sets.
From Stdlib Require Import SpecFloat.
From S2P Require Import Prelude Text Floats Json JsonRead.

(** ** Text *)

Definition hex4_of (u : Z) : pystr :=
  [hex_char (u / 4096 mod 16); hex_char (u / 256 mod 16); hex_char (u / 16 mod 16); hex_char (u mod 16)].
(** The default encoder ([ensure_ascii]): everything but printable ASCII is escaped. *)
Definition dumps_char (c : Z) : pystr :=
  if c =? 34 then lit "\" ++ [34]
  else if c =? 92 then lit "\\"
  else if c =? 10 then lit "\n"
  else if c =? 13 then lit "\r"
  else if c =? 9 then lit "\t"
  else if c =? 12 then lit "\f"
  else if c =? 8 then lit "\b"
  else if (32 <=? c) && (c <=? 126) then [c]
  else if c <? 0x10000 then lit "\u" ++ hex4_of c
  else lit "\u" ++ hex4_of (0xD800 + (c - 0x10000) / 1024) ++ lit "\u" ++ hex4_of (0xDC00 + (c - 0x10000) mod 1024).
Definition dumps_str (s : pystr) : pystr := 34 :: (s ≫= dumps_char) ++ [34].

(** ** Values *)

Inductive jval :=
| JNull
| JBool (b : bool)
| JInt (z : Z)
| JFloat (f : spec_float)
| JStr (s : pystr)
| JList (l : list jval)
| JObj (items : list (pystr * jval)).

Section jval_ind.
Context (P : jval → Prop) (JNull_ok : P JNull) (JBool_ok : ∀ b, P (JBool b)) (JInt_ok : ∀ z, P (JInt z))
  (JFloat_ok : ∀ f, P (JFloat f)) (JStr_ok : ∀ s, P (JStr s)) (JList_ok : ∀ l, Forall P l → P (JList l))
  (JObj_ok : ∀ items, Forall (λ p, P p.2) items → P (JObj items)).

Fixpoint jval_deep_ind (v : jval) : P v :=
  let fix elements (l : list jval) : Forall P l :=
    match l with
    | [] => List.Forall_nil _
    | v :: l => List.Forall_cons _ v l (jval_deep_ind v) (elements l)
    end in
  let fix members (l : list (pystr * jval)) : Forall (λ p, P p.2) l :=
    match l with
    | [] => List.Forall_nil _
    | p :: l => List.Forall_cons _ p l (jval_deep_ind p.2) (members l)
    end in
  match v with
  | JNull => JNull_ok
  | JBool b => JBool_ok b
  | JInt z => JInt_ok z
  | JFloat f => JFloat_ok f
  | JStr s => JStr_ok s
  | JList l => JList_ok l (elements l)
  | JObj items => JObj_ok items (members items)
  end.
End jval_ind.

(** [float.__repr__]: the shortest digits that read back, in positional notation for a decimal point within
    (-4, 16], with an exponent of at least two digits otherwise; infinities and NaN as [json] spells them. *)
Definition repr_digits (d p : Z) : pystr :=
  let ds := str_of_nonneg d in
  let decpt := zlen ds + p in
  if (-4 <? decpt) && (decpt <=? 16) then
    if decpt <=? 0 then lit "0." ++ repeat 48 (Z.to_nat (- decpt)) ++ ds
    else if 0 <=? p then ds ++ repeat 48 (Z.to_nat p) ++ lit ".0"
    else take (Z.to_nat decpt) ds ++ lit "." ++ drop (Z.to_nat decpt) ds
  else
    let e := decpt - 1 in
    let es := str_of_nonneg (Z.abs e) in
    take 1 ds ++ (if zlen ds =? 1 then [] else lit "." ++ drop 1 ds)
    ++ lit "e" ++ (if e <? 0 then lit "-" else lit "+") ++ (if zlen es =? 1 then lit "0" else []) ++ es.
Definition float_repr (f : spec_float) : pystr :=
  match f with
  | S754_nan => lit "NaN"
  | S754_infinity s => signed s (lit "Infinity")
  | S754_zero s => signed s (lit "0.0")
  | S754_finite s m e => let '(d, p) := shortest (S754_finite false m e) in signed s (repr_digits d p)
  end.

(** The white space after a colon, after a comma, and the indentation of a nesting level, if any. *)
Record layout := Layout { key_ws : pystr; item_ws : pystr; indent : option nat }.
Definition spaced : layout := Layout [32] [32] None.
Definition compact : layout := Layout [] [] None.
Definition indented : layout := Layout [32] [] (Some 2%nat).

Definition newline (st : layout) (level : nat) : pystr :=
  match indent st with Some n => 10 :: repeat 32 (n * level) | None => [] end.

Fixpoint dumps (st : layout) (level : nat) (v : jval) : pystr :=
  match v with
  | JNull => lit "null"
  | JBool b => if b then lit "true" else lit "false"
  | JInt z => str_of_int z
  | JFloat f => float_repr f
  | JStr s => dumps_str s
  | JList [] => lit "[]"
  | JList l =>
    91 :: newline st (S level)
    ++ sep_join (44 :: item_ws st ++ newline st (S level)) (dumps st (S level) <$> l)
    ++ newline st level ++ [93]
  | JObj [] => lit "{}"
  | JObj items =>
    123 :: newline st (S level)
    ++ sep_join (44 :: item_ws st ++ newline st (S level))
         ((λ p, dumps_str p.1 ++ 58 :: key_ws st ++ dumps st (S level) p.2) <$> items)
    ++ newline st level ++ [125]
  end.

(** The value as [json.loads] builds it. *)
Fixpoint py_of (v : jval) : pyval :=
  match v with
  | JNull => PNone
  | JBool b => PBool b
  | JInt z => PInt z
  | JFloat f => PFloat f
  | JStr s => PStr s
  | JList l => PList (py_of <$> l)
  | JObj items => PDict ((λ p, (PStr p.1, py_of p.2)) <$> items)
  end.

(** ** What the encoder emits *)

(** Text without surrogates. A [str] with a lone high surrogate next to a lone low one does not read back: the
    two escapes are read as one character. *)
Definition scalar (c : Z) : Prop := 0 ≤ c < 0xD800 ∨ 0xE000 ≤ c < 0x110000.

Lemma hex4_hex4_of u : 0 ≤ u < 65536 →
  ∃ a b c d, hex4_of u = [a; b; c; d] ∧ hex4 a b c d = Some u.
Proof.
  intros Hu. do 4 eexists. split; [done|]. unfold hex4.
  rewrite !(λ d H, proj1 (hex_digit_char d H)) by dlia. f_equal. dlia.
Qed.

Lemma scan_u_escape u fuel rest : 0 ≤ u < 65536 → is_high u = false →
  scan_string (S fuel) (lit "\u" ++ hex4_of u ++ rest) = cons_fst u <$> scan_string fuel rest.
Proof. intros (a & b & c & d & -> & Hx)%hex4_hex4_of Hh. cbn. by rewrite Hx, Hh. Qed.

Lemma scan_dumps_char c fuel rest :
  scalar c → scan_string (S fuel) (dumps_char c ++ rest) = cons_fst c <$> scan_string fuel rest.
Proof.
  intros Hc. unfold dumps_char.
  destruct (Z.eqb_spec c 34) as [->|]; [done|]. destruct (Z.eqb_spec c 92) as [->|]; [done|].
  destruct (Z.eqb_spec c 10) as [->|]; [done|]. destruct (Z.eqb_spec c 13) as [->|]; [done|].
  destruct (Z.eqb_spec c 9) as [->|]; [done|]. destruct (Z.eqb_spec c 12) as [->|]; [done|].
  destruct (Z.eqb_spec c 8) as [->|]; [done|].
  destruct ((32 <=? c) && (c <=? 126)) eqn:E.
  { apply andb_true_iff in E as [?%Z.leb_le ?%Z.leb_le]. cbn [app scan_string].
    destruct (Z.eqb_spec c 34), (Z.ltb_spec c 32), (Z.eqb_spec c 92); done || lia. }
  destruct (Z.ltb_spec c 0x10000).
  { rewrite <-(assoc_L (++)). apply scan_u_escape; unfold scalar in Hc; [lia|].
    unfold is_high. destruct (Z.leb_spec 0xD800 c), (Z.ltb_spec c 0xDC00); done || lia. }
  unfold scalar in Hc. set (h := 0xD800 + (c - 0x10000) / 1024). set (l := 0xDC00 + (c - 0x10000) mod 1024).
  assert (0xD800 ≤ h < 0xDC00) as Hh by (unfold h; dlia). assert (0xDC00 ≤ l < 0xE000) as Hl by (unfold l; dlia).
  destruct (hex4_hex4_of h) as (h1 & h2 & h3 & h4 & -> & Eh); [lia|].
  destruct (hex4_hex4_of l) as (l1 & l2 & l3 & l4 & -> & El); [lia|].
  assert (is_high h = true) as Ih by (unfold is_high; destruct (Z.leb_spec 0xD800 h), (Z.ltb_spec h 0xDC00); done || lia).
  assert (is_low l = true) as Il by (unfold is_low; destruct (Z.leb_spec 0xDC00 l), (Z.ltb_spec l 0xE000); done || lia).
  cbn. rewrite Eh, Ih. cbn. rewrite El, Il. do 2 f_equal. unfold join_pair, h, l. dlia.
Qed.

Lemma dumps_char_length c : (1 ≤ length (dumps_char c))%nat.
Proof. unfold dumps_char. repeat case_match; simpl; lia. Qed.

Lemma scan_dumps_body s fuel rest :
  Forall scalar s → (length s < fuel)%nat →
  scan_string fuel ((s ≫= dumps_char) ++ 34 :: rest) = Ok (s, rest).
Proof.
  intros Hs. revert fuel. induction Hs as [|c s Hc _ IH]; intros [|fuel] Hf; simpl in Hf; try lia; [done|].
  rewrite bind_cons, <-(assoc_L (++)), scan_dumps_char by done. by rewrite IH by lia.
Qed.

Lemma dumps_literal s : Forall scalar s → literal (dumps_str s) s.
Proof.
  intros Hs rest. exists ((s ≫= dumps_char) ++ 34 :: rest). unfold dumps_str.
  split; [simpl; by rewrite <-(assoc_L (++))|]. apply scan_dumps_body; [done|].
  rewrite length_app. cut (length s ≤ length (s ≫= dumps_char))%nat; [lia|].
  clear Hs. induction s as [|c s IH]; [done|]. rewrite bind_cons, length_app.
  pose proof (dumps_char_length c). simpl. lia.
Qed.

(** A float whose [repr] the scanner reads to its end as that float; decided by evaluation. *)
Definition float_reads (f : spec_float) : Prop :=
  ∃ neg c s, float_repr f = signed neg (c :: s) ∧ is_digit c = true ∧ scan_number neg (c :: s) = Ok (PFloat f, []).

Global Instance spec_float_eq_dec : EqDecision spec_float.
Proof. solve_decision. Defined.

Definition float_reads_b (f : spec_float) : bool :=
  let '(neg, t) := match float_repr f with
                  | x :: t => if x =? 45 then (true, t) else (false, x :: t)
                  | [] => (false, [])
                  end in
  match t, scan_number neg t with
  | c :: _, Ok (PFloat g, []) => is_digit c && bool_decide (g = f)
  | _, _ => false
  end.

Lemma float_reads_dec f : float_reads_b f = true → float_reads f.
Proof.
  unfold float_reads_b, float_reads.
  assert (∀ neg t, float_repr f = signed neg t →
    match t, scan_number neg t with
    | c :: _, Ok (PFloat g, []) => is_digit c && bool_decide (g = f)
    | _, _ => false
    end = true → ∃ neg c s, float_repr f = signed neg (c :: s) ∧ is_digit c = true ∧ scan_number neg (c :: s) = Ok (PFloat f, [])) as Hok.
  { intros neg [|c s] E; [done|]. destruct (scan_number neg (c :: s)) as [[v r]|] eqn:Es; [|done].
    destruct v as [| | |g| | | | | | |]; try done. destruct r; [|done].
    intros [Hc ->%bool_decide_eq_true]%andb_true_iff. by exists neg, c, s. }
  destruct (float_repr f) as [|x t] eqn:E; [done|].
  destruct (Z.eqb_spec x 45) as [->|]; [by apply (Hok true t)|by apply (Hok false (x :: t))].
Qed.

(** The values that read back: scalar text, integers within the digit limit of [int], floats whose [repr] reads
    back, distinct keys. *)
Inductive dumpable : jval → Prop :=
| dumpable_null : dumpable JNull
| dumpable_bool b : dumpable (JBool b)
| dumpable_int z : zlen (str_of_int z) ≤ MAX_STR_DIGITS → dumpable (JInt z)
| dumpable_float f : float_reads f → dumpable (JFloat f)
| dumpable_str s : Forall scalar s → dumpable (JStr s)
| dumpable_list l : Forall dumpable l → dumpable (JList l)
| dumpable_obj items :
    NoDup items.*1 → Forall (Forall scalar) items.*1 → Forall (λ p, dumpable p.2) items → dumpable (JObj items).

Definition ws_layout (st : layout) : Prop := forallb is_ws (key_ws st) = true ∧ forallb is_ws (item_ws st) = true.

Lemma newline_ws st level : forallb is_ws (newline st level) = true.
Proof.
  unfold newline. destruct (indent st) as [n|]; [|done]. simpl. generalize (n * level)%nat. intros m.
  by induction m.
Qed.

(** Every layout reads back, wherever the value stands. *)
Lemma dumps_reads hook `{!DictHook hook} st v : ws_layout st → dumpable v →
  ∀ level, reads hook (dumps st level v) (py_of v).
Proof.
  intros [Hk Hi]. induction v as [|b|z|f|s|l IH|items IH] using jval_deep_ind; intros Hd level;
    inversion Hd as [| |? Hz|? Hf|? Hs|? Hl|? Hn Hs Hv]; subst.
  - apply reads_const. by left.
  - apply reads_const. destruct b; by auto.
  - by apply reads_int.
  - destruct Hf as (neg & c & s & E & Hc & Hs). cbn [dumps py_of]. rewrite E. by apply reads_number.
  - by apply reads_literal, dumps_literal.
  - destruct l as [|x l]; [apply (reads_empty_array hook)|]. cbn [dumps py_of].
    set (ms := (λ v, (dumps st (S level) v, py_of v)) <$> x :: l).
    assert (py_of <$> x :: l = ms.*2) as -> by (unfold ms; by rewrite <-list_fmap_compose).
    assert (dumps st (S level) <$> x :: l = ms.*1) as -> by (unfold ms; by rewrite <-list_fmap_compose).
    apply (reads_array hook (item_ws st ++ newline st (S level)));
      [rewrite forallb_app, Hi; apply newline_ws|apply newline_ws..| |done].
    unfold ms. apply Forall_fmap, Forall_forall. intros v Hv. rewrite Forall_forall in IH, Hl. unfold compose.
    apply IH; [done|by apply Hl].
  - destruct items as [|p items]; [by apply (reads_empty_object hook)|]. cbn [dumps py_of].
    set (ms := (λ q : pystr * jval, (q.1, (dumps st (S level) q.2, py_of q.2))) <$> p :: items).
    assert ((λ q, (PStr q.1, py_of q.2)) <$> p :: items = (λ q, (PStr q.1, q.2)) <$> (member_pair <$> ms)) as ->.
    { unfold ms. by rewrite <-!list_fmap_compose. }
    assert ((λ q, dumps_str q.1 ++ 58 :: key_ws st ++ dumps st (S level) q.2) <$> p :: items
            = member_text dumps_str (key_ws st) <$> ms) as ->.
    { unfold ms. by rewrite <-list_fmap_compose. }
    apply (reads_object hook dumps_str (key_ws st) (item_ws st ++ newline st (S level)));
      [done|rewrite forallb_app, Hi; apply newline_ws|apply newline_ws..| |done|].
    + unfold ms. apply Forall_fmap, Forall_forall. intros q Hq. split.
      * apply dumps_literal, (proj1 (Forall_forall _ _) Hs q.1). by apply list_elem_of_fmap_2.
      * eapply Forall_forall in IH; [|done]. apply IH. by eapply Forall_forall in Hv.
    + unfold ms. by rewrite <-!list_fmap_compose.
Qed.

(** ** The output is ASCII *)

Lemma is_ascii_app s t : is_ascii (s ++ t) = is_ascii s && is_ascii t.
Proof. apply forallb_app. Qed.

Lemma is_ascii_cons c s : is_ascii (c :: s) = (0 <=? c) && (c <? 0x80) && is_ascii s.
Proof. done. Qed.

Lemma hex4_of_ascii u : is_ascii (hex4_of u) = true.
Proof.
  assert (∀ d, 0 ≤ d < 16 → (0 <=? hex_char d) && (hex_char d <? 0x80) = true) as H.
  { intros d Hd. unfold hex_char. cmp; done. }
  unfold hex4_of. rewrite !is_ascii_cons, !H by (apply Z.mod_pos_bound; lia). done.
Qed.

Lemma dumps_char_ascii c : is_ascii (dumps_char c) = true.
Proof.
  unfold dumps_char. repeat (case_match; [done|]).
  case_match; [|case_match]; rewrite ?is_ascii_app, ?hex4_of_ascii; try done. cmp; done.
Qed.

Lemma dumps_str_ascii s : is_ascii (dumps_str s) = true.
Proof.
  unfold dumps_str. rewrite is_ascii_cons, is_ascii_app.
  assert (is_ascii (s ≫= dumps_char) = true) as ->; [|done].
  induction s as [|c s IH]; [done|]. by rewrite bind_cons, is_ascii_app, dumps_char_ascii.
Qed.

Lemma str_of_int_ascii z : is_ascii (str_of_int z) = true.
Proof.
  unfold str_of_int. destruct (Z.ltb_spec z 0); [rewrite is_ascii_cons|]; apply str_of_nonneg_ascii; lia.
Qed.

Lemma ws_ascii w : forallb is_ws w = true → is_ascii w = true.
Proof.
  intros Hw. apply forallb_forall. intros c Hc. eapply forallb_forall in Hw; [|done].
  unfold is_ws in Hw. cmp; done.
Qed.

Lemma sep_join_ascii sep ts :
  is_ascii sep = true → Forall (λ t, is_ascii t = true) ts → is_ascii (sep_join sep ts) = true.
Proof.
  intros Hs. induction 1 as [|t ts Ht Hts IH]; [done|]. destruct ts as [|u ts]; [done|].
  rewrite sep_join_cons, !is_ascii_app, Ht, Hs by done. done.
Qed.

(** What a number's text is made of. *)
Definition number_char (c : Z) : bool := is_digit c || (c =? 43) || (c =? 45) || (c =? 46) || (c =? 101).

Lemma forallb_take (p : Z → bool) n s : forallb p s = true → forallb p (take n s) = true.
Proof. intros Hs. rewrite <-(take_drop n s), forallb_app in Hs. by apply andb_true_iff in Hs as [? _]. Qed.
Lemma forallb_drop (p : Z → bool) n s : forallb p s = true → forallb p (drop n s) = true.
Proof. intros Hs. rewrite <-(take_drop n s), forallb_app in Hs. by apply andb_true_iff in Hs as [_ ?]. Qed.

Lemma repr_digits_chars d p : 0 ≤ d → forallb number_char (repr_digits d p) = true.
Proof.
  assert (∀ n, 0 ≤ n → forallb number_char (str_of_nonneg n) = true) as Hn.
  { intros n (Hd & _)%str_of_nonneg_spec. apply forallb_forall. intros c Hc. eapply forallb_forall in Hd; [|done].
    unfold number_char. by rewrite Hd. }
  assert (∀ n, forallb number_char (repeat 48 n) = true) as Hz by (induction n as [|n IH]; [done|exact IH]).
  intros Hd%Hn. unfold repr_digits. cbv zeta. pose proof (λ n, Hn (Z.abs n) (Z.abs_nonneg n)) as He.
  repeat case_match; rewrite ?forallb_app, ?Hz, ?He, ?forallb_take, ?forallb_drop, ?Hd by done; done.
Qed.

Lemma div_nonneg a b : 0 ≤ a → 0 ≤ b → 0 ≤ a / b.
Proof. intros. destruct (decide (b = 0)) as [->|]; [by rewrite Z.div_0_r|]. apply Z.div_pos; lia. Qed.

Lemma shortest_nonneg m e : 0 ≤ (shortest (S754_finite false m e)).1.
Proof.
  unfold shortest. destruct (f64_ratio _) as [num den] eqn:E.
  assert (0 ≤ num ∧ 0 ≤ den) as [Hn Hd].
  { cbn in E. destruct (0 <=? e); injection E as <- <-; split; (lia || apply Z.mul_nonneg_nonneg; lia || apply Z.pow_nonneg; lia). }
  clear E. generalize (decpt_search 700 num den (Z.log2 num * 3 / 10 - Z.log2 den * 3 / 10)). intros dp.
  assert (∀ p a b, scaled num den p = (a, b) → 0 ≤ a ∧ 0 ≤ b) as Hsc.
  { intros p a b. unfold scaled. destruct (0 <=? p); intros [= <- <-]; split; try done;
      apply Z.mul_nonneg_nonneg; try done; by apply Z.pow_nonneg. }
  generalize 1. generalize 16%nat. generalize (S754_finite false m e). intros f fuel. induction fuel as [|fuel IH];
    intros k; cbn [shortest_from];
    (destruct (candidate f num den (dp - k)) as [d|] eqn:Ec; [|try apply IH]).
  2: { destruct (scaled num den (dp - k)) as [a b] eqn:Es. apply Hsc in Es as [Ha Hb]. cbn [fst].
       apply div_nonneg; lia. }
  all: cbn [fst]; unfold candidate in Ec; destruct (scaled num den (dp - k)) as [a b] eqn:Es;
    apply Hsc in Es as [Ha Hb]; pose proof (div_nonneg a b Ha Hb); repeat case_match; simplify_eq; lia.
Qed.

Lemma float_repr_chars f : is_finite f = true → forallb number_char (float_repr f) = true.
Proof.
  destruct f as [[]|[]| |s m e]; [done..|]. intros _. cbn [float_repr]. pose proof (shortest_nonneg m e) as H.
  destruct (shortest _) as [d p]. unfold signed. rewrite forallb_app, repr_digits_chars by done. by destruct s.
Qed.

Lemma float_repr_ascii f : is_ascii (float_repr f) = true.
Proof.
  pose proof (float_repr_chars f) as Hf. destruct (is_finite f) eqn:E; [|by destruct f as [[]|[]| |[] ? ?]].
  apply forallb_forall. intros c Hc. eapply forallb_forall in Hf; [|done|done].
  unfold number_char, is_digit in Hf. cmp; done.
Qed.

Lemma dumps_ascii st v : ws_layout st → ∀ level, is_ascii (dumps st level v) = true.
Proof.
  intros [Hk Hi]. pose proof (λ n, ws_ascii _ (newline_ws st n)) as Hn.
  induction v as [|b|z|f|s|l IH|items IH] using jval_deep_ind; intros level.
  - done.
  - by destruct b.
  - apply str_of_int_ascii.
  - apply float_repr_ascii.
  - apply dumps_str_ascii.
  - destruct l as [|x l]; [done|]. cbn [dumps].
    rewrite is_ascii_cons, !is_ascii_app, !Hn. rewrite sep_join_ascii; [done| |].
    + by rewrite is_ascii_cons, is_ascii_app, Hn, ws_ascii.
    + apply Forall_fmap. eapply Forall_impl; [exact IH|]. intros v Hv. apply Hv.
  - destruct items as [|p items]; [done|]. cbn [dumps].
    rewrite is_ascii_cons, !is_ascii_app, !Hn. rewrite sep_join_ascii; [done| |].
    + by rewrite is_ascii_cons, is_ascii_app, Hn, ws_ascii.
    + apply Forall_fmap. eapply Forall_impl; [done|]. intros q Hq. unfold compose.
      by rewrite is_ascii_app, dumps_str_ascii, is_ascii_cons, is_ascii_app, Hq, ws_ascii.
Qed.
