(* ===== verification/Jcs.v ===== *)
(** * Jcs: RFC 8785 canonicalization of a tool input, and its digest

    [crypto.py]: [_jcs_string], [_jcs_number], [_jcs_int], [_jcs_write], [jcs_canonicalize],
    [tool_input_digest]. The output list [out] of the code is the text it joins to. CPython's recursion
    limit on deeply nested values is not modelled. *)

From stdpp Require Import base list numbers option strings sorting.
From Stdlib Require Import SpecFloat.
From S2P Require Import Prelude Order Text Sha256 Floats Json.

(** ** Strings *)

Definition _JCS_ESCAPES (cp : Z) : option pystr :=
  if cp =? 0x08 then Some (lit "\b") else if cp =? 0x09 then Some (lit "\t")
  else if cp =? 0x0A then Some (lit "\n") else if cp =? 0x0C then Some (lit "\f")
  else if cp =? 0x0D then Some (lit "\r") else if cp =? 0x22 then Some [92; 34]
  else if cp =? 0x5C then Some (lit "\\") else None.

Definition jcs_char (cp : Z) : pystr :=
  match _JCS_ESCAPES cp with
  | Some esc => esc
  | None => if cp <? 0x20 then lit "\u00" ++ [hex_char (cp / 16); hex_char (cp mod 16)] else [cp]
  end.

Definition _jcs_string (s : pystr) : pystr := 34 :: (s ≫= jcs_char) ++ [34].

(** ** Numbers *)

Definition _MAX_SAFE_INT : Z := 2 ^ 53.

(** [raw.rstrip("0") or "0"] *)
Fixpoint rstrip0 (s : pystr) : pystr :=
  match s with
  | [] => []
  | c :: r => match rstrip0 r with
              | [] => if c =? 48 then [] else [c]
              | r' => c :: r'
              end
  end.

Definition _jcs_number (v : spec_float) : res pystr :=
  if is_nan v || is_inf v then Raise ValueError
  else match v with
  | S754_zero _ => Ok (lit "0")
  | _ =>
    let sign := if sign_bit v then lit "-" else [] in
    let '(raw, dexp) := repr_decimal (SFabs v) in
    let digits := match rstrip0 raw with [] => lit "0" | d => d end in
    let dexp := dexp + (zlen raw - zlen digits) in
    let n := zlen digits + dexp in
    let k := zlen digits in
    let body :=
      if (k <=? n) && (n <=? 21) then digits ++ repeat 48 (Z.to_nat (n - k))
      else if (0 <? n) && (n <=? 21) then
        take (Z.to_nat n) digits ++ lit "." ++ drop (Z.to_nat n) digits
      else if (-6 <? n) && (n <=? 0) then lit "0." ++ repeat 48 (Z.to_nat (- n)) ++ digits
      else
        let mant := take 1 digits ++ (if 1 <? k then lit "." ++ drop 1 digits else []) in
        let e := n - 1 in
        mant ++ lit "e" ++ (if 0 <=? e then lit "+" else lit "-") ++ str_of_nonneg (Z.abs e) in
    Ok (sign ++ body)
  end.

Definition _jcs_int (v : Z) : res pystr :=
  let text := str_of_int v in
  if (- _MAX_SAFE_INT <=? v) && (v <=? _MAX_SAFE_INT) then Ok text
  else match float_of_int v with
  | Raise _ => Raise ValueError
  | Ok f =>
    rendered ← _jcs_number f;
    if decide (rendered = text) then Ok rendered else Raise ValueError
  end.

(** ** Values *)

(** [",".join(parts)] *)
Fixpoint comma_join (parts : list pystr) : pystr :=
  match parts with
  | [] => []
  | [p] => p
  | p :: ps => p ++ 44 :: comma_join ps
  end.

(** [sorted(v, key=lambda k: k.encode("utf-16-be"))]; distinct keys have distinct sort keys. *)
Definition sort_keys (keys : list pystr) : res (list pystr) :=
  ks ← mapM (λ k, u ← utf16be_encode k; Ok (u, k)) keys;
  Ok (snd <$> merge_sort pair_le ks).

Definition str_key (k : pyval) : res pystr := match k with PStr s => Ok s | _ => Raise TypeError end.

(** [_jcs_write(v, out)] as the text it appends. For a [dict]: every key is checked before the sort, the
    sort before any member is written, and the members are written in sorted order. *)
Fixpoint _jcs_write (v : pyval) : res pystr :=
  let write_all := fix write_all (l : list pyval) : res (list pystr) :=
    match l with
    | [] => Ok []
    | x :: l => t ← _jcs_write x; ts ← write_all l; Ok (t :: ts)
    end in
  match v with
  | PNone => Ok (lit "null")
  | PBool true => Ok (lit "true")
  | PBool false => Ok (lit "false")
  | PStr s => Ok (_jcs_string s)
  | PInt z => _jcs_int z
  | PFloat f => _jcs_number f
  | PList l | PTuple l => parts ← write_all l; Ok (lit "[" ++ comma_join parts ++ lit "]")
  | PDict kv =>
    keys ← mapM (λ p, str_key p.1) kv;
    ks ← sort_keys keys;
    let rendered := (λ p, (p.1, _jcs_write p.2)) <$> kv in
    parts ← mapM (λ k, match dict_find k rendered with
                       | Some m => t ← m; Ok (_jcs_string k ++ lit ":" ++ t)
                       | None => Raise KeyError
                       end) ks;
    Ok (lit "{" ++ comma_join parts ++ lit "}")
  | _ => Raise TypeError
  end.

Definition jcs_canonicalize (obj : pyval) : res bytes := t ← _jcs_write obj; utf8_encode t.

Definition tool_input_digest (canonical : bytes) : pystr := lit "sha256:" ++ sha256_hex canonical.

(** ** Conformance vectors *)

Definition jcs_text (v : pyval) : res pystr := b ← jcs_canonicalize v; utf8_decode b.

(** [conformance/authorize_jcs_digest_vector.json]: [key-ordering], [numbers], [unicode-key-ordering]. *)
Example jcs_key_ordering :
  tool_input_digest <$> jcs_canonicalize
    (PDict [(PStr (lit "zeta"), PInt 1); (PStr (lit "alpha"), PInt 2);
            (PStr (lit "Beta"), PInt 3); (PStr (lit "_under"), PInt 4)])
  = Ok (lit "sha256:9dd15a91d539d523de1e7cd31627be83c4047c604b71559a65a354d9e23a23e8").
Proof. vm_compute. reflexivity. Qed.
Example jcs_numbers :
  tool_input_digest <$> jcs_canonicalize
    (PDict [(PStr (lit "int"), PInt 1); (PStr (lit "neg"), PFloat (float_of_decimal true 5 (-1)));
            (PStr (lit "big"), PFloat (float_of_decimal false 1 21));
            (PStr (lit "trailing"), PFloat (float_of_decimal false 10 (-1))); (PStr (lit "zero"), PInt 0)])
  = Ok (lit "sha256:7ac01e056e941ff19f9c1f1d743fffcd1d1706913caa729aa71ba67bdbe76ffc").
Proof. vm_compute. reflexivity. Qed.
Example jcs_astral_keys :
  jcs_text (PDict [(PStr [0xFF61], PInt 1); (PStr [0x1F600], PInt 3)])
  = Ok ([123; 34; 0x1F600; 34; 58; 51; 44; 34; 0xFF61; 34; 58; 49; 125]).
Proof. vm_compute. reflexivity. Qed.
(** [conformance/authorize_jcs_int_extended.json]: [2 ^ 53 + 1] and [2 ^ 60] are refused, [2 ^ 53 + 2]
    is accepted. *)
Example jcs_int_cases :
  (_jcs_int (2 ^ 53 + 1), _jcs_int (2 ^ 60), _jcs_int (2 ^ 53 + 2), _jcs_int (10 ^ 20), _jcs_int (10 ^ 21))
  = (Raise ValueError, Raise ValueError, Ok (lit "9007199254740994"), Ok (lit "100000000000000000000"),
     Raise ValueError).
Proof. vm_compute. reflexivity. Qed.
Example jcs_float_cases :
  _jcs_number <$> [float_of_decimal false 1 (-7); float_of_decimal true 15 (-8); float_of_decimal false 1 (-6);
    float_of_decimal false 12345 (-2); S754_zero true; float_of_decimal false 17976931348623157 292]
  = Ok <$> [lit "1e-7"; lit "-1.5e-7"; lit "0.000001"; lit "123.45"; lit "0"; lit "1.7976931348623157e+308"].
Proof. vm_compute. reflexivity. Qed.

(** ** Unfolding equations *)

Lemma jcs_write_list l :
  _jcs_write (PList l) = parts ← mapM _jcs_write l; Ok (lit "[" ++ comma_join parts ++ lit "]").
Proof. done. Qed.

Lemma jcs_write_tuple l : _jcs_write (PTuple l) = _jcs_write (PList l).
Proof. done. Qed.

(** One member of an object. *)
Definition write_member (rendered : list (pyval * res pystr)) (k : pystr) : res pystr :=
  match dict_find k rendered with
  | Some m => t ← m; Ok (_jcs_string k ++ lit ":" ++ t)
  | None => Raise KeyError
  end.

Lemma jcs_write_dict kv :
  _jcs_write (PDict kv) =
  keys ← mapM (λ p, str_key p.1) kv; ks ← sort_keys keys;
  parts ← mapM (write_member ((λ p, (p.1, _jcs_write p.2)) <$> kv)) ks;
  Ok (lit "{" ++ comma_join parts ++ lit "}").
Proof. done. Qed.

(** ** The order of a dict does not matter *)

(** The same JSON value: lists and tuples alike, dicts up to the order of their items. *)
Inductive same_json : pyval → pyval → Prop :=
| same_leaf v : same_json v v
| same_seq l1 l2 a b :
    (a = PList l1 ∨ a = PTuple l1) → (b = PList l2 ∨ b = PTuple l2) →
    Forall2 same_json l1 l2 → same_json a b
| same_dict kv1 kv kv2 :
    NoDup kv.*1 → Forall2 (λ p q, p.1 = q.1 ∧ same_json p.2 q.2) kv1 kv → kv ≡ₚ kv2 →
    same_json (PDict kv1) (PDict kv2).

Lemma str_key_Raise k e : str_key k = Raise e → e = TypeError.
Proof. destruct k; simpl; congruence. Qed.

Lemma utf16be_encode_Raise s e : utf16be_encode s = Raise e → e = UnicodeEncodeError.
Proof.
  unfold utf16be_encode. intros (c & _ & Hc)%fmap_Raise%mapM_Raise_in. revert Hc.
  unfold utf16be_char. repeat case_match; congruence.
Qed.

Lemma sort_keys_perm l1 l2 : l1 ≡ₚ l2 → sort_keys l1 = sort_keys l2.
Proof.
  intros Hp. unfold sort_keys.
  destruct (mapM_res_perm_cases (λ k, u ← utf16be_encode k; Ok (u, k)) l1 l2 UnicodeEncodeError Hp)
    as [(e1 & e2 & -> & -> & He)|[-> ->]]; [| |done].
  - intros k e [?|(u & _ & ?)]%bind_Raise; [by eapply utf16be_encode_Raise|done].
  - cbn [mbind res_bind]. by rewrite (merge_sort_perm_eq pair_le e1 e2 He).
Qed.

Lemma dict_find_in {A} k (d : list (pyval * A)) a : dict_find k d = Some a → (PStr k, a) ∈ d.
Proof.
  induction d as [|[k' a'] d IH]; simpl; [done|].
  destruct (py_eq_str k' k) eqn:E; [|by right; apply IH].
  apply py_eq_str_true in E as ->. intros [= ->]. left.
Qed.

Lemma dict_find_NoDup {A} k (d : list (pyval * A)) a :
  NoDup d.*1 → (PStr k, a) ∈ d → dict_find k d = Some a.
Proof.
  induction d as [|[k' a'] d IH]; simpl; [by intros _ ?%not_elem_of_nil|].
  intros [Hk Hd]%NoDup_cons [[= <- <-]|Hin]%elem_of_cons.
  - by rewrite (proj2 (py_eq_str_true (PStr k) k)).
  - destruct (py_eq_str k' k) eqn:E; [|by apply IH]. apply py_eq_str_true in E as ->.
    exfalso. apply Hk, list_elem_of_fmap. by exists (PStr k, a).
Qed.

Lemma dict_find_perm {A} k (d1 d2 : list (pyval * A)) :
  NoDup d1.*1 → d1 ≡ₚ d2 → dict_find k d1 = dict_find k d2.
Proof.
  intros Hn Hp. assert (NoDup d2.*1) as Hn2 by by rewrite <-Hp.
  destruct (dict_find k d1) as [a|] eqn:E1; symmetry.
  - apply dict_find_NoDup; [done|]. rewrite <-Hp. by apply dict_find_in.
  - destruct (dict_find k d2) as [b|] eqn:E2; [|done]. apply dict_find_in in E2. rewrite <-Hp in E2.
    apply dict_find_NoDup in E2; [congruence|done].
Qed.

Lemma mapM_res_ext {A B} (f g : A → res B) l : (∀ x, f x = g x) → mapM f l = mapM g l.
Proof. intros H. induction l as [|x l IH]; [done|]. simpl. by rewrite H, IH. Qed.

Lemma jcs_write_perm kv1 kv2 :
  NoDup kv1.*1 → kv1 ≡ₚ kv2 → _jcs_write (PDict kv1) = _jcs_write (PDict kv2).
Proof.
  intros Hn Hp. rewrite !jcs_write_dict.
  destruct (mapM_res_perm_cases (λ p : pyval * pyval, str_key p.1) kv1 kv2 TypeError Hp)
    as [(k1 & k2 & -> & -> & Hk)|[-> ->]]; [intros ? ?; apply str_key_Raise| |done].
  cbn [mbind res_bind]. rewrite (sort_keys_perm k1 k2 Hk). destruct (sort_keys k2) as [ks|]; [|done].
  cbn [mbind res_bind]. erewrite mapM_res_ext; [done|]. intros k. unfold write_member.
  erewrite dict_find_perm; [done| |by rewrite Hp].
  rewrite <-list_fmap_compose. apply Hn.
Qed.

Lemma mapM_same l1 l2 :
  Forall (λ a, ∀ w, same_json a w → _jcs_write a = _jcs_write w) l1 → Forall2 same_json l1 l2 →
  mapM _jcs_write l1 = mapM _jcs_write l2.
Proof.
  intros IH Hall. induction Hall as [|x y l1 l2 Hxy _ IHl]; [done|].
  apply Forall_cons in IH as [Hx Hl]. simpl. by rewrite (Hx _ Hxy), (IHl Hl).
Qed.

Lemma rendered_same (kv kv' : list (pyval * pyval)) :
  Forall (λ p, ∀ w, same_json p.2 w → _jcs_write p.2 = _jcs_write w) kv →
  Forall2 (λ p q, p.1 = q.1 ∧ same_json p.2 q.2) kv kv' →
  kv.*1 = kv'.*1 ∧
  ((λ p, (p.1, _jcs_write p.2)) <$> kv) = (λ p, (p.1, _jcs_write p.2)) <$> kv'.
Proof.
  intros IH Hall. induction Hall as [|[k x] [k' y] kv kv' [Hk Hxy] _ IHl]; [done|].
  apply Forall_cons in IH as [Hx Hl]. destruct (IHl Hl) as [E1 E2].
  rewrite !fmap_cons, E1, E2. cbn [fst snd] in *. by rewrite Hk, (Hx _ Hxy).
Qed.

Lemma jcs_write_same a : ∀ w, same_json a w → _jcs_write a = _jcs_write w.
Proof.
  induction a as [| | | | | | |l IH|l IH|kv IH|] using pyval_deep_ind; intros w Hs;
    inversion Hs as [|l1 l2 ? ? [?|?] Hb Hall|kv1 kv' kv2 Hn Hall Hp]; simplify_eq; try done.
  - assert (_jcs_write w = _jcs_write (PList l2)) as -> by by destruct Hb as [->| ->].
    rewrite !jcs_write_list. by erewrite mapM_same.
  - assert (_jcs_write w = _jcs_write (PList l2)) as -> by by destruct Hb as [->| ->].
    rewrite jcs_write_tuple, !jcs_write_list. by erewrite mapM_same.
  - rewrite <-(jcs_write_perm kv' kv2 Hn Hp), !jcs_write_dict. clear Hs Hn Hp.
    destruct (rendered_same kv kv' IH Hall) as [Hk ->].
    assert (mapM (λ p, str_key p.1) kv = mapM (λ p, str_key p.1) kv') as ->; [|done].
    clear -Hk. revert kv' Hk. induction kv as [|[k x] kv IH]; intros [|[k' y] kv'] [=]; subst; [done|].
    simpl. by rewrite (IH kv').
Qed.

(** Canonicalization does not depend on the order of a dict's items, at any depth, nor on whether a
    sequence is a list or a tuple: two renderings of the same JSON value have the same canonical bytes
    (or fail with the same error), hence the same tool-input digest. *)
Theorem jcs_canonicalize_unordered a b : same_json a b → jcs_canonicalize a = jcs_canonicalize b.
Proof. intros H. unfold jcs_canonicalize. by rewrite (jcs_write_same a b H). Qed.

Lemma jcs_canonicalize_unordered_witness :
  jcs_canonicalize (PDict [(PStr (lit "b"), PTuple [PInt 1]); (PStr (lit "a"), PNone)])
  = jcs_canonicalize (PDict [(PStr (lit "a"), PNone); (PStr (lit "b"), PList [PInt 1])]).
Proof.
  apply jcs_canonicalize_unordered.
  apply (same_dict _ [(PStr (lit "b"), PList [PInt 1]); (PStr (lit "a"), PNone)]).
  - apply NoDup_cons. split; [|apply NoDup_singleton]. rewrite list_elem_of_singleton. vm_compute. discriminate.
  - constructor; [|constructor; [|constructor]].
    + split; [reflexivity|]. eapply (same_seq [PInt 1] [PInt 1]); [by right|by left|].
      constructor; [apply same_leaf|constructor].
    + split; [reflexivity|apply same_leaf].
  - apply perm_swap.
Defined.

(** ** Integers *)

Lemma jcs_number_error f e : _jcs_number f = Raise e → e = ValueError.
Proof.
  unfold _jcs_number. destruct (is_nan f || is_inf f); [congruence|].
  destruct f; try congruence; destruct (repr_decimal _); congruence.
Qed.

(** An integer is rendered as itself or refused, never as another number: whatever [_jcs_int] emits
    is the integer's own decimal form and reads back as the integer; up to [2 ^ 53] in magnitude it is
    always accepted; and every refusal is a [ValueError], an integer past the range of a double
    included. *)
Theorem jcs_int_renders_itself z :
  (∀ t, _jcs_int z = Ok t → t = str_of_int z ∧ int_of_str t = Some z) ∧
  (- 2 ^ 53 ≤ z ≤ 2 ^ 53 → _jcs_int z = Ok (str_of_int z)) ∧
  (∀ e, _jcs_int z = Raise e → e = ValueError).
Proof.
  unfold _jcs_int. destruct ((- _MAX_SAFE_INT <=? z) && (z <=? _MAX_SAFE_INT)) eqn:E.
  { split_and!; [|done..]. intros t <-%Ok_inj. split; [done|apply int_of_str_of_int]. }
  split; [|split].
  - intros t H. destruct (float_of_int z) as [f|]; [|done].
    apply bind_Ok in H as (r & _ & H). case_decide; [|done]. subst. injection H as <-.
    split; [done|apply int_of_str_of_int].
  - intros Hz. exfalso. unfold _MAX_SAFE_INT in E. apply andb_false_iff in E as [?%Z.leb_gt|?%Z.leb_gt]; lia.
  - intros e H. destruct (float_of_int z) as [f|]; [|congruence].
    apply bind_Raise in H as [H|(r & _ & H)]; [by eapply jcs_number_error|]. case_decide; congruence.
Qed.

Lemma jcs_int_renders_itself_witness :
  lit "9007199254740994" = str_of_int (2 ^ 53 + 2) ∧ int_of_str (lit "9007199254740994") = Some (2 ^ 53 + 2).
Proof. apply (jcs_int_renders_itself (2 ^ 53 + 2)). vm_compute. reflexivity. Defined.
