(* ===== verification/JcsNumber.v ===== *)
(** * JcsNumber: what a rendered number reads back as

    The text [_jcs_number] renders a float as is read by [json.loads] as that float, or - when the text has neither
    point nor exponent - as the integer it spells, whose double is that float ([jcs_number_reads]); and
    [_jcs_int]'s shortcut for small integers is the rule its documentation states ([jcs_int_rule]). *)

From stdpp Require Import base list numbers option strings.
From Stdlib Require Import SpecFloat.
From S2P Require Import Prelude Text Floats Rounding Json JsonRead Jcs.

(** The digits of [_jcs_number] laid out for the decimal exponent [n]. *)
Definition jcs_body (digits : pystr) (n : Z) : pystr :=
  let k := zlen digits in
  if (k <=? n) && (n <=? 21) then digits ++ repeat 48 (Z.to_nat (n - k))
  else if (0 <? n) && (n <=? 21) then
    take (Z.to_nat n) digits ++ lit "." ++ drop (Z.to_nat n) digits
  else if (-6 <? n) && (n <=? 0) then lit "0." ++ repeat 48 (Z.to_nat (- n)) ++ digits
  else
    let mant := take 1 digits ++ (if 1 <? k then lit "." ++ drop 1 digits else []) in
    let e := n - 1 in
    mant ++ lit "e" ++ (if 0 <=? e then lit "+" else lit "-") ++ str_of_nonneg (Z.abs e).

Lemma jcs_body_positional digits n :
  (∀ c, c ∈ jcs_body digits n → is_digit c = true ∨ c = 45) → zlen (jcs_body digits n) ≤ 21.
Proof.
  unfold jcs_body. destruct ((zlen digits <=? n) && (n <=? 21)) eqn:E.
  { intros _. apply andb_true_iff in E as [?%Z.leb_le ?%Z.leb_le]. rewrite length_app, repeat_length. lia. }
  intros Hc. exfalso. destruct ((0 <? n) && (n <=? 21)); [|destruct ((-6 <? n) && (n <=? 0))].
  - destruct (Hc 46) as [H|H]; [|done..]. rewrite !elem_of_app. right; left. left.
  - destruct (Hc 46) as [H|H]; [|done..]. apply elem_of_app. left. right. left.
  - destruct (Hc 101) as [H|H]; [|done..]. rewrite !elem_of_app. right; left. left.
Qed.

Lemma jcs_number_form f t :
  _jcs_number f = Ok t →
  t = lit "0" ∨ ∃ s digits n, t = s ++ jcs_body digits n ∧ (s = lit "-" ∨ s = []).
Proof.
  unfold _jcs_number. destruct (is_nan f || is_inf f) eqn:Ef; [done|].
  destruct f as [b|b| |b m e]; [intros <-%Ok_inj; by left|discriminate Ef|discriminate Ef|].
  cbn [SFabs sign_bit].
  destruct (repr_decimal (S754_finite false m e)) as [raw dexp]. intros <-%Ok_inj. right.
  do 3 eexists. split; [reflexivity|]. destruct b; auto.
Qed.

(** An accepted integer is short: past [2 ^ 53] only the positional notation of [_jcs_number] is free of
    points and exponents, and it has at most 21 digits. *)
Lemma jcs_int_short z t : _jcs_int z = Ok t → zlen t ≤ MAX_STR_DIGITS.
Proof.
  unfold _jcs_int. destruct ((- _MAX_SAFE_INT <=? z) && (z <=? _MAX_SAFE_INT)) eqn:E.
  { intros <-%Ok_inj. apply andb_true_iff in E as [?%Z.leb_le ?%Z.leb_le]. apply str_of_int_short. unfold _MAX_SAFE_INT in *. lia. }
  destruct (float_of_int z) as [f|]; [|done]. intros (r & Hr & H)%bind_Ok.
  case_decide as Heq; [|done]. apply Ok_inj in H as <-.
  apply jcs_number_form in Hr as [->|(s & digits & n & -> & Hs)]; [done|].
  assert (zlen (jcs_body digits n) ≤ 21).
  { apply jcs_body_positional. intros c Hin. apply (str_of_int_chars z). rewrite <-Heq, elem_of_app. by right. }
  rewrite length_app. destruct Hs as [->| ->]; unfold MAX_STR_DIGITS; simpl; lia.
Qed.


(** ** The text of a float *)

Lemma rstrip0_spec s : ∃ j, s = rstrip0 s ++ repeat 48 j.
Proof.
  induction s as [|c s [j IH]]; [by exists 0%nat|]. cbn [rstrip0]. destruct (rstrip0 s) as [|d r] eqn:E.
  - destruct (Z.eqb_spec c 48) as [->|]; [exists (S j); by rewrite IH at 1|exists j; by rewrite IH at 1].
  - exists j. by rewrite IH at 1.
Qed.
Lemma rstrip0_last s c : last (rstrip0 s) = Some c → c ≠ 48.
Proof.
  induction s as [|d s IH]; [done|]. cbn [rstrip0]. destruct (rstrip0 s) as [|e r]; [|exact IH].
  destruct (Z.eqb_spec d 48); [done|]. by intros [= <-].
Qed.

(** Digits that neither start nor end with a zero, for the decimal [d * 10 ^ q]. *)
Definition digits_of (d q c : Z) (ds : pystr) (n : Z) : Prop :=
  c ≠ 48 ∧ last (c :: ds) ≠ Some 48 ∧ forallb is_digit (c :: ds) = true ∧
  same_decimal (dec_value (c :: ds)) (n - zlen (c :: ds)) d q.

Lemma digits_of_pos d q c ds n : digits_of d q c ds n → 10 ^ zlen ds ≤ dec_value (c :: ds) ∧ 0 < dec_value (c :: ds).
Proof.
  intros (Hc & _ & Hd & _). pose proof (dec_value_low c ds Hd Hc). assert (0 < 10 ^ zlen ds) by (apply Z.pow_pos_nonneg; lia). lia.
Qed.

Lemma jcs_number_digits s m e d q t : 0 < d → shortest (S754_finite false m e) = (d, q) → _jcs_number (S754_finite s m e) = Ok t →
  ∃ c ds n, t = signed s (jcs_body (c :: ds) n) ∧ digits_of d q c ds n.
Proof.
  intros Hd Es. unfold _jcs_number. cbn [is_nan is_inf orb SFabs sign_bit].
  destruct (repr_decimal (S754_finite false m e)) as [raw p] eqn:Er. intros <-%Ok_inj.
  destruct (repr_decimal_digits _ d q raw p Hd Es Er) as (c & ds & -> & Hc & Hg & i & j & Hi & Hj & E & Ep).
  destruct (rstrip0_spec (c :: ds)) as [k Ek]. pose proof (rstrip0_last (c :: ds)) as Hl. set (r := rstrip0 (c :: ds)) in *.
  destruct r as [|c' ds'].
  { exfalso. destruct k; [done|]. by injection Ek as ->. }
  injection Ek as <- Ek. exists c, ds'. eexists. split; [reflexivity|].
  rewrite Ek, app_comm_cons in *. rewrite forallb_app in Hg. apply andb_true_iff in Hg as [Hg _].
  split_and!; [done|by intros H%Hl|done|]. exists (i + Z.of_nat k), j.
  rewrite dec_value_zeros in E. rewrite (Z.pow_add_r 10 i), (Z.mul_comm (10 ^ i)), Z.mul_assoc, E by lia.
  split_and!; [lia|lia|done|]. rewrite length_app, repeat_length. lia.
Qed.

(** Digits without a leading zero that, with their exponent, read as [f]. *)
Definition reads_as_digits (f : spec_float) (c : Z) (ds : pystr) (n : Z) : Prop :=
  c ≠ 48 ∧ forallb is_digit (c :: ds) = true ∧ float_of_decimal false (dec_value (c :: ds)) (n - zlen (c :: ds)) = f.

Lemma jcs_number_finite s m e t : is_f64 (S754_finite s m e) = true → _jcs_number (S754_finite s m e) = Ok t →
  ∃ c ds n, t = signed s (jcs_body (c :: ds) n) ∧ reads_as_digits (S754_finite false m e) c ds n.
Proof.
  intros Hv Ht. destruct (shortest (S754_finite false m e)) as [d q] eqn:Es.
  destruct (shortest_reads m e d q Hv Es) as [Hd <-].
  destruct (jcs_number_digits s m e d q t Hd Es Ht) as (c & ds & n & -> & Hg). exists c, ds, n. split; [done|].
  pose proof (digits_of_pos _ _ _ _ _ Hg) as [_ Hp]. destruct Hg as (Hc & _ & Hg & Hs). split_and!; [done|done|].
  by apply same_decimal_reads.
Qed.

(** The value a rendered float reads back as. *)
Definition number_value (f : spec_float) : pyval :=
  match _jcs_number f with
  | Ok t => match int_of_str t with Some z => PInt z | None => PFloat f end
  | Raise _ => PFloat f
  end.

Lemma int_of_str_None t x : x ∈ t → is_digit x = false → x ≠ 45 → int_of_str t = None.
Proof.
  intros Hx Hd Hm. destruct t as [|c ds]; [done|]. cbn [int_of_str].
  assert (Hf : ∀ l, x ∈ l → forallb is_digit l = false).
  { intros l Hl. destruct (forallb is_digit l) eqn:E; [|done]. rewrite forallb_forall in E.
    rewrite (E x) in Hd; [done|by apply list_elem_of_In]. }
  destruct (Z.eqb_spec c 45) as [->|]; [|by rewrite Hf]. apply elem_of_cons in Hx as [?|Hx]; [done|]. by rewrite Hf.
Qed.

Lemma digits_take_drop i l : forallb is_digit l = true → forallb is_digit (take i l) = true ∧ forallb is_digit (drop i l) = true.
Proof. rewrite <- (take_drop i l) at 1. rewrite forallb_app. apply andb_true_iff. Qed.

(** A fraction, an exponent, as the scanner meets them. *)
Lemma scan_fraction_digits fds rest : fds ≠ [] → forallb is_digit fds = true → digits_end rest →
  scan_fraction (lit "." ++ fds ++ rest) = Some (fds, rest).
Proof.
  intros Hne Hd Hr. unfold scan_fraction. change (lit ".") with [46]. cbn [app]. change (46 =? 46) with true. cbn iota.
  rewrite span_digits_until by done. by destruct fds.
Qed.
Lemma scan_exponent_text x : scan_exponent (lit "e" ++ (if 0 <=? x then lit "+" else lit "-") ++ str_of_nonneg (Z.abs x)) = Some (x, []).
Proof.
  destruct (str_of_nonneg_spec (Z.abs x)) as (Hd & Hv & Hne); [lia|].
  pose proof (span_digits_until (str_of_nonneg (Z.abs x)) [] Hd I) as Hs. rewrite app_nil_r in Hs.
  set (q := str_of_nonneg (Z.abs x)) in *. clearbody q.
  unfold scan_exponent. change (lit "e") with [101]. change (lit "+") with [43]. change (lit "-") with [45].
  change ((101 =? 101) || (101 =? 69)) with true.
  destruct (Z.leb_spec 0 x); cbn [app]; change (43 =? 45) with false; change (43 =? 43) with true; change (45 =? 45) with true;
    cbn iota; rewrite Hs; destruct q; try done; rewrite Hv; do 2 f_equal; lia.
Qed.
Lemma scan_int_digits c ds rest : c ≠ 48 → forallb is_digit (c :: ds) = true → digits_end rest →
  scan_int (c :: ds ++ rest) = (c :: ds, rest).
Proof. intros Hc Hd Hr. unfold scan_int. rewrite (proj2 (Z.eqb_neq _ _) Hc). by apply (span_digits_until (c :: ds)). Qed.

Lemma scan_number_fraction neg s ids fds : scan_int s = (ids, lit "." ++ fds) → ids ≠ [] → fds ≠ [] → forallb is_digit fds = true →
  scan_number neg s = Ok (PFloat (float_of_decimal neg (dec_value (ids ++ fds)) (0 - zlen fds)), []).
Proof.
  intros Hi Hne Hf Hd. unfold scan_number. rewrite Hi. pose proof (scan_fraction_digits fds [] Hf Hd I) as Hs.
  rewrite app_nil_r in Hs. rewrite Hs. by destruct ids.
Qed.
Lemma scan_number_exponent neg c fds x : c ≠ 48 → forallb is_digit (c :: fds) = true →
  scan_number neg ((c :: (match fds with [] => [] | _ => lit "." ++ fds end)) ++
    lit "e" ++ (if 0 <=? x then lit "+" else lit "-") ++ str_of_nonneg (Z.abs x)) =
  Ok (PFloat (float_of_decimal neg (dec_value (c :: fds)) (x - zlen fds)), []).
Proof.
  intros Hc Hd. cbn [forallb] in Hd. apply andb_true_iff in Hd as [Hcd Hd]. unfold scan_number. cbn [app].
  set (ex := lit "e" ++ _). destruct fds as [|f fds].
  - change ([] ++ ex) with ex. pose proof (scan_int_digits c [] ex Hc) as Hi. cbn [app] in Hi.
    rewrite Hi; [|by cbn [forallb]; rewrite Hcd|done]. change (scan_fraction ex) with (@None (pystr * pystr)). unfold ex. by rewrite scan_exponent_text.
  - pose proof (scan_int_digits c [] (lit "." ++ (f :: fds) ++ ex) Hc) as Hi. rewrite <- (assoc_L (++)).
    cbn [app] in Hi |- *. rewrite Hi; [|by cbn [forallb]; rewrite Hcd|done].
    change (46 :: ?r) with (lit "." ++ r). pose proof (scan_fraction_digits (f :: fds) ex) as Hs. cbn [app] in Hs.
    rewrite Hs by done. unfold ex. by rewrite scan_exponent_text.
Qed.

Lemma jcs_body_exponent s c ds n : c ≠ 48 → forallb is_digit (c :: ds) = true →
  let k := zlen (c :: ds) in let e := n - 1 in
  let body := (take 1 (c :: ds) ++ (if 1 <? k then lit "." ++ drop 1 (c :: ds) else [])) ++
    lit "e" ++ (if 0 <=? e then lit "+" else lit "-") ++ str_of_nonneg (Z.abs e) in
  int_of_str (signed s body) = None ∧ scan_number s body = Ok (PFloat (float_of_decimal s (dec_value (c :: ds)) (n - k)), []).
Proof.
  intros Hc Hd k e body.
  assert (Eb : body = (c :: (match ds with [] => [] | _ => lit "." ++ ds end)) ++
    lit "e" ++ (if 0 <=? e then lit "+" else lit "-") ++ str_of_nonneg (Z.abs e)).
  { unfold body, k. destruct ds as [|d ds]; [done|].
    destruct (Z.ltb_spec 1 (zlen (c :: d :: ds))); [done|]. cbn [length] in *. lia. }
  rewrite Eb. split.
  - apply (int_of_str_None _ 101); [|done..]. unfold signed. rewrite !elem_of_app. right. right. left. by left.
  - rewrite scan_number_exponent by done. do 4 f_equal. unfold k, e. cbn [length]. lia.
Qed.

Lemma jcs_body_reads s c ds n : c ≠ 48 → forallb is_digit (c :: ds) = true →
  let body := jcs_body (c :: ds) n in let k := zlen (c :: ds) in
  (k ≤ n ≤ 21 ∧ let v := dec_value (c :: ds) * 10 ^ (n - k) in signed s body = str_of_int (if s then - v else v)) ∨
  (int_of_str (signed s body) = None ∧
   scan_number s body = Ok (PFloat (float_of_decimal s (dec_value (c :: ds)) (n - k)), [])).
Proof.
  intros Hc Hd body k. pose proof (dec_value_low c ds Hd Hc) as Hlow. assert (0 < 10 ^ zlen ds) by (apply Z.pow_pos_nonneg; lia).
  assert (Hk : k = zlen ds + 1) by (unfold k; cbn [length]; lia). unfold body, jcs_body. fold k. clear body.
  destruct (Z.leb_spec k n) as [Hkn|Hkn]; cbn [andb].
  { destruct (Z.leb_spec n 21) as [Hn|Hn]; cbn [andb].
    - left. split; [lia|]. cbn zeta. rewrite <- app_comm_cons.
      rewrite <- (str_of_nonneg_value c (ds ++ repeat 48 (Z.to_nat (n - k)))); [|by rewrite app_comm_cons, forallb_app, Hd, (proj1 (zeros_value _))|done].
      rewrite app_comm_cons, dec_value_app, (proj2 (zeros_value _)), repeat_length, Z2Nat.id, Z.add_0_r by lia.
      assert (0 < 10 ^ (n - k)) by (apply Z.pow_pos_nonneg; lia). set (v := dec_value (c :: ds) * 10 ^ (n - k)).
      assert (0 < v) by (apply Z.mul_pos_pos; lia). unfold signed, str_of_int. destruct s.
      + rewrite (proj2 (Z.ltb_lt _ _)) by lia. by rewrite Z.opp_involutive.
      + by rewrite (proj2 (Z.ltb_ge _ _)) by lia.
    - rewrite (proj2 (Z.ltb_lt 0 n)) by lia. rewrite (proj2 (Z.leb_gt n 0)), !andb_false_r by lia. right. by apply jcs_body_exponent. }
  destruct (Z.ltb_spec 0 n) as [Hn|Hn]; cbn [andb].
  { destruct (Z.leb_spec n 21) as [Hn'|Hn']; cbn [andb]; [right|rewrite (proj2 (Z.leb_gt n 0)), !andb_false_r by lia; right; by apply jcs_body_exponent].
    assert (En : Z.to_nat n = S (Z.to_nat (n - 1))) by lia. rewrite En. cbn [take drop]. set (i := Z.to_nat (n - 1)).
    cbn [forallb] in Hd. apply andb_true_iff in Hd as [Hcd Hd]. destruct (digits_take_drop i ds Hd) as [H1 H2].
    assert (Hl : zlen (drop i ds) = k - n) by (rewrite length_drop; lia).
    split; [apply (int_of_str_None _ 46); [|done..]; unfold signed; rewrite !elem_of_app; right; right; left; by left|].
    rewrite (scan_number_fraction _ _ (c :: take i ds) (drop i ds)); [| |done| |done].
    - cbn [app]. rewrite take_drop, Hl. do 4 f_equal. lia.
    - apply scan_int_digits; [done|by cbn [forallb]; rewrite Hcd|done].
    - intros E. rewrite E in Hl. cbn in Hl. lia. }
  destruct (Z.leb_spec n 0) as [Hn0|Hn0]; [|lia]. rewrite andb_true_r.
  destruct (Z.ltb_spec (-6) n) as [Hn6|Hn6]; [right|right; by apply jcs_body_exponent].
  split; [apply (int_of_str_None _ 46); [|done..]; unfold signed; rewrite !elem_of_app; right; left; right; by left|].
  rewrite (scan_number_fraction _ _ [48] (repeat 48 (Z.to_nat (- n)) ++ c :: ds)); [|done|done| |].
  - do 4 f_equal; [|rewrite length_app, repeat_length; fold k; lia]. cbn [app].
    rewrite dec_value_cons, dec_value_app, (proj2 (zeros_value _)). f_equal.
  - destruct (repeat 48 _); done.
  - by rewrite forallb_app, Hd, (proj1 (zeros_value _)).
Qed.

(** ** The round trip of numbers *)

Section number.
Context (hook : list (pystr * pyval) → res pyval) `{!DictHook hook}.

Lemma jcs_body_head c ds n : forallb is_digit (c :: ds) = true →
  ∃ c' r, jcs_body (c :: ds) n = c' :: r ∧ is_digit c' = true.
Proof.
  cbn [forallb]. intros [Hc _]%andb_true_iff. unfold jcs_body.
  destruct (_ && _); [by eexists _, _|]. destruct (Z.ltb_spec 0 n); cbn [andb].
  - destruct (n <=? 21); [|rewrite (proj2 (Z.leb_gt n 0)), andb_false_r by lia; by eexists _, _].
    replace (Z.to_nat n) with (S (Z.to_nat (n - 1))) by lia. by eexists _, _.
  - destruct (_ && _); by eexists _, _.
Qed.

Lemma jcs_number_zero b t : _jcs_number (S754_zero b) = Ok t → t = lit "0".
Proof. by intros <-%Ok_inj. Qed.

(** A rendered float reads back, wherever it stands, as its value. *)
Lemma jcs_number_reads f t : is_f64 f = true → _jcs_number f = Ok t → reads hook t (number_value f).
Proof.
  intros Hv Ht. unfold number_value. rewrite Ht. destruct f as [b|b| |s m e]; [|by destruct b|done|].
  - apply jcs_number_zero in Ht as ->. change (int_of_str (lit "0")) with (Some 0). by apply (reads_int hook 0).
  - destruct (jcs_number_finite s m e t Hv Ht) as (c & ds & n & -> & Hc & Hd & Hr).
    destruct (jcs_body_reads s c ds n Hc Hd) as [[Hn E]|[E Hs]].
    + rewrite E, int_of_str_of_int. apply (reads_int hook). rewrite <- E. unfold signed. rewrite length_app.
      unfold jcs_body. rewrite (proj2 (Z.leb_le _ _)), (proj2 (Z.leb_le n 21)) by lia. cbn [andb].
      rewrite length_app, repeat_length. destruct s; cbn [length] in *; unfold MAX_STR_DIGITS; lia.
    + rewrite E. destruct (jcs_body_head c ds n Hd) as (c' & r & Eb & Hc'). rewrite Eb in *.
      assert (Ef : float_of_decimal s (dec_value (c :: ds)) (n - zlen (c :: ds)) = S754_finite s m e).
      { destruct s; [|done]. rewrite float_of_decimal_neg, Hr; [done|].
        pose proof (dec_value_low c ds Hd Hc). assert (0 < 10 ^ zlen ds) by (apply Z.pow_pos_nonneg; lia). lia. }
      rewrite Ef in Hs. by apply reads_number.
Qed.
End number.

Lemma round_int_opp z : f64_round_int (- z) = SFopp (f64_round_int z) ∨ z = 0.
Proof.
  destruct z as [|p|p]; [by right|left..]; cbn [Z.opp]; unfold f64_round_int, binary_normalize;
    (eapply (rounds_unique _ _ 1); [done|apply int_rounds|]); [apply (SFopp_rounds false)|apply (SFopp_rounds true)]; apply int_rounds.
Qed.

(** The integer a float reads back as has that float as its double. *)
Lemma number_value_int f z : is_f64 f = true → number_value f = PInt z →
  float_of_int z = Ok f ∨ z = 0 ∧ ∃ b, f = S754_zero b.
Proof.
  intros Hv. unfold number_value. destruct (_jcs_number f) as [t|] eqn:Ht; [|done].
  destruct (int_of_str t) as [z'|] eqn:Ez; [|done]. intros [= ->].
  destruct f as [b|b| |s m e]; [|by destruct b|done|].
  - right. apply jcs_number_zero in Ht as ->. injection Ez as <-. by split; [|exists b].
  - left. destruct (jcs_number_finite s m e t Hv Ht) as (c & ds & n & -> & Hc & Hd & Hr).
    destruct (jcs_body_reads s c ds n Hc Hd) as [[Hn E]|[E Hs]]; [|congruence].
    rewrite E, int_of_str_of_int in Ez. injection Ez as <-.
    pose proof (dec_value_low c ds Hd Hc) as Hlow. assert (0 < 10 ^ zlen ds) by (apply Z.pow_pos_nonneg; lia).
    set (d := dec_value (c :: ds)) in *. set (p := n - zlen (c :: ds)) in *.
    assert (Hp : 0 ≤ p) by (unfold p; lia). assert (0 < 10 ^ p) by (apply Z.pow_pos_nonneg; lia).
    assert (Hf : f64_round_int (d * 10 ^ p) = S754_finite false m e).
    { pose proof (decimal_rounds false d p ltac:(lia)) as Hdr. rewrite Hr in Hdr. unfold decimal_num, decimal_den in Hdr.
      rewrite (proj2 (Z.leb_le _ _) Hp) in Hdr. eapply rounds_unique; [|apply round_int_rounds; apply Z.mul_pos_pos; lia|exact Hdr]. done. }
    unfold float_of_int. change (n - Z.of_nat (S (length ds))) with p. cbn zeta. fold d. destruct s; [|by rewrite Hf].
    destruct (round_int_opp (d * 10 ^ p)) as [->|?]; [by rewrite Hf|nia].
Qed.

Lemma number_value_text f t z : is_f64 f = true → _jcs_number f = Ok t → int_of_str t = Some z → t = str_of_int z.
Proof.
  intros Hv Ht Ez. destruct f as [b|b| |s m e]; [|by destruct b|done|].
  - apply jcs_number_zero in Ht as ->. by injection Ez as <-.
  - destruct (jcs_number_finite s m e t Hv Ht) as (c & ds & n & -> & Hc & Hd & Hr).
    destruct (jcs_body_reads s c ds n Hc Hd) as [[Hn E]|[E Hs]]; [|congruence].
    rewrite E, int_of_str_of_int in Ez. injection Ez as <-. exact E.
Qed.

(** ** The rule for integers

    The rule of [_jcs_int]'s documentation, stated literally: render the double and require the integer's own decimal
    form. The code takes integers up to [2 ^ 53] at once. *)
Definition jcs_int_rule (z : Z) : res pystr :=
  match float_of_int z with
  | Raise _ => Raise ValueError
  | Ok f => rendered ← _jcs_number f; if decide (rendered = str_of_int z) then Ok rendered else Raise ValueError
  end.

Lemma last_digit_nonzero ds : forallb is_digit ds = true → ds ≠ [] → last ds ≠ Some 48 → dec_value ds mod 10 ≠ 0.
Proof.
  intros Hd Hne Hl. destruct ds as [|x ds _] using rev_ind; [done|]. rewrite last_snoc in Hl.
  rewrite forallb_app in Hd. apply andb_true_iff in Hd as [_ Hx]. cbn [forallb] in Hx.
  apply andb_true_iff in Hx as [Hx%is_digit_spec _]. rewrite dec_value_app. change (zlen [x]) with 1. rewrite Z.pow_1_r.
  assert (x ≠ 48) by congruence. rewrite dec_value_cons. change (zlen []) with 0. change (dec_value []) with 0.
  rewrite Z.add_comm, Z.mod_add by lia. rewrite Z.mod_small; lia.
Qed.

(** The digits of an integer below [2 ^ 53], laid out: the integer. *)
Lemma jcs_body_int z d q c ds n : 0 < z < 2 ^ 53 → 0 ≤ q → d * 10 ^ q = z → digits_of d q c ds n → jcs_body (c :: ds) n = str_of_nonneg z.
Proof.
  intros Hz Hq Ez Hg. pose proof (digits_of_pos _ _ _ _ _ Hg) as [Hlow Hpos]. destruct Hg as (Hc & Hl & Hg & i & j & Hi & Hj & E & Ep).
  set (k := zlen (c :: ds)) in *. set (D := dec_value (c :: ds)) in *.
  assert (Hkn : k ≤ n).
  { destruct (Z.le_gt_cases k n) as [|Hgt]; [done|]. exfalso. apply (last_digit_nonzero (c :: ds)); [done..|]. fold D.
    assert (E2 : D = d * 10 ^ (j - i - 1) * 10).
    { apply (Z.mul_reg_r _ _ (10 ^ i)); [by apply Z.pow_nonzero|]. rewrite E, <- !Z.mul_assoc. f_equal.
      change 10 with (10 ^ 1) at 3. rewrite <- !Z.pow_add_r by lia. f_equal. lia. }
    rewrite E2. apply Z.mod_mul. lia. }
  assert (Ev : D * 10 ^ (n - k) = z).
  { assert (0 < 10 ^ i) by (apply Z.pow_pos_nonneg; lia). apply (Z.mul_reg_r _ _ (10 ^ i)); [lia|].
    rewrite <- Z.mul_assoc, (Z.mul_comm (10 ^ (n - k))), Z.mul_assoc, E, <- Ez, <- !Z.mul_assoc, <- !Z.pow_add_r by lia. do 2 f_equal. lia. }
  assert (Hn : n ≤ 16).
  { destruct (Z.le_gt_cases n 16); [done|]. exfalso. assert (10 ^ 16 ≤ 10 ^ zlen ds * 10 ^ (n - k)).
    { rewrite <- Z.pow_add_r by lia. apply Z.pow_le_mono_r; [lia|]. unfold k. cbn [length]. lia. }
    assert (0 < 10 ^ (n - k)) by (apply Z.pow_pos_nonneg; lia).
    assert (10 ^ zlen ds * 10 ^ (n - k) ≤ D * 10 ^ (n - k)) by (apply Z.mul_le_mono_nonneg_r; lia). lia. }
  unfold jcs_body. fold k. rewrite (proj2 (Z.leb_le _ _) Hkn), (proj2 (Z.leb_le n 21)) by lia. cbn [andb].
  rewrite <- app_comm_cons, <- Ev, <- (str_of_nonneg_value c (ds ++ _)), app_comm_cons, dec_value_zeros, Z2Nat.id; [done|lia| |done].
  by rewrite app_comm_cons, forallb_app, Hg, (proj1 (zeros_value _)).
Qed.

Lemma jcs_number_small s z m e : 0 < z < 2 ^ 53 → f64_round_int z = S754_finite false m e →
  _jcs_number (S754_finite s m e) = Ok (signed s (str_of_nonneg z)).
Proof.
  intros Hz Hf. destruct (shortest (S754_finite false m e)) as [d q] eqn:Es.
  destruct (int_exact z Hz) as (m' & e' & Hf' & Hv & _). rewrite Hf in Hf'. injection Hf' as <- <-.
  destruct (shortest_reads m e d q Hv Es) as [Hd _]. rewrite <- Hf in Es. destruct (shortest_int z d q Hz Es) as [Hq Ez]. rewrite Hf in Es.
  destruct (_jcs_number (S754_finite s m e)) as [t|x] eqn:Et.
  - destruct (jcs_number_digits s m e d q t Hd Es Et) as (c & ds & n & -> & Hg). by rewrite (jcs_body_int z d q c ds n).
  - unfold _jcs_number in Et. cbn [is_nan is_inf orb] in Et. by destruct (repr_decimal _).
Qed.

(** The shortcut of [_jcs_int] is the rule. *)
Theorem jcs_int_is_the_rule z : _jcs_int z = jcs_int_rule z.
Proof.
  unfold _jcs_int, jcs_int_rule. destruct (Z.leb_spec (- _MAX_SAFE_INT) z) as [Hlo|]; cbn [andb]; [|done].
  destruct (Z.leb_spec z _MAX_SAFE_INT) as [Hhi|]; [|done]. unfold _MAX_SAFE_INT in *.
  destruct (Z.eq_dec (Z.abs z) (2 ^ 53)) as [E|E].
  { assert (z = 2 ^ 53 ∨ z = - 2 ^ 53) as [-> | ->] by lia; by vm_compute. }
  destruct (Z.eq_dec z 0) as [->|Hz]; [done|].
  destruct (int_exact (Z.abs z)) as (m & e & Hf & _); [lia|].
  assert (Ef : f64_round_int z = S754_finite (z <? 0) m e).
  { destruct (Z.ltb_spec z 0); [|by rewrite <- Hf, Z.abs_eq by lia].
    destruct (round_int_opp (Z.abs z)) as [Ho|?]; [|lia]. rewrite Hf, Z.abs_neq, Z.opp_involutive in Ho by lia. done. }
  unfold float_of_int. rewrite Ef. cbn [is_inf]. rewrite (jcs_number_small _ (Z.abs z)) by (done || lia).
  assert (Es : signed (z <? 0) (str_of_nonneg (Z.abs z)) = str_of_int z).
  { unfold signed, str_of_int. destruct (Z.ltb_spec z 0); [rewrite Z.abs_neq by lia|rewrite Z.abs_eq by lia]; done. }
  rewrite Es. cbn [mbind res_bind]. by rewrite decide_True.
Qed.
