(* ===== verification/JcsRead.v ===== *)
(** * JcsRead: canonical text reads back, so a digest binds the tool input

    [json.loads] of what [_jcs_write] emits is the value it was given ([denotes]), with its dicts in canonical
    order and a float without a fraction as the integer it is written as; canonicalizing that value gives the same bytes again.
    Hence equal canonical bytes mean equal values, and a [tool_input_digest] commits to the input. *)

From stdpp Require Import base list numbers option strings sorting sets.
From Stdlib Require Import SpecFloat.
From S2P Require Import Prelude Order Text Sha256 Floats Rounding Json JsonRead Jcs JcsNumber.

(** ** Canonical values *)

(** A [str] holds code points. *)
Definition valid_str (s : pystr) : Prop := Forall (λ c, 0 ≤ c) s.

(** The JSON values: what a tool input is made of, dict keys distinct as in any dict. *)
Inductive plain : pyval → Prop :=
| plain_none : plain PNone
| plain_bool b : plain (PBool b)
| plain_int z : plain (PInt z)
| plain_float f : is_f64 f = true → plain (PFloat f)
| plain_str s : valid_str s → plain (PStr s)
| plain_list l : Forall plain l → plain (PList l)
| plain_tuple l : Forall plain l → plain (PTuple l)
| plain_dict (pairs : list (pystr * pyval)) :
    NoDup pairs.*1 → Forall valid_str pairs.*1 → Forall (λ p, plain p.2) pairs →
    plain (PDict ((λ p, (PStr p.1, p.2)) <$> pairs)).

(** The value a canonical text reads as: tuples as lists, dict items in sorted order, floats as [number_value] says. *)
Fixpoint jcs_value (v : pyval) : pyval :=
  match v with
  | PList l | PTuple l => PList ((λ x, jcs_value x) <$> l)
  | PDict kv =>
    let values := (λ p, (p.1, jcs_value p.2)) <$> kv in
    match (keys ← mapM (λ p, str_key p.1) kv; sort_keys keys) with
    | Ok ks => PDict (omap (λ k, (λ x, (PStr k, x)) <$> dict_find k values) ks)
    | Raise _ => v
    end
  | PFloat f => number_value f
  | _ => v
  end.

(** [z] is the number the double [f] is, exactly. *)
Definition exactly (f : spec_float) (z : Z) : Prop := let '(num, den) := f64_ratio f in num = z * den.

(** [w] is the JSON value [v] as it is written: a list stands for a tuple, the items of a dict may come in another order,
    and an integer for a float. That integer is the float exactly up to [2 ^ 53], and in general the one whose
    decimal form is the rendering of the float, of which the float is the double; [2 ^ 60] is
    [1152921504606847000] there. *)
Inductive denotes : pyval → pyval → Prop :=
| den_same v : denotes v v
| den_int f z : _jcs_number f = Ok (str_of_int z) → float_of_int z = Ok f → (Z.abs z ≤ 2 ^ 53 → exactly f z) → denotes (PFloat f) (PInt z)
| den_zero b : denotes (PFloat (S754_zero b)) (PInt 0)
| den_seq l l' v : v = PList l ∨ v = PTuple l → Forall2 denotes l l' → denotes v (PList l')
| den_dict kv kv1 kv' : Forall2 (λ p q, p.1 = q.1 ∧ denotes p.2 q.2) kv kv1 → kv1 ≡ₚ kv' → denotes (PDict kv) (PDict kv').

Abbreviation hook := _no_duplicate_keys.
Abbreviation member_text := (JsonRead.member_text _jcs_string []).
Abbreviation member_reads := (JsonRead.member_reads hook _jcs_string).

(** ** Strings *)

Lemma hex_digit_small d : 0 ≤ d < 16 → hex_digit (hex_char d) = Some d.
Proof. intros. by apply hex_digit_char. Qed.

Lemma scan_jcs_char c fuel rest :
  0 ≤ c → scan_string (S fuel) (jcs_char c ++ rest) = cons_fst c <$> scan_string fuel rest.
Proof.
  intros Hc. unfold jcs_char, _JCS_ESCAPES.
  destruct (Z.eqb_spec c 8) as [->|]; [done|]. destruct (Z.eqb_spec c 9) as [->|]; [done|].
  destruct (Z.eqb_spec c 10) as [->|]; [done|]. destruct (Z.eqb_spec c 12) as [->|]; [done|].
  destruct (Z.eqb_spec c 13) as [->|]; [done|]. destruct (Z.eqb_spec c 34) as [->|]; [done|].
  destruct (Z.eqb_spec c 92) as [->|]; [done|]. destruct (Z.ltb_spec c 32).
  - change (lit "\u00") with [92; 117; 48; 48]. simpl. unfold hex4.
    change (hex_digit 48) with (Some 0). cbn iota.
    rewrite !hex_digit_small by (split; dlia).
    replace (((0 * 16 + 0) * 16 + c / 16) * 16 + c mod 16) with c by dlia.
    replace (is_high c) with false; [done|]. unfold is_high. symmetry. apply andb_false_iff. left.
    apply Z.leb_gt. lia.
  - simpl. destruct (Z.eqb_spec c 34); [done|]. destruct (Z.ltb_spec c 32); [lia|].
    by destruct (Z.eqb_spec c 92).
Qed.

Lemma jcs_char_length c : (1 ≤ length (jcs_char c))%nat.
Proof. unfold jcs_char, _JCS_ESCAPES. repeat case_match; simplify_eq; simpl; lia. Qed.

Lemma scan_jcs_body s fuel rest :
  valid_str s → (length s < fuel)%nat → scan_string fuel ((s ≫= jcs_char) ++ 34 :: rest) = Ok (s, rest).
Proof.
  intros Hs. revert fuel. induction Hs as [|c s Hc _ IH]; intros fuel Hf.
  { by destruct fuel; [lia|]. }
  destruct fuel as [|fuel]; [lia|].
  rewrite bind_cons, <-(assoc_L (++)), scan_jcs_char by done. rewrite IH; [done|simpl in Hf; lia].
Qed.

Lemma jcs_body_length s : (length s ≤ length (s ≫= jcs_char))%nat.
Proof.
  induction s as [|c s IH]; [done|]. rewrite bind_cons, length_app. pose proof (jcs_char_length c).
  simpl. lia.
Qed.

(** The literal as both string positions of the scanner meet it: after the opening quote. *)
Lemma scan_jcs_string s : valid_str s → literal (_jcs_string s) s.
Proof.
  intros Hs rest. exists ((s ≫= jcs_char) ++ 34 :: rest). unfold _jcs_string.
  split; [simpl; by rewrite <-(assoc_L (++))|]. apply scan_jcs_body; [done|].
  rewrite length_app. pose proof (jcs_body_length s). lia.
Qed.

Lemma reads_string s : valid_str s → reads hook (_jcs_string s) (PStr s).
Proof. intros Hs. by apply reads_literal, scan_jcs_string. Qed.

(** ** Arrays and objects *)

Lemma comma_join_sep ts : comma_join ts = sep_join [44] ts.
Proof. induction ts as [|t [|u ts] IH]; [done..|]. cbn [comma_join sep_join] in *. by rewrite IH. Qed.

(** An object laid out without white space. *)
Lemma reads_members ms :
  Forall member_reads ms → NoDup (member_pair <$> ms).*1 →
  reads hook (lit "{" ++ comma_join (member_text <$> ms) ++ lit "}")
        (PDict ((λ p, (PStr p.1, p.2)) <$> (member_pair <$> ms))).
Proof.
  intros Hall Hnd. rewrite comma_join_sep. destruct ms as [|m ms]; [by apply (reads_empty_object hook)|].
  by apply (reads_object hook _jcs_string [] [] [] []).
Qed.

Lemma array_reads ts xs : Forall2 (reads hook) ts xs → reads hook (lit "[" ++ comma_join ts ++ lit "]") (PList xs).
Proof.
  intros Hall. rewrite comma_join_sep. destruct Hall as [|t x ts xs Ht Hall]; [apply (reads_empty_array hook)|].
  assert (∃ ms, ms.*1 = t :: ts ∧ ms.*2 = x :: xs ∧ Forall (element_reads hook) ms) as (ms & E & <- & Hms).
  { exists ((t, x) :: zip ts xs). cbn. rewrite fst_zip, snd_zip by (apply Forall2_length in Hall; lia).
    split_and!; [done..|]. constructor; [done|]. clear -Hall. by induction Hall; constructor. }
  rewrite <- E. apply (reads_array hook [] [] []); [done..|exact Hms|by destruct ms].
Qed.

(** ** The round trip *)

Lemma dict_find_fmap {A B} (f : A → B) k (d : list (pyval * A)) :
  dict_find k ((λ p, (p.1, f p.2)) <$> d) = f <$> dict_find k d.
Proof. induction d as [|[k' a] d IH]; [done|]. simpl. by destruct (py_eq_str k' k). Qed.

Lemma str_keys_pairs (pairs : list (pystr * pyval)) :
  mapM (λ p, str_key p.1) ((λ p, (PStr p.1, p.2)) <$> pairs) = Ok pairs.*1.
Proof. induction pairs as [|[k v] pairs IH]; [done|]. rewrite fmap_cons. cbn [mapM]. simpl. by rewrite IH. Qed.

Lemma sort_keys_members keys ks : sort_keys keys = Ok ks → ks ≡ₚ keys.
Proof.
  unfold sort_keys. intros (us & Hus & <-%Ok_inj)%bind_Ok. rewrite (merge_sort_Permutation pair_le).
  clear -Hus. revert us Hus. induction keys as [|k keys IH]; intros us Hus; [by apply Ok_inj in Hus as <-|].
  apply mapM_res_cons in Hus as (u & us' & (b & _ & <-%Ok_inj)%bind_Ok & Hus & ->). simpl. by rewrite IH.
Qed.

Lemma members_of (pairs : list (pystr * pyval)) ks parts :
  let kv := (λ p, (PStr p.1, p.2)) <$> pairs in
  Forall valid_str pairs.*1 →
  Forall (λ p, ∀ t, _jcs_write p.2 = Ok t → reads hook t (jcs_value p.2)) pairs →
  mapM (write_member ((λ p, (p.1, _jcs_write p.2)) <$> kv)) ks = Ok parts →
  ∃ ms, member_text <$> ms = parts ∧ Forall member_reads ms ∧ (member_pair <$> ms).*1 = ks ∧
    (λ p, (PStr p.1, p.2)) <$> (member_pair <$> ms) =
    omap (λ k, (λ x, (PStr k, x)) <$> dict_find k ((λ p, (p.1, jcs_value p.2)) <$> kv)) ks.
Proof.
  intros kv Hk IH. revert parts. induction ks as [|k ks IHks]; intros parts Hp.
  { apply Ok_inj in Hp as <-. by exists []. }
  apply mapM_res_cons in Hp as (part & parts' & Hm & Hps & ->).
  destruct (IHks _ Hps) as (ms & Ht & Hr & Hks & Ho). clear IHks.
  unfold write_member in Hm. rewrite (dict_find_fmap _jcs_write) in Hm.
  destruct (dict_find k kv) as [w|] eqn:Ek; [|done]. cbn in Hm. apply bind_Ok in Hm as (t & Hw & <-%Ok_inj).
  assert ((k, w) ∈ pairs) as Hin.
  { apply dict_find_in in Ek. subst kv. apply list_elem_of_fmap in Ek as ([k' w'] & [= -> ->] & Hin). done. }
  exists ((k, (t, jcs_value w)) :: ms). rewrite !fmap_cons, Ht, Hks, Ho. split_and!; [done| |done|].
  - constructor; [|done]. split.
    + rewrite Forall_forall in Hk. apply scan_jcs_string, (Hk k), list_elem_of_fmap. by exists (k, w).
    + rewrite Forall_forall in IH. by apply (IH (k, w)).
  - cbn [omap list_omap]. by rewrite (dict_find_fmap jcs_value), Ek.
Qed.

Lemma mapM_reads l ts :
  Forall (λ v, plain v → ∀ t, _jcs_write v = Ok t → reads hook t (jcs_value v)) l → Forall plain l →
  mapM _jcs_write l = Ok ts → Forall2 (reads hook) ts (jcs_value <$> l).
Proof.
  intros IH Hp. revert ts. induction Hp as [|x l Hx Hl IHl]; intros ts Ht.
  { apply Ok_inj in Ht as <-. constructor. }
  apply Forall_cons in IH as [IHx IH']. apply mapM_res_cons in Ht as (t & ts' & Hxt & Hts & ->).
  rewrite fmap_cons. constructor; [by apply IHx|by apply IHl].
Qed.

Lemma write_reads v : plain v → ∀ t, _jcs_write v = Ok t → reads hook t (jcs_value v).
Proof.
  induction v as [|b|z|f|s|b|i c r|l IH|l IH|kv IH|o] using pyval_deep_ind; intros Hp t Ht;
    inversion Hp as [|?|?|? Hf|? Hs|? Hl|? Hl|pairs Hnd Hk Hv]; subst; clear Hp.
  - apply Ok_inj in Ht as <-. apply reads_const. auto.
  - destruct b; apply Ok_inj in Ht as <-; apply reads_const; auto.
  - cbn [_jcs_write] in Ht. pose proof (jcs_int_short z t Ht) as Hlen.
    assert (t = str_of_int z) as -> by by apply jcs_int_renders_itself. by apply reads_int.
  - cbn [_jcs_write] in Ht. by apply jcs_number_reads.
  - apply Ok_inj in Ht as <-. by apply reads_string.
  - rewrite jcs_write_list in Ht. apply bind_Ok in Ht as (ts & Hts & <-%Ok_inj). apply array_reads.
    by apply mapM_reads.
  - rewrite jcs_write_tuple, jcs_write_list in Ht. apply bind_Ok in Ht as (ts & Hts & <-%Ok_inj).
    apply array_reads. by apply mapM_reads.
  - rewrite jcs_write_dict, str_keys_pairs in Ht. cbn [mbind res_bind] in Ht.
    apply bind_Ok in Ht as (ks & Hks & (parts & Hparts & <-%Ok_inj)%bind_Ok).
    pose proof (sort_keys_members _ _ Hks) as Hperm.
    destruct (members_of pairs ks parts Hk) as (ms & <- & Hr & Hms & Ho); [|done|].
    { rewrite Forall_fmap in IH. clear -IH Hv. induction Hv; constructor; apply Forall_cons in IH as [? ?]; auto. }
    assert (jcs_value (PDict ((λ p, (PStr p.1, p.2)) <$> pairs)) =
            PDict ((λ p, (PStr p.1, p.2)) <$> (member_pair <$> ms))) as ->.
    { cbn [jcs_value]. rewrite str_keys_pairs. cbn [mbind res_bind]. by rewrite Hks, Ho. }
    apply reads_members; [done|]. by rewrite Hms, Hperm.
Qed.

(** ** What is read is the value, and canonicalizes to the same text *)

Lemma ratio_exact sgn m e z : 0 < z → e ≤ 0 → -1074 ≤ e → z * 2 ^ 1074 = Zpos m * 2 ^ (e + 1074) →
  exactly (S754_finite sgn m e) (if sgn then - z else z).
Proof.
  intros Hz He He' Ev. assert (Hm : Zpos m = z * 2 ^ (- e)).
  { replace (2 ^ 1074) with (2 ^ (- e) * 2 ^ (e + 1074)) in Ev by (rewrite <- Z.pow_add_r by lia; f_equal; lia).
    assert (0 < 2 ^ (e + 1074)) by (apply Z.pow_pos_nonneg; lia). rewrite Z.mul_assoc in Ev.
    symmetry in Ev. by apply Z.mul_cancel_r in Ev; [|lia]. }
  unfold exactly, f64_ratio. destruct (Z.leb_spec 0 e).
  - assert (e = 0) as -> by lia. change (2 ^ (- 0)) with 1 in Hm. change (2 ^ 0) with 1. rewrite Hm. destruct sgn; lia.
  - rewrite Hm. destruct sgn; lia.
Qed.
Lemma small_int_exact f z : float_of_int z = Ok f → Z.abs z ≤ 2 ^ 53 → exactly f z.
Proof.
  unfold float_of_int. intros Ef Hz. assert (Hf : f = f64_round_int z) by (destruct (is_inf _); [done|by injection Ef]). clear Ef.
  destruct (Z.eq_dec (Z.abs z) (2 ^ 53)) as [E|E].
  { assert (z = 2 ^ 53 ∨ z = - 2 ^ 53) as [-> | ->] by lia; rewrite Hf; by vm_compute. }
  destruct (Z.eq_dec z 0) as [->|Hn]; [by rewrite Hf|].
  destruct (int_exact (Z.abs z)) as (m & e & Hr & Hv & He & Ev); [lia|].
  apply is_f64_finite in Hv. assert (-1074 ≤ e) by lia.
  assert (Hs : f = S754_finite (z <? 0) m e).
  { rewrite Hf. destruct (Z.ltb_spec z 0); [|by rewrite <- Hr, Z.abs_eq by lia].
    destruct (round_int_opp (Z.abs z)) as [Ho|?]; [|lia]. rewrite Hr, Z.abs_neq, Z.opp_involutive in Ho by lia. done. }
  rewrite Hs. pose proof (ratio_exact (z <? 0) m e (Z.abs z) ltac:(lia) He ltac:(lia) Ev) as Hx.
  destruct (Z.ltb_spec z 0); [by rewrite Z.abs_neq, Z.opp_involutive in Hx by lia|by rewrite Z.abs_eq in Hx by lia].
Qed.

Lemma number_denotes f : is_f64 f = true → denotes (PFloat f) (number_value f).
Proof.
  intros Hf. destruct (number_value f) as [| |z|g| | | | | | |] eqn:E.
  3: { destruct (number_value_int f z Hf E) as [Hz|[-> [b ->]]]; [|apply den_zero].
    apply den_int; [|done|by apply small_int_exact]. unfold number_value in E. destruct (_jcs_number f) as [t|] eqn:Et; [|done].
    destruct (int_of_str t) as [z'|] eqn:Ez; [|done]. injection E as ->. by rewrite (number_value_text f t z). }
  all: unfold number_value in E; destruct (_jcs_number f); [destruct (int_of_str _)|]; try discriminate E.
  all: injection E as ->; apply den_same.
Qed.
Lemma number_written f : is_f64 f = true → _jcs_write (number_value f) = _jcs_number f.
Proof.
  intros Hf. unfold number_value. destruct (_jcs_number f) as [t|e] eqn:Et; [|exact Et].
  destruct (int_of_str t) as [z|] eqn:Ez; [|exact Et]. cbn [_jcs_write]. rewrite jcs_int_is_the_rule. unfold jcs_int_rule.
  assert (Hn : number_value f = PInt z) by (unfold number_value; by rewrite Et, Ez).
  assert (t = str_of_int z) as -> by by eapply number_value_text.
  destruct (number_value_int f z Hf Hn) as [->|[-> [b ->]]]; [|by vm_compute]. rewrite Et. cbn [mbind res_bind].
  by rewrite decide_True.
Qed.

(** The items of a dict in canonical order. *)
Lemma omap_keys_perm (d : list (pyval * pyval)) (keys ks : list pystr) : NoDup keys → d.*1 = PStr <$> keys → ks ≡ₚ keys →
  omap (λ k, (λ x, (PStr k, x)) <$> dict_find k d) ks ≡ₚ d.
Proof.
  intros Hn Hd Hp. rewrite Hp. clear Hp ks. revert d Hd. induction Hn as [|k keys Hk Hn IH]; intros [|[k' x] d] Hd; try done. injection Hd as -> Hd.
  cbn [omap list_omap dict_find]. rewrite (proj2 (py_eq_str_true (PStr k) k)) by done. cbn [fmap option_fmap option_map].
  apply Permutation_cons; [done|]. etrans; [|by apply IH]. clear -Hk. induction keys as [|j keys IHk]; [done|].
  apply not_elem_of_cons in Hk as [Hj Hk]. cbn [omap list_omap dict_find].
  destruct (py_eq_str (PStr k) j) eqn:E; [apply py_eq_str_true in E as [= ->]; done|]. destruct (_ <$> _); by rewrite IHk.
Qed.

Lemma jcs_value_dict (pairs : list (pystr * pyval)) : NoDup pairs.*1 →
  let kv := (λ p, (PStr p.1, p.2)) <$> pairs in let kv1 := (λ p, (p.1, jcs_value p.2)) <$> kv in
  jcs_value (PDict kv) = PDict kv ∧ (∃ e, sort_keys pairs.*1 = Raise e) ∨ ∃ kv', jcs_value (PDict kv) = PDict kv' ∧ kv1 ≡ₚ kv'.
Proof.
  intros Hn kv kv1. cbn [jcs_value]. unfold kv. rewrite str_keys_pairs. cbn [mbind res_bind].
  destruct (sort_keys pairs.*1) as [ks|e] eqn:Es; [right|left; split; [done|by exists e]]. eexists. split; [reflexivity|].
  symmetry. apply (omap_keys_perm _ pairs.*1); [done| |by apply sort_keys_members].
  unfold kv1, kv. rewrite <- !list_fmap_compose. done.
Qed.

Lemma value_denotes v : plain v → denotes v (jcs_value v).
Proof.
  induction v as [|b|z|f|s|b|i c r|l IH|l IH|kv IH|o] using pyval_deep_ind; intros Hp;
    inversion Hp as [|?|?|? Hf|? Hs|? Hl|? Hl|pairs Hnd Hk Hv]; subst; clear Hp; try apply den_same.
  - by apply number_denotes.
  - eapply den_seq; [by left|]. clear -IH Hl. induction Hl; [constructor|]. apply Forall_cons in IH as [? ?]. constructor; auto.
  - eapply den_seq; [by right|]. clear -IH Hl. induction Hl; [constructor|]. apply Forall_cons in IH as [? ?]. constructor; auto.
  - destruct (jcs_value_dict pairs Hnd) as [[-> _]|(kv' & -> & Hp)]; [apply den_same|]. eapply den_dict; [|exact Hp].
    rewrite Forall_fmap in IH. clear -IH Hv. induction Hv; [constructor|]. apply Forall_cons in IH as [? ?]. constructor; auto.
Qed.

Lemma mapM_written l : Forall (λ v, plain v → _jcs_write (jcs_value v) = _jcs_write v) l → Forall plain l →
  mapM _jcs_write (jcs_value <$> l) = mapM _jcs_write l.
Proof.
  intros IH Hl. induction Hl as [|v l Hv _ IHl]; [done|]. apply Forall_cons in IH as [H1 H2].
  cbn [fmap list_fmap mapM]. by rewrite H1, IHl.
Qed.

Lemma value_written v : plain v → _jcs_write (jcs_value v) = _jcs_write v.
Proof.
  induction v as [|b|z|f|s|b|i c r|l IH|l IH|kv IH|o] using pyval_deep_ind; intros Hp;
    inversion Hp as [|?|?|? Hf|? Hs|? Hl|? Hl|pairs Hnd Hk Hv]; subst; clear Hp; try done.
  - by apply number_written.
  - cbn [jcs_value]. rewrite !jcs_write_list. by rewrite mapM_written.
  - cbn [jcs_value]. rewrite jcs_write_tuple, !jcs_write_list. by rewrite mapM_written.
  - destruct (jcs_value_dict pairs Hnd) as [[-> _]|(kv' & -> & Hp)]; [done|].
    assert (Hk1 : ((λ p, (p.1, jcs_value p.2)) <$> ((λ p, (PStr p.1, p.2)) <$> pairs)).*1 = PStr <$> pairs.*1)
      by by rewrite <- !list_fmap_compose.
    assert (Hn1 : NoDup (PStr <$> pairs.*1)) by (apply NoDup_fmap_2; [by intros ? ? [= ->]|done]).
    rewrite <- (jcs_write_perm ((λ p, (p.1, jcs_value p.2)) <$> ((λ p, (PStr p.1, p.2)) <$> pairs)) kv'); [|by rewrite Hk1|exact Hp].
    rewrite !jcs_write_dict.
    assert (Ek : mapM (λ p, str_key p.1) ((λ p, (p.1, jcs_value p.2)) <$> ((λ p, (PStr p.1, p.2)) <$> pairs)) = Ok pairs.*1).
    { pose proof (str_keys_pairs ((λ p, (p.1, jcs_value p.2)) <$> pairs)) as Hs. rewrite <- !list_fmap_compose in *. exact Hs. }
    rewrite Ek, str_keys_pairs.
    assert (E : ((λ p, (p.1, _jcs_write p.2)) <$> ((λ p, (p.1, jcs_value p.2)) <$> ((λ p, (PStr p.1, p.2)) <$> pairs))) =
      (λ p, (p.1, _jcs_write p.2)) <$> ((λ p, (PStr p.1, p.2)) <$> pairs)); [|by rewrite E].
    rewrite Forall_fmap in IH. rewrite <- !list_fmap_compose. clear -IH Hv. induction Hv as [|p pairs Hp _ IHp]; [done|].
    apply Forall_cons in IH as [H1 H2]. rewrite !fmap_cons, IHp by done. cbn. by rewrite H1.
Qed.

(** C33. Canonical text is JSON for the value it was made from: [json.loads] of what [jcs_canonicalize] emits,
    duplicate keys refused, returns the input - tuples as lists, dicts in canonical order, an integer and a
    float with a point or an exponent as themselves, and a float written without either as the integer of that
    text, which has that float as its double and up to [2 ^ 53] is the same number (beyond, ES6 writes the shortest digits that
    round to the float: [2.0 ** 60] reads back as [1152921504606847000]) - and what it returns canonicalizes to the
    same bytes. *)
Theorem jcs_roundtrip v b :
  plain v → jcs_canonicalize v = Ok b →
  (s ← utf8_decode b; json_loads_str _no_duplicate_keys s) = Ok (jcs_value v) ∧
  denotes v (jcs_value v) ∧ jcs_canonicalize (jcs_value v) = Ok b.
Proof.
  intros Hp Hc. split; [|split; [by apply value_denotes|unfold jcs_canonicalize; by rewrite value_written]].
  apply bind_Ok in Hc as (t & Ht & Hb). rewrite (utf8_decode_encode _ _ Hb). cbn [mbind res_bind].
  by apply reads_loads, write_reads.
Qed.

(** A tool-input digest commits to the input: two inputs with the same
    [tool_input_digest] read back as the same JSON value (the same up to the order of dict items, list/tuple,
    and an integral float for the integer it is written as), or their canonical forms are a SHA-256 collision. *)
Theorem tool_input_digest_binding v w b c :
  plain v → plain w → jcs_canonicalize v = Ok b → jcs_canonicalize w = Ok c →
  tool_input_digest b = tool_input_digest c →
  jcs_value v = jcs_value w ∨ sha256_collision b c.
Proof.
  intros Hv Hw Hb Hc Hd. unfold tool_input_digest in Hd. apply app_inv_head, sha256_hex_inj in Hd.
  apply sha256_eq_or_collision in Hd as [<-|]; [left|by right].
  apply bind_Ok in Hb as (t & Ht & Hb), Hc as (u & Hu & Hc).
  assert (t = u) as <- by by eapply utf8_encode_inj.
  destruct (write_reads v Hv t Ht) as [_ Hrv]. destruct (write_reads w Hw t Hu) as [_ Hrw].
  specialize (Hrv (2 * length t + 1)%nat []). specialize (Hrw (2 * length t + 1)%nat []).
  rewrite Hrv in Hrw by done. by injection (Hrw (le_n _) I).
Qed.

(** ** Witnesses *)

Definition sample_input (amount : Z) : pyval :=
  PDict ((λ p, (PStr p.1, p.2)) <$>
    [(lit "to", PStr (lit "acct-9")); (lit "amount", PInt amount); (lit "tags", PTuple [PBool true; PNone]);
     (lit "rate", PFloat (float_of_decimal false 25 (-3))); (lit "cap", PFloat (f64_round_int (2 ^ 60)))]).

Lemma sample_input_plain amount : plain (sample_input amount).
Proof.
  apply plain_dict.
  - simpl. apply (bool_decide_unpack _). vm_compute. exact I.
  - repeat constructor; vm_compute; discriminate.
  - repeat constructor; vm_compute; (discriminate || reflexivity).
Qed.

Example sample_input_text : jcs_text (sample_input 100) =
  Ok (quoted "{'amount':100,'cap':1152921504606847000,'rate':0.025,'tags':[true,null],'to':'acct-9'}").
Proof. vm_compute. reflexivity. Qed.

(** Beyond [2 ^ 53] a float may read back as another number with the same double. *)
Example large_float_reads : jcs_value (PFloat (f64_round_int (2 ^ 60))) = PInt 1152921504606847000 ∧ 1152921504606847000 ≠ 2 ^ 60.
Proof. split; [vm_compute; reflexivity|done]. Qed.

Lemma jcs_roundtrip_witness :
  ∃ b, jcs_canonicalize (sample_input 100) = Ok b ∧
    (s ← utf8_decode b; json_loads_str _no_duplicate_keys s) = Ok (jcs_value (sample_input 100)) ∧
    denotes (sample_input 100) (jcs_value (sample_input 100)) ∧ jcs_canonicalize (jcs_value (sample_input 100)) = Ok b.
Proof.
  destruct (jcs_canonicalize (sample_input 100)) as [b|e] eqn:E; [|vm_compute in E; discriminate E].
  exists b. split; [done|]. apply (jcs_roundtrip _ _ (sample_input_plain 100) E).
Defined.

Lemma tool_input_digest_binding_witness :
  ∃ b, jcs_canonicalize (sample_input 100) = Ok b ∧
    (jcs_value (sample_input 100) = jcs_value (sample_input 100) ∨ sha256_collision b b).
Proof.
  destruct (jcs_canonicalize (sample_input 100)) as [b|e] eqn:E; [|vm_compute in E; discriminate E].
  exists b. split; [done|].
  apply (tool_input_digest_binding _ _ _ _ (sample_input_plain 100) (sample_input_plain 100) E E eq_refl).
Defined.
