(* ===== verification/Commitment.v ===== *)
(** * Commitment: the commitment digest and the TCT that attests it

    [crypto.py]: [explanation_digest], [_commitment_explanation_digest], [_seam_commitment_digest] and
    [verify_tct]. A commitment is a Python [dict]; the checks and encodings run in the code's order, so
    the exception that escapes is the one the code raises first. *)

From stdpp Require Import base list numbers option strings sets.
From Stdlib Require Import SpecFloat.
From S2P Require Import Prelude Text Sha256 Base64 Keys Framing Floats Json Jcs RecordDigest.

(** ** Python operations on mappings *)

(** [v[k]] *)
Definition py_item (v : pyval) (k : pystr) : res pyval :=
  match v with
  | PDict d => match dict_find k d with Some x => Ok x | None => Raise KeyError end
  | _ => Raise TypeError
  end.
(** [v.get(k)] *)
Definition py_get (v : pyval) (k : pystr) : res pyval :=
  match v with
  | PDict d => Ok (default PNone (dict_find k d))
  | _ => Raise AttributeError
  end.
(** [v.encode()] *)
Definition py_encode (v : pyval) : res bytes :=
  match v with PStr s => utf8_encode s | _ => Raise AttributeError end.
(** [bool(v)] *)
Definition py_truthy (v : pyval) : bool :=
  match v with
  | PNone | PBool false | PStr [] | PBytes [] | PBuf _ _ [] | PList [] | PTuple [] | PDict [] => false
  | PInt z => negb (z =? 0)
  | PFloat (S754_zero _) => false
  | _ => true
  end.

(** [bytes(v)] of something that is not a [str]: a buffer, a count of zero bytes, or an iterable of
    integers in [0, 256). *)
Definition py_bytes (v : pyval) : res bytes :=
  let of_ints (l : list pyval) : res bytes :=
    mapM (λ x, match x with
               | PInt z => if (0 <=? z) && (z <? 256) then Ok z else Raise ValueError
               | PBool b => Ok (if b then 1 else 0)
               | _ => Raise TypeError
               end) l in
  match v with
  | PBytes b => Ok b
  | PBuf _ _ raw => Ok raw
  | PInt z => if z <? 0 then Raise ValueError else Ok (repeat 0 (Z.to_nat z))
  | PBool b => Ok (if b then [0] else [])
  | PList l | PTuple l => of_ints l
  | PDict kv => of_ints kv.*1
  | _ => Raise TypeError
  end.

(** ** The explanation digest *)

Definition EXPLANATION_KINDS : list pystr := [lit "vote"; lit "evaluation"; lit "objection"; lit "ballot"].
Definition explanation_domain : bytes := lit "seam-explanation-digest:v1".

(** A confidence as the code accepts it: a number (not a [bool]), finite, in [0, 1], without a sign. *)
Definition canonical_confidence (conf : pyval) : res spec_float :=
  f ← match conf with
      | PInt z => float_of_int z
      | PFloat f => Ok f
      | _ => Raise ValueError
      end;
  if negb (is_finite f) || negb (SFleb (S754_zero false) f && SFleb f (f64_round_int 1)) || sign_bit f
  then Raise ValueError else Ok f.

Definition confidence_bytes (conf : pyval) : res bytes :=
  if is_none conf then Ok [0] else f ← canonical_confidence conf; Ok (1 :: pack_d f).

Definition text_field (e : pyval) (k : pystr) : res bytes :=
  v ← py_item e k; b ← py_encode v; _be64_frame b.
Definition optional_text (v : pyval) : res bytes :=
  if is_none v then Ok [0] else b ← py_encode v; f ← _be64_frame b; Ok (1 :: f).

Definition entry_bytes (e : pyval) : res bytes :=
  kind ← py_item e (lit "kind");
  _ ← guard_raise (existsb (py_eq_str kind) EXPLANATION_KINDS) ValueError;
  b0 ← py_encode kind;
  f0 ← _be64_frame b0;
  f1 ← text_field e (lit "participant");
  f2 ← text_field e (lit "proposal_id");
  f3 ← text_field e (lit "value");
  f4 ← text_field e (lit "reason");
  conf ← py_get e (lit "confidence");
  f5 ← confidence_bytes conf;
  ref ← py_get e (lit "rationale_ref");
  f6 ← optional_text ref;
  Ok (bjoin [f0; f1; f2; f3; f4; f5; f6]).

Definition explanation_preimage (entries : list pyval) : res bytes :=
  f0 ← _be64_frame explanation_domain;
  n ← to_bytes_be64 (zlen entries);
  fs ← mapM entry_bytes entries;
  Ok (f0 ++ n ++ bjoin fs).

Definition explanation_digest (entries : pyval) : res bytes :=
  l ← py_iter entries; pre ← explanation_preimage l; Ok (sha256 pre).

(** ** The commitment digest *)

Definition published_digest (v : pyval) : res (option bytes) :=
  match v with
  | PStr s => Some <$> bytes_fromhex s
  | PNone => Ok None
  | _ => Some <$> py_bytes v
  end.

Definition _commitment_explanation_digest (commitment : pyval) : res bytes :=
  p ← py_get commitment (lit "explanation_digest");
  published ← published_digest p;
  entries ← py_get commitment (lit "explanation");
  if is_none entries then
    match published with Some p => Ok p | None => explanation_digest (PList []) end
  else
    computed ← explanation_digest entries;
    match published with
    | Some p => if decide (p = computed) then Ok computed else Raise ValueError
    | None => Ok computed
    end.

Definition commitment_domain : bytes := lit "seam-commitment-digest:v3".

Definition commitment_preimage (commitment : pyval) : res bytes :=
  supersedes ← py_get commitment (lit "supersedes");
  f0 ← _be64_frame commitment_domain;
  f1 ← text_field commitment (lit "id");
  f2 ← text_field commitment (lit "action");
  f3 ← text_field commitment (lit "authority");
  f4 ← optional_text supersedes;
  f5 ← text_field commitment (lit "auth_method");
  f6 ← text_field commitment (lit "trust_basis");
  committer ← py_get commitment (lit "committer");
  b7 ← py_encode (if py_truthy committer then committer else PStr []);
  f7 ← _be64_frame b7;
  b8 ← _commitment_explanation_digest commitment;
  f8 ← _be64_frame b8;
  Ok (bjoin [f0; f1; f2; f3; f4; f5; f6; f7; f8]).

Definition _seam_commitment_digest (commitment : pyval) : res pystr := sha256_hex <$> commitment_preimage commitment.

(** ** Verifying a TCT *)

Definition COMMITMENT_EXT_KEY : pystr := lit "com.zer07labs.seam".
Definition ATTESTATION_GRANT : pystr := lit "aitp.attestation".

(** [s.split(".")] *)
Fixpoint split_dot (s : pystr) : list pystr :=
  match s with
  | [] => [[]]
  | c :: r =>
    if c =? 46 then [] :: split_dot r
    else match split_dot r with h :: t => (c :: h) :: t | [] => [[c]] end
  end.

(** [-(2**63) <= exp < 2**63] and [int(exp)] of a JSON number. *)
Definition exp_in_int64 (exp : pyval) : bool :=
  match exp with
  | PInt z => (- 2 ^ 63 <=? z) && (z <? 2 ^ 63)
  | PFloat f => SFleb (f64_round_int (- 2 ^ 63)) f && SFltb f (f64_round_int (2 ^ 63))
  | _ => false
  end.
Definition exp_seconds (exp : pyval) : res Z :=
  match exp with PInt z => Ok z | PFloat f => int_of_float f | _ => Raise TypeError end.
Definition is_number (v : pyval) : bool := match v with PInt _ | PFloat _ => true | _ => false end.

(** [grants == [ATTESTATION_GRANT]] *)
Definition only_grant (grants : pyval) : bool :=
  match grants with PList [g] => py_eq_str g ATTESTATION_GRANT | _ => false end.

(** [list(ext) == [COMMITMENT_EXT_KEY]] and [set(stmt) == {"type", "commitment_digest"}]: the JSON reader
    returns dicts with distinct keys. *)
Definition only_key (d : list (pyval * pyval)) (k : pystr) : bool :=
  match d with [(k', _)] => py_eq_str k' k | _ => false end.
Definition keys_are (d : list (pyval * pyval)) (ks : list pystr) : bool :=
  forallb (λ p, existsb (py_eq_str p.1) ks) d &&
  forallb (λ k, existsb (λ p, py_eq_str p.1 k) d) ks.

Section tct.
Context `{Ed25519}.

(** The body of the [try]; [False] answers and escapes alike end in [False]. *)
Definition verify_tct_body (issuer_aid tct_jws : pystr) (commitment : pyval) (now : Z) : res bool :=
  match split_dot tct_jws with
  | [header_b64; payload_b64; sig_b64] =>
    k ← _aid_to_pubkey issuer_aid;
    key ← public_from_bytes k;
    sig ← _b64url_decode sig_b64;
    msg ← ascii_encode (header_b64 ++ lit "." ++ payload_b64);
    _ ← key_verify key sig msg;
    hb ← _b64url_decode header_b64;
    header ← json_loads _no_duplicate_keys hb;
    pb ← _b64url_decode payload_b64;
    payload ← json_loads _no_duplicate_keys pb;
    alg ← py_get header (lit "alg");
    typ ← py_get header (lit "typ");
    if negb (py_eq_str alg (lit "EdDSA")) || negb (py_eq_str typ (lit "aitp-tct+jwt")) then Ok false else
    iss ← py_get payload (lit "iss");
    sub ← py_get payload (lit "sub");
    aud ← py_get payload (lit "aud");
    if negb (py_eq_str iss issuer_aid && py_eq_str sub issuer_aid && py_eq_str aud issuer_aid)
    then Ok false else
    exp ← py_get payload (lit "exp");
    if negb (is_number exp) then Ok false else
    if negb (exp_in_int64 exp) then Ok false else
    e ← exp_seconds exp;
    if e <=? now then Ok false else
    grants ← py_get payload (lit "grants");
    if negb (only_grant grants) then Ok false else
    ext ← py_get payload (lit "ext");
    match ext with
    | PDict d =>
      if negb (only_key d COMMITMENT_EXT_KEY) then Ok false else
      stmt ← py_item ext COMMITMENT_EXT_KEY;
      match stmt with
      | PDict sd =>
        if negb (keys_are sd [lit "type"; lit "commitment_digest"]) then Ok false else
        ty ← py_item stmt (lit "type");
        if negb (py_eq_str ty (lit "seam:commitment")) then Ok false else
        cd ← py_item stmt (lit "commitment_digest");
        digest ← _seam_commitment_digest commitment;
        Ok (py_eq_str cd digest)
      | _ => Ok false
      end
    | _ => Ok false
    end
  | _ => Ok false
  end.

Definition verify_tct (issuer_aid tct_jws : pystr) (commitment : pyval) (now : Z) : bool :=
  match verify_tct_body issuer_aid tct_jws commitment now with Ok b => b | Raise _ => false end.
End tct.

(** ** What the digests say

    [expl_entry] and [commitment_slots] are the content the digests are meant to bind, read off the
    Python objects; [enc_entry] and [enc_commitment] their encodings. *)

Record expl_entry := {
  x_kind : pystr; x_participant : pystr; x_proposal_id : pystr; x_value : pystr; x_reason : pystr;
  x_confidence : option Z;    (** the bit pattern of the double *)
  x_rationale_ref : option pystr;
}.

Record commitment_slots := {
  c_id : pystr; c_action : pystr; c_authority : pystr; c_supersedes : option pystr;
  c_auth_method : pystr; c_trust_basis : pystr; c_committer : pystr; c_explanation_digest : bytes;
}.

Definition text_at (v : pyval) (k : pystr) : option pystr :=
  match py_item v k with Ok (PStr s) => Some s | _ => None end.
(** [None] (or missing) is absent; a [str] is present. *)
Definition optional_at (v : pyval) (k : pystr) : option (option pystr) :=
  match py_get v k with Ok PNone => Some None | Ok (PStr s) => Some (Some s) | _ => None end.
Definition confidence_at (v : pyval) : option (option Z) :=
  match py_get v (lit "confidence") with
  | Ok PNone => Some None
  | Ok c => match canonical_confidence c with
            | Ok f => Some (Some (float_bits f mod 2 ^ 64))
            | Raise _ => None
            end
  | Raise _ => None
  end.

Definition entry_view (e : pyval) : option expl_entry :=
  k ← text_at e (lit "kind"); p ← text_at e (lit "participant"); i ← text_at e (lit "proposal_id");
  v ← text_at e (lit "value"); r ← text_at e (lit "reason"); c ← confidence_at e;
  f ← optional_at e (lit "rationale_ref");
  Some {| x_kind := k; x_participant := p; x_proposal_id := i; x_value := v; x_reason := r;
          x_confidence := c; x_rationale_ref := f |}.

Definition committer_at (v : pyval) : option pystr :=
  match py_get v (lit "committer") with
  | Ok (PStr s) => Some s
  | Ok c => if py_truthy c then None else Some []
  | Raise _ => None
  end.

Definition commitment_slots_of (c : pyval) : option commitment_slots :=
  i ← text_at c (lit "id"); a ← text_at c (lit "action"); u ← text_at c (lit "authority");
  s ← optional_at c (lit "supersedes"); m ← text_at c (lit "auth_method");
  t ← text_at c (lit "trust_basis"); w ← committer_at c;
  match _commitment_explanation_digest c with
  | Ok d => Some {| c_id := i; c_action := a; c_authority := u; c_supersedes := s; c_auth_method := m;
                    c_trust_basis := t; c_committer := w; c_explanation_digest := d |}
  | Raise _ => None
  end.

Definition enc_entry (x : expl_entry) : res bytes :=
  f0 ← be64_frame_text (x_kind x);
  f1 ← be64_frame_text (x_participant x);
  f2 ← be64_frame_text (x_proposal_id x);
  f3 ← be64_frame_text (x_value x);
  f4 ← be64_frame_text (x_reason x);
  f5 ← opt_enc to_bytes_be64 (x_confidence x);
  f6 ← opt_enc be64_frame_text (x_rationale_ref x);
  Ok (bjoin [f0; f1; f2; f3; f4; f5; f6]).

Definition enc_commitment (s : commitment_slots) : res bytes :=
  f0 ← _be64_frame commitment_domain;
  f1 ← be64_frame_text (c_id s);
  f2 ← be64_frame_text (c_action s);
  f3 ← be64_frame_text (c_authority s);
  f4 ← opt_enc be64_frame_text (c_supersedes s);
  f5 ← be64_frame_text (c_auth_method s);
  f6 ← be64_frame_text (c_trust_basis s);
  f7 ← be64_frame_text (c_committer s);
  f8 ← _be64_frame (c_explanation_digest s);
  Ok (bjoin [f0; f1; f2; f3; f4; f5; f6; f7; f8]).

Global Instance enc_entry_prefix_free : PrefixFree enc_entry.
Proof.
  intros a b ea eb x y. unfold enc_entry. intros H1 H2 Heq. open_binds. simpl in Heq.
  rewrite ?app_nil_r in Heq. rewrite <-?(assoc_L (++)) in Heq. do 7 peel. split; [|done].
  destruct a, b; simpl in *; subst. done.
Qed.

Lemma enc_commitment_inj s t p : enc_commitment s = Ok p → enc_commitment t = Ok p → s = t.
Proof.
  unfold enc_commitment. intros H1 H2. open_binds.
  match goal with H : bjoin _ = bjoin _ |- _ => rename H into Heq end. simpl in Heq.
  do 9 peel. destruct s, t; simpl in *; subst. done.
Qed.

(** ** The code encodes what it says *)

Lemma text_field_Ok v k f :
  text_field v k = Ok f → ∃ s, text_at v k = Some s ∧ be64_frame_text s = Ok f.
Proof.
  unfold text_field, text_at, be64_frame_text. intros (x & -> & (b & Hb & Hf)%bind_Ok)%bind_Ok.
  destruct x; try done. eexists. split; [done|]. simpl in Hb. by rewrite Hb.
Qed.

Lemma be64_frame_text_Ok s b f : utf8_encode s = Ok b → _be64_frame b = Ok f → be64_frame_text s = Ok f.
Proof. unfold be64_frame_text. by intros ->. Qed.

(** Evaluate a chain of encodings whose results are known. *)
Ltac run_binds :=
  repeat match goal with H : _ = Ok _ |- context [_ ≫= _] => rewrite H; cbn [mbind res_bind]; clear H end.

Lemma optional_text_Ok v k x f :
  py_get v k = Ok x → optional_text x = Ok f →
  ∃ o, optional_at v k = Some o ∧ opt_enc be64_frame_text o = Ok f.
Proof.
  unfold optional_text, optional_at. intros ->. destruct (is_none x) eqn:E.
  - destruct x; try done. intros <-%Ok_inj. by exists None.
  - intros (b & Hb & (g & Hg & <-%Ok_inj)%bind_Ok)%bind_Ok. destruct x; try done.
    exists (Some s). split; [done|]. simpl in *. unfold be64_frame_text. rewrite Hb. simpl. by rewrite Hg.
Qed.

Lemma confidence_bytes_Ok v c f :
  py_get v (lit "confidence") = Ok c → confidence_bytes c = Ok f →
  ∃ o, confidence_at v = Some o ∧ opt_enc to_bytes_be64 o = Ok f.
Proof.
  unfold confidence_bytes, confidence_at. intros ->. destruct (is_none c) eqn:E.
  - destruct c; try done. intros <-%Ok_inj. by exists None.
  - intros (x & Hx & <-%Ok_inj)%bind_Ok. exists (Some (float_bits x mod 2 ^ 64)). split.
    + rewrite Hx. by destruct c.
    + unfold opt_enc, pack_d.
      by rewrite (proj2 (to_bytes_be64_Ok _ _) (conj (Z.mod_pos_bound (float_bits x) (2 ^ 64) eq_refl) eq_refl)).
Qed.

Lemma entry_bytes_view e b : entry_bytes e = Ok b → ∃ x, entry_view e = Some x ∧ enc_entry x = Ok b.
Proof.
  unfold entry_bytes, entry_view. intros H. open_binds.
  repeat match goal with H : text_field _ _ = Ok _ |- _ => apply text_field_Ok in H as (? & -> & ?) end.
  match goal with Hg : py_get _ (lit "confidence") = Ok ?c, Hc : confidence_bytes ?c = Ok _ |- _ =>
    destruct (confidence_bytes_Ok _ _ _ Hg Hc) as (cf & -> & ?) end.
  match goal with Hg : py_get _ (lit "rationale_ref") = Ok ?c, Hc : optional_text ?c = Ok _ |- _ =>
    destruct (optional_text_Ok _ _ _ _ Hg Hc) as (rf & -> & ?) end.
  match goal with Hk : py_item _ (lit "kind") = Ok ?k, Hb : py_encode ?k = Ok _ |- _ =>
    unfold text_at; rewrite Hk; destruct k; try discriminate Hb; cbn [py_encode] in Hb end.
  cbn [mbind option_bind]. eexists. split; [reflexivity|]. unfold enc_entry.
  cbn [x_kind x_participant x_proposal_id x_value x_reason x_confidence x_rationale_ref].
  match goal with Hb : utf8_encode _ = Ok ?b, Hf : _be64_frame ?b = Ok _ |- _ =>
    pose proof (be64_frame_text_Ok _ _ _ Hb Hf) end.
  by run_binds.
Qed.

Lemma entries_view l bs :
  mapM entry_bytes l = Ok bs → ∃ xs, mapM entry_view l = Some xs ∧ mapM enc_entry xs = Ok bs.
Proof.
  revert bs. induction l as [|e l IH]; intros bs H; [apply Ok_inj in H as <-; by exists []|].
  apply mapM_res_cons in H as (b & bs' & (x & Hx & Hb)%entry_bytes_view & (xs & Hxs & Hbs)%IH & ->).
  exists (x :: xs). split; [simpl; by rewrite Hx; simpl; rewrite Hxs|]. apply mapM_res_cons. eauto.
Qed.

Lemma commitment_preimage_view c p :
  commitment_preimage c = Ok p → ∃ s, commitment_slots_of c = Some s ∧ enc_commitment s = Ok p.
Proof.
  unfold commitment_preimage, commitment_slots_of. intros H. open_binds.
  repeat match goal with H : text_field _ _ = Ok _ |- _ => apply text_field_Ok in H as (? & -> & ?) end.
  match goal with Hg : py_get _ (lit "supersedes") = Ok ?c, Hc : optional_text ?c = Ok _ |- _ =>
    destruct (optional_text_Ok _ _ _ _ Hg Hc) as (rf & -> & ?) end.
  match goal with Hk : py_get _ (lit "committer") = Ok ?k, Hb : py_encode _ = Ok ?b |- _ =>
    assert (∃ s, committer_at c = Some s ∧ utf8_encode s = Ok b) as (cm & -> & ?) end.
  { match goal with Hk : py_get _ (lit "committer") = Ok ?k |- _ =>
      unfold committer_at; rewrite Hk; destruct k; simpl in *; repeat case_match; try done; eauto end. }
  match goal with H : _commitment_explanation_digest _ = Ok _ |- _ => rewrite H end.
  cbn [mbind option_bind]. eexists. split; [reflexivity|]. unfold enc_commitment.
  cbn [c_id c_action c_authority c_supersedes c_auth_method c_trust_basis c_committer c_explanation_digest].
  match goal with Hb : utf8_encode _ = Ok ?b, Hf : _be64_frame ?b = Ok _ |- _ =>
    pose proof (be64_frame_text_Ok _ _ _ Hb Hf) end.
  by run_binds.
Qed.

(** ** Properties of the digests *)

(** An explanation digest commits to the entries: two explanations with the same digest have the same
    entries in the same order, an absent confidence being different from a stated [0.0] and an absent
    rationale from an empty one, or their preimages are a SHA-256 collision. *)
Lemma explanation_digest_binding e1 e2 d :
  explanation_digest e1 = Ok d → explanation_digest e2 = Ok d →
  ∃ l1 l2 x1 x2, py_iter e1 = Ok l1 ∧ py_iter e2 = Ok l2 ∧
    mapM entry_view l1 = Some x1 ∧ mapM entry_view l2 = Some x2 ∧
    (x1 = x2 ∨ ∃ p q, explanation_preimage l1 = Ok p ∧ explanation_preimage l2 = Ok q ∧ sha256_collision p q).
Proof.
  unfold explanation_digest. intros (l1 & H1 & (p & Hp & <-%Ok_inj)%bind_Ok)%bind_Ok.
  intros (l2 & H2 & (q & Hq & Heq%Ok_inj)%bind_Ok)%bind_Ok. symmetry in Heq.
  pose proof Hp as Hp'. pose proof Hq as Hq'. unfold explanation_preimage in Hp', Hq'. open_binds.
  repeat match goal with H : mapM entry_bytes _ = Ok _ |- _ => pose proof (mapM_res_length _ _ _ H);
    apply entries_view in H as (? & ? & ?) end.
  do 4 eexists. split_and!; [done|done|done|done|].
  apply sha256_eq_or_collision in Heq as [Heq|]; [left|right; by eauto].
  repeat match goal with H : mapM enc_entry _ = Ok _ |- _ => pose proof (mapM_res_length _ _ _ H); revert H end.
  intros. do 2 peel. by peel_end.
Qed.

(** A commitment digest commits to the commitment: two commitments with the same
    [seam-commitment-digest:v3] agree on id, action, authority, supersedes (absent and empty kept
    apart), auth method, trust basis, committer and explanation digest, or their preimages are a SHA-256
    collision. *)
Lemma commitment_digest_binding c c' h :
  _seam_commitment_digest c = Ok h → _seam_commitment_digest c' = Ok h →
  ∃ s s', commitment_slots_of c = Some s ∧ commitment_slots_of c' = Some s' ∧
    (s = s' ∨ ∃ p q, commitment_preimage c = Ok p ∧ commitment_preimage c' = Ok q ∧ sha256_collision p q).
Proof.
  unfold _seam_commitment_digest. intros (p & Hp & ->)%fmap_Ok (q & Hq & Heq%sha256_hex_inj)%fmap_Ok.
  destruct (commitment_preimage_view c p Hp) as (s & Hs & Es).
  destruct (commitment_preimage_view c' q Hq) as (s' & Hs' & Es').
  exists s, s'. split_and!; [done|done|].
  apply sha256_eq_or_collision in Heq as [->|]; [left|right; by eauto]. by eapply enc_commitment_inj.
Qed.

(** The explanation a commitment binds is the one it carries: whenever the entries are present, field
    8 is the digest recomputed from them, and a published digest that disagrees is refused with
    [ValueError]; without entries the published digest is used as it is, and with neither it is the
    digest of the empty explanation. *)
Theorem explanation_field_checked c p pub entries :
  py_get c (lit "explanation_digest") = Ok p → published_digest p = Ok pub →
  py_get c (lit "explanation") = Ok entries →
  (∀ computed, entries ≠ PNone → explanation_digest entries = Ok computed →
     _commitment_explanation_digest c =
       match pub with
       | Some b => if decide (b = computed) then Ok computed else Raise ValueError
       | None => Ok computed
       end) ∧
  (∀ e, entries ≠ PNone → explanation_digest entries = Raise e → _commitment_explanation_digest c = Raise e) ∧
  (entries = PNone →
     _commitment_explanation_digest c = match pub with Some b => Ok b | None => explanation_digest (PList []) end).
Proof.
  intros Hp Hpub He. unfold _commitment_explanation_digest. rewrite Hp. cbn [mbind res_bind].
  rewrite Hpub. cbn [mbind res_bind]. rewrite He. cbn [mbind res_bind]. split; [|split].
  - intros d Hn Hd. destruct (is_none entries) eqn:E; [by destruct entries|]. by rewrite Hd.
  - intros e Hn Hd. destruct (is_none entries) eqn:E; [by destruct entries|]. by rewrite Hd.
  - by intros ->.
Qed.

(** ** Properties of [verify_tct] *)

Lemma split_dot_ne s : split_dot s ≠ [].
Proof. destruct s; simpl; repeat case_match; done. Qed.

Lemma split_dot_three s h p g :
  split_dot s = [h; p; g] → s = h ++ lit "." ++ p ++ lit "." ++ g ∧ (46 ∉ h) ∧ (46 ∉ p) ∧ (46 ∉ g).
Proof.
  assert (∀ s x, split_dot s = [x] → s = x ∧ (46 ∉ x)) as H1.
  { intros s'. induction s' as [|c s' IH]; intros x; simpl; [intros [= <-]; split; [done|set_solver]|].
    destruct (Z.eqb_spec c 46); [by destruct (split_dot s') eqn:E; [destruct (split_dot_ne s')|]|].
    destruct (split_dot s') as [|y [|]] eqn:E; [by destruct (split_dot_ne s')| |done].
    intros [= <-]. destruct (IH y) as [-> ?]; [done|]. set_solver. }
  assert (∀ s x y, split_dot s = [x; y] → s = x ++ 46 :: y ∧ (46 ∉ x) ∧ (46 ∉ y)) as H2.
  { intros s'. induction s' as [|c s' IH]; intros x y; simpl; [done|].
    destruct (Z.eqb_spec c 46) as [->|].
    - intros [= <- [-> ?]%H1]. set_solver.
    - destruct (split_dot s') as [|u [|v [|]]] eqn:E; [done..| |done].
      intros [= <- <-]. destruct (IH u v) as (-> & ? & ?); [done|]. set_solver. }
  revert h p g. induction s as [|c s IH]; intros h p g; simpl; [done|].
  destruct (Z.eqb_spec c 46) as [->|].
  - intros [= <- (-> & ? & ?)%H2]. set_solver.
  - destruct (split_dot s) as [|u [|v [|w [|]]]] eqn:E; [done..| |done].
    intros [= <- <- <-]. destruct (IH u v w) as (-> & ? & ? & ?); [done|]. set_solver.
Qed.

(** The JWS of a self-attestation: its three parts, the signature by the issuer's key, and the decoded
    header and payload. *)
Definition jws_parts `{Ed25519} (issuer_aid jws : pystr) (header payload : pyval) : Prop :=
  ∃ h p g key sig hb pb,
    split_dot jws = [h; p; g] ∧ _aid_to_pubkey issuer_aid = Ok key ∧ length key = 32%nat ∧
    _b64url_decode g = Ok sig ∧ is_ascii (h ++ lit "." ++ p) = true ∧
    ed_verify key sig (h ++ lit "." ++ p) = true ∧
    _b64url_decode h = Ok hb ∧ json_loads _no_duplicate_keys hb = Ok header ∧
    _b64url_decode p = Ok pb ∧ json_loads _no_duplicate_keys pb = Ok payload.

(** The claims a commitment self-attestation must carry at time [now], and its statement [sd]. *)
Definition tct_claims (issuer_aid : pystr) (now : Z) (header payload : pyval) (sd : list (pyval * pyval)) : Prop :=
  py_get header (lit "alg") = Ok (PStr (lit "EdDSA")) ∧
  py_get header (lit "typ") = Ok (PStr (lit "aitp-tct+jwt")) ∧
  py_get payload (lit "iss") = Ok (PStr issuer_aid) ∧
  py_get payload (lit "sub") = Ok (PStr issuer_aid) ∧
  py_get payload (lit "aud") = Ok (PStr issuer_aid) ∧
  (∃ exp e, py_get payload (lit "exp") = Ok exp ∧ is_number exp = true ∧ exp_in_int64 exp = true ∧
            exp_seconds exp = Ok e ∧ now < e) ∧
  py_get payload (lit "grants") = Ok (PList [PStr ATTESTATION_GRANT]) ∧
  py_get payload (lit "ext") = Ok (PDict [(PStr COMMITMENT_EXT_KEY, PDict sd)]) ∧
  keys_are sd [lit "type"; lit "commitment_digest"] = true ∧
  dict_find (lit "type") sd = Some (PStr (lit "seam:commitment")).

Lemma py_item_find d k x : py_item (PDict d) k = Ok x ↔ dict_find k d = Some x.
Proof. simpl. destruct (dict_find k d); naive_solver. Qed.

Ltac strs := repeat match goal with H : py_eq_str _ _ = true |- _ => apply py_eq_str_true in H; subst end.

Section verify.
Context `{Ed25519}.

Lemma jws_parts_unique aid jws h1 p1 h2 p2 :
  jws_parts aid jws h1 p1 → jws_parts aid jws h2 p2 → h1 = h2 ∧ p1 = p2.
Proof.
  intros (h & p & g & k & sg & hb & pb & Es & Hk & _ & Hg & _ & _ & Hhb & Hh & Hpb & Hp).
  intros (h' & p' & g' & k' & sg' & hb' & pb' & Es' & Hk' & _ & Hg' & _ & _ & Hhb' & Hh' & Hpb' & Hp').
  rewrite Es in Es'. injection Es' as <- <- <-. rewrite Hhb in Hhb'. apply Ok_inj in Hhb' as <-.
  rewrite Hpb in Hpb'. apply Ok_inj in Hpb' as <-. rewrite Hh in Hh'. rewrite Hp in Hp'.
  by apply Ok_inj in Hh', Hp'.
Qed.

Lemma verify_tct_body_sound aid jws c now :
  verify_tct_body aid jws c now = Ok true →
  ∃ header payload sd digest, jws_parts aid jws header payload ∧ tct_claims aid now header payload sd ∧
    dict_find (lit "commitment_digest") sd = Some (PStr digest) ∧ _seam_commitment_digest c = Ok digest.
Proof.
  unfold verify_tct_body. destruct (split_dot jws) as [|h [|p [|g [|]]]] eqn:Es; try done. intros Hv.
  repeat match type of Hv with
  | (_ ≫= _) = Ok _ => apply bind_Ok in Hv as (? & ? & Hv)
  | (if ?b then Ok false else _) = Ok true => destruct b eqn:?; [discriminate Hv|]
  | match ?x with _ => _ end = Ok true => destruct x; try discriminate Hv
  end.
  repeat match goal with
  | H : negb _ = false |- _ => apply negb_false_iff in H
  | H : _ || _ = false |- _ => apply orb_false_iff in H as [? ?]
  | H : _ && _ = true |- _ => apply andb_true_iff in H as [? ?]
  end.
  apply Ok_inj in Hv.
  match goal with H : only_key ?d _ = true |- _ => destruct d as [|[? ?] [|]]; try discriminate H;
    cbn [only_key] in H end.
  match goal with H : only_grant ?g = true |- _ =>
    destruct g as [| | | | | | |[|? [|]]| | |]; try discriminate H; cbn [only_grant] in H end.
  strs.
  repeat match goal with H : py_item (PDict _) _ = Ok _ |- _ => apply py_item_find in H end.
  match goal with H : dict_find COMMITMENT_EXT_KEY [(PStr COMMITMENT_EXT_KEY, _)] = Some _ |- _ =>
    cbn [dict_find] in H; rewrite (proj2 (py_eq_str_true _ _)) in H by done; injection H as -> end.
  match goal with H : (_ <=? _) = false |- _ => apply Z.leb_gt in H end.
  unfold key_verify, public_from_bytes, ascii_encode in *.
  repeat match goal with H : context [if decide ?P then _ else _] |- _ => destruct (decide P); [|done] end.
  repeat match goal with H : (if ?b then Ok _ else Raise _) = Ok _ |- _ => destruct b eqn:?; [|done] end.
  repeat match goal with H : Ok _ = Ok _ |- _ => apply Ok_inj in H; subst end.
  do 4 eexists. split_and!; [| |done|done]; [unfold jws_parts; by eauto 20|].
  unfold tct_claims. split_and!; try done. by eauto 10.
Qed.

Lemma verify_tct_body_complete aid jws c now header payload sd digest :
  jws_parts aid jws header payload → tct_claims aid now header payload sd →
  dict_find (lit "commitment_digest") sd = Some (PStr digest) → _seam_commitment_digest c = Ok digest →
  verify_tct_body aid jws c now = Ok true.
Proof.
  intros (h & p & g & key & sig & hb & pb & Es & Hk & Hl & Hg & Ha & Hv & Hhb & Hh & Hpb & Hp).
  intros (Halg & Htyp & Hiss & Hsub & Haud & (exp & e & Hexp & Hn & Hi & He & Hnow) & Hgr & Hext & Hks & Hty).
  intros Hcd Hd. apply Z.leb_gt in Hnow. unfold verify_tct_body. rewrite Es, Hk. cbn [mbind res_bind].
  unfold public_from_bytes, key_verify, ascii_encode. rewrite decide_True by done. cbn [mbind res_bind].
  rewrite Hg. cbn [mbind res_bind]. rewrite Ha. cbn [mbind res_bind]. rewrite Hv.
  assert (∀ s, py_eq_str (PStr s) s = true) as Hrefl by (intros; by apply py_eq_str_true).
  do 9 (cbn [mbind res_bind];
    first [rewrite Hhb|rewrite Hh|rewrite Hpb|rewrite Hp|rewrite Halg|rewrite Htyp|rewrite Hiss|rewrite Hsub|rewrite Haud]);
    cbn [mbind res_bind]. rewrite !Hrefl. cbn [negb orb andb].
  rewrite Hexp. cbn [mbind res_bind]. rewrite Hn, Hi. cbn [negb]. rewrite He. cbn [mbind res_bind].
  rewrite Hnow, Hgr. cbn [mbind res_bind only_grant]. rewrite Hrefl. cbn [negb].
  rewrite Hext. cbn [mbind res_bind only_key py_item dict_find]. rewrite !Hrefl. cbn [negb mbind res_bind].
  rewrite Hks. cbn [negb py_item]. rewrite Hty. cbn [mbind res_bind]. rewrite Hrefl. cbn [negb].
  rewrite Hcd. cbn [mbind res_bind]. rewrite Hd. cbn [mbind res_bind]. by rewrite Hrefl.
Qed.
End verify.

(** C1. What a verified TCT means, and that it verifies: [verify_tct] answers [True] exactly when the JWS
    has three parts, its signature checks out under the key in the issuer's AID, header and payload are
    JSON, the header says EdDSA and [aitp-tct+jwt], issuer, subject and audience are the pinned AID,
    [exp] is a JSON number within int64 that truncates to a second after [now], the only grant is the
    attestation grant, and [ext] holds exactly one statement, of type [seam:commitment], with this
    commitment's digest. In every other case, malformed input included, the answer is [False]. *)
Theorem verify_tct_iff `{Ed25519} aid jws c now :
  verify_tct aid jws c now = true ↔
  ∃ header payload sd digest,
    jws_parts aid jws header payload ∧ tct_claims aid now header payload sd ∧
    dict_find (lit "commitment_digest") sd = Some (PStr digest) ∧ _seam_commitment_digest c = Ok digest.
Proof.
  unfold verify_tct. split.
  - destruct (verify_tct_body aid jws c now) as [[]|] eqn:E; try done. intros _.
    by apply verify_tct_body_sound.
  - intros (header & payload & sd & digest & Hj & Hc & Hcd & Hd).
    by rewrite (verify_tct_body_complete aid jws c now header payload sd digest).
Qed.

(** One TCT attests one commitment, and no duplicate JSON key is ever accepted: if the same token
    verifies two commitments, under any two clocks, they agree on every bound field or their preimages
    are a SHA-256 collision; and its header and payload have distinct keys at every depth. *)
Lemma verify_tct_binding `{Ed25519} aid jws c c' now now' :
  verify_tct aid jws c now = true → verify_tct aid jws c' now' = true →
  (∃ header payload, jws_parts aid jws header payload ∧ unique_keys header ∧ unique_keys payload) ∧
  ∃ s s', commitment_slots_of c = Some s ∧ commitment_slots_of c' = Some s' ∧
    (s = s' ∨ ∃ p q, commitment_preimage c = Ok p ∧ commitment_preimage c' = Ok q ∧ sha256_collision p q).
Proof.
  unfold verify_tct.
  destruct (verify_tct_body aid jws c now) as [[]|] eqn:E1; try done. intros _.
  destruct (verify_tct_body aid jws c' now') as [[]|] eqn:E2; try done. intros _.
  apply verify_tct_body_sound in E1 as (h1 & p1 & sd1 & d1 & J1 & C1 & D1 & X1).
  apply verify_tct_body_sound in E2 as (h2 & p2 & sd2 & d2 & J2 & C2 & D2 & X2).
  assert (h1 = h2 ∧ p1 = p2) as [-> ->].
  { by apply (jws_parts_unique aid jws). }
  assert (d1 = d2) as ->.
  { destruct C1 as (_ & _ & _ & _ & _ & _ & _ & Hx1 & _), C2 as (_ & _ & _ & _ & _ & _ & _ & Hx2 & _).
    rewrite Hx1 in Hx2. injection Hx2 as ->. congruence. }
  split; [|by apply (commitment_digest_binding c c' d2)].
  exists h2, p2. split; [done|].
  destruct J1 as (? & ? & ? & ? & ? & ? & ? & ? & ? & ? & ? & ? & ? & ? & ? & ? & ?).
  split; by eapply json_loads_unique.
Qed.

(** ** Conformance vectors and witnesses *)

Definition str_items (l : list (string * pyval)) : list (pyval * pyval) :=
  (λ p, (PStr (lit p.1), p.2)) <$> l.

Definition empty_commitment (supersedes : pyval) : pyval := PDict (str_items
  [("id", PStr []); ("action", PStr []); ("authority", PStr []); ("auth_method", PStr []);
   ("trust_basis", PStr []); ("supersedes", supersedes); ("committer", PStr []);
   ("explanation", PList [])]%string).

(** [conformance/commitment_digest_v3_vector.json]: [all_empty], [empty_supersedes], [populated_signed]. *)
Example commitment_vector_empty :
  _seam_commitment_digest (empty_commitment PNone)
  = Ok (lit "9238441205cd395f9507a5152e2c67f93fa83ca8d336d2ce7b8e01a385c3dd2e").
Proof. vm_compute. reflexivity. Qed.
Example commitment_vector_supersedes :
  _seam_commitment_digest (empty_commitment (PStr []))
  = Ok (lit "b7f0e7a2a14e91f0d7dc1a56781a39f7601bce4df979f3b25a58aa9d86d3263c").
Proof. vm_compute. reflexivity. Qed.

Definition loan_explanation : list pyval := [
  PDict [(PStr (lit "kind"), PStr (lit "evaluation")); (PStr (lit "participant"), PStr (lit "risk")); (PStr (lit "proposal_id"), PStr (lit "p1")); (PStr (lit "value"), PStr (lit "APPROVE")); (PStr (lit "reason"), PStr (lit "exposure within limits")); (PStr (lit "confidence"), PNone); (PStr (lit "rationale_ref"), PStr (lit "sha256:5e5e5e5e5e5e5e5e5e5e5e5e5e5e5e5e5e5e5e5e5e5e5e5e5e5e5e5e5e5e5e5e"))];
  PDict [(PStr (lit "kind"), PStr (lit "evaluation")); (PStr (lit "participant"), PStr (lit "fraud")); (PStr (lit "proposal_id"), PStr (lit "p1")); (PStr (lit "value"), PStr (lit "REVIEW")); (PStr (lit "reason"), PStr (lit "")); (PStr (lit "confidence"), PFloat (S754_zero false)); (PStr (lit "rationale_ref"), PNone)];
  PDict [(PStr (lit "kind"), PStr (lit "objection")); (PStr (lit "participant"), PStr (lit "compliance")); (PStr (lit "proposal_id"), PStr (lit "p1")); (PStr (lit "value"), PStr (lit "high")); (PStr (lit "reason"), PStr (lit "KYC refresh overdue")); (PStr (lit "confidence"), PNone); (PStr (lit "rationale_ref"), PNone)];
  PDict [(PStr (lit "kind"), PStr (lit "vote")); (PStr (lit "participant"), PStr (lit "risk")); (PStr (lit "proposal_id"), PStr (lit "p1")); (PStr (lit "value"), PStr (lit "APPROVE")); (PStr (lit "reason"), PStr (lit "re" ++ [769] ++ lit "sume" ++ [769] ++ lit " checked")); (PStr (lit "confidence"), PNone); (PStr (lit "rationale_ref"), PNone)];
  PDict [(PStr (lit "kind"), PStr (lit "vote")); (PStr (lit "participant"), PStr (lit "fraud")); (PStr (lit "proposal_id"), PStr (lit "p1")); (PStr (lit "value"), PStr (lit "REJECT")); (PStr (lit "reason"), PStr (lit "")); (PStr (lit "confidence"), PNone); (PStr (lit "rationale_ref"), PNone)]].

Definition loan_commitment : pyval := PDict (str_items
  [("id", PStr (lit "cmt:loan-42"));
   ("action", PStr (lit "approuve" ++ [769] ++ lit " " ++ [8212] ++ lit " limit raised"));
   ("authority", PStr (lit "macp.mode.decision.v1"));
   ("auth_method", PStr (lit "aitp-pinned-handshake"));
   ("trust_basis", PStr (lit "aid:pubkey:ed25519:3q2-7wAAAAAAAAAAAAAAAAAAAAAAAAAAAAAAAAAAAAA:Trusted"));
   ("supersedes", PStr (lit "s-loan-41/sha256:9f58e9d114d11860d48aa2bcb8cda458b9618b1cc8560595a802b68c4af85d41"));
   ("committer", PStr (lit "aid:pubkey:ed25519:3q2-7wAAAAAAAAAAAAAAAAAAAAAAAAAAAAAAAAAAAAA"));
   ("explanation", PList loan_explanation);
   ("explanation_digest", PStr (lit "27a0f6066dabe4584af03e51680e1e9a19a7cebf2226853528ec569690f84718"))]%string).

Example commitment_vector_loan :
  _seam_commitment_digest loan_commitment
  = Ok (lit "a4b33858a598162d7dcdc48f579c6d31e0f2d68df0a76290ec248bd873d8a367").
Proof. vm_compute. reflexivity. Qed.

(** A token as the runtime issues it, under the toy signature scheme. *)
Definition honest_payload (aid : pystr) (exp : pyval) (digest : pystr) : pyval := PDict (str_items
  [("iss", PStr aid); ("sub", PStr aid); ("aud", PStr aid); ("exp", exp);
   ("grants", PList [PStr ATTESTATION_GRANT]);
   ("ext", PDict [(PStr COMMITMENT_EXT_KEY, PDict (str_items
      [("type", PStr (lit "seam:commitment")); ("commitment_digest", PStr digest)]))])]%string).
Definition honest_header : pyval := PDict (str_items
  [("alg", PStr (lit "EdDSA")); ("typ", PStr (lit "aitp-tct+jwt"))]%string).
Definition honest_jws (seed : bytes) (exp : pyval) (c : pyval) : res pystr :=
  digest ← _seam_commitment_digest c;
  h ← jcs_canonicalize honest_header;
  p ← jcs_canonicalize (honest_payload (aid_from_pubkey (@ed_public toy_ed25519 seed)) exp digest);
  let msg := _b64url_nopad h ++ lit "." ++ _b64url_nopad p in
  Ok (msg ++ lit "." ++ _b64url_nopad (@ed_sign toy_ed25519 seed msg)).

Definition loan_jws : pystr :=
  match honest_jws toy_seed (PInt 1800000000) loan_commitment with Ok s => s | Raise _ => [] end.

(** It verifies until the second it expires, and not for a commitment with one field changed. *)
Example honest_tct :
  (@verify_tct toy_ed25519 toy_aid loan_jws loan_commitment 1799999999,
   @verify_tct toy_ed25519 toy_aid loan_jws loan_commitment 1800000000,
   @verify_tct toy_ed25519 toy_aid loan_jws (empty_commitment PNone) 0) = (true, false, false).
Proof. vm_compute. reflexivity. Qed.


Lemma explanation_field_checked_witness :
  _commitment_explanation_digest (PDict [(PStr (lit "explanation_digest"), PStr (lit "00ff"))]) = Ok [0; 255].
Proof.
  apply (explanation_field_checked _ (PStr (lit "00ff")) (Some [0; 255]) PNone); vm_compute; reflexivity.
Defined.

