(* ===== verification/Jws.v ===== *)
(** * Jws: compact JWS texts that read back

    A compact JWS is three base64url parts joined by dots, of which the first two are JSON objects. The
    signer's [json.dumps] of an object decodes to that object, whichever hook the reader uses, and a
    text of three such parts splits into them. *)

From stdpp Require Import base list numbers option strings sets.
From Stdlib Require Import SpecFloat.
From S2P Require Import Prelude Text Base64 Floats Json JsonRead Dumps Commitment.

Definition printable (c : Z) : bool := (0x20 <=? c) && (c <=? 0x7e).

(** Text of a character class is printable, hence scalar and ASCII. *)
Lemma printable_scalar s : forallb printable s = true → Forall scalar s.
Proof.
  intros Hs. apply Forall_forall. intros c Hc%list_elem_of_In. eapply forallb_forall in Hs; [|done].
  unfold printable in Hs. unfold scalar. apply andb_true_iff in Hs as [?%Z.leb_le ?%Z.leb_le]. lia.
Qed.

Lemma b64url_char_printable c : is_b64url_char c = true → printable c = true.
Proof. unfold is_b64url_char, printable. intros Hc. by cmp. Qed.

Lemma b64url_printable b : Forall is_byte b → forallb printable (_b64url_nopad b) = true.
Proof.
  intros Hb%b64url_nopad_chars. apply forallb_forall. intros c Hc. apply b64url_char_printable.
  by eapply forallb_forall in Hb.
Qed.

Lemma printable_ascii s : forallb printable s = true → is_ascii s = true.
Proof.
  intros Hs. apply forallb_forall. intros c Hc. eapply forallb_forall in Hs; [|done].
  unfold printable in Hs. cmp; done.
Qed.

Lemma ascii_bytes s : is_ascii s = true → Forall is_byte s.
Proof.
  intros Hs. apply Forall_forall. intros c Hc%list_elem_of_In. eapply forallb_forall in Hs; [|done].
  apply andb_true_iff in Hs as [?%Z.leb_le ?%Z.ltb_lt]. unfold is_byte. lia.
Qed.

Lemma dumps_b64url v :
  Forall is_byte (dumps compact 0 v) ∧ is_ascii (_b64url_nopad (dumps compact 0 v)) = true.
Proof.
  assert (Forall is_byte (dumps compact 0 v)) as Hb by by apply ascii_bytes, dumps_ascii.
  split; [done|]. by apply b64url_nopad_ascii.
Qed.

Lemma split_dot_nodot s : 46 ∉ s → split_dot s = [s].
Proof.
  induction s as [|c s IH]; [done|]. rewrite not_elem_of_cons. intros [Hc Hs]. simpl.
  destruct (Z.eqb_spec c 46); [done|]. by rewrite IH.
Qed.

Lemma split_dot_app h s : 46 ∉ h → split_dot (h ++ lit "." ++ s) = h :: split_dot s.
Proof.
  induction h as [|c h IH]; [done|]. rewrite not_elem_of_cons. intros [Hc Hh].
  change ((c :: h) ++ lit "." ++ s) with (c :: (h ++ lit "." ++ s)). cbn [split_dot].
  destruct (Z.eqb_spec c 46); [done|]. by rewrite IH.
Qed.

Lemma b64url_no_dot b : Forall is_byte b → 46 ∉ _b64url_nopad b.
Proof. intros Hb%b64url_nopad_chars Hin%list_elem_of_In. by apply (proj1 (forallb_forall _ _) Hb) in Hin. Qed.

Lemma utf8_decode_sp_ascii s : is_ascii s = true → utf8_decode_sp s = Ok s.
Proof.
  induction s as [|c s IH]; [done|]. rewrite is_ascii_cons. intros [Hc Hs]%andb_true_iff.
  cbn [utf8_decode_sp]. by rewrite Hc, IH.
Qed.

(** An object's text is detected as UTF-8. *)
Lemma json_loads_object hook r :
  is_ascii (123 :: 34 :: r) = true → json_loads hook (123 :: 34 :: r) = json_loads_str hook (123 :: 34 :: r).
Proof.
  intros Ha. unfold json_loads, decode_json_bytes.
  assert (detect_encoding (123 :: 34 :: r) = Utf8) as -> by (by destruct r as [|a [|b r]]).
  by rewrite utf8_decode_sp_ascii.
Qed.

(** A part of a compact JWS decodes to the object it was made from, under either hook. *)
Lemma part_decodes hook `{!DictHook hook} o :
  (∃ k v items, o = JObj ((k, v) :: items)) → dumpable o →
  (_b64url_decode (_b64url_nopad (dumps compact 0 o)) ≫= json_loads hook) = Ok (py_of o).
Proof.
  intros (k & v & items & ->) Hd. set (o := JObj _) in *.
  rewrite b64url_decode_nopad by apply dumps_b64url. cbn [mbind res_bind].
  assert (∃ r, dumps compact 0 o = 123 :: 34 :: r) as [r Hr].
  { unfold o. cbn [dumps]. destruct items; by eexists. }
  rewrite Hr, json_loads_object by (rewrite <-Hr; by apply dumps_ascii). rewrite <-Hr.
  apply reads_loads. by apply (dumps_reads _).
Qed.

(** The literal keys of an object are distinct and plain; one goal per member remains. *)
Ltac dumpable_members :=
  apply dumpable_obj;
  [by apply (bool_decide_eq_true_1 (NoDup _)); vm_compute
  |by apply (Forall_impl (λ s, forallb printable s = true)); [repeat constructor|apply printable_scalar]
  |repeat (apply List.Forall_cons; [cbn [snd]|]); try apply List.Forall_nil].

Lemma text_dumpable s : forallb printable s = true → dumpable (JStr s).
Proof. intros Hs. by apply dumpable_str, printable_scalar. Qed.
