(* ===== verification/TctVectors.v ===== *)
(** * TctVectors: the test vectors for the expiry of a TCT

    [scripts/emit_tct_exp_vectors.py]: the normative rule for the [exp] claim ([_expected]), the commitment
    digest the script derives on its own, the tokens it signs and the cases it writes. The theorem closes
    the circle the script leaves open: [verify_tct], from which it deliberately imports nothing, answers
    every such token exactly as the rule says. The prose of the file ([why], [$comment]) is left out. *)

From stdpp Require Import base list numbers option strings sets.
From Stdlib Require Import SpecFloat.
From S2P Require Import Prelude Text Sha256 Base64 Keys Framing Floats Json JsonRead Dumps RecordDigest Commitment Jws.

(** ** The rule *)

(** [ABSENT] is [None]; a [bool] is no number; infinities and NaN are no instant. *)
Definition _expected (exp : option pyval) (now : Z) : bool :=
  match exp with
  | Some (PInt z) => (- 2 ^ 63 <=? z) && (z <? 2 ^ 63) && negb (z <=? now)
  | Some (PFloat f) =>
    is_finite f && (SFleb (f64_round_int (- 2 ^ 63)) f && SFltb f (f64_round_int (2 ^ 63)))
    && match int_of_float f with Ok t => negb (t <=? now) | Raise _ => false end
  | _ => false
  end.

(** ** The tokens *)

Definition _b64 (b : bytes) : pystr := _b64url_nopad b.

Definition be64_len (b : bytes) : res bytes := n ← to_bytes_be64 (zlen b); Ok (n ++ b).
Definition _EXPLANATION_DOMAIN : bytes := lit "seam-explanation-digest:v1".
Definition _EMPTY_EXPLANATION_DIGEST : bytes :=
  sha256 (be_bytes 8 (zlen _EXPLANATION_DOMAIN) ++ _EXPLANATION_DOMAIN ++ be_bytes 8 0).

Definition vector_preimage (c : pyval) : res bytes :=
  let field k := v ← py_item c (lit k); b ← py_encode v; be64_len b in
  sup ← py_item c (lit "supersedes");
  f0 ← be64_len (lit "seam-commitment-digest:v3");
  f1 ← field "id"%string;
  f2 ← field "action"%string;
  f3 ← field "authority"%string;
  f4 ← (if is_none sup then Ok [0] else b ← py_encode sup; f ← be64_len b; Ok (1 :: f));
  f5 ← field "auth_method"%string;
  f6 ← field "trust_basis"%string;
  f7 ← field "committer"%string;
  f8 ← be64_len _EMPTY_EXPLANATION_DIGEST;
  Ok (bjoin [f0; f1; f2; f3; f4; f5; f6; f7; f8]).
Definition _commitment_digest (c : pyval) : res pystr := sha256_hex <$> vector_preimage c.

Definition SEED : bytes := repeat 9 32.

Definition COMMITMENT : pyval := py_of (JObj
  [(lit "id", JStr (lit "c-exp-vector")); (lit "action", JStr (lit "transfer")); (lit "authority", JStr (lit "treasury"));
   (lit "supersedes", JNull); (lit "auth_method", JStr (lit "pinned-key")); (lit "trust_basis", JStr (lit "attested"));
   (lit "committer", JStr []); (lit "explanation", JList [])]).

Definition token_header : jval := JObj [(lit "alg", JStr (lit "EdDSA")); (lit "typ", JStr (lit "aitp-tct+jwt"))].
Definition token_payload (aid digest : pystr) (exp : option jval) : jval :=
  JObj ([(lit "iss", JStr aid); (lit "sub", JStr aid); (lit "aud", JStr aid);
         (lit "grants", JList [JStr (lit "aitp.attestation")]);
         (lit "ext", JObj [(lit "com.zer07labs.seam",
            JObj [(lit "type", JStr (lit "seam:commitment")); (lit "commitment_digest", JStr digest)])])]
        ++ match exp with Some v => [(lit "exp", v)] | None => [] end).

(** The decimal literal [m * 10 ^ e]. *)
Definition dec (m e : Z) : jval := JFloat (float_of_decimal (m <? 0) (Z.abs m) e).

(** [CASES]: name, [exp], [now]. *)
Definition CASES : list (pystr * option jval * Z) :=
  [(lit "integer_future", Some (JInt 2000000000), 1000);
   (lit "integer_past", Some (JInt 500), 1000);
   (lit "integer_exactly_now", Some (JInt 1000), 1000);
   (lit "fractional_half_second_past_now", Some (dec 10005 (-1)), 1000);
   (lit "fractional_negative_truncates_toward_zero", Some (dec (-15) (-1)), -2);
   (lit "numeric_string_integer_form", Some (JStr (lit "10000000000")), 0);
   (lit "numeric_string_exponent_form", Some (JStr (lit "1e10")), 0);
   (lit "boolean_true", Some (JBool true), 0);
   (lit "boolean_false", Some (JBool false), -1);
   (lit "null", Some JNull, -1);
   (lit "absent", None, -1);
   (lit "zero", Some (JInt 0), 0);
   (lit "negative", Some (JInt (-1)), 0);
   (lit "float_integral", Some (dec 20000000000 (-1)), 1000);
   (lit "beyond_int64", Some (dec 1 300), 0);
   (lit "just_below_int64_max", Some (dec 92 17), 0);
   (lit "object", Some (JObj [(lit "seconds", JInt 2000000000)]), 0);
   (lit "array", Some (JList [JInt 2000000000]), 0)].

Record vector_case := VectorCase {
  vc_name : pystr; vc_exp : jval; vc_exp_absent : bool; vc_now_s : Z; vc_jws : pystr; vc_expect : bool;
}.

Section emit.
Context `{Ed25519}.

Definition issuer_aid (seed : bytes) : pystr := lit "aid:pubkey:ed25519:" ++ _b64 (ed_public seed).

Definition token_jws (seed : bytes) (digest : pystr) (exp : option jval) : res pystr :=
  hb ← utf8_encode (dumps compact 0 token_header);
  pb ← utf8_encode (dumps compact 0 (token_payload (issuer_aid seed) digest exp));
  let msg := _b64 hb ++ lit "." ++ _b64 pb in
  mb ← utf8_encode msg;
  Ok (msg ++ lit "." ++ _b64 (ed_sign seed mb)).

Definition emit_case (seed : bytes) (digest : pystr) (c : pystr * option jval * Z) : res vector_case :=
  let '(name, exp, now) := c in
  jws ← token_jws seed digest exp;
  Ok (VectorCase name (default JNull exp) (match exp with None => true | _ => false end) now jws
        (_expected (py_of <$> exp) now)).

Definition emit_cases : res (list vector_case) :=
  seed ← private_from_bytes SEED;
  digest ← _commitment_digest COMMITMENT;
  mapM (emit_case seed digest) CASES.
End emit.

(** ** The script's digest is the SDK's *)

Example empty_explanation_digest : hex_of_bytes (take 4 _EMPTY_EXPLANATION_DIGEST) = lit "eb7853dc".
Proof. vm_compute. reflexivity. Qed.

Lemma empty_explanation_agrees : explanation_digest (PList []) = Ok _EMPTY_EXPLANATION_DIGEST.
Proof. vm_compute. reflexivity. Qed.

(** For a commitment without explanation, whose [committer] is text. *)
Lemma vector_digest_agrees c d s :
  _commitment_digest c = Ok d → py_get c (lit "explanation") = Ok (PList []) →
  py_get c (lit "explanation_digest") = Ok PNone → py_item c (lit "committer") = Ok (PStr s) →
  _seam_commitment_digest c = Ok d.
Proof.
  unfold _commitment_digest, _seam_commitment_digest. intros (p & Hp & ->)%fmap_Ok He Hd Hc.
  apply fmap_Ok. exists p. split; [|done].
  assert (∀ k v, py_item c k = Ok v → py_get c k = Ok v) as Hget.
  { intros k v. destruct c as [| | | | | | | | |kv|]; try done. cbn [py_item py_get]. by destruct (dict_find k kv). }
  unfold vector_preimage in Hp. apply bind_Ok in Hp as (sup & Hs%Hget & Hp). apply bind_Ok in Hp as (f0 & H0 & Hp).
  apply bind_Ok in Hp as (f1 & H1 & Hp). apply bind_Ok in Hp as (f2 & H2 & Hp). apply bind_Ok in Hp as (f3 & H3 & Hp).
  apply bind_Ok in Hp as (f4 & H4 & Hp). apply bind_Ok in Hp as (f5 & H5 & Hp). apply bind_Ok in Hp as (f6 & H6 & Hp).
  apply bind_Ok in Hp as (f7 & H7 & Hp). apply bind_Ok in Hp as (f8 & H8 & Hp).
  unfold commitment_preimage. rewrite Hs. cbn [mbind res_bind]. change commitment_domain with (lit "seam-commitment-digest:v3").
  change (be64_len ?b) with (_be64_frame b) in H0, H8. rewrite H0. cbn [mbind res_bind].
  change (text_field c (lit "id") = Ok f1) in H1. change (text_field c (lit "action") = Ok f2) in H2.
  change (text_field c (lit "authority") = Ok f3) in H3. change (optional_text sup = Ok f4) in H4.
  change (text_field c (lit "auth_method") = Ok f5) in H5. change (text_field c (lit "trust_basis") = Ok f6) in H6.
  change (text_field c (lit "committer") = Ok f7) in H7. unfold text_field in H7. rewrite Hc in H7.
  apply bind_Ok in H7 as (v & [= <-] & H7). apply bind_Ok in H7 as (b & Hb & H7).
  rewrite H1, H2, H3, H4, H5, H6. cbn [mbind res_bind]. rewrite (Hget _ _ Hc). cbn [mbind res_bind].
  assert ((if py_truthy (PStr s) then PStr s else PStr []) = PStr s) as -> by by destruct s.
  rewrite Hb. cbn [mbind res_bind]. rewrite H7. cbn [mbind res_bind].
  unfold _commitment_explanation_digest. rewrite Hd. cbn [mbind res_bind published_digest]. rewrite He.
  cbn [mbind res_bind is_none]. rewrite empty_explanation_agrees. cbn [mbind res_bind]. by rewrite H8.
Qed.

(** ** The tokens and the rule *)

Lemma token_header_dumpable : dumpable token_header.
Proof. unfold token_header. dumpable_members; by apply text_dumpable. Qed.

Lemma payload_dumpable aid digest exp :
  forallb printable aid = true → forallb printable digest = true → (∀ v, exp = Some v → dumpable v) →
  dumpable (token_payload aid digest exp).
Proof.
  intros Ha Hd He. unfold token_payload. destruct exp as [v|]; cbn [app]; dumpable_members; try by apply text_dumpable.
  1, 4: by apply dumpable_list, Forall_singleton, text_dumpable.
  2: by apply He.
  all: dumpable_members; dumpable_members; by apply text_dumpable.
Qed.

Section agree.
Context `{Ed25519Laws} (seed : bytes) (Hseed : length seed = 32%nat).

Lemma issuer_aid_printable : forallb printable (issuer_aid seed) = true.
Proof. unfold issuer_aid. rewrite forallb_app, b64url_printable by apply ed_public_bytes. done. Qed.

(** The token is the JWS of its header and payload, and is always produced. *)
Lemma token_parts digest exp :
  forallb printable digest = true → (∀ v, exp = Some v → dumpable v) →
  ∃ jws, token_jws seed digest exp = Ok jws ∧
    jws_parts (issuer_aid seed) jws (py_of token_header) (py_of (token_payload (issuer_aid seed) digest exp)).
Proof.
  intros Hd He. set (payload := token_payload _ _ _).
  assert (dumpable payload) as Hp by by apply payload_dumpable; [apply issuer_aid_printable|..].
  unfold token_jws. fold payload. rewrite !utf8_encode_ascii by by apply dumps_ascii. cbn [mbind res_bind].
  set (h := dumps compact 0 token_header). set (p := dumps compact 0 payload).
  assert (is_ascii (_b64 h ++ lit "." ++ _b64 p) = true) as Ha.
  { rewrite !is_ascii_app. unfold _b64, h, p. by rewrite !(proj2 (dumps_b64url _)). }
  rewrite utf8_encode_ascii by done. cbn [mbind res_bind]. eexists. split; [done|].
  exists (_b64 h), (_b64 p), (_b64 (ed_sign seed (_b64 h ++ lit "." ++ _b64 p))), (ed_public seed), (ed_sign seed (_b64 h ++ lit "." ++ _b64 p)), h, p.
  unfold _b64 in *. split_and!.
  - rewrite <-!(assoc_L (++)), !split_dot_app by apply b64url_no_dot, dumps_b64url.
    by rewrite split_dot_nodot by apply b64url_no_dot, ed_sign_bytes.
  - apply aid_roundtrip, ed_public_bytes.
  - by apply ed_public_length.
  - apply b64url_decode_nopad, ed_sign_bytes.
  - done.
  - by apply ed_verify_sign.
  - apply b64url_decode_nopad, dumps_b64url.
  - pose proof (part_decodes _no_duplicate_keys token_header) as Hr. rewrite b64url_decode_nopad in Hr by apply dumps_b64url.
    apply Hr; [by do 3 eexists|apply token_header_dumpable].
  - apply b64url_decode_nopad, dumps_b64url.
  - pose proof (part_decodes _no_duplicate_keys payload) as Hr. rewrite b64url_decode_nopad in Hr by apply dumps_b64url.
    apply Hr; [by do 3 eexists|done].
Qed.
End agree.

(** What the rule accepts is what [verify_tct] asks of [exp]. *)
Lemma expected_iff exp now : _expected exp now = true ↔
  ∃ v e, exp = Some v ∧ is_number v = true ∧ exp_in_int64 v = true ∧ exp_seconds v = Ok e ∧ now < e.
Proof.
  split.
  - destruct exp as [[| |z|f| | | | | | |]|]; try done; cbn [_expected]; intros Hx.
    + apply andb_true_iff in Hx as [Hr Hn%negb_true_iff%Z.leb_gt]. by exists (PInt z), z.
    + apply andb_true_iff in Hx as [[_ Hr]%andb_true_iff Hn]. exists (PFloat f).
      destruct (int_of_float f) as [t|] eqn:Ht; [|done]. exists t. apply negb_true_iff, Z.leb_gt in Hn. by split_and!.
  - intros (v & e & -> & Hn & Hr & He & Hlt%Z.leb_gt). destruct v as [| |z|f| | | | | | |]; try done; cbn in *.
    + apply Ok_inj in He as ->. by rewrite Hr, Hlt.
    + unfold exp_in_int64 in Hr. rewrite Hr, He, Hlt. cbn. rewrite andb_true_r. by destruct f.
Qed.

Lemma commitment_digest_value : ∃ digest,
  _commitment_digest COMMITMENT = Ok digest ∧ _seam_commitment_digest COMMITMENT = Ok digest ∧ forallb printable digest = true.
Proof.
  destruct (_commitment_digest COMMITMENT) as [d|e] eqn:E; [|by vm_compute in E]. exists d. split; [done|]. split.
  - by apply (vector_digest_agrees COMMITMENT d []).
  - vm_compute in E. apply Ok_inj in E as <-. done.
Qed.

Section claims.
Context (aid digest : pystr) (exp : option jval).

Definition statement : list (pyval * pyval) :=
  [(PStr (lit "type"), PStr (lit "seam:commitment")); (PStr (lit "commitment_digest"), PStr digest)].

Lemma payload_claims now : _expected (py_of <$> exp) now = true →
  tct_claims aid now (py_of token_header) (py_of (token_payload aid digest exp)) statement.
Proof.
  intros (v & e & Hv & Hn & Hr & He & Hlt)%expected_iff. destruct exp as [x|]; [|done]. injection Hv as <-.
  unfold tct_claims. split_and!; try done. by exists (py_of x), e.
Qed.

Lemma claims_expected now sd :
  tct_claims aid now (py_of token_header) (py_of (token_payload aid digest exp)) sd → _expected (py_of <$> exp) now = true.
Proof.
  intros (_ & _ & _ & _ & _ & (v & e & Hv & Hn & Hr & He & Hlt) & _). apply expected_iff. exists v, e.
  split_and!; try done. destruct exp as [x|]; cbn in Hv |- *; injection Hv as <-; done.
Qed.
End claims.

Lemma token_agrees `{Ed25519Laws} seed digest exp now :
  length seed = 32%nat → (∀ v, exp = Some v → dumpable v) → _commitment_digest COMMITMENT = Ok digest →
  ∃ jws, token_jws seed digest exp = Ok jws ∧
    verify_tct (issuer_aid seed) jws COMMITMENT now = _expected (py_of <$> exp) now.
Proof.
  intros Hs He Hd. destruct commitment_digest_value as (d & Hd' & Hsd & Hp). rewrite Hd in Hd'. apply Ok_inj in Hd' as <-.
  destruct (token_parts seed Hs digest exp Hp He) as (jws & Hj & Hparts). exists jws. split; [done|].
  unfold verify_tct. destruct (_expected (py_of <$> exp) now) eqn:Ex.
  - by rewrite (verify_tct_body_complete _ _ _ _ _ _ _ digest Hparts (payload_claims _ digest _ _ Ex)).
  - destruct (verify_tct_body _ _ _ _) as [[]|] eqn:Ev; try done.
    apply verify_tct_body_sound in Ev as (h & p & sd & x & Hparts' & Hc & _).
    destruct (jws_parts_unique _ _ _ _ _ _ Hparts Hparts') as [<- <-]. apply claims_expected in Hc. congruence.
Qed.

(** Every [exp] of [CASES] is written as a text that reads back as it. *)
Lemma dec_dumpable m e : float_reads_b (float_of_decimal (m <? 0) (Z.abs m) e) = true → dumpable (dec m e).
Proof. intros H. by apply dumpable_float, float_reads_dec. Qed.

Lemma cases_dumpable : Forall (λ c : pystr * option jval * Z, ∀ v, c.1.2 = Some v → dumpable v) CASES.
Proof.
  unfold CASES. repeat (apply List.Forall_cons; [intros v Hv; cbn [fst snd] in Hv|]); [..|apply List.Forall_nil].
  all: first [discriminate Hv|injection Hv as <-].
  all: first [by apply dumpable_null|by apply dumpable_bool|by apply dumpable_int|by apply text_dumpable
             |apply dec_dumpable; vm_compute; reflexivity|idtac].
  - dumpable_members. by apply dumpable_int.
  - apply dumpable_list, Forall_singleton. by apply dumpable_int.
Qed.

(** C18. The vector and the SDK agree on the expiry rule: for every [exp] whose JSON text reads back (absent included) and
    every clock, the token the script signs is produced, and [verify_tct], pinned to its issuer, answers it for
    the script's commitment exactly as the rule says. In particular the script succeeds, every case it writes
    carries the answer [verify_tct] gives at the case's clock, and some case is a control that verifies. *)
Theorem tct_vectors_agree `{Ed25519Laws} seed exp now :
  length seed = 32%nat → (∀ v, exp = Some v → dumpable v) →
  (∃ digest jws, _commitment_digest COMMITMENT = Ok digest ∧ token_jws seed digest exp = Ok jws ∧
     verify_tct (issuer_aid seed) jws COMMITMENT now = _expected (py_of <$> exp) now) ∧
  ∃ cs, emit_cases = Ok cs ∧ vc_name <$> cs = (λ c, c.1.1) <$> CASES ∧
    Forall (λ c, verify_tct (issuer_aid SEED) (vc_jws c) COMMITMENT (vc_now_s c) = vc_expect c) cs ∧
    Exists (λ c, vc_expect c = true) cs.
Proof.
  intros Hs He. destruct commitment_digest_value as (digest & Hd & _ & _). split.
  { destruct (token_agrees seed digest exp now Hs He Hd) as (jws & Hj & Hv). by exists digest, jws. }
  unfold emit_cases, private_from_bytes. rewrite decide_True by done. cbn [mbind res_bind]. rewrite Hd. cbn [mbind res_bind].
  assert (∀ l, Forall (λ c : pystr * option jval * Z, ∀ v, c.1.2 = Some v → dumpable v) l → ∃ cs,
    mapM (emit_case SEED digest) l = Ok cs ∧
    Forall2 (λ c r, vc_name r = c.1.1 ∧ vc_expect r = _expected (py_of <$> c.1.2) c.2 ∧
       verify_tct (issuer_aid SEED) (vc_jws r) COMMITMENT (vc_now_s r) = vc_expect r) l cs) as Hall.
  { induction 1 as [|[[n x] z] l Hx _ (cs & Hcs & IH)]; [by exists []|]. cbn [fst snd] in *.
    destruct (token_agrees SEED digest x z eq_refl Hx Hd) as (jws & Hj & Hv).
    exists (VectorCase n (default JNull x) (match x with None => true | _ => false end) z jws (_expected (py_of <$> x) z) :: cs).
    split; [|by constructor]. apply mapM_res_cons. do 2 eexists. split; [|by split].
    unfold emit_case. by rewrite Hj. }
  destruct (Hall CASES cases_dumpable) as (cs & Hcs & Hf). clear Hall. exists cs. split; [done|]. split_and!.
  - clear Hcs. induction Hf as [|c r l cs (Hn & _) _ IH]; [done|]. cbn. by rewrite Hn, IH.
  - clear Hcs. induction Hf as [|c r l cs (_ & _ & Hv) _ IH]; by constructor.
  - unfold CASES in Hf. inversion Hf as [|c r l cs' (_ & Hx & _) _]; subst. apply Exists_cons. left. rewrite Hx.
    vm_compute. reflexivity.
Qed.

(** ** The committed file *)

(** [conformance/tct_exp_extended.json]: the payload of its first case under its issuer, the [exp] member of each
    payload, and the answers. *)
Example vector_payload :
  dumps compact 0 (token_payload
    (lit "aid:pubkey:ed25519:_RckOFqgx1tk-3jNYC-h2ZH96_drE8WO1wLqyDXp9hg")
    (match _commitment_digest COMMITMENT with Ok d => d | Raise _ => [] end) (Some (JInt 2000000000)))
  = quoted "{'iss':'aid:pubkey:ed25519:_RckOFqgx1tk-3jNYC-h2ZH96_drE8WO1wLqyDXp9hg','sub':'aid:pubkey:ed25519:_RckOFqgx1tk-3jNYC-h2ZH96_drE8WO1wLqyDXp9hg','aud':'aid:pubkey:ed25519:_RckOFqgx1tk-3jNYC-h2ZH96_drE8WO1wLqyDXp9hg','grants':['aitp.attestation'],'ext':{'com.zer07labs.seam':{'type':'seam:commitment','commitment_digest':'76e0d172971cf6fc12ee11450886c18836bb430a9f3756a1feb2a83fd788fe64'}},'exp':2000000000}".
Proof. vm_compute. reflexivity. Qed.

Example vector_exp_texts : (λ c : pystr * option jval * Z, dumps compact 0 <$> c.1.2) <$> CASES =
  [Some (quoted "2000000000"); Some (quoted "500"); Some (quoted "1000"); Some (quoted "1000.5"); Some (quoted "-1.5"); Some (quoted "'10000000000'"); Some (quoted "'1e10'"); Some (quoted "true"); Some (quoted "false"); Some (quoted "null"); None; Some (quoted "0"); Some (quoted "-1"); Some (quoted "2000000000.0"); Some (quoted "1e+300"); Some (quoted "9.2e+18"); Some (quoted "{'seconds':2000000000}"); Some (quoted "[2000000000]")].
Proof. vm_compute. reflexivity. Qed.

Example vector_answers : (λ c : pystr * option jval * Z, _expected (py_of <$> c.1.2) c.2) <$> CASES =
  [true; false; false; false; true; false; false; false; false; false; false; false; false; true; false; true; false; false].
Proof. vm_compute. reflexivity. Qed.

Lemma tct_vectors_agree_witness :
  length toy_seed = 32%nat ∧
  ∃ digest jws, _commitment_digest COMMITMENT = Ok digest ∧
    @token_jws toy_ed25519 toy_seed digest (Some (dec 10005 (-1))) = Ok jws ∧
    @verify_tct toy_ed25519 (@issuer_aid toy_ed25519 toy_seed) jws COMMITMENT 999 =
      _expected (py_of <$> Some (dec 10005 (-1))) 999.
Proof.
  split; [reflexivity|].
  exact (proj1 (@tct_vectors_agree toy_ed25519 toy_ed25519_laws toy_seed (Some (dec 10005 (-1))) 999 eq_refl
    (λ v Hv, eq_ind (dec 10005 (-1)) dumpable (dec_dumpable 10005 (-1) eq_refl) v (f_equal (default JNull) Hv)))).
Defined.
