(* ===== verification/JcsVectors.v ===== *)
(** * JcsVectors: the integer vectors of canonical JSON ([scripts/emit_jcs_int_vectors.py])

    The script writes, for chosen and for searched integers, what [jcs_canonicalize] answers: the canonical text and
    its digest, or a refusal. The search draws from a random source, here any sequence of integers; [fuel]
    bounds the draws, and [searched_ends] says when it is enough. *)

From stdpp Require Import base list numbers option strings.
From S2P Require Import Prelude Text Sha256 Floats Json Jcs.

Definition CHOSEN : list (pystr * Z) := (λ p : string * Z, (lit p.1, p.2)) <$>
  [("zero", 0); ("one", 1); ("negative-one", -1); ("max-safe", 2 ^ 53); ("negative-max-safe", - 2 ^ 53);
   ("max-safe-plus-one", 2 ^ 53 + 1); ("max-safe-plus-two", 2 ^ 53 + 2); ("ten-to-16", 10 ^ 16); ("negative-ten-to-16", - 10 ^ 16);
   ("ten-to-20", 10 ^ 20); ("two-to-55", 2 ^ 55); ("two-to-60", 2 ^ 60); ("ten-to-21", 10 ^ 21);
   ("negative-max-safe-plus-one", - (2 ^ 53 + 1)); ("negative-two-to-60", - 2 ^ 60); ("negative-ten-to-21", - 10 ^ 21);
   ("ten-to-21-minus-one", 10 ^ 21 - 1); ("overflows-a-double", 10 ^ 400)]%string.

(** The canonical text, or [None] for a refusal. *)
Definition _render (n : Z) : res (option pystr) :=
  try_except (Some <$> (b ← jcs_canonicalize (PInt n); utf8_decode b)) CValueError (λ _, Ok None).

Definition numbered (prefix : string) (n : nat) : pystr := lit prefix ++ str_of_int (Z.of_nat n).

(** What the search has found, and how much of each. *)
Record search := Search { accepted : nat; refused : nat; found : list (pystr * Z) }.
Definition keep_draw (count : nat) (n : Z) (canonical : option pystr) (s : search) : search :=
  match canonical with
  | Some _ =>
    if (accepted s <? count)%nat
    then Search (S (accepted s)) (refused s) (found s ++ [(numbered "searched-accepted-" (S (accepted s)), n)]) else s
  | None =>
    if (refused s <? count)%nat
    then Search (accepted s) (S (refused s)) (found s ++ [(numbered "searched-refused-" (S (refused s)), n)]) else s
  end.
(** [while accepted < count or refused < count]; [None] when the fuel runs out. *)
Fixpoint search_loop (count : nat) (draw : nat → Z) (fuel i : nat) (s : search) : res (option (list (pystr * Z))) :=
  if (count <=? accepted s)%nat && (count <=? refused s)%nat then Ok (Some (found s))
  else
    match fuel with
    | O => Ok None
    | S fuel => canonical ← _render (draw i); search_loop count draw fuel (S i) (keep_draw count (draw i) canonical s)
    end.
Definition _searched (count : nat) (draw : nat → Z) (fuel : nat) : res (option (list (pystr * Z))) :=
  search_loop count draw fuel 0 (Search 0 0 []).

(** One row of the file: the integer as text, and its canonical text and digest unless it is rejected. *)
Record int_case := IntCase { ic_name : pystr; ic_int : pystr; ic_canonical : option (pystr * pystr) }.
Definition int_case_of (c : pystr * Z) : res int_case :=
  canonical ← _render c.2;
  match canonical with
  | None => Ok (IntCase c.1 (str_of_int c.2) None)
  | Some t => b ← utf8_encode t; Ok (IntCase c.1 (str_of_int c.2) (Some (t, tool_input_digest b)))
  end.

(** [main] *)
Definition int_cases (draw : nat → Z) (fuel : nat) : res (option (list int_case)) :=
  searched ← _searched 4 draw fuel;
  match searched with
  | None => Ok None
  | Some l => Some <$> mapM int_case_of (CHOSEN ++ l)
  end.

(** ** What the file says *)

(** Does canonical JSON print the integer? *)
Definition printable_int (n : Z) : bool := match _jcs_int n with Ok _ => true | Raise _ => false end.

Lemma jcs_int_spec n : _jcs_int n = if printable_int n then Ok (str_of_int n) else Raise ValueError.
Proof.
  unfold printable_int, _jcs_int. destruct (_ && _); [done|]. destruct (float_of_int n) as [f|]; [|done].
  destruct (_jcs_number f) as [r|x] eqn:E; cbn [mbind res_bind]; [|by apply jcs_number_error in E as ->].
  destruct (decide (r = str_of_int n)); [by subst|done].
Qed.
Lemma int_encodes n : ∃ b, utf8_encode (str_of_int n) = Ok b ∧ utf8_decode b = Ok (str_of_int n).
Proof.
  assert (Ha : is_ascii (str_of_int n) = true).
  { unfold str_of_int. destruct (Z.ltb_spec n 0); [|by apply str_of_nonneg_ascii]. unfold is_ascii. cbn [forallb].
    change (_ && forallb _ (str_of_nonneg (- n))) with (is_ascii (str_of_nonneg (- n))). apply str_of_nonneg_ascii. lia. }
  exists (str_of_int n). pose proof (utf8_encode_ascii _ Ha) as E. split; [done|]. by apply utf8_decode_encode.
Qed.
Lemma render_spec n : _render n = Ok (if printable_int n then Some (str_of_int n) else None).
Proof.
  unfold _render, jcs_canonicalize. change (_jcs_write (PInt n)) with (_jcs_int n). rewrite jcs_int_spec.
  destruct (printable_int n); [|done]. destruct (int_encodes n) as (b & E & D). cbn [mbind res_bind]. rewrite E. cbn [mbind res_bind]. by rewrite D.
Qed.

(** How many of some integers canonical JSON prints, or does not. *)
Definition count_of (b : bool) (l : list Z) : nat := length (filter (λ n, printable_int n = b) l).

Lemma count_cons b n l : count_of b (n :: l) = ((if Bool.eqb (printable_int n) b then 1 else 0) + count_of b l)%nat.
Proof. unfold count_of. rewrite filter_cons. destruct (printable_int n) eqn:E, b; by rewrite ?E. Qed.

(** One draw: kept when more of its kind are wanted. *)
Lemma keep_draw_spec count n s : (accepted s ≤ count)%nat → (refused s ≤ count)%nat →
  let s1 := keep_draw count n (if printable_int n then Some (str_of_int n) else None) s in
  ∃ l, found s1 = found s ++ l ∧ accepted s1 = (accepted s + count_of true l.*2)%nat ∧ refused s1 = (refused s + count_of false l.*2)%nat ∧
    Forall (λ m, m = n) l.*2 ∧ (accepted s1 ≤ count)%nat ∧ (refused s1 ≤ count)%nat ∧
    (accepted s1 = count ∨ accepted s1 = accepted s + count_of true [n])%nat ∧ (refused s1 = count ∨ refused s1 = refused s + count_of false [n])%nat.
Proof.
  intros Ha Hr. cbn zeta. unfold keep_draw. rewrite !count_cons. destruct (printable_int n) eqn:Ep.
  - destruct (Nat.ltb_spec (accepted s) count); [exists [(numbered "searched-accepted-" (S (accepted s)), n)]|exists []; rewrite app_nil_r];
      cbn [accepted refused found fmap list_fmap snd]; rewrite ?count_cons, ?Ep; cbn; split_and!; try done; try lia; by constructor.
  - destruct (Nat.ltb_spec (refused s) count); [exists [(numbered "searched-refused-" (S (refused s)), n)]|exists []; rewrite app_nil_r];
      cbn [accepted refused found fmap list_fmap snd]; rewrite ?count_cons, ?Ep; cbn; split_and!; try done; try lia; by constructor.
Qed.

Lemma count_app b l1 l2 : count_of b (l1 ++ l2) = (count_of b l1 + count_of b l2)%nat.
Proof. unfold count_of. by rewrite filter_app, length_app. Qed.

(** The search ends once enough of both kinds were drawn, with [count] of each. *)
Lemma searched_ends count draw fuel i s : (accepted s ≤ count)%nat → (refused s ≤ count)%nat →
  (count ≤ accepted s + count_of true (draw <$> seq i fuel))%nat → (count ≤ refused s + count_of false (draw <$> seq i fuel))%nat →
  ∃ l, search_loop count draw fuel i s = Ok (Some (found s ++ l)) ∧
    (accepted s + count_of true l.*2 = count)%nat ∧ (refused s + count_of false l.*2 = count)%nat ∧
    Forall (λ n, ∃ j, n = draw j) l.*2.
Proof.
  revert i s. induction fuel as [|fuel IH]; intros i s Ha Hr Ha' Hr'; cbn [search_loop].
  all: destruct ((count <=? accepted s)%nat && (count <=? refused s)%nat) eqn:E.
  1, 3: apply andb_true_iff in E as [E1%Nat.leb_le E2%Nat.leb_le]; exists []; rewrite app_nil_r; cbn; split_and!; [done|lia|lia|constructor].
  { cbn in Ha', Hr'. rewrite (proj2 (Nat.leb_le count (accepted s))), (proj2 (Nat.leb_le count (refused s))) in E by lia. done. }
  rewrite render_spec. cbn [mbind res_bind seq] in *. rewrite fmap_cons in Ha', Hr'. change (draw i :: ?l) with ([draw i] ++ l) in Ha', Hr'.
  rewrite count_app in Ha', Hr'. destruct (keep_draw_spec count (draw i) s Ha Hr) as (l0 & Ef & Ea & Er & Hl0 & Ha1 & Hr1 & Da & Dr).
  set (s1 := keep_draw _ _ _ _) in *. destruct (IH (S i) s1) as (l & -> & H1 & H2 & H3); [done|done|lia|lia|].
  exists (l0 ++ l). rewrite Ef, <- (assoc_L (++)), fmap_app, !count_app. split_and!; [done|lia|lia|].
  apply Forall_app. split; [|done]. eapply Forall_impl; [exact Hl0|]. intros m ->. by exists i.
Qed.

(** A row says what the SDK does with its integer. *)
Definition row_agrees (p : pystr * Z) (c : int_case) : Prop :=
  ic_name c = p.1 ∧ ic_int c = str_of_int p.2 ∧
  match ic_canonical c with
  | Some (t, d) => t = str_of_int p.2 ∧ ∃ b, jcs_canonicalize (PInt p.2) = Ok b ∧ utf8_decode b = Ok t ∧ d = tool_input_digest b
  | None => jcs_canonicalize (PInt p.2) = Raise ValueError
  end.

Lemma int_case_agrees p : ∃ c, int_case_of p = Ok c ∧ row_agrees p c.
Proof.
  unfold int_case_of, row_agrees, jcs_canonicalize. change (_jcs_write (PInt p.2)) with (_jcs_int p.2). rewrite render_spec, jcs_int_spec.
  destruct (printable_int p.2); cbn [mbind res_bind]; [|by eexists]. destruct (int_encodes p.2) as (b & E & D). rewrite E.
  cbn [mbind res_bind]. eexists. split; [done|]. cbn. split_and!; [done..|]. exists b. by split_and!.
Qed.
Lemma int_cases_agree l : ∃ cs, mapM int_case_of l = Ok cs ∧ Forall2 row_agrees l cs.
Proof.
  induction l as [|p l (cs & E & H)]; [by exists []|]. destruct (int_case_agrees p) as (c & Ec & Hc).
  exists (c :: cs). cbn [mapM]. rewrite Ec. cbn [mbind res_bind]. rewrite E. by split; [|constructor].
Qed.

(** The vector file says what the SDK does. Whatever integers are drawn, once four of each kind are among them the
    script ends, with the chosen rows and eight searched ones, four accepted and four refused; in every row the
    canonical text is the integer's own decimal text and the digest is the digest of the bytes
    [jcs_canonicalize] returns, and a row is marked rejected exactly when it raises [ValueError]. *)
Theorem int_vectors_agree draw fuel :
  (4 ≤ count_of true (draw <$> seq 0 fuel))%nat → (4 ≤ count_of false (draw <$> seq 0 fuel))%nat →
  ∃ l cs, int_cases draw fuel = Ok (Some cs) ∧ Forall2 row_agrees (CHOSEN ++ l) cs ∧
    count_of true l.*2 = 4%nat ∧ count_of false l.*2 = 4%nat ∧ Forall (λ n, ∃ j, n = draw j) l.*2.
Proof.
  intros Ha Hr. destruct (searched_ends 4 draw fuel 0 (Search 0 0 [])) as (l & E & H1 & H2 & H3); [cbn; lia..|].
  destruct (int_cases_agree (CHOSEN ++ l)) as (cs & Ec & Hc). exists l, cs. unfold int_cases, _searched. rewrite E.
  cbn [mbind res_bind found app]. rewrite Ec. by split_and!.
Qed.

(** ** The chosen rows *)

Example chosen_verdicts : printable_int <$> CHOSEN.*2 =
  [true; true; true; true; true; false; true; true; true; true; false; false; false; false; false; false; false; false].
Proof. vm_compute. reflexivity. Qed.
(** [conformance/authorize_jcs_int_extended.json]: [max-safe-plus-two]. *)
Example chosen_digest : ic_canonical <$> int_case_of (lit "max-safe-plus-two", 2 ^ 53 + 2) =
  Ok (Some (lit "9007199254740994", lit "sha256:25aa68783313802627958889943e895749ac4c0c7469b2a305cd450a12120768")).
Proof. vm_compute. reflexivity. Qed.

(** Draws that alternate between an integer that prints as itself and one that does not. *)
Definition alternating (i : nat) : Z := if Nat.even i then 10 ^ 16 + 2 * Z.of_nat i else 2 ^ 60 + Z.of_nat i.
Lemma int_vectors_agree_witness : (4 ≤ count_of true (alternating <$> seq 0 8))%nat ∧ (4 ≤ count_of false (alternating <$> seq 0 8))%nat ∧
  ∃ l cs, int_cases alternating 8 = Ok (Some cs) ∧ Forall2 row_agrees (CHOSEN ++ l) cs.
Proof.
  assert (Ha : (4 ≤ count_of true (alternating <$> seq 0 8))%nat) by (apply Nat.leb_le; vm_compute; reflexivity).
  assert (Hr : (4 ≤ count_of false (alternating <$> seq 0 8))%nat) by (apply Nat.leb_le; vm_compute; reflexivity).
  split; [exact Ha|]. split; [exact Hr|]. destruct (int_vectors_agree alternating 8 Ha Hr) as (l & cs & E & Hc & _).
  exists l, cs. exact (conj E Hc).
Defined.
