(* ===== verification/Regex.v ===== *)
(** * Regex: the regular expressions of the scripts

    Python's [re], as the patterns of the scripts use it: character classes, greedy repetition, ordered
    alternatives, numbered groups, the anchors and a negative lookahead on one character. A pattern is data,
    so that it reads like the source's; [rmatch] is the backtracking matcher, in Python's order of choice;
    [matches] is what a pattern can match, in any order. [rmatch_Some] and [rmatch_None] relate the two. *)

From stdpp Require Import base list numbers option strings.
From S2P Require Import Prelude Text Keys.

(** ** Patterns *)

Inductive regex :=
| Eps
| Set_ (p : Z → bool)             (** one character of a class *)
| Cat (r1 r2 : regex)
| Alt (r1 r2 : regex)
| Star (r : regex)                (** greedy *)
| Group (n : nat) (r : regex)
| NotAhead (p : Z → bool)         (** [(?![...])] *)
| Bol                             (** [^] under [re.MULTILINE] *)
| Eol.                            (** [$] without it: at the end, or before a final newline *)

Definition Chr (c : Z) : regex := Set_ (Z.eqb c).
Definition chars (l : list Z) : regex := foldr (λ c r, Cat (Chr c) r) Eps l.
Definition text (s : string) : regex := chars (lit s).
Definition Opt (r : regex) : regex := Alt r Eps.
Definition Plus (r : regex) : regex := Cat r (Star r).
Fixpoint Times (n : nat) (r : regex) : regex := match n with O => Eps | S n => Cat r (Times n r) end.
(** [r{m,m+n}], greedy *)
Fixpoint UpTo (n : nat) (r : regex) : regex := match n with O => Eps | S n => Opt (Cat r (UpTo n r)) end.
Definition Between (m n : nat) (r : regex) : regex := Cat (Times m r) (UpTo n r).

Declare Scope regex_scope.
Delimit Scope regex_scope with re.
Infix "▷" := Cat (at level 35, right associativity) : regex_scope.
Bind Scope regex_scope with regex.

(** ** The matcher *)

(** A position: the character before it, the text after it, and the groups captured so far. *)
Record pos := Pos { before : option Z; ahead : list Z; groups : list (nat * list Z) }.

Definition start (s : list Z) : pos := Pos None s [].

Definition step (p : Z → bool) (s : pos) : option pos :=
  match ahead s with
  | c :: r => if p c then Some (Pos (Some c) r (groups s)) else None
  | [] => None
  end.
Definition not_ahead (p : Z → bool) (s : pos) : bool := match ahead s with c :: _ => negb (p c) | [] => true end.
Definition at_bol (s : pos) : bool := match before s with Some c => c =? 10 | None => true end.
Definition at_eol (s : pos) : bool := match ahead s with [] => true | [c] => c =? 10 | _ => false end.

(** The text between two positions. *)
Definition consumed (s s' : pos) : list Z := take (length (ahead s) - length (ahead s')) (ahead s).
Definition capture (n : nat) (s s' : pos) : pos := Pos (before s') (ahead s') ((n, consumed s s') :: groups s').

Definition shorter (s' s : pos) : bool := (length (ahead s') <? length (ahead s))%nat.

(** A greedy repetition of [m]; an iteration that consumes nothing is not taken. *)
Fixpoint star_loop {A} (m : (pos → option A) → pos → option A) (k : pos → option A) (fuel : nat) (s : pos) : option A :=
  match fuel with
  | O => k s
  | S fuel =>
    match m (λ s', if shorter s' s then star_loop m k fuel s' else None) s with
    | Some x => Some x
    | None => k s
    end
  end.

(** [k] is what remains to be matched. *)
Fixpoint rmatch {A} (r : regex) (k : pos → option A) (s : pos) : option A :=
  match r with
  | Eps => k s
  | Set_ p => s' ← step p s; k s'
  | Cat r1 r2 => rmatch r1 (rmatch r2 k) s
  | Alt r1 r2 => match rmatch r1 k s with Some x => Some x | None => rmatch r2 k s end
  | Star r => star_loop (rmatch r) k (length (ahead s)) s
  | Group n r => rmatch r (λ s', k (capture n s s')) s
  | NotAhead p => if not_ahead p s then k s else None
  | Bol => if at_bol s then k s else None
  | Eol => if at_eol s then k s else None
  end.

(** [m.group(n)] *)
Fixpoint find_group (n : nat) (gs : list (nat * list Z)) : option (list Z) :=
  match gs with [] => None | (m, t) :: gs => if (m =? n)%nat then Some t else find_group n gs end.
Definition group (n : nat) (s : pos) : option (list Z) := find_group n (groups s).

(** [re.match], [re.fullmatch] and [re.search]: where the match ends, with its groups. *)
Definition re_match (r : regex) (s : list Z) : option pos := rmatch r Some (start s).
Definition re_fullmatch (r : regex) (s : list Z) : option pos :=
  rmatch r (λ s', match ahead s' with [] => Some s' | _ => None end) (start s).
Fixpoint search_from (r : regex) (b : option Z) (s : list Z) : option pos :=
  match rmatch r Some (Pos b s []), s with
  | Some x, _ => Some x
  | None, c :: s => search_from r (Some c) s
  | None, [] => None
  end.
Definition re_search (r : regex) (s : list Z) : option pos := search_from r None s.

(** What [re.sub] and [re.finditer] see of a text, for a pattern that matches no empty text: the characters between
    the matches, and the matches with their groups. *)
Inductive piece := Kept (c : Z) | Found (t : list Z) (gs : list (nat * list Z)).
Fixpoint pieces_from (fuel : nat) (r : regex) (b : option Z) (s : list Z) : list piece :=
  match fuel, s with
  | S fuel, c :: rest =>
    match rmatch r Some (Pos b s []) with
    | Some m =>
      if shorter m (Pos b s []) then Found (consumed (Pos b s []) m) (groups m) :: pieces_from fuel r (before m) (ahead m)
      else Kept c :: pieces_from fuel r (Some c) rest
    | None => Kept c :: pieces_from fuel r (Some c) rest
    end
  | _, _ => []
  end.
Definition pieces (r : regex) (s : list Z) : list piece := pieces_from (length s) r None s.
Definition finditer (r : regex) (s : list Z) : list (list (nat * list Z)) :=
  omap (λ p, match p with Found _ gs => Some gs | Kept _ => None end) (pieces r s).

Definition fullmatches (r : regex) (s : list Z) : bool := match re_fullmatch r s with Some _ => true | None => false end.

(** ** What a pattern can match *)

(** [matches r s s']: [r] can take the matcher from [s] to [s']. *)
Inductive matches : regex → pos → pos → Prop :=
| m_eps s : matches Eps s s
| m_set p s s' : step p s = Some s' → matches (Set_ p) s s'
| m_cat r1 r2 s s1 s' : matches r1 s s1 → matches r2 s1 s' → matches (Cat r1 r2) s s'
| m_alt_l r1 r2 s s' : matches r1 s s' → matches (Alt r1 r2) s s'
| m_alt_r r1 r2 s s' : matches r2 s s' → matches (Alt r1 r2) s s'
| m_star_end r s : matches (Star r) s s
| m_star_step r s s1 s' : matches r s s1 → shorter s1 s = true → matches (Star r) s1 s' → matches (Star r) s s'
| m_group n r s s' : matches r s s' → matches (Group n r) s (capture n s s')
| m_not_ahead p s : not_ahead p s = true → matches (NotAhead p) s s
| m_bol s : at_bol s = true → matches Bol s s
| m_eol s : at_eol s = true → matches Eol s s.

(** The text only ever moves forward. *)
Lemma matches_ahead r s s' : matches r s s' → ∃ t, ahead s = t ++ ahead s'.
Proof.
  induction 1 as [s|p s s' Hs|r1 r2 s s1 s' _ [t1 E1] _ [t2 E2]| | | s|r s s1 s' _ [t1 E1] _ _ [t2 E2]|n r s s' _ [t E]|p s _|s _|s _];
    try done; try (by exists []).
  - unfold step in Hs. destruct (ahead s) as [|c a]; [done|]. destruct (p c); [|done]. injection Hs as <-. by exists [c].
  - exists (t1 ++ t2). by rewrite E1, E2, (assoc_L (++)).
  - exists (t1 ++ t2). by rewrite E1, E2, (assoc_L (++)).
  - by exists t.
Qed.

(** A matcher for [r]: it finds a way [r] can match that the rest accepts, if there is any. *)
Definition matcher {A} (r : regex) (m : (pos → option A) → pos → option A) : Prop := ∀ k s,
  (∀ x, m k s = Some x → ∃ s', matches r s s' ∧ k s' = Some x) ∧
  (m k s = None → ∀ s', matches r s s' → k s' = None).

Lemma star_matcher {A} r (m : (pos → option A) → pos → option A) k fuel s :
  matcher r m → (length (ahead s) ≤ fuel)%nat →
  (∀ x, star_loop m k fuel s = Some x → ∃ s', matches (Star r) s s' ∧ k s' = Some x) ∧
  (star_loop m k fuel s = None → ∀ s', matches (Star r) s s' → k s' = None).
Proof.
  intros Hm. revert s. induction fuel as [|fuel IH]; intros s Hl; cbn [star_loop].
  - split; [intros x Hx; exists s; by split; [constructor|]|]. intros Hn s' Hr.
    inversion Hr as [| | | | |? ?|? ? s1 ? _ Hsh _| | | |]; subst; [done|]. apply Nat.ltb_lt in Hsh. lia.
  - destruct (Hm (λ s', if shorter s' s then star_loop m k fuel s' else None) s) as [S1 N1].
    destruct (m _ s) as [x|] eqn:E.
    + split; [|done]. intros y [= <-]. destruct (S1 x eq_refl) as (s1 & Hr & Hk).
      destruct (shorter s1 s) eqn:Hsh; [|done]. assert (length (ahead s1) < length (ahead s))%nat by by apply Nat.ltb_lt.
      apply IH in Hk as (s' & ? & ?); [|lia]. exists s'. split; [by eapply m_star_step|done].
    + split; [intros x Hx; exists s; by split; [constructor|]|]. intros Hn s' Hr.
      inversion Hr as [| | | | |? ?|? ? s1 ? Ha Hsh Hrest| | | |]; subst; [done|].
      specialize (N1 eq_refl s1 Ha). cbn beta in N1. rewrite Hsh in N1. apply Nat.ltb_lt in Hsh.
      destruct (IH s1) as [_ Hi]; [lia|]. by apply Hi.
Qed.

Lemma rmatch_matcher {A} r : matcher (A := A) r (rmatch r).
Proof.
  induction r as [|p|r1 IH1 r2 IH2|r1 IH1 r2 IH2|r IH|n r IH|p| |]; intros k s; cbn [rmatch].
  - split; [by exists s; split; [constructor|]|]. by intros Hn s' Hm; inversion Hm; subst.
  - destruct (step p s) as [s1|] eqn:E; cbn; split; intros; [by exists s1; split; [constructor|]| |done|];
      match goal with H : matches _ _ _ |- _ => inversion H; subst; simplify_eq end; done.
  - destruct (IH1 (rmatch r2 k) s) as [S1 N1]. split.
    + intros x (s1 & Hm & (s' & Hm' & Hk)%IH2)%S1. exists s'. split; [by econstructor|done].
    + intros Hn s' Hm. inversion Hm as [| |? ? ? s1 ? Ha Hb| | | | | | | |]; subst.
      eapply (proj2 (IH2 k s1)); [by apply N1|done].
  - destruct (IH1 k s) as [S1 N1], (IH2 k s) as [S2 N2]. destruct (rmatch r1 k s) as [x|] eqn:E.
    + split; [|done]. intros y [= <-]. destruct (S1 x eq_refl) as (s' & ? & ?). exists s'. by split; [apply m_alt_l|].
    + split; [intros x (s' & ? & ?)%S2; exists s'; by split; [apply m_alt_r|]|].
      intros Hn s' Hm. inversion Hm; subst; [by apply N1|by apply N2].
  - by apply star_matcher.
  - destruct (IH (λ s', k (capture n s s')) s) as [S1 N1]. split.
    + intros x (s' & Hm & Hk)%S1. exists (capture n s s'). split; [by constructor|done].
    + intros Hn s' Hm. inversion Hm; subst. by apply (N1 Hn).
  - destruct (not_ahead p s) eqn:E; split; try done; [by exists s; split; [constructor|]|..];
      intros Hn s' Hm; inversion Hm; subst; congruence.
  - destruct (at_bol s) eqn:E; split; try done; [by exists s; split; [constructor|]|..];
      intros Hn s' Hm; inversion Hm; subst; congruence.
  - destruct (at_eol s) eqn:E; split; try done; [by exists s; split; [constructor|]|..];
      intros Hn s' Hm; inversion Hm; subst; congruence.
Qed.

(** [re.fullmatch] succeeds exactly when the pattern can match the whole text. *)
Lemma fullmatches_iff r s : fullmatches r s = true ↔ ∃ s', matches r (start s) s' ∧ ahead s' = [].
Proof.
  unfold fullmatches, re_fullmatch.
  destruct (rmatch_matcher r (λ s', match ahead s' with [] => Some s' | _ => None end) (start s)) as [S1 N1].
  destruct (rmatch _ _ _) as [x|] eqn:E.
  - split; [|done]. intros _. destruct (S1 x eq_refl) as (s' & Hm & Hk). exists s'. split; [done|]. by destruct (ahead s').
  - split; [done|]. intros (s' & Hm & Ha). apply (N1 eq_refl) in Hm. by rewrite Ha in Hm.
Qed.

Lemma re_match_Some r s s' : re_match r s = Some s' → matches r (start s) s'.
Proof. intros H. apply rmatch_matcher in H as (s1 & Hm & [= <-]). done. Qed.

(** ** What the simple patterns match *)

Lemma matches_cat r1 r2 s s' : matches (Cat r1 r2) s s' ↔ ∃ s1, matches r1 s s1 ∧ matches r2 s1 s'.
Proof. split; [inversion 1; by eauto|intros (s1 & ? & ?); by econstructor]. Qed.
Lemma matches_opt r s s' : matches (Opt r) s s' → matches r s s' ∨ s' = s.
Proof. intros H. inversion H as [| | |? ? ? ? H1|? ? ? ? H1| | | | | |]; subst; [by left|]. inversion H1. by right. Qed.

(** [s'] is [s] after reading [t]. *)
Definition reads (t : list Z) (s s' : pos) : Prop := ahead s = t ++ ahead s' ∧ groups s' = groups s.

Lemma reads_nil s : reads [] s s.
Proof. done. Qed.
Lemma reads_app t1 t2 s s1 s' : reads t1 s s1 → reads t2 s1 s' → reads (t1 ++ t2) s s'.
Proof. intros [E1 G1] [E2 G2]. split; [by rewrite E1, E2, (assoc_L (++))|by rewrite G2]. Qed.
Lemma consumed_reads t s s' : ahead s = t ++ ahead s' → consumed s s' = t.
Proof. intros E. unfold consumed. rewrite E, length_app, Nat.add_sub. apply take_app_length. Qed.

Lemma step_reads p s s' : step p s = Some s' → ∃ c, p c = true ∧ reads [c] s s'.
Proof.
  unfold step, reads. destruct (ahead s) as [|c r]; [done|]. destruct (p c) eqn:E; [|done]. intros [= <-]. by exists c.
Qed.

Lemma matches_set p s s' : matches (Set_ p) s s' → ∃ c, p c = true ∧ reads [c] s s'.
Proof. inversion 1. by apply step_reads. Qed.
Lemma matches_chars l s s' : matches (chars l) s s' → reads l s s'.
Proof.
  revert s. induction l as [|c l IH]; intros s; cbn; [by inversion 1|].
  intros (s1 & (d & Hd & Hs)%matches_set & H2%IH)%matches_cat. apply Z.eqb_eq in Hd as ->. by apply (reads_app [d] l s s1).
Qed.
Lemma matches_star_set p s s' : matches (Star (Set_ p)) s s' → ∃ t, forallb p t = true ∧ reads t s s'.
Proof.
  intros H. remember (Star (Set_ p)) as r eqn:E. induction H as [| | | | |r s|r s s1 s' Hm _ _ _ IH| | | |]; try discriminate E.
  - by exists [].
  - injection E as ->. apply matches_set in Hm as (c & Hc & Hs). destruct (IH eq_refl) as (t & Ht & Ht').
    exists (c :: t). cbn [forallb]. rewrite Hc, Ht. split; [done|]. by apply (reads_app [c] t s s1).
Qed.
Lemma matches_plus_set p s s' : matches (Plus (Set_ p)) s s' → ∃ t, t ≠ [] ∧ forallb p t = true ∧ reads t s s'.
Proof.
  intros (s1 & (c & Hc & Hs)%matches_set & (t & Ht & Hr)%matches_star_set)%matches_cat.
  exists (c :: t). cbn [forallb]. rewrite Hc, Ht. split_and!; [done|done|]. by apply (reads_app [c] t s s1).
Qed.
Lemma matches_times_set n p s s' : matches (Times n (Set_ p)) s s' → ∃ t, length t = n ∧ forallb p t = true ∧ reads t s s'.
Proof.
  revert s. induction n as [|n IH]; intros s; cbn [Times]; [inversion 1; by exists []|].
  intros (s1 & (c & Hc & Hs)%matches_set & (t & <- & Ht & Hr)%IH)%matches_cat.
  exists (c :: t). cbn [forallb]. rewrite Hc, Ht. split_and!; [done|done|]. by apply (reads_app [c] t s s1).
Qed.
Lemma matches_upto_set n p s s' : matches (UpTo n (Set_ p)) s s' → ∃ t, (length t ≤ n)%nat ∧ forallb p t = true ∧ reads t s s'.
Proof.
  revert s. induction n as [|n IH]; intros s; cbn [UpTo]; [inversion 1; by exists []|].
  intros [(s1 & (c & Hc & Hs)%matches_set & (t & Hl & Ht & Hr)%IH)%matches_cat| ->]%matches_opt; [|exists []; split_and!; [simpl; lia|done..]].
  exists (c :: t). cbn [forallb]. rewrite Hc, Ht. split_and!; [simpl; lia|done|]. by apply (reads_app [c] t s s1).
Qed.
Lemma matches_between_set m n p s s' : matches (Between m n (Set_ p)) s s' →
  ∃ t, (m ≤ length t ≤ m + n)%nat ∧ forallb p t = true ∧ reads t s s'.
Proof.
  intros (s1 & (t & <- & Ht & Hr)%matches_times_set & (t' & Hl & Ht' & Hr')%matches_upto_set)%matches_cat.
  exists (t ++ t'). rewrite forallb_app, Ht, Ht', length_app. split_and!; [lia|lia|done|by apply (reads_app t t' s s1)].
Qed.
(** A group that holds a pattern without groups captures what it reads. *)
Lemma matches_group n r s s' : matches (Group n r) s s' → ∃ s1, matches r s s1 ∧ s' = capture n s s1.
Proof. inversion 1; subst. by eauto. Qed.

(** ** How the matcher gets through them *)

(** [s] after reading [t]. *)
Definition skip (t : list Z) (s : pos) : pos :=
  Pos (fold_left (λ _ c, Some c) t (before s)) (drop (length t) (ahead s)) (groups s).

Lemma skip_reads t r s : ahead s = t ++ r → reads t s (skip t s) ∧ ahead (skip t s) = r.
Proof. intros E. unfold reads, skip. cbn [ahead groups]. by rewrite E, drop_app_length. Qed.

Definition stops (p : Z → bool) (r : list Z) : Prop := match r with c :: _ => p c = false | [] => True end.

Lemma rmatch_cat {A} r1 r2 (k : pos → option A) s : rmatch (Cat r1 r2) k s = rmatch r1 (rmatch r2 k) s.
Proof. done. Qed.
Lemma rmatch_group {A} n r (k : pos → option A) s : rmatch (Group n r) k s = rmatch r (λ s', k (capture n s s')) s.
Proof. done. Qed.
Lemma rmatch_bol {A} (k : pos → option A) s : at_bol s = true → rmatch Bol k s = k s.
Proof. intros H. cbn [rmatch]. by rewrite H. Qed.
Lemma rmatch_not_ahead {A} p (k : pos → option A) s : stops p (ahead s) → rmatch (NotAhead p) k s = k s.
Proof. intros H. cbn [rmatch]. unfold not_ahead. destruct (ahead s) as [|c r]; [done|]. cbn in H. by rewrite H. Qed.
Lemma rmatch_opt {A} r (k : pos → option A) s x : rmatch r k s = Some x → rmatch (Opt r) k s = Some x.
Proof. intros H. cbn [Opt rmatch]. unfold Opt. cbn [rmatch]. by rewrite H. Qed.
Lemma rmatch_opt_None {A} r (k : pos → option A) s : rmatch r k s = None → rmatch (Opt r) k s = k s.
Proof. intros H. unfold Opt. cbn [rmatch]. by rewrite H. Qed.

Lemma skip_app t1 t2 s : skip (t1 ++ t2) s = skip t2 (skip t1 s).
Proof. unfold skip. cbn. by rewrite fold_left_app, length_app, drop_drop. Qed.
Lemma rmatch_set {A} p (k : pos → option A) s c r : ahead s = c :: r → p c = true → rmatch (Set_ p) k s = k (skip [c] s).
Proof. intros E Hc. cbn [rmatch]. unfold step, skip. rewrite E, Hc. done. Qed.

Lemma rmatch_chars {A} l (k : pos → option A) s r : ahead s = l ++ r → rmatch (chars l) k s = k (skip l s).
Proof.
  revert s. induction l as [|c l IH]; intros s E; [by destruct s|].
  change (rmatch (chars (c :: l)) k s) with (rmatch (Set_ (Z.eqb c)) (rmatch (chars l) k) s).
  rewrite (rmatch_set _ _ s c (l ++ r)); [|done|apply Z.eqb_refl]. rewrite IH; [by rewrite <- skip_app|].
  by apply (skip_reads [c]).
Qed.
Lemma rmatch_chars_None {A} l (k : pos → option A) s : strip_prefix l (ahead s) = None → rmatch (chars l) k s = None.
Proof.
  revert s. induction l as [|c l IH]; intros s; [done|].
  change (rmatch (chars (c :: l)) k s) with (s' ← step (Z.eqb c) s; rmatch (chars l) k s'). unfold step.
  cbn [strip_prefix]. destruct (ahead s) as [|d r]; [done|]. destruct (c =? d) eqn:E; [|done]. intros H. by apply IH.
Qed.

Lemma rmatch_star_set {A} p (k : pos → option A) s t r x :
  ahead s = t ++ r → forallb p t = true → stops p r → k (skip t s) = Some x → rmatch (Star (Set_ p)) k s = Some x.
Proof.
  intros E Ht Hr Hk. change (rmatch (Star (Set_ p)) k s) with (star_loop (rmatch (Set_ p)) k (length (ahead s)) s).
  assert (Hl : (length t ≤ length (ahead s))%nat) by (rewrite E, length_app; lia). revert Hl.
  generalize (length (ahead s)) as fuel. intros fuel. revert fuel s E Hk.
  induction t as [|c t IH]; intros fuel s E Hk Hl.
  - assert (step p s = None) as Hs by (unfold step; rewrite E; destruct r as [|c r]; [done|]; cbn; by rewrite Hr).
    destruct fuel; cbn [star_loop rmatch]; [by destruct s|]. rewrite Hs. cbn. by destruct s.
  - cbn in Ht. apply andb_true_iff in Ht as [Hc Ht]. destruct fuel as [|fuel]; [simpl in Hl; lia|].
    cbn [star_loop]. rewrite (rmatch_set p _ s c (t ++ r)); [|done..].
    destruct (skip_reads [c] (t ++ r) s E) as [_ E']. unfold shorter. rewrite E', E. cbn [app length].
    rewrite (proj2 (Nat.ltb_lt _ _)); [|lia].
    rewrite (IH Ht fuel); [done|done|by rewrite <- skip_app|simpl in Hl; lia].
Qed.
Lemma rmatch_plus_set {A} p (k : pos → option A) s t r x :
  ahead s = t ++ r → t ≠ [] → forallb p t = true → stops p r → k (skip t s) = Some x → rmatch (Plus (Set_ p)) k s = Some x.
Proof.
  intros E Hn Ht Hr Hk. destruct t as [|c t]; [done|]. cbn [forallb] in Ht. apply andb_true_iff in Ht as [Hc Ht].
  change (rmatch (Plus (Set_ p)) k s) with (rmatch (Set_ p) (rmatch (Star (Set_ p)) k) s).
  rewrite (rmatch_set p _ s c (t ++ r)); [|done..]. apply (rmatch_star_set p k _ t r); [|done|done|by rewrite <- skip_app].
  by apply (skip_reads [c]).
Qed.
Lemma rmatch_times_set {A} n p (k : pos → option A) s t r :
  ahead s = t ++ r → length t = n → forallb p t = true → rmatch (Times n (Set_ p)) k s = k (skip t s).
Proof.
  revert n s. induction t as [|c t IH]; intros n s E <- Ht; [by destruct s|].
  cbn [forallb] in Ht. apply andb_true_iff in Ht as [Hc Ht]. cbn [length Times].
  change (rmatch (Cat (Set_ p) (Times (length t) (Set_ p))) k s) with (rmatch (Set_ p) (rmatch (Times (length t) (Set_ p)) k) s).
  rewrite (rmatch_set p _ s c (t ++ r)); [|done..]. rewrite IH; [by rewrite <- skip_app|by apply (skip_reads [c])|done|done].
Qed.
Lemma rmatch_upto_set {A} n p (k : pos → option A) s t r x :
  ahead s = t ++ r → (length t ≤ n)%nat → forallb p t = true → stops p r → k (skip t s) = Some x →
  rmatch (UpTo n (Set_ p)) k s = Some x.
Proof.
  revert n s. induction t as [|c t IH]; intros n s E Hl Ht Hr Hk.
  - assert (k s = Some x) as Hk' by (rewrite <- Hk; by destruct s).
    destruct n as [|n]; [done|]. cbn [UpTo Opt rmatch]. unfold step. rewrite E.
    destruct r as [|c r]; [done|]. cbn [app]. by rewrite Hr.
  - cbn [forallb] in Ht. apply andb_true_iff in Ht as [Hc Ht]. destruct n as [|n]; [simpl in Hl; lia|].
    cbn [UpTo Opt]. unfold Opt.
    change (rmatch (Alt (Cat (Set_ p) (UpTo n (Set_ p))) Eps) k s)
      with (match rmatch (Set_ p) (rmatch (UpTo n (Set_ p)) k) s with Some x => Some x | None => k s end).
    rewrite (rmatch_set p _ s c (t ++ r)); [|done..].
    rewrite (IH n); [done|by apply (skip_reads [c])|simpl in Hl; lia|done|done|by rewrite <- skip_app].
Qed.
Lemma rmatch_between_set {A} m n p (k : pos → option A) s t r x :
  ahead s = t ++ r → (m ≤ length t ≤ m + n)%nat → forallb p t = true → stops p r → k (skip t s) = Some x →
  rmatch (Between m n (Set_ p)) k s = Some x.
Proof.
  intros E Hl Ht Hr Hk. rewrite <- (take_drop m t) in E, Ht, Hk. rewrite forallb_app in Ht. apply andb_true_iff in Ht as [H1 H2].
  rewrite <- (assoc_L (++)) in E.
  change (rmatch (Between m n (Set_ p)) k s) with (rmatch (Times m (Set_ p)) (rmatch (UpTo n (Set_ p)) k) s).
  rewrite (rmatch_times_set m p _ s (take m t) (drop m t ++ r)); [|done|rewrite length_take; lia|done].
  eapply rmatch_upto_set; [by apply (skip_reads (take m t) (drop m t ++ r))|rewrite length_drop; lia|done|done|].
  by rewrite <- skip_app.
Qed.
