(* ===== verification/Script.v ===== *)
(** * Script: what the repository's command-line tools are written in

    The tools under [scripts/] run commands, print lines and end in an exit code. A computation threads a state
    (what was run and printed), and ends in a value, in the tool's own failure, which its [except] clauses
    name, or in another Python exception, which they let through. The [str] and [bytes] methods the tools
    use come first. *)

From stdpp Require Import base list numbers option strings.
From S2P Require Import Prelude Text Keys.

(** ** Text *)

(** [str.isspace] of one character, and the ASCII white space of [bytes.strip]. *)
Definition py_space (c : Z) : bool :=
  ((9 <=? c) && (c <=? 13)) || ((28 <=? c) && (c <=? 32)) || (c =? 133) || (c =? 160) || (c =? 5760)
  || ((8192 <=? c) && (c <=? 8202)) || (c =? 8232) || (c =? 8233) || (c =? 8239) || (c =? 8287) || (c =? 12288).
Definition ascii_space (c : Z) : bool := (c =? 32) || ((9 <=? c) && (c <=? 13)).

Fixpoint lstrip_by (p : Z → bool) (s : list Z) : list Z :=
  match s with c :: r => if p c then lstrip_by p r else s | [] => [] end.
Definition strip_by (p : Z → bool) (s : list Z) : list Z := rev (lstrip_by p (rev (lstrip_by p s))).
(** [s.strip()] of a [str] and of [bytes] *)
Definition str_strip : pystr → pystr := strip_by py_space.
Definition bytes_strip : bytes → bytes := strip_by ascii_space.

(** [s.split()]: the words between runs of white space; [w] is the word being read, last character first. *)
Fixpoint words_from (w : pystr) (s : pystr) : list pystr :=
  match s with
  | [] => match w with [] => [] | _ => [rev w] end
  | c :: r => if py_space c then match w with [] => words_from [] r | _ => rev w :: words_from [] r end
              else words_from (c :: w) r
  end.
Definition str_split : pystr → list pystr := words_from [].

(** [s.split(sep)] for one character *)
Fixpoint split_on (sep : Z) (s : list Z) : list (list Z) :=
  match s with
  | [] => [[]]
  | c :: r =>
    if c =? sep then [] :: split_on sep r
    else match split_on sep r with h :: t => (c :: h) :: t | [] => [[c]] end
  end.

(** [s.splitlines()]: the line boundaries of [str], a carriage return and a newline being one. *)
Definition line_break (c : Z) : bool :=
  ((10 <=? c) && (c <=? 13)) || ((28 <=? c) && (c <=? 30)) || (c =? 133) || (c =? 8232) || (c =? 8233).
Fixpoint lines_from (cr : bool) (w : pystr) (s : pystr) : list pystr :=
  match s with
  | [] => match w with [] => [] | _ => [rev w] end
  | c :: r =>
    if cr && (c =? 10) then lines_from false w r
    else if line_break c then rev w :: lines_from (c =? 13) [] r
    else lines_from false (c :: w) r
  end.
Definition splitlines : pystr → list pystr := lines_from false [].

(** [\d] of a [str] pattern: the decimal digits of Unicode (14.0, the tables of Python 3.11), each block starting at
    its zero, and the number [int] reads from a text of them. *)
Definition decimal_zeros : list Z :=
 [48; 1632; 1776; 1984; 2406; 2534; 2662; 2790; 2918; 3046; 3174; 3302; 3430; 3558; 3664; 3792; 3872; 4160;
  4240; 6112; 6160; 6470; 6608; 6784; 6800; 6992; 7088; 7232; 7248; 42528; 43216; 43264; 43472; 43504; 43600;
  44016; 65296; 66720; 68912; 69734; 69872; 69942; 70096; 70384; 70736; 70864; 71248; 71360; 71472; 71904;
  72016; 72784; 73040; 73120; 92768; 92864; 93008; 120782; 120792; 120802; 120812; 120822; 123200; 123632;
  125264; 130032].
Definition decimal (c : Z) : option Z := (λ z, c - z) <$> List.find (λ z, (z <=? c) && (c <=? z + 9)) decimal_zeros.
Definition is_decimal (c : Z) : bool := match decimal c with Some _ => true | None => false end.
Definition decimal_value (s : pystr) : Z := fold_left (λ acc c, acc * 10 + default 0 (decimal c)) s 0.
Definition int_of_decimals (s : pystr) : res Z := if MAX_STR_DIGITS <? zlen s then Raise ValueError else Ok (decimal_value s).

Definition starts_with (p s : list Z) : bool := match strip_prefix p s with Some _ => true | None => false end.
Definition removeprefix (p s : list Z) : list Z := match strip_prefix p s with Some r => r | None => s end.

(** [s.find(sub)] *)
Fixpoint find_sub (sub s : list Z) : option nat :=
  match strip_prefix sub s, s with
  | Some _, _ => Some 0%nat
  | None, c :: r => S <$> find_sub sub r
  | None, [] => None
  end.

Lemma starts_with_app p s : starts_with p (p ++ s) = true.
Proof. unfold starts_with. by rewrite strip_prefix_app. Qed.
Lemma starts_with_true p s : starts_with p s = true ↔ ∃ r, s = p ++ r.
Proof.
  unfold starts_with. destruct (strip_prefix p s) as [r|] eqn:E.
  - split; [|done]. intros _. exists r. by apply strip_prefix_Some.
  - split; [done|]. intros [r ->]. by rewrite strip_prefix_app in E.
Qed.

(** [sub] starts at the position [find] gives, and at none before it. *)
Lemma find_sub_spec sub s n : find_sub sub s = Some n ↔
  starts_with sub (drop n s) = true ∧ (n ≤ length s)%nat ∧ ∀ i, (i < n)%nat → starts_with sub (drop i s) = false.
Proof.
  revert n. unfold starts_with. induction s as [|c s IH]; intros n; cbn [find_sub].
  - destruct (strip_prefix sub []) eqn:E; split.
    + intros [= <-]. split_and!; [by rewrite drop_0, E|done|lia].
    + intros (_ & Hn & _). cbn in Hn. assert (n = 0%nat) as -> by lia. done.
    + done.
    + by rewrite drop_nil, E; intros [? _].
  - destruct (strip_prefix sub (c :: s)) eqn:E; split.
    + intros [= <-]. split_and!; [by rewrite drop_0, E|simpl; lia|lia].
    + intros (_ & _ & Hb). destruct n as [|n]; [done|]. specialize (Hb 0%nat ltac:(lia)). by rewrite drop_0, E in Hb.
    + intros (m & Hm & ->)%fmap_Some. apply IH in Hm as (H1 & H2 & H3). split_and!; [by apply H1|simpl; lia|].
      intros [|i] Hi; cbn [drop]; [by rewrite E|]. apply H3. lia.
    + intros (H1 & H2 & H3). destruct n as [|n]; [by rewrite drop_0, E in H1|].
      apply fmap_Some. exists n. split; [|done]. apply IH. split_and!; [by apply H1|simpl in H2; lia|].
      intros i Hi. apply (H3 (S i)). lia.
Qed.

(** ** Occurrences *)

(** [sub in s] *)
Fixpoint contains_sub (sub s : list Z) : bool :=
  match strip_prefix sub s, s with
  | Some _, _ => true
  | None, _ :: r => contains_sub sub r
  | None, [] => false
  end.

(** [s.replace(old, new)]: every occurrence, from the left, none of them twice. *)
Fixpoint replace_from (fuel : nat) (old new s : list Z) : list Z :=
  match fuel with
  | O => s
  | S fuel =>
    match find_sub old s with
    | None => s
    | Some i => take i s ++ new ++ replace_from fuel old new (drop (i + length old) s)
    end
  end.
(** for an [old] that is not empty *)
Definition str_replace (old new s : list Z) : list Z := replace_from (length s) old new s.

(** [w] stands somewhere in [s]. *)
Definition occurs (w s : list Z) : Prop := ∃ a b, s = a ++ w ++ b.

Lemma contains_sub_iff w s : contains_sub w s = true ↔ occurs w s.
Proof.
  induction s as [|c s IH]; cbn [contains_sub].
  - destruct (strip_prefix w []) as [r|] eqn:E; split; try done.
    + intros _. apply strip_prefix_Some in E as ->. by exists [], r.
    + intros ([|] & b & E'); [|done]. cbn in E'. by rewrite E', strip_prefix_app in E.
  - destruct (strip_prefix w (c :: s)) as [r|] eqn:E; split; try done.
    + intros _. apply strip_prefix_Some in E as ->. by exists [], r.
    + intros (a & b & ->)%IH. by exists (c :: a), b.
    + intros ([|d a] & b & E'); cbn in E'; [by rewrite E', strip_prefix_app in E|]. injection E' as <- ->. apply IH. by exists a, b.
Qed.
Global Instance occurs_dec w s : Decision (occurs w s).
Proof. refine (cast_if (decide (contains_sub w s = true))); rewrite <- contains_sub_iff; done. Defined.

Lemma occurs_app_l w x y : occurs w x → occurs w (x ++ y).
Proof. intros (a & b & ->). exists a, (b ++ y). by rewrite <- !(assoc_L (++)). Qed.
Lemma occurs_app_r w x y : occurs w y → occurs w (x ++ y).
Proof. intros (a & b & ->). exists (x ++ a), b. by rewrite (assoc_L (++) x). Qed.

(** A character [w] does not have keeps what stands before it apart from what stands after it. *)
Lemma occurs_apart w x d y : d ∉ w → w ≠ [] → occurs w (x ++ d :: y) → occurs w x ∨ occurs w y.
Proof.
  intros Hd Hw (a & b & E). apply app_eq_inv in E as [(k & -> & E)|(k & -> & E)].
  - apply app_eq_inv in E as [(k' & -> & E)|(k' & -> & E)].
    + destruct k' as [|e k']; [left; exists a, []; by rewrite !app_nil_r|]. injection E as <- _.
      exfalso. apply Hd. rewrite elem_of_app. right. by left.
    + left. by exists a, k'.
  - destruct k as [|e k]; cbn in E.
    + destruct w as [|e w]; [done|]. injection E as <- _. exfalso. apply Hd. by left.
    + injection E as <- ->. right. by exists k, b.
Qed.

(** A word with no character of the label's ends, and not inside the label: replacing by the label does not make it,
    and replacing it leaves none of it. *)
Section replace.
Context (w : list Z) (l r : Z) (mid : list Z) (Hw : w ≠ []) (Hl : l ∉ w) (Hr : r ∉ w) (Hmid : ¬ occurs w mid).
Let label : list Z := l :: mid ++ [r].

Lemma occurs_around x y : occurs w (x ++ label ++ y) → occurs w x ∨ occurs w y.
Proof.
  unfold label. cbn [app]. rewrite <- (assoc_L (++)). intros [?|H]%occurs_apart; [by left| |done..].
  cbn [app] in H. apply occurs_apart in H as [?|?]; [done|by right|done..].
Qed.

Lemma occurs_drop n s : occurs w (drop n s) → occurs w s.
Proof. intros H. rewrite <- (take_drop n s). by apply occurs_app_r. Qed.
Lemma occurs_take n s : occurs w (take n s) → occurs w s.
Proof. intros H. rewrite <- (take_drop n s). by apply occurs_app_l. Qed.

Lemma replace_keeps_out old s : ¬ occurs w s → ¬ occurs w (str_replace old label s).
Proof.
  unfold str_replace. generalize (length s) as fuel. intros fuel. revert s.
  induction fuel as [|fuel IH]; intros s Hs; cbn [replace_from]; [done|].
  destruct (find_sub old s) as [i|]; [|done]. intros [?%occurs_take|H]%occurs_around; [done|].
  revert H. apply IH. by intros ?%occurs_drop.
Qed.

Lemma replace_leaves_none s : ¬ occurs w (str_replace w label s).
Proof.
  unfold str_replace. assert (Hlen : (length s ≤ length s)%nat) by done. revert Hlen. generalize (length s) at 2 3 as fuel.
  intros fuel. revert s. induction fuel as [|fuel IH]; intros s Hlen; cbn [replace_from].
  - destruct s; [|simpl in Hlen; lia]. intros ([|] & b & E); [|done]. by destruct w.
  - destruct (find_sub w s) as [i|] eqn:E.
    + apply find_sub_spec in E as (H1 & H2 & H3). intros [H|H]%occurs_around.
      * destruct H as (a & b & Et). specialize (H3 (length a)).
        assert (Ha : (length a < i)%nat).
        { apply (f_equal length) in Et. rewrite length_take, !length_app in Et. destruct w; [done|]. simpl in Et. lia. }
        specialize (H3 Ha). rewrite <- (take_drop i s), Et, <- !(assoc_L (++)), drop_app_length in H3.
        by rewrite starts_with_app in H3.
      * revert H. apply IH. rewrite length_drop. destruct w; [done|]. simpl. lia.
    + intros Ho. apply contains_sub_iff in Ho. clear -E Ho. induction s as [|c s IH]; cbn in *.
      * destruct (strip_prefix w []); done.
      * destruct (strip_prefix w (c :: s)); [done|]. destruct (find_sub w s); [done|]. by apply IH.
Qed.
End replace.

Create HintDb script.

(** ** Computations *)

(** A value, the tool's own failure, or the exception that escapes it. *)
Inductive outcome (X A : Type) := Done (a : A) | Failed (x : X) | Escaped (e : exn).
Arguments Done {X A} a.
Arguments Failed {X A} x.
Arguments Escaped {X A} e.

Definition Script (S X A : Type) : Type := S → outcome X A * S.

Global Instance script_ret {S X} : MRet (Script S X) := λ A a s, (Done a, s).
Global Instance script_bind {S X} : MBind (Script S X) := λ A B k m s,
  match m s with
  | (Done a, s) => k a s
  | (Failed x, s) => (Failed x, s)
  | (Escaped e, s) => (Escaped e, s)
  end.
Global Instance script_fmap {S X} : FMap (Script S X) := λ A B f m s,
  match m s with
  | (Done a, s) => (Done (f a), s)
  | (Failed x, s) => (Failed x, s)
  | (Escaped e, s) => (Escaped e, s)
  end.

Section script.
Context {S X : Type}.

Definition fail {A} (x : X) : Script S X A := λ s, (Failed x, s).
Definition of_res {A} (r : res A) : Script S X A := λ s, (match r with Ok a => Done a | Raise e => Escaped e end, s).
Definition require (b : bool) (x : X) : Script S X () := if b then mret () else fail x.
(** [except] the tool's failure. *)
Definition handling {A} (m : Script S X A) (h : X → Script S X A) : Script S X A := λ s,
  match m s with (Failed x, s) => h x s | r => r end.
Definition modify (f : S → S) : Script S X () := λ s, (Done (), f s).
Fixpoint each {A} (f : A → Script S X ()) (l : list A) : Script S X () :=
  match l with [] => mret () | a :: l => _ ← f a; each f l end.

Lemma bind_Done {A B} (m : Script S X A) (k : A → Script S X B) s b s' :
  (m ≫= k) s = (Done b, s') ↔ ∃ a s1, m s = (Done a, s1) ∧ k a s1 = (Done b, s').
Proof.
  unfold mbind, script_bind. destruct (m s) as [[a|x|e] s1]; split; [by eauto| |done| |done|]; naive_solver.
Qed.
Lemma bind_Failed {A B} (m : Script S X A) (k : A → Script S X B) s x s' :
  (m ≫= k) s = (Failed x, s') ↔ m s = (Failed x, s') ∨ ∃ a s1, m s = (Done a, s1) ∧ k a s1 = (Failed x, s').
Proof. unfold mbind, script_bind. destruct (m s) as [[a|y|e] s1]; naive_solver. Qed.
Lemma fmap_Done {A B} (m : Script S X A) (f : A → B) s b s' :
  (f <$> m) s = (Done b, s') ↔ ∃ a, m s = (Done a, s') ∧ b = f a.
Proof. unfold fmap, script_fmap. destruct (m s) as [[a|x|e] s1]; naive_solver. Qed.
Lemma require_Done b x s u s' : require b x s = (Done u, s') ↔ b = true ∧ s' = s.
Proof. unfold require, fail, mret, script_ret. destruct b, u; naive_solver. Qed.
Lemma handling_Done {A} (m : Script S X A) h s a s' :
  handling m h s = (Done a, s') ↔ m s = (Done a, s') ∨ ∃ x s1, m s = (Failed x, s1) ∧ h x s1 = (Done a, s').
Proof. unfold handling. destruct (m s) as [[b|x|e] s1]; naive_solver. Qed.
Lemma ret_Done {A} (a b : A) s s' : (mret a : Script S X A) s = (Done b, s') ↔ b = a ∧ s' = s.
Proof. unfold mret, script_ret. naive_solver. Qed.
Lemma of_res_Done {A} (r : res A) s a s' : of_res r s = (Done a, s') ↔ r = Ok a ∧ s' = s.
Proof. unfold of_res. destruct r; naive_solver. Qed.

(** A computation that never ends in the tool's own failure. *)
Definition unfailing {A} (m : Script S X A) : Prop := ∀ s x s', m s ≠ (Failed x, s').

Lemma unfailing_bind {A B} (m : Script S X A) (k : A → Script S X B) : unfailing m → (∀ a, unfailing (k a)) → unfailing (m ≫= k).
Proof.
  intros Hm Hk s x s' E. unfold mbind, script_bind in E. destruct (m s) as [[a|y|e] s1] eqn:Es; [|by eapply Hm|done]. by eapply Hk.
Qed.
Lemma unfailing_fmap {A B} (m : Script S X A) (f : A → B) : unfailing m → unfailing (f <$> m).
Proof. intros Hm s x s' E. unfold fmap, script_fmap in E. destruct (m s) as [[a|y|e] s1] eqn:Es; [done|by eapply Hm|done]. Qed.
Lemma unfailing_ret {A} (a : A) : unfailing (mret a).
Proof. by intros s x s'. Qed.
Lemma unfailing_of_res {A} (r : res A) : unfailing (of_res r).
Proof. unfold of_res. intros s x s'. by destruct r. Qed.
Lemma unfailing_modify f : unfailing (modify f).
Proof. by intros s x s'. Qed.
Lemma unfailing_each {A} (f : A → Script S X ()) l : (∀ a, unfailing (f a)) → unfailing (each f l).
Proof. intros Hf. induction l as [|a l IH]; cbn [each]; [apply unfailing_ret|]. apply unfailing_bind; [done|by intros _]. Qed.
Lemma unfailing_handling {A} (m : Script S X A) h : (∀ x, unfailing (h x)) → unfailing (handling m h).
Proof.
  intros Hh s x s' E. unfold handling in E. destruct (m s) as [[a|y|e] s1]; [done| |done]. by eapply Hh.
Qed.

(** ** What a computation does to the state, whatever it ends in *)

Section keeps.
Context (R : S → S → Prop) `{!PreOrder R}.

Definition keeps {A} (m : Script S X A) : Prop := ∀ s, R s (m s).2.

Lemma keeps_bind {A B} (m : Script S X A) (k : A → Script S X B) : keeps m → (∀ a, keeps (k a)) → keeps (m ≫= k).
Proof.
  intros Hm Hk s. specialize (Hm s). unfold mbind, script_bind. destruct (m s) as [[a|x|e] s1]; cbn in *; try done.
  etrans; [exact Hm|apply Hk].
Qed.
Lemma keeps_fmap {A B} (m : Script S X A) (f : A → B) : keeps m → keeps (f <$> m).
Proof. intros Hm s. specialize (Hm s). unfold fmap, script_fmap. by destruct (m s) as [[a|x|e] s1]. Qed.
Lemma keeps_ret {A} (a : A) : keeps (mret a).
Proof. by intros s. Qed.
Lemma keeps_fail {A} x : keeps (fail (A := A) x).
Proof. by intros s. Qed.
Lemma keeps_of_res {A} (r : res A) : keeps (of_res r).
Proof. by intros s. Qed.
Lemma keeps_require b x : keeps (require b x).
Proof. unfold require. destruct b; [apply keeps_ret|apply keeps_fail]. Qed.
Lemma keeps_handling {A} (m : Script S X A) h : keeps m → (∀ x, keeps (h x)) → keeps (handling m h).
Proof.
  intros Hm Hh s. specialize (Hm s). unfold handling. destruct (m s) as [[a|x|e] s1]; cbn in *; try done.
  etrans; [exact Hm|apply Hh].
Qed.
Lemma keeps_each {A} (f : A → Script S X ()) l : (∀ a, keeps (f a)) → keeps (each f l).
Proof. intros Hf. induction l as [|a l IH]; cbn [each]; [apply keeps_ret|]. apply keeps_bind; [done|by intros _]. Qed.

Lemma keeps_step {A} (m : Script S X A) s o s' : keeps m → m s = (o, s') → R s s'.
Proof. intros Hk E. specialize (Hk s). by rewrite E in Hk. Qed.

(** [m] answered [a] at some point between [s] and [s']. *)
Definition obtained {A} (s s' : S) (m : Script S X A) (a : A) : Prop := ∃ s0 s1, R s s0 ∧ m s0 = (Done a, s1) ∧ R s1 s'.

Lemma obtained_wider {A} s0 s1 s s' (m : Script S X A) a : R s s0 → R s1 s' → obtained s0 s1 m a → obtained s s' m a.
Proof. intros H0 H1 (x & y & Hx & Hm & Hy). exists x, y. split_and!; [by etrans|done|by etrans]. Qed.
End keeps.
End script.

(** Follow the steps of a run, each of them a hypothesis [R s s']. *)
Ltac chain := first [reflexivity | eassumption | etrans; [eassumption|chain]].
Ltac obtain := eexists _, _; split_and!; [|eassumption|]; chain.

#[export] Hint Resolve keeps_ret keeps_fail keeps_of_res keeps_require : script.

(** Break every hypothesis that says a computation ended in a value. *)
Ltac inv_done :=
  repeat match goal with
  | H : (_ ≫= _) _ = (Done _, _) |- _ => apply bind_Done in H as (? & ? & ? & ?)
  | H : (_ <$> _) _ = (Done _, _) |- _ => apply fmap_Done in H as (? & ? & ?)
  | H : require _ _ _ = (Done _, _) |- _ => apply require_Done in H as [? ->]
  | H : of_res _ _ = (Done _, _) |- _ => apply of_res_Done in H as [? ->]
  | H : mret _ _ = (Done _, _) |- _ => apply ret_Done in H as [? ->]
  | H : fail _ _ = (Done _, _) |- _ => discriminate H
  | u : unit |- _ => destruct u
  end; simplify_eq.

(** Reduce [keeps R m] to the parts of [m]. *)
Ltac keep := repeat match goal with
  | |- ∀ _, _ => intros
  | |- keeps _ (_ ≫= _) => apply keeps_bind
  | |- keeps _ (_ <$> _) => apply keeps_fmap
  | |- keeps _ (mret _) => apply keeps_ret
  | |- keeps _ (fail _) => apply keeps_fail
  | |- keeps _ (of_res _) => apply keeps_of_res
  | |- keeps _ (require _ _) => apply keeps_require
  | |- keeps _ (handling _ _) => apply keeps_handling
  | |- keeps _ (each _ _) => apply keeps_each
  | |- keeps _ (match _ with _ => _ end) => case_match
  | |- PreOrder _ => apply _
  | H : keeps _ ?m |- keeps _ ?m => exact H
  end.

(** ** Computations whose value does not depend on the state *)

Section yields.
Context {S X : Type}.

Definition yields {A} (m : Script S X A) (a : A) : Prop := ∀ s, ∃ s', m s = (Done a, s').

Lemma yields_Done {A} (m : Script S X A) a b s s' : yields m a → m s = (Done b, s') → b = a.
Proof. intros Hm H. destruct (Hm s) as [s1 H1]. congruence. Qed.
Lemma yields_bind {A B} (m : Script S X A) (k : A → Script S X B) a b : yields m a → yields (k a) b → yields (m ≫= k) b.
Proof. intros Hm Hk s. destruct (Hm s) as [s1 E]. destruct (Hk s1) as [s2 E2]. exists s2. apply bind_Done. by eauto. Qed.
Lemma yields_fmap {A B} (m : Script S X A) (f : A → B) a : yields m a → yields (f <$> m) (f a).
Proof. intros Hm s. destruct (Hm s) as [s1 E]. exists s1. apply fmap_Done. by eauto. Qed.
Lemma yields_ret {A} (a : A) : yields (mret a) a.
Proof. intros s. by exists s. Qed.
Lemma yields_require x : yields (require true x) ().
Proof. intros s. by exists s. Qed.
Lemma yields_of_res {A} (r : res A) a : r = Ok a → yields (of_res r) a.
Proof. intros -> s. by exists s. Qed.
End yields.

#[export] Hint Resolve yields_ret yields_require yields_of_res : script.
