(* ===== verification/Citations.v ===== *)
(** * Citations: shifting the changelog's citations ([scripts/shift_changelog_citations.py])

    A release inserts lines into the changelog, and every [CHANGELOG.md:N] or [CHANGELOG.md:A-B] of the documents
    that cites a line below them has to move along. A text is read as a list of citations and other
    characters ([reads_as]); the script moves the citations past a line and changes nothing else. *)

From stdpp Require Import base list numbers option strings gmap.
From S2P Require Import Prelude Text Keys Regex Script.

(** ** One text *)

Local Open Scope regex_scope.
Definition CITE : regex :=
  text "CHANGELOG.md:" ▷ Group 1 (Plus (Set_ is_decimal)) ▷ Opt (Chr 45 ▷ Group 2 (Plus (Set_ is_decimal))).
Local Close Scope regex_scope.

Definition moved (after delta n : Z) : Z := if after <? n then n + delta else n.

(** [str(n)], which refuses the integers [int] would refuse to read. *)
Definition line_text (n : Z) : res pystr :=
  if MAX_STR_DIGITS <? zlen (str_of_int (Z.abs n)) then Raise ValueError else Ok (str_of_int n).

(** [repl]: the new text of a match, and whether it is one more change. *)
Definition repl (after delta : Z) (whole : pystr) (m : list (nat * list Z)) : res (pystr * nat) :=
  a ← int_of_decimals (default [] (find_group 1 m));
  b ← (match find_group 2 m with
       | Some ((_ :: _) as t) => Some <$> int_of_decimals t
       | _ => Ok None
       end);
  let na := moved after delta a in
  let nb := moved after delta <$> b in
  if bool_decide (na = a) && bool_decide (nb = b) then Ok (whole, 0%nat)
  else
    ta ← line_text na;
    tb ← (match nb with None => Ok [] | Some nb => cons 45 <$> line_text nb end);
    Ok (lit "CHANGELOG.md:" ++ ta ++ tb, 1%nat).

Definition shift_piece (after delta : Z) (p : piece) : res (pystr * nat) :=
  match p with Kept c => Ok ([c], 0%nat) | Found t gs => repl after delta t gs end.

(** [CITE.sub(repl, text), changed] *)
Definition shift_text (text : pystr) (after delta : Z) : res (pystr * nat) :=
  l ← mapM (shift_piece after delta) (pieces CITE text);
  Ok (concat l.*1, sum_list l.*2).

(** ** The documents *)

(** Files by name, and the lines printed: [Some (n, name)] for a shifted document, [None] for none. *)
Record State := MkState { files : gmap pystr bytes; printed : list (option (nat * pystr)) }.
Abbreviation C := (Script State ()).

Definition DOCS : list pystr := lit <$> ["COMPATIBILITY.md"; "DECISIONS.md"; "PROGRESS.md"]%string.

Definition write_text (name : pystr) (new : pystr) : C () :=
  b ← of_res (utf8_encode new); modify (λ s, MkState (<[name := b]> (files s)) (printed s)).
Definition say (l : option (nat * pystr)) : C () := modify (λ s, MkState (files s) (printed s ++ [l])).

(** One document: how many citations moved; a file that is missing is passed over. *)
Definition shift_doc (after delta : Z) (name : pystr) : C nat := λ s,
  match files s !! name with
  | None => (Done 0%nat, s)
  | Some b =>
    (text ← of_res (universal_newlines <$> utf8_decode b);
     '(new, n) ← of_res (shift_text text after delta);
     match n with
     | O => mret 0%nat
     | S _ => _ ← write_text name new; _ ← say (Some (n, name)); mret n
     end) s
  end.

Fixpoint shift_docs (after delta : Z) (names : list pystr) (total : nat) : C nat :=
  match names with
  | [] => mret total
  | name :: names => n ← shift_doc after delta name; shift_docs after delta names (total + n)
  end.

(** [main], its arguments parsed. *)
Definition main (after delta : Z) : C Z :=
  total ← shift_docs after delta DOCS 0;
  match total with O => _ ← say None; mret 0 | S _ => mret 0 end.

(** ** How a text reads *)

Inductive item := Other (c : Z) | Cite (a : pystr) (b : option pystr).

Definition item_text (i : item) : pystr :=
  match i with
  | Other c => [c]
  | Cite a b => lit "CHANGELOG.md:" ++ a ++ match b with Some b => 45 :: b | None => [] end
  end.
Definition text_of (l : list item) : pystr := concat (item_text <$> l).

Definition numeral (t : pystr) : Prop := t ≠ [] ∧ forallb is_decimal t = true.

(** A citation starts here; a second line number follows. *)
Definition cite_ahead (s : pystr) : bool :=
  match strip_prefix (lit "CHANGELOG.md:") s with Some (d :: _) => is_decimal d | _ => false end.
Definition range_ahead (s : pystr) : bool := match s with 45 :: d :: _ => is_decimal d | _ => false end.

Inductive reads_as : pystr → list item → Prop :=
| ra_nil : reads_as [] []
| ra_line a rest l : numeral a → stops is_decimal rest → range_ahead rest = false → reads_as rest l →
    reads_as (item_text (Cite a None) ++ rest) (Cite a None :: l)
| ra_range a b rest l : numeral a → numeral b → stops is_decimal rest → reads_as rest l →
    reads_as (item_text (Cite a (Some b)) ++ rest) (Cite a (Some b) :: l)
| ra_other c rest l : cite_ahead (c :: rest) = false → reads_as rest l → reads_as (c :: rest) (Other c :: l).

(** What becomes of an item, and whether that is a change. *)
Definition shift_item (after delta : Z) (i : item) : item :=
  match i with
  | Other c => Other c
  | Cite a b =>
    let na := moved after delta (decimal_value a) in
    let nb := moved after delta <$> (decimal_value <$> b) in
    if bool_decide (na = decimal_value a) && bool_decide (nb = decimal_value <$> b) then Cite a b
    else Cite (str_of_int na) (str_of_int <$> nb)
  end.
Definition shifts (after delta : Z) (i : item) : bool :=
  match i with
  | Other _ => false
  | Cite a b => negb (bool_decide (moved after delta (decimal_value a) = decimal_value a)
                      && bool_decide (moved after delta <$> (decimal_value <$> b) = decimal_value <$> b))
  end.

(** The line numbers are within what [int] reads, and their new values within what [str] writes. *)
Definition readable (after delta : Z) (i : item) : Prop :=
  match i with
  | Other _ => True
  | Cite a b =>
    let fits t := zlen t ≤ MAX_STR_DIGITS ∧ zlen (str_of_int (Z.abs (moved after delta (decimal_value t)))) ≤ MAX_STR_DIGITS in
    fits a ∧ match b with Some b => fits b | None => True end
  end.

(** ** The pattern reads a citation *)

Lemma decimal_minus : is_decimal 45 = false.
Proof. by vm_compute. Qed.

Lemma CITE_none b0 s : cite_ahead s = false → rmatch CITE Some (Pos b0 s []) = None.
Proof.
  unfold CITE, cite_ahead. intros H. rewrite rmatch_cat. unfold Regex.text. destruct (strip_prefix _ s) as [r|] eqn:E.
  - apply strip_prefix_Some in E. rewrite (rmatch_chars _ _ (Pos b0 s []) r E). destruct (skip_reads _ _ (Pos b0 s []) E) as [_ E1].
    rewrite rmatch_cat, rmatch_group. unfold Plus. cbn [rmatch]. unfold step. rewrite E1.
    destruct r as [|d r]; [done|]. by rewrite H.
  - by apply rmatch_chars_None.
Qed.

(** After the first line number: nothing more, or a second one. *)
Lemma CITE_first b0 a tail rest m : numeral a → stops is_decimal tail →
  (∀ s1, ahead s1 = tail → groups s1 = [(1%nat, a)] →
     rmatch (Opt (Cat (Chr 45) (Group 2 (Plus (Set_ is_decimal))))) Some s1 = Some (m s1) ∧ ahead (m s1) = rest) →
  ∃ s', rmatch CITE Some (Pos b0 (lit "CHANGELOG.md:" ++ a ++ tail) []) = Some s' ∧ ahead s' = rest ∧
    ∃ s1, s' = m s1 ∧ groups s1 = [(1%nat, a)] ∧ ahead s1 = tail.
Proof.
  intros [Hn Ha] Ht Hm. set (s0 := Pos b0 _ []).
  assert (E0 : ahead s0 = lit "CHANGELOG.md:" ++ a ++ tail) by done.
  destruct (skip_reads _ _ _ E0) as [_ E1]. set (s1 := skip (lit "CHANGELOG.md:") s0) in *.
  destruct (skip_reads _ _ _ E1) as [[C1%consumed_reads _] E2]. set (s2 := capture 1 s1 (skip a s1)).
  assert (G2 : groups s2 = [(1%nat, a)]) by (change (groups s2) with [(1%nat, consumed s1 (skip a s1))]; by rewrite C1).
  destruct (Hm s2 E2 G2) as [Hr Hs]. exists (m s2). split_and!; [|done|by exists s2].
  unfold CITE. rewrite rmatch_cat. unfold Regex.text. rewrite (rmatch_chars _ _ _ _ E0), rmatch_cat, rmatch_group.
  by eapply rmatch_plus_set.
Qed.

Lemma CITE_line b0 a rest : numeral a → stops is_decimal rest → range_ahead rest = false →
  ∃ s', rmatch CITE Some (Pos b0 (item_text (Cite a None) ++ rest) []) = Some s' ∧ ahead s' = rest ∧ groups s' = [(1%nat, a)].
Proof.
  intros Ha Hs Hr. cbn [item_text]. rewrite app_nil_r, <- (assoc_L (++)).
  destruct (CITE_first b0 a rest rest id Ha Hs) as (s' & Hm & Hs' & s1 & -> & G & _); [|by exists (id s1)].
  intros s1 E _. cbn [id]. split; [|done]. apply rmatch_opt_None. cbn [rmatch Plus]. unfold Chr. cbn [rmatch]. unfold step. rewrite E.
  unfold range_ahead in Hr. destruct rest as [|c r]; [done|]. destruct (Z.eqb_spec 45 c) as [<-|]; [|done].
  cbn. destruct r as [|d r]; [done|]. cbn in Hr. by rewrite Hr.
Qed.

Lemma CITE_range b0 a b rest : numeral a → numeral b → stops is_decimal rest →
  ∃ s', rmatch CITE Some (Pos b0 (item_text (Cite a (Some b)) ++ rest) []) = Some s' ∧ ahead s' = rest ∧
    groups s' = [(2%nat, b); (1%nat, a)].
Proof.
  intros Ha [Hn Hb] Hs. cbn [item_text]. rewrite <- !(assoc_L (++)). cbn [app].
  set (m := λ s1, capture 2 (skip [45] s1) (skip b (skip [45] s1))).
  assert (Hm : ∀ s1, ahead s1 = 45 :: b ++ rest → groups (m s1) = (2%nat, b) :: groups s1 ∧ ahead (m s1) = rest).
  { intros s1 E. destruct (skip_reads [45] _ _ E) as [[_ G1] E1]. destruct (skip_reads _ _ _ E1) as [[C%consumed_reads G2] E2].
    split; [|exact E2]. unfold m. cbn [capture groups]. by rewrite C, G2, G1. }
  destruct (CITE_first b0 a (45 :: b ++ rest) rest m Ha) as (s' & Hm' & Hs' & s1 & -> & G & E).
  - apply decimal_minus.
  - intros s1 E _. split; [|by apply Hm]. apply rmatch_opt. rewrite rmatch_cat. unfold Chr.
    rewrite (rmatch_set (Z.eqb 45) _ s1 45 (b ++ rest)) by done. rewrite rmatch_group.
    apply (rmatch_plus_set _ _ _ b rest); [by apply (skip_reads [45])|done..].
  - exists (m s1). split_and!; [done|done|]. destruct (Hm s1 E) as [-> _]. by rewrite G.
Qed.

(** ** The script reads what is written *)

(** What the script does with an item, as the piece it sees. *)
Definition piece_of (i : item) : piece :=
  match i with
  | Other c => Kept c
  | Cite a None => Found (item_text i) [(1%nat, a)]
  | Cite a (Some b) => Found (item_text i) [(2%nat, b); (1%nat, a)]
  end.

Lemma item_cons a b : ∃ t, item_text (Cite a b) = 67 :: t.
Proof. by eexists. Qed.

Lemma found_piece b0 t rest gs fuel : t ≠ [] → (length (t ++ rest) ≤ fuel)%nat →
  (∃ s', rmatch CITE Some (Pos b0 (t ++ rest) []) = Some s' ∧ ahead s' = rest ∧ groups s' = gs) →
  ∃ b1 fuel', pieces_from fuel CITE b0 (t ++ rest) = Found t gs :: pieces_from fuel' CITE b1 rest ∧ (length rest ≤ fuel')%nat.
Proof.
  intros Ht Hf (s' & Hm & <- & <-). destruct t as [|c t]; [done|]. destruct fuel as [|fuel]; [simpl in Hf; lia|].
  cbn [pieces_from app] in *. rewrite Hm. unfold shorter. cbn [ahead]. cbn [length] in *. rewrite length_app in *.
  rewrite (proj2 (Nat.ltb_lt _ _)) by lia. exists (before s'), fuel. split; [|lia].
  by rewrite (consumed_reads (c :: t)).
Qed.

Lemma reads_pieces s l : reads_as s l → ∀ b0 fuel, (length s ≤ fuel)%nat → pieces_from fuel CITE b0 s = piece_of <$> l.
Proof.
  induction 1 as [|a rest l Ha Hs Hr _ IH|a b rest l Ha Hb Hs _ IH|c rest l Hc _ IH]; intros b0 fuel Hf.
  - by destruct fuel.
  - destruct (found_piece b0 (item_text (Cite a None)) rest [(1%nat, a)] fuel) as (b1 & f1 & -> & Hf1); [done|done|by apply CITE_line|].
    rewrite fmap_cons. f_equal. by apply IH.
  - destruct (found_piece b0 (item_text (Cite a (Some b))) rest [(2%nat, b); (1%nat, a)] fuel) as (b1 & f1 & -> & Hf1); [done|done|by apply CITE_range|].
    rewrite fmap_cons. f_equal. by apply IH.
  - destruct fuel as [|fuel]; [simpl in Hf; lia|]. cbn [pieces_from]. rewrite CITE_none by done.
    rewrite fmap_cons. f_equal. apply IH. simpl in Hf. lia.
Qed.

Lemma decimal_run s : ∃ a r, s = a ++ r ∧ forallb is_decimal a = true ∧ stops is_decimal r.
Proof.
  induction s as [|c s (a & r & -> & Ha & Hr)]; [by exists [], []|]. destruct (is_decimal c) eqn:Hc.
  - exists (c :: a), r. cbn [forallb]. by rewrite Hc.
  - by exists [], (c :: a ++ r).
Qed.

(** Every text reads in exactly one way. *)
Lemma reads_total s : ∃ l, reads_as s l.
Proof.
  induction s as [s IH] using (induction_ltof1 _ length). unfold ltof in IH.
  destruct (cite_ahead s) eqn:E; [|destruct s as [|c s]; [by exists []; constructor|]].
  - unfold cite_ahead in E. destruct (strip_prefix _ s) as [r|] eqn:Ep; [|done]. apply strip_prefix_Some in Ep as ->.
    destruct (decimal_run r) as (a & r1 & -> & Ha & Hr1).
    assert (Hn : numeral a) by (split; [|done]; intros ->; destruct r1; [done|cbn in *; congruence]).
    assert (Hl : ∀ x : pystr, (length x ≤ length r1)%nat → (length x < length (lit "CHANGELOG.md:" ++ a ++ r1))%nat).
    { intros x Hx. rewrite !length_app. change (length (lit "CHANGELOG.md:")) with 13%nat. lia. }
    destruct (range_ahead r1) eqn:Er.
    + destruct r1 as [|c r1]; [done|]. assert (c = 45) as -> by (cbn in Er; by repeat case_match). 
      destruct (decimal_run r1) as (b & r2 & -> & Hb & Hr2).
      destruct (IH r2) as [l Hl2]; [apply Hl; simpl; rewrite length_app; lia|].
      exists (Cite a (Some b) :: l). replace (_ ++ _) with (item_text (Cite a (Some b)) ++ r2)
        by (cbn [item_text]; by rewrite <- !(assoc_L (++))).
      constructor; [done| |done|done]. split; [|done]. intros ->. destruct r2 as [|d r2]; [done|]. cbn in *. congruence.
    + destruct (IH r1) as [l Hl1]; [by apply Hl|]. exists (Cite a None :: l).
      replace (_ ++ _) with (item_text (Cite a None) ++ r1) by (cbn [item_text]; by rewrite app_nil_r, <- (assoc_L (++))).
      by constructor.
  - destruct (IH s) as [l Hl]; [simpl; lia|]. exists (Other c :: l). by constructor.
Qed.

Lemma piece_of_inj i j : piece_of i = piece_of j → i = j.
Proof. destruct i as [|a [b|]], j as [|a' [b'|]]; cbn [piece_of]; congruence. Qed.
Lemma reads_unique s l l' : reads_as s l → reads_as s l' → l = l'.
Proof.
  intros H1 H2. pose proof (reads_pieces _ _ H1 None (length s) ltac:(done)) as E1.
  pose proof (reads_pieces _ _ H2 None (length s) ltac:(done)) as E2. clear H1 H2. rewrite E1 in E2. clear E1. rename E2 into H2.
revert l' H2. induction l as [|i l IH]; intros [|j l'] H; try done.
  rewrite !fmap_cons in H. injection H as ->%piece_of_inj H. f_equal. by apply IH.
Qed.
Lemma reads_text s l : reads_as s l → text_of l = s.
Proof. unfold text_of. induction 1 as [|a rest l _ _ _ _ IH|a b rest l _ _ _ _ IH|c rest l _ _ IH]; [done|..];
  rewrite fmap_cons; cbn [concat]; by rewrite IH. Qed.

(** ** What the script writes *)

Lemma int_of_numeral t : zlen t ≤ MAX_STR_DIGITS → int_of_decimals t = Ok (decimal_value t).
Proof. intros H. unfold int_of_decimals. destruct (Z.ltb_spec MAX_STR_DIGITS (zlen t)); [lia|done]. Qed.
Lemma line_text_Ok n : zlen (str_of_int (Z.abs n)) ≤ MAX_STR_DIGITS → line_text n = Ok (str_of_int n).
Proof. intros H. unfold line_text. destruct (Z.ltb_spec MAX_STR_DIGITS (zlen (str_of_int (Z.abs n)))); [lia|done]. Qed.

Definition changes (after delta : Z) (l : list item) : nat := length (filter (λ i, shifts after delta i = true) l).

Lemma shift_piece_item after delta i : readable after delta i →
  (∀ a b, i = Cite a (Some b) → b ≠ []) →
  shift_piece after delta (piece_of i) = Ok (item_text (shift_item after delta i), if shifts after delta i then 1%nat else 0%nat).
Proof.
  destruct i as [c|a [b|]]; [done|..]; intros Hr Hb; cbn [readable] in Hr; unfold shift_piece, piece_of, repl; cbn [find_group Nat.eqb default].
  - specialize (Hb a b eq_refl). destruct b as [|d b]; [done|]. set (b' := d :: b) in *. destruct Hr as [[Ha Na] [Hb' Nb]].
    rewrite !int_of_numeral by done. cbn [mbind res_bind fmap res_fmap option_fmap option_map shift_item shifts].
    destruct (bool_decide _ && bool_decide _) eqn:E; [done|]. cbn [negb]. rewrite !line_text_Ok by done. done.
  - destruct Hr as [[Ha Na] _]. rewrite int_of_numeral by done. cbn [mbind res_bind fmap option_fmap option_map shift_item shifts].
    destruct (bool_decide _ && bool_decide _) eqn:E; [done|]. cbn [negb]. rewrite line_text_Ok by done. done.
Qed.

Lemma reads_ranges s l : reads_as s l → Forall (λ i, ∀ a b, i = Cite a (Some b) → b ≠ []) l.
Proof. induction 1 as [|a rest l _ _ _ _ IH|a b rest l _ [Hb _] _ _ IH|c rest l _ _ IH]; constructor; try done; by intros ? ? [= <- <-]. Qed.

Lemma shift_items after delta l : Forall (readable after delta) l → Forall (λ i, ∀ a b, i = Cite a (Some b) → b ≠ []) l →
  ∃ ps, mapM (shift_piece after delta) (piece_of <$> l) = Ok ps ∧
    concat ps.*1 = text_of (shift_item after delta <$> l) ∧ sum_list ps.*2 = changes after delta l.
Proof.
  unfold text_of, changes. induction 1 as [|i l Hi _ IH]; intros Hb; [by exists []|]. apply Forall_cons in Hb as [Hb1 Hb].
  destruct (IH Hb) as (ps & E & E1 & E2). rewrite fmap_cons. cbn [mapM]. rewrite shift_piece_item, E by done.
  eexists. split; [done|]. rewrite !fmap_cons. cbn [fst snd concat sum_list]. rewrite E1, E2. split; [done|].
  rewrite filter_cons. destruct (shifts after delta i); done.
Qed.

Lemma shift_text_items s l after delta : reads_as s l → Forall (readable after delta) l →
  shift_text s after delta = Ok (text_of (shift_item after delta <$> l), changes after delta l).
Proof.
  intros Hr Hl. unfold shift_text, pieces. rewrite (reads_pieces s l Hr) by done.
  destruct (shift_items after delta l Hl (reads_ranges s l Hr)) as (ps & -> & <- & <-). done.
Qed.

(** ** Shifting there and back *)

Lemma digit_decimal c : is_digit c = true → decimal c = Some (c - 48).
Proof. unfold is_digit. intros H. unfold decimal, decimal_zeros. cbn [List.find]. change (48 + 9) with 57. rewrite H. reflexivity. Qed.
Lemma digits_decimal t : forallb is_digit t = true → forallb is_decimal t = true ∧ decimal_value t = dec_value t.
Proof.
  unfold decimal_value, dec_value. assert (Hg : ∀ z, forallb is_digit t = true → forallb is_decimal t = true ∧
    fold_left (λ acc c, acc * 10 + default 0 (decimal c)) t z = fold_left (λ acc c, acc * 10 + (c - 48)) t z); [|by apply Hg].
  induction t as [|c t IH]; [done|]. intros z H. cbn [forallb] in H. apply andb_true_iff in H as [Hc H].
  pose proof (digit_decimal c Hc) as Hd. destruct (IH (z * 10 + (c - 48)) H) as [H1 H2].
  cbn [forallb fold_left]. unfold is_decimal at 1. rewrite Hd, H1. split; [done|exact H2].
Qed.
Lemma line_numeral n : 0 ≤ n → numeral (str_of_int n) ∧ decimal_value (str_of_int n) = n.
Proof.
  intros Hn. unfold str_of_int. destruct (Z.ltb_spec n 0); [lia|]. destruct (str_of_nonneg_spec n Hn) as (Hd & Hv & Hne).
  destruct (digits_decimal _ Hd) as [H1 H2]. by rewrite H2, Hv.
Qed.

(** Line numbers as the documents write them: no sign, no leading zero, ASCII digits, not astronomically long. *)
Definition tidy_line (delta : Z) (t : pystr) : Prop :=
  ∃ n, 0 ≤ n ∧ t = str_of_int n ∧ zlen t ≤ MAX_STR_DIGITS ∧ zlen (str_of_int (n + delta)) ≤ MAX_STR_DIGITS.
Definition tidy (delta : Z) (i : item) : Prop :=
  match i with
  | Other _ => True
  | Cite a b => tidy_line delta a ∧ match b with Some b => tidy_line delta b | None => True end
  end.

Section back.
Context (after delta : Z) (Hd : 0 ≤ delta).

Lemma moved_nonneg n : 0 ≤ n → 0 ≤ moved after delta n.
Proof. unfold moved. case_match; lia. Qed.
Lemma moved_back n : moved (after + delta) (- delta) (moved after delta n) = n.
Proof. unfold moved. repeat case_match; lia. Qed.
Lemma tidy_numeral t : tidy_line delta t → numeral t ∧ 0 ≤ decimal_value t ∧ t = str_of_int (decimal_value t).
Proof. intros (n & Hn & -> & _). destruct (line_numeral n Hn) as [? E]. by rewrite E. Qed.
Lemma tidy_fits t : tidy_line delta t → zlen t ≤ MAX_STR_DIGITS ∧ zlen (str_of_int (moved after delta (decimal_value t))) ≤ MAX_STR_DIGITS.
Proof.
  intros (n & Hn & -> & H1 & H2). destruct (line_numeral n Hn) as [_ ->]. split; [done|]. unfold moved. by case_match.
Qed.

(** A shifted citation, whether it moved or not: its line numbers are the moved ones. *)
Lemma shift_tidy a b : tidy delta (Cite a b) →
  shift_item after delta (Cite a b) =
    Cite (str_of_int (moved after delta (decimal_value a))) ((λ t, str_of_int (moved after delta (decimal_value t))) <$> b).
Proof.
  intros [Ha Hb]. cbn [shift_item]. destruct (bool_decide _ && bool_decide _) eqn:E; [|by destruct b].
  apply andb_true_iff in E as [E1%bool_decide_eq_true E2%bool_decide_eq_true]. rewrite E1.
  apply tidy_numeral in Ha as (_ & _ & <-). f_equal. destruct b as [b|]; [|done]. cbn in E2 |- *. injection E2 as ->.
  by apply tidy_numeral in Hb as (_ & _ & <-).
Qed.

Lemma tidy_readable i : tidy delta i → readable after delta i.
Proof.
  assert (Ht : ∀ t, tidy_line delta t → zlen t ≤ MAX_STR_DIGITS ∧ zlen (str_of_int (Z.abs (moved after delta (decimal_value t)))) ≤ MAX_STR_DIGITS).
  { intros t Ht. rewrite Z.abs_eq; [by apply tidy_fits|]. by apply moved_nonneg, tidy_numeral. }
  destruct i as [|a [b|]]; cbn; naive_solver.
Qed.

Lemma shift_back i : tidy delta i →
  shift_item (after + delta) (- delta) (shift_item after delta i) = i ∧
  shifts (after + delta) (- delta) (shift_item after delta i) = shifts after delta i ∧
  readable (after + delta) (- delta) (shift_item after delta i).
Proof.
  destruct i as [c|a b]; [done|]. intros Hi. rewrite (shift_tidy a b Hi). destruct Hi as [Ha Hb].
  assert (Hv : ∀ t, tidy_line delta t → decimal_value (str_of_int (moved after delta (decimal_value t))) = moved after delta (decimal_value t)).
  { intros t Ht. by apply line_numeral, moved_nonneg, tidy_numeral. }
  assert (Hr : ∀ t, tidy_line delta t → zlen (str_of_int (moved after delta (decimal_value t))) ≤ MAX_STR_DIGITS ∧
    zlen (str_of_int (Z.abs (decimal_value t))) ≤ MAX_STR_DIGITS).
  { intros t Ht. split; [by apply tidy_fits|]. destruct (tidy_numeral t Ht) as (_ & H0 & E). rewrite Z.abs_eq, <- E by done. by apply tidy_fits. }
  assert (Ea := proj2 (proj2 (tidy_numeral a Ha))).
  destruct b as [b|]; cbn [shift_item shifts readable fmap option_fmap option_map]; rewrite ?Hv, !moved_back by done.
  - assert (Eb := proj2 (proj2 (tidy_numeral b Hb))). split_and!; [|f_equal|by apply Hr..].
    + rewrite <- Ea, <- Eb. destruct (bool_decide _ && bool_decide _) eqn:E; [|done].
      apply andb_true_iff in E as [E1%bool_decide_eq_true E2%bool_decide_eq_true]. injection E2 as E2. by rewrite <- E1, <- E2, <- Ea, <- Eb.
    + by rewrite (bool_decide_ext _ _ (eq_comm _ _)), (bool_decide_ext (Some _ = _) _ (eq_comm _ _)).
  - split_and!; [|f_equal|by apply Hr..|done].
    + rewrite <- Ea. destruct (bool_decide _ && bool_decide _) eqn:E; [|done].
      apply andb_true_iff in E as [E1%bool_decide_eq_true _]. by rewrite <- E1, <- Ea.
    + by rewrite (bool_decide_ext _ _ (eq_comm _ _)).
Qed.
End back.

(** The shifted text reads as the shifted items: a citation never appears or vanishes beside one. *)
Section shifted.
Context (f : item → item).
Context (Hother : ∀ c, f (Other c) = Other c) (Hcite : ∀ a b, ∃ a' b', f (Cite a b) = Cite a' b').

(** A stretch without [C] stands before the shifted text only if it stands before the text. *)
Lemma shifted_prefix w : 67 ∉ w → ∀ s l r, reads_as s l → text_of (f <$> l) = w ++ r → ∃ r0, s = w ++ r0.
Proof.
  induction w as [|c w IH]; [by eauto|]. intros [Hc Hw]%not_elem_of_cons s l r Hr E.
  destruct Hr as [|a rest l _ _ _ Hr|a b rest l _ _ _ Hr|d rest l Hd Hr]; [done|..]; rewrite fmap_cons in E; unfold text_of in E; cbn [concat fmap list_fmap] in E.
  - destruct (Hcite a None) as (a' & b' & Ef). rewrite Ef in E. cbn [item_text app] in E. injection E as E _. done.
  - destruct (Hcite a (Some b)) as (a' & b' & Ef). rewrite Ef in E. cbn [item_text app] in E. injection E as E _. done.
  - rewrite Hother in E. cbn [item_text app] in E. injection E as -> E. destruct (IH Hw rest l r Hr E) as [r0 ->]. by exists r0.
Qed.

Lemma decimal_not_C d : is_decimal d = true → d ≠ 67.
Proof. by intros H ->. Qed.

Context (Hshape : ∀ a b, numeral a → match b with Some b => numeral b | None => True end →
  ∃ a', numeral a' ∧ match b with
    | Some b => ∃ b', numeral b' ∧ f (Cite a (Some b)) = Cite a' (Some b')
    | None => f (Cite a None) = Cite a' None
    end).

Lemma shifted_stops s l : reads_as s l → stops is_decimal s → stops is_decimal (text_of (f <$> l)).
Proof.
  intros Hr Hs. destruct (text_of (f <$> l)) as [|d r] eqn:E; [done|]. cbn. destruct (is_decimal d) eqn:Hd; [|done].
  destruct (shifted_prefix [d] ltac:(apply not_elem_of_cons; split; [by intros <-|by intros ?%elem_of_nil]) s l r Hr E) as [r0 ->].
  cbn in Hs. congruence.
Qed.
Lemma shifted_range s l : reads_as s l → range_ahead s = false → range_ahead (text_of (f <$> l)) = false.
Proof.
  intros Hr Hs. destruct (range_ahead (text_of (f <$> l))) eqn:E; [|done].
  assert (∃ d r, text_of (f <$> l) = [45; d] ++ r ∧ is_decimal d = true) as (d & r & Et & Hd).
  { unfold range_ahead in E. destruct (text_of (f <$> l)) as [|c [|d r]]; [done|by repeat case_match|].
    exists d, r. assert (c = 45) as -> by by repeat case_match. done. }
  destruct (shifted_prefix [45; d] ltac:(rewrite !not_elem_of_cons; split_and!; [done|by intros <-|by intros ?%elem_of_nil]) s l r Hr Et) as [r0 ->].
  cbn in Hs. congruence.
Qed.
Lemma shifted_cite c s l : reads_as s l → cite_ahead (c :: s) = false → cite_ahead (c :: text_of (f <$> l)) = false.
Proof.
  intros Hr Hs. destruct (cite_ahead (c :: text_of (f <$> l))) eqn:E; [|done]. unfold cite_ahead in E.
  destruct (strip_prefix _ _) as [[|d r]|] eqn:Ep; [done| |done]. apply strip_prefix_Some in Ep.
  change (lit "CHANGELOG.md:") with (67 :: lit "HANGELOG.md:") in Ep. cbn [app] in Ep. injection Ep as -> Ep.
  assert (Et : text_of (f <$> l) = (lit "HANGELOG.md:" ++ [d]) ++ r) by (rewrite <- (assoc_L (++)); exact Ep).
  destruct (shifted_prefix (lit "HANGELOG.md:" ++ [d])) with (s := s) (l := l) (r := r) as [r0 ->]; [|done|exact Et|].
  - rewrite not_elem_of_app. split; [by apply (bool_decide_unpack _); vm_compute|]. apply not_elem_of_cons. split; [by intros <-|by intros ?%elem_of_nil].
  - unfold cite_ahead in Hs. rewrite <- (assoc_L (++)) in Hs. change (67 :: lit "HANGELOG.md:" ++ [d] ++ r0) with (lit "CHANGELOG.md:" ++ d :: r0) in Hs.
    rewrite strip_prefix_app in Hs. congruence.
Qed.

Lemma reads_shifted s l : reads_as s l → reads_as (text_of (f <$> l)) (f <$> l).
Proof.
  induction 1 as [|a rest l Ha Hs Hg Hr IH|a b rest l Ha Hb Hs Hr IH|c rest l Hc Hr IH]; [constructor|..]; rewrite fmap_cons; unfold text_of; cbn [fmap list_fmap concat].
  - destruct (Hshape a None Ha I) as (a' & Ha' & ->). constructor; [done|by apply (shifted_stops rest l)|by apply (shifted_range rest l)|done].
  - destruct (Hshape a (Some b) Ha Hb) as (a' & Ha' & b' & Hb' & ->). constructor; [done|done|by apply (shifted_stops rest l)|done].
  - rewrite Hother. constructor; [by apply (shifted_cite c rest l)|done].
Qed.
End shifted.

Lemma decimal_nonneg c : 0 ≤ default 0 (decimal c).
Proof.
  unfold decimal. destruct (List.find _ decimal_zeros) as [z|] eqn:E; [|done]. apply List.find_some in E as [_ E].
  apply andb_true_iff in E as [E%Z.leb_le _]. cbn. lia.
Qed.
Lemma decimal_value_nonneg t : 0 ≤ decimal_value t.
Proof.
  unfold decimal_value. assert (Hg : ∀ z, 0 ≤ z → 0 ≤ fold_left (λ acc c, acc * 10 + default 0 (decimal c)) t z); [|by apply Hg].
  induction t as [|c t IH]; [done|]. intros z Hz. cbn [fold_left]. apply IH. pose proof (decimal_nonneg c). lia.
Qed.

Lemma shift_item_reads after delta s l : 0 ≤ delta → reads_as s l →
  reads_as (text_of (shift_item after delta <$> l)) (shift_item after delta <$> l).
Proof.
  intros Hd. apply reads_shifted; [done| |].
  - intros a b. cbn [shift_item]. by case_match; eauto.
  - assert (Hn : ∀ t, numeral (str_of_int (moved after delta (decimal_value t)))).
    { intros t. apply line_numeral. apply moved_nonneg; [done|apply decimal_value_nonneg]. }
    intros a [b|] Ha Hb; cbn [shift_item]; case_match; eauto 10.
Qed.

Lemma changes_back after delta l : 0 ≤ delta → Forall (tidy delta) l →
  changes (after + delta) (- delta) (shift_item after delta <$> l) = changes after delta l.
Proof.
  intros Hd. unfold changes. induction 1 as [|i l Hi _ IH]; [done|]. rewrite fmap_cons, !filter_cons.
  destruct (shift_back after delta Hd i Hi) as (_ & -> & _). case_decide; cbn [length]; by rewrite IH.
Qed.

(** Only the line numbers move. Every text reads in exactly one way as citations and other characters, and what
    the script writes is that reading with each line number past the insertion moved by the delta - the
    others, and every other character, as they were - and the number of citations that changed. *)
Theorem shift_text_moves text after delta :
  ∃ l, (∀ l', reads_as text l' ↔ l' = l) ∧ text_of l = text ∧
    (Forall (readable after delta) l →
     shift_text text after delta = Ok (text_of (shift_item after delta <$> l), changes after delta l)).
Proof.
  destruct (reads_total text) as [l Hl]. exists l. split_and!; [|by apply reads_text|by apply shift_text_items].
  intros l'. split; [by intros Hl'; eapply reads_unique|by intros ->].
Qed.

(** Shifting is undone by shifting back: on a text whose line numbers are written plainly, inserting lines and
    then removing as many from the same place gives the text again, the same citations changing. *)
Theorem shift_text_roundtrip text l after delta : 0 ≤ delta → reads_as text l → Forall (tidy delta) l →
  ∃ text', shift_text text after delta = Ok (text', changes after delta l) ∧
    shift_text text' (after + delta) (- delta) = Ok (text, changes after delta l).
Proof.
  intros Hd Hr Ht. exists (text_of (shift_item after delta <$> l)). split.
  { apply shift_text_items; [done|]. eapply Forall_impl; [exact Ht|]. by apply tidy_readable. }
  rewrite (shift_text_items _ _ _ _ (shift_item_reads after delta text l Hd Hr)).
  - rewrite changes_back by done. do 2 f_equal. rewrite <- (reads_text text l Hr). f_equal.
    rewrite <- list_fmap_compose. rewrite <- (list_fmap_id l) at 2. apply list_fmap_ext. intros k i Hk. cbn.
    eapply Forall_lookup_1 in Ht; [|done]. by apply shift_back.
  - apply Forall_fmap. eapply Forall_impl; [exact Ht|]. intros i Hi. by apply shift_back.
Qed.

(** ** The documents *)

(** What becomes of a document's bytes. *)
Definition shifted_file (after delta : Z) (b : bytes) : bytes :=
  match (text ← universal_newlines <$> utf8_decode b; shift_text text after delta) with
  | Ok (new, S _) => match utf8_encode new with Ok b' => b' | Raise _ => b end
  | _ => b
  end.

Lemma shift_doc_Done after delta name s n s' : shift_doc after delta name s = (Done n, s') →
  files s' = alter (shifted_file after delta) name (files s).
Proof.
  unfold shift_doc. destruct (files s !! name) as [b|] eqn:E.
  - intros H. inv_done. match goal with H : shift_text _ _ _ = Ok ?p |- _ => destruct p as [new k] end.
    match goal with H : _ <$> _ = Ok ?t, H' : shift_text ?t _ _ = _ |- _ =>
      assert (Ef : shifted_file after delta b = match k with O => b | S _ => match utf8_encode new with Ok b' => b' | Raise _ => b end end)
        by (unfold shifted_file; rewrite H; cbn [mbind res_bind]; rewrite H'; done) end.
    destruct k as [|k]; inv_done.
    + apply map_eq. intros i. destruct (decide (i = name)) as [->|]; [rewrite lookup_alter_eq, E; cbn [fmap option_fmap option_map]; by rewrite Ef|by rewrite lookup_alter_ne].
    + unfold say, write_text, modify in *. inv_done. match goal with H : utf8_encode _ = _ |- _ => rewrite H in Ef end. cbn [files].
      apply map_eq. intros i. destruct (decide (i = name)) as [->|]; [rewrite lookup_alter_eq, E, lookup_insert_eq; cbn [fmap option_fmap option_map]; by rewrite Ef|].
      by rewrite lookup_alter_ne, lookup_insert_ne.
  - intros [= <- <-]. apply map_eq. intros i. destruct (decide (i = name)) as [->|]; [by rewrite lookup_alter_eq, E|by rewrite lookup_alter_ne].
Qed.

Lemma shift_docs_Done after delta names total n s s' : NoDup names → shift_docs after delta names total s = (Done n, s') →
  ∀ k, files s' !! k = if bool_decide (k ∈ names) then shifted_file after delta <$> files s !! k else files s !! k.
Proof.
  revert total s. induction names as [|name names IH]; intros total s Hn H k; cbn [shift_docs] in H; [by inv_done|].
  apply NoDup_cons in Hn as [Hx Hn]. apply bind_Done in H as (m & s1 & H1%shift_doc_Done & H2). rewrite (IH _ s1 Hn H2 k), H1.
  destruct (decide (k = name)) as [->|Hk].
  - rewrite (bool_decide_false (name ∈ names)), bool_decide_true by (done || by left). apply lookup_alter_eq.
  - rewrite lookup_alter_ne by done. rewrite (bool_decide_ext (k ∈ name :: names) (k ∈ names)); [done|]. rewrite elem_of_cons. naive_solver.
Qed.

(** The program exits 0 with every document it names shifted, and no other file touched. *)
Lemma main_shifts_docs after delta s c s' : main after delta s = (Done c, s') →
  c = 0 ∧ ∀ k, files s' !! k = if bool_decide (k ∈ DOCS) then shifted_file after delta <$> files s !! k else files s !! k.
Proof.
  unfold main. intros (total & s1 & H1 & H2)%bind_Done.
  assert (Hf : c = 0 ∧ files s' = files s1) by (unfold say, modify in H2; destruct total; inv_done; done). destruct Hf as [-> ->].
  split; [done|]. eapply shift_docs_Done; [|done]. by apply (bool_decide_unpack _); vm_compute.
Qed.

(** ** Witnesses *)

Definition sample_text : pystr := lit "see CHANGELOG.md:7, CHANGELOG.md:9-40 and CHANGELOG.md:12.".
Definition cite (a : string) (b : option string) : item := Cite (lit a) (lit <$> b).
Definition sample_items : list item :=
  (Other <$> lit "see ") ++ cite "7" None :: (Other <$> lit ", ") ++ cite "9" (Some "40"%string) :: (Other <$> lit " and ")
    ++ [cite "12" None; Other 46].

Example shift_sample : shift_text sample_text 9 3 = Ok (lit "see CHANGELOG.md:7, CHANGELOG.md:9-43 and CHANGELOG.md:15.", 2%nat).
Proof. by vm_compute. Qed.
(** Zeros before a line number stay, unless it moves. *)
Example shift_zeros : shift_text (lit "CHANGELOG.md:007 CHANGELOG.md:010") 9 1 = Ok (lit "CHANGELOG.md:007 CHANGELOG.md:11", 1%nat).
Proof. by vm_compute. Qed.

Lemma sample_reads : reads_as sample_text sample_items.
Proof.
  destruct (reads_total sample_text) as [l Hl]. pose proof (reads_pieces _ _ Hl None (length sample_text) ltac:(done)) as E.
  replace sample_items with l; [done|]. assert (E' : piece_of <$> l = piece_of <$> sample_items) by (rewrite <- E; by vm_compute).
  clear -E'. revert E'. generalize sample_items. induction l as [|i l IH]; intros [|j l'] H; try done.
  rewrite !fmap_cons in H. injection H as ->%piece_of_inj H. f_equal. by apply IH.
Qed.

Lemma shift_text_moves_witness : ∃ l, reads_as sample_text l ∧ Forall (readable 9 3) l ∧
  shift_text sample_text 9 3 = Ok (text_of (shift_item 9 3 <$> l), changes 9 3 l).
Proof.
  destruct (shift_text_moves sample_text 9 3) as (l & Hl & _ & Hs). assert (l = sample_items) as -> by (symmetry; apply Hl, sample_reads).
  assert (Forall (readable 9 3) sample_items) as Hr by (repeat constructor; vm_compute; discriminate).
  exists sample_items. split_and!; [apply sample_reads|exact Hr|by apply Hs].
Defined.

Lemma shift_text_roundtrip_witness : 0 ≤ 3 ∧ reads_as sample_text sample_items ∧ Forall (tidy 3) sample_items ∧
  ∃ text', shift_text sample_text 9 3 = Ok (text', changes 9 3 sample_items) ∧
    shift_text text' (9 + 3) (- 3) = Ok (sample_text, changes 9 3 sample_items).
Proof.
  assert (Forall (tidy 3) sample_items) as Ht.
  { repeat constructor; [exists 7|exists 9|exists 40|exists 12]; split_and!; done. }
  split_and!; [done|apply sample_reads|exact Ht|]. by apply (shift_text_roundtrip sample_text sample_items 9 3); [|apply sample_reads|].
Defined.
