(* ===== verification/RootGen.v ===== *)
(** * RootGen: rooting the generated imports ([scripts/root_gen.py])

    The generated modules import their siblings as top-level [seam.api.v1] and [seam.event.v1]. The script rewrites
    those lines in every [.py] and [.pyi] file under [_gen] and gives each directory its [__init__.py]. The files are
    a map from paths (relative to [_gen]) to contents; the order in which the file system lists a directory tree is a
    parameter. The pattern's substitution is shown to be a statement about lines ([root_text_lines]). *)

From stdpp Require Import base list numbers option strings gmap sorting.
From S2P Require Import Prelude Order Text Keys Regex Script.

(** ** One text *)

Local Open Scope regex_scope.
Definition IMPORT : regex :=
  Bol ▷ text "from seam." ▷ Group 1 (Alt (text "api") (text "event")) ▷ text ".v1 import ".
Local Close Scope regex_scope.

(** The new text of a match, and of a text: [IMPORT.sub(..., text)]. *)
Definition root_piece (p : piece) : pystr :=
  match p with
  | Kept c => [c]
  | Found _ gs => lit "from seam_sdk._gen.seam." ++ default [] (find_group 1 gs) ++ lit ".v1 import "
  end.
Definition root_text (text : pystr) : pystr := concat (root_piece <$> pieces IMPORT text).

(** ** The tree of files *)

(** A path relative to [_gen], by its components; [_gen] itself is the empty one. *)
Abbreviation path := (list pystr).
Inductive node := File (b : bytes) | Dir.
Global Instance node_eq_dec : EqDecision node.
Proof. solve_decision. Defined.
Abbreviation files := (gmap path node).

(** A line printed: that [_gen] is missing, or how many files were rooted. *)
Inductive rooting_line := Missing | Rooted (n : nat).
Record State := MkState { tree : files; printed : list rooting_line }.
Abbreviation R := (Script State ()).

(** [p.suffix]: what follows the last dot of the name, unless the name starts or ends there. *)
Fixpoint rfind (c : Z) (s : pystr) : option nat :=
  match s with
  | [] => None
  | x :: r => match rfind c r with Some i => Some (S i) | None => if x =? c then Some 0%nat else None end
  end.
Definition suffix (p : path) : pystr :=
  let name := default [] (last p) in
  match rfind 46 name with
  | Some i => if (0 <? i)%nat && (S i <? length name)%nat then drop i name else []
  | None => []
  end.
Definition is_source (p : path) : bool := bool_decide (suffix p ∈ [lit ".py"; lit ".pyi"]).

(** Paths are sorted by their components. *)
Fixpoint path_leb (p q : path) : bool :=
  match p, q with
  | [], _ => true
  | _ :: _, [] => false
  | x :: p, y :: q => if decide (x = y) then path_leb p q else lex_leb x y
  end.
Definition path_le (p q : path) : Prop := path_leb p q = true.
Global Instance path_le_dec : RelDecision path_le.
Proof. intros p q. unfold path_le. apply _. Defined.

Definition EISDIR : exn := OSError (EOther 21).
Definition read_text (p : path) : R pystr := λ s,
  match tree s !! p with
  | Some (File b) => of_res (universal_newlines <$> utf8_decode b) s
  | Some Dir => (Escaped EISDIR, s)
  | None => (Escaped (OSError ENOENT), s)
  end.
Definition put (p : path) (b : bytes) : R () := modify (λ s, MkState (<[p := File b]> (tree s)) (printed s)).
(** Opening for writing empties the file; then the text is encoded. *)
Definition write_text (p : path) (t : pystr) : R () := λ s,
  match tree s !! p with
  | Some Dir => (Escaped EISDIR, s)
  | _ => (_ ← put p []; b ← of_res (utf8_encode t); put p b) s
  end.
Definition exists_ (p : path) : R bool := λ s, (Done (bool_decide (is_Some (tree s !! p))), s).
Definition say (r : rooting_line) : R () := modify (λ s, MkState (tree s) (printed s ++ [r])).

(** One file of the first loop: whether it was rewritten. *)
Definition root_file (p : path) : R nat :=
  t ← read_text p;
  let new := root_text t in
  if bool_decide (new = t) then mret 0%nat else _ ← write_text p new; mret 1%nat.
Fixpoint root_files (ps : list path) (rewritten : nat) : R nat :=
  match ps with [] => mret rewritten | p :: ps => n ← root_file p; root_files ps (rewritten + n) end.

(** One directory of the second. *)
Definition init_of (d : path) : path := d ++ [lit "__init__.py"].
Definition init_dir (d : path) : R () :=
  b ← exists_ (init_of d); if (b : bool) then mret () else write_text (init_of d) [].

Section main.
(** [GEN.rglob("*")]: the paths below [_gen], in the order the file system has them. *)
Context (rglob : files → list path).

Definition sources : R (list path) := λ s, (Done (filter (λ p, is_source p = true) (rglob (tree s))), s).
Definition is_dir (t : files) (p : path) : bool := match t !! p with Some Dir => true | _ => false end.
Definition dirs : R (list path) := λ s, (Done ([] :: filter (λ p, is_dir (tree s) p = true) (rglob (tree s))), s).

Definition main : R Z := λ s,
  if negb (is_dir (tree s) []) then (_ ← say Missing; mret 1) s
  else
    (fs ← sources;
     rewritten ← root_files (merge_sort path_le fs) 0;
     ds ← dirs;
     _ ← each init_dir ds;
     _ ← say (Rooted rewritten);
     mret 0) s.
End main.

(** ** What the substitution does, by lines *)

(** The two statements that are rewritten. *)
Definition api : pystr := lit "from seam.api.v1 import ".
Definition event : pystr := lit "from seam.event.v1 import ".
Definition imports_seam (l : pystr) : bool := starts_with api l || starts_with event l.
Definition rooted_line (l : pystr) : pystr := if imports_seam l then lit "from seam_sdk._gen." ++ drop 5 l else l.

Fixpoint join_lines (ls : list pystr) : pystr :=
  match ls with [] => [] | [l] => l | l :: ls => l ++ 10 :: join_lines ls end.
Definition lines : pystr → list pystr := split_on 10.

Section lines.
Local Abbreviation tail := (lit ".v1 import ").

(** The pattern at the start of a line, before one of the two statements. *)
Lemma IMPORT_reads b pkg rest : at_bol (Pos b [] []) = true → pkg = lit "api" ∨ pkg = lit "event" →
  ∃ m, rmatch IMPORT Some (Pos b (lit "from seam." ++ pkg ++ tail ++ rest) []) = Some m ∧
    ahead m = rest ∧ groups m = [(1%nat, pkg)] ∧ before m = Some 32.
Proof.
  intros Hb Hp. unfold IMPORT. rewrite rmatch_cat, rmatch_bol, rmatch_cat by exact Hb. unfold Regex.text.
  rewrite (rmatch_chars (lit "from seam.") _ _ (pkg ++ tail ++ rest)) by done.
  rewrite rmatch_cat, rmatch_group. cbn [rmatch].
  destruct Hp as [-> | ->]; [|rewrite (rmatch_chars_None (lit "api")) by done];
    (rewrite (rmatch_chars _ _ _ (tail ++ rest)) by done; rewrite (rmatch_chars tail _ _ rest) by done; eexists;
     split_and!; [done|done|cbn [skip capture groups]; do 2 f_equal; by apply consumed_reads|done]).
Qed.

Lemma IMPORT_middle b s : at_bol (Pos b [] []) = false → rmatch IMPORT Some (Pos b s []) = None.
Proof. intros H. unfold IMPORT. cbn [rmatch]. change (at_bol (Pos b s [])) with (at_bol (Pos b [] [])). by rewrite H. Qed.

Lemma imports_seam_true s : imports_seam s = true ↔ ∃ pkg r, (pkg = lit "api" ∨ pkg = lit "event") ∧ s = lit "from seam." ++ pkg ++ tail ++ r.
Proof.
  unfold imports_seam. rewrite orb_true_iff, !starts_with_true. split.
  - intros [[r ->]|[r ->]]; [exists (lit "api"), r|exists (lit "event"), r]; auto.
  - intros (pkg & r & [-> | ->] & ->); [left|right]; by exists r.
Qed.

Lemma IMPORT_none b s : imports_seam s = false → rmatch IMPORT Some (Pos b s []) = None.
Proof.
  intros H. destruct (rmatch IMPORT Some (Pos b s [])) as [m|] eqn:E; [|done].
  apply rmatch_matcher in E as (s' & Hm & _).
  apply matches_cat in Hm as (s1 & Hb & (s2 & [E2 _]%matches_chars & (s3 & (s4 & Ha & ->)%matches_group & [E3 _]%matches_chars)%matches_cat)%matches_cat).
  inversion Hb; subst. cbn [ahead capture] in E2, E3. enough (imports_seam s = true) by congruence.
  apply imports_seam_true. inversion Ha as [| | |? ? ? ? E4|? ? ? ? E4| | | | | |]; subst;
    apply matches_chars in E4 as [E4 _];
    [exists (lit "api"), (ahead s')|exists (lit "event"), (ahead s')]; (split; [auto|]); by rewrite E4, E3.
Qed.
End lines.

Lemma split_cons sep s : ∃ l ls, split_on sep s = l :: ls.
Proof. destruct s as [|c s]; cbn [split_on]; [by eauto|]. case_match; [by eauto|]. case_match; by eauto. Qed.

Lemma split_app sep t s l ls : sep ∉ t → split_on sep s = l :: ls → split_on sep (t ++ s) = (t ++ l) :: ls.
Proof.
  intros Ht E. induction t as [|c t IH]; [done|]. apply not_elem_of_cons in Ht as [Hc Ht]. cbn [app split_on].
  destruct (Z.eqb_spec c sep); [congruence|]. by rewrite IH.
Qed.

Lemma lines_join s : join_lines (lines s) = s.
Proof.
  unfold lines. induction s as [|c s IH]; [done|]. cbn [split_on]. destruct (split_cons 10 s) as (l & ls & E). rewrite E in IH |- *.
  destruct (Z.eqb_spec c 10) as [->|]; cbn [join_lines] in *; [by rewrite IH|]. destruct ls; by rewrite <- IH.
Qed.
Lemma lines_no_newline s : Forall (λ l, 10 ∉ l) (lines s).
Proof.
  unfold lines. induction s as [|c s IH]; cbn [split_on]; [by repeat constructor; apply not_elem_of_nil|].
  destruct (split_cons 10 s) as (l & ls & E). rewrite E in *. apply Forall_cons in IH as [Hl IH].
  destruct (Z.eqb_spec c 10); repeat constructor; auto; [apply not_elem_of_nil|by apply not_elem_of_cons].
Qed.
Lemma join_split ls : ls ≠ [] → Forall (λ l, 10 ∉ l) ls → lines (join_lines ls) = ls.
Proof.
  unfold lines. intros Hn H. induction H as [|l ls Hl H IH]; [done|]. destruct ls as [|l' ls].
  - cbn [join_lines]. rewrite <- (app_nil_r l) at 1. rewrite (split_app 10 l [] [] []) by done. by rewrite app_nil_r.
  - change (join_lines (l :: l' :: ls)) with (l ++ 10 :: join_lines (l' :: ls)).
    rewrite (split_app 10 l _ [] (l' :: ls)); [by rewrite app_nil_r|done|]. cbn [split_on]. by rewrite IH.
Qed.

(** What the substitution makes of the rest of a text, at the start of a line or inside one. *)
Definition root_rest (bol : bool) (s : pystr) : pystr :=
  match lines s with
  | l :: ls => join_lines ((if bol then rooted_line l else l) :: (rooted_line <$> ls))
  | [] => []
  end.

Lemma imports_seam_line s l ls : lines s = l :: ls → imports_seam s = imports_seam l.
Proof.
  intros E. assert (Hp : ∀ p, 10 ∉ p → starts_with p s = starts_with p l); [|unfold imports_seam; by rewrite !Hp by (apply (bool_decide_unpack _); vm_compute; exact I)].
  unfold lines in E. induction s as [|c s IH] in l, ls, E |- *; cbn [split_on] in E; [by simplify_eq|].
  destruct (split_cons 10 s) as (l' & ls' & E'). rewrite E' in E.
  intros [|d p] Hp; [done|]. apply not_elem_of_cons in Hp as [Hd Hp]. specialize (IH _ _ E' p Hp). unfold starts_with in *.
  destruct (Z.eqb_spec c 10); simplify_eq; cbn [strip_prefix]; [destruct (Z.eqb_spec d 10); [congruence|done]|].
  by destruct (d =? c).
Qed.

Lemma join_lines_app t l ls : join_lines ((t ++ l) :: ls) = t ++ join_lines (l :: ls).
Proof. destruct ls; cbn [join_lines]; [done|]. by rewrite <- (assoc_L (++)). Qed.

Lemma rooted_import pkg l : pkg = lit "api" ∨ pkg = lit "event" →
  rooted_line (lit "from seam." ++ pkg ++ lit ".v1 import " ++ l) = lit "from seam_sdk._gen.seam." ++ pkg ++ lit ".v1 import " ++ l.
Proof. intros Hp. unfold rooted_line. rewrite (proj2 (imports_seam_true _)) by eauto. done. Qed.

Lemma import_no_newline pkg : pkg = lit "api" ∨ pkg = lit "event" → 10 ∉ lit "from seam." ++ pkg ++ lit ".v1 import ".
Proof. by intros [-> | ->]; apply (bool_decide_unpack _); vm_compute. Qed.

Lemma pieces_kept fuel b c rest : at_bol (Pos b [] []) = false ∨ imports_seam (c :: rest) = false →
  pieces_from (S fuel) IMPORT b (c :: rest) = Kept c :: pieces_from fuel IMPORT (Some c) rest.
Proof.
  intros H. cbn [pieces_from]. destruct H as [H|H]; [by rewrite IMPORT_middle|by rewrite IMPORT_none].
Qed.

Lemma pieces_found fuel b pkg r : at_bol (Pos b [] []) = true → pkg = lit "api" ∨ pkg = lit "event" →
  ∃ t, pieces_from (S fuel) IMPORT b (lit "from seam." ++ pkg ++ lit ".v1 import " ++ r) =
    Found t [(1%nat, pkg)] :: pieces_from fuel IMPORT (Some 32) r.
Proof.
  intros Hb Hp. destruct (IMPORT_reads b pkg r Hb Hp) as (m & Em & Ea & Eg & Eb).
  change (lit "from seam." ++ ?x) with (102 :: (lit "rom seam." ++ x)) in Em |- *. cbn [pieces_from]. rewrite Em, Ea, Eg, Eb.
  unfold shorter. cbn [ahead]. rewrite Ea.
  rewrite (proj2 (Nat.ltb_lt _ _)) by (cbn [length]; rewrite !length_app; lia). by eexists.
Qed.

Lemma pieces_lines fuel b s : (length s ≤ fuel)%nat →
  concat (root_piece <$> pieces_from fuel IMPORT b s) = root_rest (at_bol (Pos b [] [])) s.
Proof.
  revert b s. induction fuel as [|fuel IH]; intros b s Hf.
  { destruct s; [|simpl in Hf; lia]. by destruct (at_bol _). }
  destruct s as [|c rest]; [by destruct (at_bol _)|]. cbn [length] in Hf. destruct (split_cons 10 rest) as (l & ls & E).
  destruct (at_bol (Pos b [] [])) eqn:Hb; [destruct (imports_seam (c :: rest)) eqn:Hi|].
  - apply imports_seam_true in Hi as (pkg & r & Hp & Es). rewrite Es in *.
    destruct (pieces_found fuel b pkg r Hb Hp) as [t ->]. rewrite fmap_cons; cbn [concat]; rewrite IH.
    2: { apply (f_equal length) in Es. rewrite !length_app in Es. cbn [length] in Es. change (length (lit "from seam.")) with 10%nat in Es. lia. }
    change (at_bol (Pos (Some 32) [] [])) with false. unfold root_rest, lines. destruct (split_cons 10 r) as (l' & ls' & E').
    pose proof (split_app 10 _ r l' ls' (import_no_newline pkg Hp) E') as El. rewrite <- !(assoc_L (++)) in El. rewrite El, E', rooted_import by done.
    rewrite (assoc_L (++) pkg), (assoc_L (++) (lit "from seam_sdk._gen.seam.")), join_lines_app.
    cbn [root_piece find_group Nat.eqb default]. by rewrite <- !(assoc_L (++)).
  - rewrite pieces_kept, fmap_cons by auto; cbn [concat]; rewrite IH by lia. cbn [root_piece app]. unfold root_rest, lines.
    cbn [split_on at_bol before]. rewrite E. destruct (Z.eqb_spec c 10) as [->|]; [done|].
    assert (rooted_line (c :: l) = c :: l) as ->; [|by rewrite (join_lines_app [c] l)].
    unfold rooted_line. rewrite <- (imports_seam_line (c :: rest) (c :: l) ls), Hi; [done|].
    unfold lines. cbn [split_on]. rewrite E. by destruct (Z.eqb_spec c 10).
  - rewrite pieces_kept, fmap_cons by auto; cbn [concat]; rewrite IH by lia. cbn [root_piece app]. unfold root_rest, lines.
    cbn [split_on at_bol before]. rewrite E. destruct (Z.eqb_spec c 10) as [->|]; [done|by rewrite (join_lines_app [c] l)].
Qed.

(** The script rewrites whole lines: those that begin with one of the two statements, and no other. *)
Lemma root_text_lines s : root_text s = join_lines (rooted_line <$> lines s).
Proof.
  unfold root_text, pieces. rewrite pieces_lines by done. cbn [at_bol before]. unfold root_rest.
  destruct (split_cons 10 s) as (l & ls & E). unfold lines. by rewrite E.
Qed.

Lemma rooted_line_idem l : rooted_line (rooted_line l) = rooted_line l.
Proof. unfold rooted_line. destruct (imports_seam l) eqn:E; [done|by rewrite E]. Qed.
Lemma rooted_line_chars l c : c ∈ rooted_line l → c ∈ l ∨ c ∈ lit "from seam_sdk._gen.".
Proof.
  unfold rooted_line. destruct (imports_seam l); [|by left]. rewrite elem_of_app. intros [?|H]; [by right|left].
  rewrite <- (take_drop 5 l), elem_of_app. by right.
Qed.
Lemma rooted_no_newline l : 10 ∉ l → 10 ∉ rooted_line l.
Proof. intros Hl [?|H]%rooted_line_chars; [done|]. revert H. apply (bool_decide_unpack _). by vm_compute. Qed.

Lemma root_text_idem s : root_text (root_text s) = root_text s.
Proof.
  rewrite (root_text_lines (root_text s)), root_text_lines, join_split.
  - f_equal. rewrite <- list_fmap_compose. apply list_fmap_ext. intros i l _. apply rooted_line_idem.
  - destruct (split_cons 10 s) as (l & ls & E). unfold lines. by rewrite E.
  - apply Forall_fmap. eapply Forall_impl; [apply lines_no_newline|]. intros l. apply rooted_no_newline.
Qed.

(** ** What a rooted text is made of *)

Lemma join_lines_chars c ls : c ∈ join_lines ls → c = 10 ∨ ∃ l, l ∈ ls ∧ c ∈ l.
Proof.
  induction ls as [|l ls IH]; cbn [join_lines]; [by intros ?%not_elem_of_nil|]. destruct ls as [|l' ls].
  - intros H. right. exists l. by split; [left|].
  - intros [H|[->|H%IH]%elem_of_cons]%elem_of_app; [right; exists l; by split; [left|]|by left|].
    destruct H as [->|(l0 & ? & ?)]; [by left|right]. exists l0. split; [by right|done].
Qed.
Lemma lines_chars c l s : l ∈ lines s → c ∈ l → c ∈ s.
Proof.
  unfold lines. revert l. induction s as [|x s IH]; intros l; cbn [split_on]; [by intros ->%list_elem_of_singleton|].
  destruct (split_cons 10 s) as (l' & ls & E). rewrite E in *. destruct (x =? 10).
  - intros [->|H]%elem_of_cons Hc; [by apply not_elem_of_nil in Hc|]. right. by eapply IH.
  - intros [->|H]%elem_of_cons Hc; [apply elem_of_cons in Hc as [->|Hc]; [by left|]|]; right; eapply IH; try done; [by left|by right].
Qed.
Lemma root_text_chars c s : c ∈ root_text s → c ∈ s ∨ c ∈ 10 :: lit "from seam_sdk._gen.".
Proof.
  rewrite root_text_lines. intros [->|(l & (l' & -> & Hl)%list_elem_of_fmap & Hc)]%join_lines_chars; [right; by left|].
  apply rooted_line_chars in Hc as [Hc|Hc]; [left; by eapply lines_chars|right; by right].
Qed.

Definition encodable (c : Z) : Prop := ∃ e, utf8_char c = Ok e.
Lemma utf8_encodable s : (∃ b, utf8_encode s = Ok b) ↔ Forall encodable s.
Proof.
  split.
  - intros [b H]. unfold utf8_encode in H. apply fmap_Ok in H as (es & H & _). revert es H.
    induction s as [|c s IH]; intros es H; constructor; apply mapM_res_cons in H as (e & es' & He & Hs & _); [by exists e|by eapply IH].
  - induction 1 as [|c s [e He] _ [b Hb]]; [by exists []|]. exists (e ++ b). apply (utf8_encode_app [c] s); [|done].
    unfold utf8_encode. cbn. rewrite He. cbn. by rewrite app_nil_r.
Qed.

Lemma newlines_chars s c : c ∈ universal_newlines s → c ≠ 13 ∧ (c ∈ s ∨ c = 10).
Proof.
  induction s as [s IH] using (induction_ltof1 _ length). unfold ltof in IH. destruct s as [|x s]; [by intros ?%not_elem_of_nil|].
  assert (Hrec : ∀ r, (length r < length (x :: s))%nat → (∀ y, y ∈ r → y ∈ x :: s) → c ∈ 10 :: universal_newlines r → c ≠ 13 ∧ (c ∈ x :: s ∨ c = 10)).
  { intros r Hl Hin [->|H]%elem_of_cons; [by split; [|right]|]. apply IH in H as [? [?|?]]; [|by auto..|done]. split; [done|]. left. auto. }
  destruct (decide (x = 13)) as [->|Hx].
  - cbn [universal_newlines]. destruct s as [|y s]; [apply (Hrec []); [simpl; lia|by intros ? ?%not_elem_of_nil]|].
    destruct (decide (y = 10)) as [->|Hy]; [apply (Hrec s); [simpl; lia|by intros; do 2 right]|].
    replace (match y with 10 => _ | _ => _ end) with (universal_newlines (y :: s)) by (repeat case_match; done).
    apply (Hrec (y :: s)); [simpl; lia|by intros; right].
  - rewrite newlines_cons by done. intros [->|H]%elem_of_cons; [split; [done|]; left; by left|].
    apply IH in H as [? [?|?]]; [|simpl; lia|by auto]. split; [done|]. left. by right.
Qed.

(** ** One file *)

(** A file's text, as the script reads it, and its bytes afterwards. *)
Definition text_of (b : bytes) : res pystr := universal_newlines <$> utf8_decode b.
Definition new_bytes (b : bytes) : bytes :=
  match text_of b with
  | Ok t => if bool_decide (root_text t = t) then b else match utf8_encode (root_text t) with Ok b' => b' | Raise _ => b end
  | Raise _ => b
  end.
Definition utf8_file (b : bytes) : Prop := ∃ t, utf8_encode t = Ok b.

Lemma text_of_Ok b : utf8_file b → ∃ t, text_of b = Ok t ∧ Forall encodable t ∧ 13 ∉ t.
Proof.
  intros [s Hs]. exists (universal_newlines s). unfold text_of. rewrite (utf8_decode_encode s b Hs). split_and!; [done| |].
  - apply Forall_forall. intros c [_ [Hc| ->]]%newlines_chars; [|by eexists]. revert c Hc. apply Forall_forall, utf8_encodable. by exists b.
  - by intros [? _]%newlines_chars.
Qed.

Lemma root_text_encodes t : Forall encodable t → ∃ b, utf8_encode (root_text t) = Ok b.
Proof.
  rewrite Forall_forall. intros Ht. apply utf8_encodable, Forall_forall. intros c [Hc|Hc]%root_text_chars; [by apply Ht|].
  assert (Ha : is_ascii (10 :: lit "from seam_sdk._gen.") = true) by done. apply utf8_encode_ascii in Ha.
  revert c Hc. apply Forall_forall, utf8_encodable. by eexists.
Qed.
Lemma root_text_newlines t : 13 ∉ t → universal_newlines (root_text t) = root_text t.
Proof.
  intros Ht. apply universal_newlines_id. intros [?|H]%root_text_chars; [done|]. revert H. apply (bool_decide_unpack _). by vm_compute.
Qed.

(** A file either has nothing to root, or its rooted text is written, which is another text. *)
Lemma new_bytes_cases b : utf8_file b → ∃ t, text_of b = Ok t ∧
  (root_text t = t ∧ new_bytes b = b ∨
   root_text t ≠ t ∧ utf8_encode (root_text t) = Ok (new_bytes b) ∧ text_of (new_bytes b) = Ok (root_text t) ∧ new_bytes b ≠ b).
Proof.
  intros Hb. destruct (text_of_Ok b Hb) as (t & Et & He & Hr). exists t. split; [done|]. unfold new_bytes. rewrite Et.
  destruct (decide (root_text t = t)) as [E|E]; [left; by rewrite bool_decide_eq_true_2|right]. rewrite bool_decide_eq_false_2 by done.
  destruct (root_text_encodes t He) as [b' Eb]. rewrite Eb.
  assert (Ht : text_of b' = Ok (root_text t)) by (unfold text_of; rewrite (utf8_decode_encode _ _ Eb); cbn; by rewrite root_text_newlines).
  split_and!; [done..|]. intros ->. congruence.
Qed.

(** Rooting a file twice is rooting it once. *)
Lemma new_bytes_again b : utf8_file b → utf8_file (new_bytes b) ∧ new_bytes (new_bytes b) = new_bytes b.
Proof.
  intros Hb. destruct (new_bytes_cases b Hb) as (t & Et & [[E E1]|(E & Eb & Et' & _)]); [by rewrite !E1|split; [by eexists|]].
  unfold new_bytes at 1. by rewrite Et', bool_decide_eq_true_2 by apply root_text_idem.
Qed.

Definition same_output (s s' : State) : Prop := printed s' = printed s.

Lemma root_file_does p s b : tree s !! p = Some (File b) → utf8_file b →
  root_file p s = (Done (if bool_decide (new_bytes b = b) then 0%nat else 1%nat), MkState (<[p := File (new_bytes b)]> (tree s)) (printed s)).
Proof.
  intros Hp Hb. unfold root_file, mbind, script_bind. unfold read_text. rewrite Hp. fold (text_of b).
  destruct (new_bytes_cases b Hb) as (t & -> & [[E ->]|(E & Eb & _ & Hne)]); cbn [of_res].
  - rewrite !bool_decide_eq_true_2 by done. rewrite insert_id by done. by destruct s.
  - rewrite !bool_decide_eq_false_2 by done. unfold write_text. rewrite Hp. unfold put, mbind, script_bind. cbn [modify].
    rewrite Eb. cbn [of_res modify tree printed mret]. by rewrite insert_insert_eq.
Qed.

(** The files of the first loop: those that are rooted, and how many of them change. *)
Lemma root_files_do (f : path → bytes) ps n s : NoDup ps → (∀ p, p ∈ ps → tree s !! p = Some (File (f p)) ∧ utf8_file (f p)) →
  ∃ t, root_files ps n s = (Done (n + length (filter (λ p, new_bytes (f p) ≠ f p) ps))%nat, MkState t (printed s)) ∧
    ∀ p, t !! p = if decide (p ∈ ps) then Some (File (new_bytes (f p))) else tree s !! p.
Proof.
  intros Hnd. revert n s. induction Hnd as [|p ps Hp _ IH]; intros n s Hf.
  { exists (tree s). cbn [root_files filter list_filter length]. rewrite Nat.add_0_r. by destruct s. }
  cbn [root_files]. unfold mbind, script_bind. destruct (Hf p) as [Et Hu]; [by left|]. rewrite (root_file_does p s (f p)) by done.
  set (s1 := MkState _ _). destruct (IH (n + (if bool_decide (new_bytes (f p) = f p) then 0 else 1))%nat s1) as (t & Er & Ht).
  { intros q Hq. cbn [tree s1]. rewrite lookup_insert_ne by (intros ->; done). apply Hf. by right. }
  rewrite Er. exists t. split.
  - rewrite filter_cons. case_bool_decide; destruct (decide _); try done; cbn [length]; do 2 f_equal; lia.
  - intros q. rewrite Ht. cbn [tree s1]. destruct (decide (q = p)) as [->|Hqp].
    + rewrite lookup_insert_eq, decide_False, decide_True by (done || by left). done.
    + rewrite lookup_insert_ne by done. destruct (decide (q ∈ ps)); [rewrite decide_True by (by right)|rewrite decide_False by (by intros [?|?]%elem_of_cons)]; done.
Qed.

(** The second loop: every directory has its [__init__.py]. *)
Lemma inits_do ds s : ∃ t, each init_dir ds s = (Done (), MkState t (printed s)) ∧
  ∀ p, t !! p = match tree s !! p with Some x => Some x | None => if decide (p ∈ init_of <$> ds) then Some (File []) else None end.
Proof.
  revert s. induction ds as [|d ds IH]; intros s.
  { exists (tree s). split; [by destruct s|]. intros p. destruct (tree s !! p); [done|]. rewrite decide_False; [done|apply not_elem_of_nil]. }
  cbn [each]. unfold mbind at 1, script_bind at 1. unfold init_dir at 1. unfold exists_, mbind at 1, script_bind at 1.
  destruct (tree s !! init_of d) as [x|] eqn:E.
  - rewrite bool_decide_eq_true_2 by eauto. cbn [mret script_ret]. destruct (IH s) as (t & -> & Ht). exists t. split; [done|].
    intros p. rewrite Ht, fmap_cons. destruct (tree s !! p) eqn:Ep; [done|]. assert (p ≠ init_of d) by congruence.
    destruct (decide (p ∈ init_of <$> ds)); [rewrite decide_True by (by right)|rewrite decide_False by (by intros [?|?]%elem_of_cons)]; done.
  - rewrite bool_decide_eq_false_2 by (by intros [? ?]). unfold write_text. rewrite E. change (utf8_encode []) with (Ok ([] : bytes)).
    unfold put, mbind, script_bind. cbn [modify of_res tree printed]. rewrite insert_insert_eq. destruct (IH (MkState (<[init_of d := File []]> (tree s)) (printed s))) as (t & -> & Ht). exists t. split; [done|].
    intros p. rewrite Ht, fmap_cons. cbn [tree]. destruct (decide (p = init_of d)) as [->|Hp].
    + rewrite lookup_insert_eq, E, decide_True by (by left). done.
    + rewrite lookup_insert_ne by done. destruct (tree s !! p); [done|].
      destruct (decide (p ∈ init_of <$> ds)); [rewrite decide_True by (by right)|rewrite decide_False by (by intros [?|?]%elem_of_cons)]; done.
Qed.

(** ** The whole script *)

(** The names that every directory is to have. *)
Definition is_init (t : files) (p : path) : Prop := ∃ d, p = init_of d ∧ t !! d = Some Dir.

(** The contents of [p] before and after, in terms of lines. *)
Definition rooted_bytes (b b' : bytes) : Prop := ∃ t, text_of b = Ok t ∧
  if decide (Forall (λ l, imports_seam l = false) (lines t)) then b' = b
  else utf8_encode (join_lines (rooted_line <$> lines t)) = Ok b'.
Definition rooted_at (t t' : files) (p : path) : Prop :=
  match t !! p with
  | Some (File b) => ∃ b', t' !! p = Some (File b') ∧ if is_source p then rooted_bytes b b' else b' = b
  | Some Dir => t' !! p = Some Dir
  | None => t' !! p = Some (File []) ∧ is_init t p ∨ t' !! p = None ∧ ¬ is_init t p
  end.

Lemma rooted_line_longer l : imports_seam l = true → rooted_line l ≠ l.
Proof.
  intros Hl E. apply (f_equal length) in E. unfold rooted_line in E. rewrite Hl, length_app, length_drop in E.
  apply imports_seam_true in Hl as (pkg & r & _ & ->). rewrite !length_app in E.
  change (length (lit "from seam_sdk._gen.")) with 19%nat in E. change (length (lit "from seam.")) with 10%nat in E. lia.
Qed.
Lemma root_text_same t : root_text t = t ↔ Forall (λ l, imports_seam l = false) (lines t).
Proof.
  rewrite root_text_lines. split.
  - intros E. apply (f_equal lines) in E. rewrite join_split in E.
    + clear -E. induction (lines t) as [|l ls IH]; [done|]. rewrite fmap_cons in E. injection E as E1 E2. constructor; [|by apply IH].
      destruct (imports_seam l) eqn:Hl; [|done]. by apply rooted_line_longer in Hl.
    + destruct (split_cons 10 t) as (l & ls & El). unfold lines. by rewrite El.
    + apply Forall_fmap. eapply Forall_impl; [apply lines_no_newline|]. intros l. apply rooted_no_newline.
  - intros H. rewrite <- (lines_join t) at 2. f_equal. rewrite <- (list_fmap_id (lines t)) at 2. apply list_fmap_ext.
    intros i l Hi. unfold rooted_line. rewrite Forall_lookup in H. by rewrite (H i l).
Qed.
Lemma new_bytes_rooted b : utf8_file b → rooted_bytes b (new_bytes b).
Proof.
  intros Hb. destruct (new_bytes_cases b Hb) as (t & Et & H). exists t. split; [done|]. rewrite <- root_text_lines.
  destruct H as [[E H]|(E & H & _)]; [rewrite decide_True by by apply root_text_same|rewrite decide_False by by rewrite <- root_text_same]; done.
Qed.

Lemma filter_on {A} (P Q : A → Prop) `{!∀ x, Decision (P x), !∀ x, Decision (Q x)} (l : list A) :
  (∀ x, x ∈ l → P x ↔ Q x) → filter P l = filter Q l.
Proof.
  induction l as [|x l IH]; intros Hl; [done|]. rewrite !filter_cons, IH by (intros; apply Hl; by right).
  specialize (Hl x ltac:(by left)). repeat destruct (decide _); naive_solver.
Qed.

Section main.
Context (rglob : files → list path) (Hglob : ∀ t, rglob t ≡ₚ filter (λ p, p ≠ []) (map_to_list t).*1).

Lemma rglob_in t p : p ∈ rglob t ↔ p ≠ [] ∧ is_Some (t !! p).
Proof.
  rewrite Hglob, list_elem_of_filter, list_elem_of_fmap. split; intros [Hp H]; (split; [done|]).
  - destruct H as ([q x] & -> & Hx). apply elem_of_map_to_list in Hx. by eexists.
  - destruct H as [x Hx]. exists (p, x). by rewrite elem_of_map_to_list.
Qed.
Lemma rglob_NoDup t : NoDup (rglob t).
Proof. rewrite Hglob. apply NoDup_filter, NoDup_fst_map_to_list. Qed.

(** The state the script starts from: [_gen] is a directory, and every source below it a file of UTF-8 text. *)
Definition generated (t : files) : Prop :=
  t !! [] = Some Dir ∧ ∀ p x, is_source p = true → t !! p = Some x → ∃ b, x = File b ∧ utf8_file b.

Lemma main_does s : generated (tree s) → ∃ t n, main rglob s = (Done 0, MkState t (printed s ++ [Rooted n])) ∧
  n = length (filter (λ p, t !! p ≠ tree s !! p) (rglob (tree s))) ∧
  ∀ p, match tree s !! p with
       | Some (File b) => t !! p = Some (File (if is_source p then new_bytes b else b))
       | Some Dir => t !! p = Some Dir
       | None => t !! p = Some (File []) ∧ is_init (tree s) p ∨ t !! p = None ∧ ¬ is_init (tree s) p
       end.
Proof.
  intros [Hd Hs]. unfold main, is_dir at 1. rewrite Hd. cbn [negb]. set (f := λ p, match tree s !! p with Some (File b) => b | _ => [] end).
  set (ps := merge_sort path_le (filter (λ p, is_source p = true) (rglob (tree s)))). assert (Hps : ∀ p, p ∈ ps ↔ is_source p = true ∧ is_Some (tree s !! p)).
  { intros p. unfold ps. rewrite merge_sort_Permutation, list_elem_of_filter, rglob_in.
    split; [tauto|]. intros [? ?]. split_and!; [done| |done]. by intros ->. }
  destruct (root_files_do f ps 0 s) as (t1 & E1 & H1).
  { unfold ps. rewrite merge_sort_Permutation. apply NoDup_filter, rglob_NoDup. }
  { intros p [Hp [x Hx]]%Hps. destruct (Hs p x Hp Hx) as (b & -> & Hb). unfold f. by rewrite Hx. }
  unfold mbind, script_bind. unfold sources. cbn beta iota. fold ps. rewrite E1. cbn beta iota. unfold dirs. cbn [tree printed].
  set (ds := [] :: filter (λ p, is_dir t1 p = true) (rglob t1)). destruct (inits_do ds (MkState t1 (printed s))) as (t2 & E2 & H2). rewrite E2. cbn [tree printed] in *.
  assert (Hold : ∀ p b, tree s !! p = Some (File b) → t1 !! p = Some (File (if is_source p then new_bytes b else b))).
  { intros p b Hp. rewrite H1. destruct (is_source p) eqn:Ep.
    - rewrite decide_True by (apply Hps; rewrite Hp; by split). unfold f. by rewrite Hp.
    - rewrite decide_False, Hp by (intros [? _]%Hps; congruence). done. }
  assert (Hdirs : ∀ p, t1 !! p = Some Dir ↔ tree s !! p = Some Dir).
  { intros p. rewrite H1. destruct (decide (p ∈ ps)) as [[Hp [x Hx]]%Hps|]; [|done]. destruct (Hs p x Hp Hx) as (b & -> & _). by rewrite Hx. }
  assert (Hnone : ∀ p, tree s !! p = None → t1 !! p = None).
  { intros p Hp. rewrite H1, decide_False; [done|]. rewrite Hps, Hp. by intros [_ [? ?]]. }
  assert (Hds : ∀ p, p ∈ init_of <$> ds ↔ is_init (tree s) p).
  { intros p. rewrite list_elem_of_fmap. unfold is_init, ds. setoid_rewrite elem_of_cons. setoid_rewrite list_elem_of_filter. setoid_rewrite rglob_in.
    unfold is_dir. split; intros (d & -> & H); exists d; (split; [done|]).
    - rewrite <- Hdirs. destruct H as [->|[H _]]; [by apply Hdirs|]. by repeat case_match.
    - rewrite <- Hdirs in H. destruct (decide (d = [])) as [->|Hn]; [by left|right]. rewrite H. by split_and!. }
  assert (Hat : ∀ p, match tree s !! p with
    | Some (File b) => t2 !! p = Some (File (if is_source p then new_bytes b else b))
    | Some Dir => t2 !! p = Some Dir
    | None => t2 !! p = Some (File []) ∧ is_init (tree s) p ∨ t2 !! p = None ∧ ¬ is_init (tree s) p
    end).
  { intros p. rewrite H2. destruct (tree s !! p) as [[b|]|] eqn:Ep; [by rewrite (Hold p b)|by rewrite (proj2 (Hdirs p))|].
    rewrite (Hnone p Ep). destruct (decide _) as [Hi|Hi]; rewrite Hds in Hi; [by left|by right]. }
  eexists t2, _. split_and!; [done| |exact Hat].
  rewrite Nat.add_0_l. unfold ps. rewrite merge_sort_Permutation, list_filter_filter. f_equal.
  apply filter_on. intros p [_ [x Hx]]%rglob_in. unfold f. rewrite Hx. specialize (Hat p). rewrite Hx in Hat. destruct x as [b|]; rewrite Hat.
  - destruct (is_source p); [|naive_solver]. split; [intros [H _]; congruence|]. intros H. split; [|done]. congruence.
  - split; [|done]. intros [_ Hp]. destruct (Hs p Dir Hp Hx) as (b & [=] & _).
Qed.

(** C31. The generated tree is rooted: the script ends well; in every Python source the lines that import one of the two
    top-level packages import the package's own, and no other line changes; every directory has its [__init__.py];
    nothing else changes, and the count printed is that of the files that did. Running it again changes nothing. *)
Theorem main_roots s : generated (tree s) → ∃ t n, main rglob s = (Done 0, MkState t (printed s ++ [Rooted n])) ∧
  (∀ p, rooted_at (tree s) t p) ∧
  n = length (filter (λ p, t !! p ≠ tree s !! p) (rglob (tree s))) ∧
  ∀ o, main rglob (MkState t o) = (Done 0, MkState t (o ++ [Rooted 0])).
Proof.
  intros Hg. destruct (main_does s Hg) as (t & n & E & Hn & Ht). exists t, n. split_and!; [done| |done|]; destruct Hg as [Hd Hs].
  - intros p. specialize (Ht p). unfold rooted_at. destruct (tree s !! p) as [[b|]|] eqn:Ep; [|done..]. eexists. split; [done|].
    destruct (is_source p) eqn:Hp; [|done]. apply new_bytes_rooted. by destruct (Hs p (File b) Hp Ep) as (? & [= <-] & ?).
  - intros o. assert (Hdir : ∀ p, t !! p = Some Dir ↔ tree s !! p = Some Dir).
    { intros p. specialize (Ht p). destruct (tree s !! p) as [[b|]|]; naive_solver. }
    assert (Hg : generated t).
    { split; [by apply Hdir|]. intros p x Hp Hx. specialize (Ht p). destruct (tree s !! p) as [y|] eqn:Ep.
      - destruct (Hs p y Hp Ep) as (b & -> & Hb). rewrite Hp in Ht. exists (new_bytes b). split; [congruence|by apply new_bytes_again].
      - exists []. split; [naive_solver congruence|by exists []]. }
    destruct (main_does (MkState t o) Hg) as (t' & n' & E' & Hn' & Ht'). cbn [tree printed] in *.
    assert (t' = t) as ->; cycle 1.
    { rewrite E'. assert (n' = 0%nat) as ->; [|done]. rewrite Hn'. clear. induction (rglob t); [done|]. by rewrite filter_cons, decide_False by auto. }
    apply map_eq. intros p. specialize (Ht p). specialize (Ht' p). destruct (tree s !! p) as [x|] eqn:Ep.
    + destruct x as [b|]; rewrite Ht in Ht' |- *; [|done]. rewrite Ht'. destruct (is_source p) eqn:Hp; [|done].
      destruct (Hs p (File b) Hp Ep) as (? & [= <-] & Hb). by rewrite (proj2 (new_bytes_again b Hb)).
    + destruct Ht as [[Ht Hi]|[Ht Hi]]; rewrite Ht in Ht' |- *; [by destruct (is_source p)|].
      destruct Ht' as [[_ (d & -> & Hdd)]|[? _]]; [|done]. destruct Hi. exists d. by rewrite <- Hdir.
Qed.
End main.

Definition all_below (t : files) : list path := filter (λ p, p ≠ []) (map_to_list t).*1.
Definition sample : State := MkState (<[[] := Dir]> (<[[lit "api"] := Dir]>
  (<[[lit "api"; lit "api_pb2.py"] := File (lit "import grpc" ++ [13; 10] ++ lit "from seam.event.v1 import event_pb2")]>
  (<[[lit "api"; lit "notes.txt"] := File (lit "from seam.event.v1 import event_pb2")]> ∅)))) [].

Lemma main_roots_witness : ∃ t n, main all_below sample = (Done 0, MkState t (printed sample ++ [Rooted n])) ∧
  (∀ p, rooted_at (tree sample) t p) ∧
  n = length (filter (λ p, t !! p ≠ tree sample !! p) (all_below (tree sample))) ∧
  ∀ o, main all_below (MkState t o) = (Done 0, MkState t (o ++ [Rooted 0])).
Proof.
  apply (main_roots all_below (λ t, Permutation_refl _) sample). split; [done|]. intros p x Hp Hx. cbn [tree sample] in Hx.
  repeat (apply lookup_insert_Some in Hx as [[<- <-]|[_ Hx]]; [try discriminate Hp|]); [|by rewrite lookup_empty in Hx].
  eexists. split; [done|]. eexists. by apply utf8_encode_ascii.
Defined.
Example sample_rooted : match main all_below sample with
  | (Done 0, s) => printed s = [Rooted 1] ∧ tree s !! [lit "api"; lit "__init__.py"] = Some (File []) ∧
      tree s !! [lit "api"; lit "api_pb2.py"] = Some (File (lit "import grpc" ++ [10] ++ lit "from seam_sdk._gen.seam.event.v1 import event_pb2"))
  | _ => False
  end.
Proof. vm_compute. by split_and!. Qed.
