(* ===== verification/SiblingQuotes.v ===== *)
(** * SiblingQuotes: the quoted claims of sibling repositories ([scripts/check_sibling_quotes.py])

    A table in the tests quotes sentences of sibling repositories' files. The script asks [gh] for each quoted
    file and looks for the sentence. The exit code is 0 when every quote stands, 1 when one is gone, and 2 when
    there is no verdict; what [gh] answers may depend on everything asked before. *)

From stdpp Require Import base list numbers option strings.
From S2P Require Import Prelude Text Keys Script.

(** A row of the table: the document, the quoted path, the sentence. *)
Definition row : Type := pystr * pystr * pystr.
Record entry := Entry { doc : pystr; repo : pystr; path : pystr; needle : pystr }.

(** Why there is no verdict. *)
Inductive infra := TableUnreadable | TableSyntax | TableNotLiteral | TableMissing | TableEmpty | NoGh | ApiFailed (asked : pystr) (status : Z).
(** What the module that holds the table parses to. *)
Inductive parsed := ReadFault | SyntaxFault | NoAssignment | Computed | Literal (rows : list row).

Inductive drift := Gone (e : entry) (hits : list nat) | NoLongerQuoted (e : entry).
Inductive line := LError (x : infra) | LNothing | LChecking (n : nat) | LOk (e : entry) | LNoLongerMatches | LDrift (d : drift) | LAllMatch (n : nat).

Record State := MkState { asked : list pystr; out : list line }.
Abbreviation Q := (Script State infra).

Class Siblings := {
  table : parsed;
  gh_installed : bool;
  gh_api : list pystr → pystr → res (Z * pystr);
  read_doc : pystr → res pystr
}.

Definition OWNER : pystr := lit "zer07labs".
Definition SIBLING_REPOS : list pystr := [lit "seam-adapters"; lit "seam-aegis"].

Section quotes.
Context `{Siblings}.

Definition quoted_table : Q (list row) :=
  match table with
  | ReadFault => fail TableUnreadable
  | SyntaxFault => fail TableSyntax
  | NoAssignment => fail TableMissing
  | Computed => fail TableNotLiteral
  | Literal [] => fail TableEmpty
  | Literal rows => mret rows
  end.

(** [rel.split('/', 1)]: what stands before the first slash, and what after. *)
Fixpoint split_slash (s : pystr) : pystr * option pystr :=
  match s with
  | [] => ([], None)
  | c :: r => if c =? 47 then ([], Some r) else let '(h, t) := split_slash r in (c :: h, t)
  end.

Definition sibling_entry (r : row) : res (list entry) :=
  let '(doc, path, needle) := r in
  let '(repo, rest) := split_slash (removeprefix (lit "../") path) in
  if bool_decide (repo ∈ SIBLING_REPOS) then
    match rest with Some p => Ok [Entry doc repo p needle] | None => Raise IndexError end
  else Ok [].
Definition sibling_entries (rows : list row) : res (list entry) := mjoin <$> mapM sibling_entry rows.

Definition print (l : line) : Q () := modify (λ s, MkState (asked s) (out s ++ [l])).

Definition api_path (e : entry) : pystr := lit "repos/" ++ OWNER ++ 47 :: repo e ++ lit "/contents/" ++ path e.

Definition fetch (e : entry) : Q pystr :=
  _ ← require gh_installed NoGh;
  answer ← (λ s, (Done (gh_api (asked s) (api_path e)), MkState (asked s ++ [api_path e]) (out s)));
  '(status, body) ← of_res answer;
  _ ← require (status =? 0) (ApiFailed (api_path e) status);
  mret (body : pystr).

(** The numbers of the lines that hold the sentence. *)
Fixpoint hits_from (n : nat) (needle : pystr) (lines : list pystr) : list nat :=
  match lines with
  | [] => []
  | l :: lines => if contains_sub needle l then n :: hits_from (S n) needle lines else hits_from (S n) needle lines
  end.
Definition hits (needle body : pystr) : list nat := hits_from 1 needle (splitlines body).

(** One entry against its source and its document. *)
Definition check_entry (e : entry) : Q (list drift) :=
  body ← fetch e;
  match hits (needle e) body with
  | [_] =>
    local ← of_res (read_doc (doc e));
    if contains_sub (needle e) local then _ ← print (LOk e); mret [] else mret [NoLongerQuoted e]
  | hs => mret [Gone e hs]
  end.
Fixpoint check_entries (l : list entry) : Q (list drift) :=
  match l with [] => mret [] | e :: l => d ← check_entry e; ds ← check_entries l; mret (d ++ ds) end.

Definition or_error {A} (m : Q A) : Q (option A) := handling (Some <$> m) (λ x, _ ← print (LError x); mret None).

Definition main : Q Z :=
  entries ← or_error (rows ← quoted_table; of_res (sibling_entries rows));
  match entries with
  | None => mret 2
  | Some [] => _ ← print LNothing; mret 2
  | Some entries =>
    _ ← print (LChecking (length entries));
    drift ← or_error (check_entries entries);
    match drift with
    | None => mret 2
    | Some [] => _ ← print (LAllMatch (length entries)); mret 0
    | Some ds => _ ← print LNoLongerMatches; _ ← each (λ d, print (LDrift d)) ds; mret 1
    end
  end.

Definition start : State := MkState [] [].
(** An exception that escapes [main] is 2. *)
Definition exit_code : Z := match (main start).1 with Done c => c | Failed _ | Escaped _ => 2 end.

(** ** What an exit code says *)

(** What the run learns of the entry [e], asked for after [h]. *)
Definition answered (h : list pystr) (e : entry) (body : pystr) : Prop := gh_api h (api_path e) = Ok (0, body).
Definition stands (h : list pystr) (e : entry) : Prop :=
  ∃ body n local, answered h e body ∧ hits (needle e) body = [n] ∧ read_doc (doc e) = Ok local ∧ occurs (needle e) local.
Definition fails (h : list pystr) (e : entry) : Prop :=
  ∃ body, answered h e body ∧
    ((∀ n, hits (needle e) body ≠ [n]) ∨ ∃ local, read_doc (doc e) = Ok local ∧ ¬ occurs (needle e) local).
(** The paths asked before the entry at [i]. *)
Definition before (l : list entry) (i : nat) : list pystr := api_path <$> take i l.

Lemma check_entry_Done e s ds s' : check_entry e s = (Done ds, s') →
  gh_installed = true ∧ asked s' = asked s ++ [api_path e] ∧ (ds = [] ∧ stands (asked s) e ∨ ds ≠ [] ∧ fails (asked s) e).
Proof.
  unfold check_entry, fetch. intros (body & s1 & Hb & Hd)%bind_Done.
  apply bind_Done in Hb as (u & s2 & [Hg ->]%require_Done & Hb).
  apply bind_Done in Hb as (a & s3 & Hc & Hb). injection Hc as Hc <-.
  apply bind_Done in Hb as ([st b] & s4 & [-> ->]%of_res_Done & Hb).
  apply bind_Done in Hb as (u2 & s5 & [->%Z.eqb_eq ->]%require_Done & [-> ->]%ret_Done).
  assert (Ha : answered (asked s) e b) by exact Hc. split; [done|].
  assert (Hgone : ∀ ds : list drift, (∀ n, hits (needle e) b ≠ [n]) → ds ≠ [] → ds = [] ∧ stands (asked s) e ∨ ds ≠ [] ∧ fails (asked s) e).
  { intros ds' Hn Hne. right. split; [done|]. exists b. eauto. }
  destruct (hits (needle e) b) as [|n [|m hs]] eqn:Eh.
  - apply ret_Done in Hd as [-> ->]. split; [done|]. by apply Hgone.
  - apply bind_Done in Hd as (local & s5 & [Hl ->]%of_res_Done & Hd). destruct (contains_sub (needle e) local) eqn:Ec.
    + unfold print, modify in Hd. apply bind_Done in Hd as (u3 & s6 & Hp & [-> ->]%ret_Done). injection Hp as <- <-. split; [done|].
      left. split; [done|]. exists b, n, local. by rewrite <- contains_sub_iff.
    + apply ret_Done in Hd as [-> ->]. split; [done|]. right. split; [done|]. exists b. split; [done|]. right.
      exists local. split; [done|]. rewrite <- contains_sub_iff. congruence.
  - apply ret_Done in Hd as [-> ->]. split; [done|]. by apply Hgone.
Qed.

Lemma check_entries_Done l s ds s' : check_entries l s = (Done ds, s') →
  ∃ dss, ds = mjoin dss ∧ length dss = length l ∧
  ∀ i e, l !! i = Some e → ∃ d, dss !! i = Some d ∧
    (d = [] ∧ stands (asked s ++ before l i) e ∨ d ≠ [] ∧ fails (asked s ++ before l i) e).
Proof.
  revert s ds. induction l as [|e l IH]; intros s ds Hd; cbn [check_entries] in Hd; [exists []; by inv_done|].
  apply bind_Done in Hd as (d & s1 & He & Hd). apply bind_Done in Hd as (ds' & s2 & Hl & [-> ->]%ret_Done).
  apply check_entry_Done in He as (_ & Ha & He). destruct (IH _ _ Hl) as (dss & -> & Hlen & Hi).
  exists (d :: dss). split; [done|]. split; [cbn; congruence|]. intros [|i] e' Hx; cbn in Hx.
  - injection Hx as <-. exists d. split; [done|]. unfold before. cbn [take fmap list_fmap]. by rewrite app_nil_r.
  - destruct (Hi i e' Hx) as (d' & Hd' & Ho). exists d'. split; [done|].
    change (before (e :: l) (S i)) with ([api_path e] ++ before l i). rewrite (assoc_L (++)), <- Ha. exact Ho.
Qed.

Lemma main_Done_cases c s' : main start = (Done c, s') → c = 2 ∨
  ∃ rows l ds s1, table = Literal rows ∧ sibling_entries rows = Ok l ∧ l ≠ [] ∧
    check_entries l (MkState [] [LChecking (length l)]) = (Done ds, s1) ∧ c = (match ds with [] => 0 | _ => 1 end).
Proof.
  unfold main, or_error. intros (o & s1 & Ho & Hm)%bind_Done. destruct o as [l|]; [|left; by inv_done].
  apply handling_Done in Ho as [Ho|(x & s2 & _ & Ho)]; [|by inv_done]. apply fmap_Done in Ho as (l' & Ho & [= <-]).
  apply bind_Done in Ho as (rows & s2 & Ht & [Hl ->]%of_res_Done).
  assert (Hrows : table = Literal rows ∧ s2 = start).
  { unfold quoted_table in Ht. destruct table as [| | | |[|r rs]]; try discriminate Ht. apply ret_Done in Ht as [-> ->]. done. }
  destruct Hrows as [Ht' ->]. destruct l as [|e l]; [left; by inv_done|].
  apply bind_Done in Hm as (u & s3 & Hp & Hm). injection Hp as <- <-.
  apply bind_Done in Hm as (o & s4 & Ho & Hm). destruct o as [ds|]; [|left; by inv_done].
  apply handling_Done in Ho as [Ho|(x & s5 & _ & Ho)]; [|by inv_done]. apply fmap_Done in Ho as (ds' & Ho & [= <-]).
  right. exists rows, (e :: l), ds, s4. split_and!; [done|done|done|exact Ho|]. destruct ds; by inv_done.
Qed.

(** Exit 0 and exit 1 of the sibling-quote check are verdicts. Exit 0: the table names at least one sibling, and
    every quoted sentence stood - [gh] served the file, exactly one of its lines holds the sentence, and the
    document still quotes it. Exit 1: [gh] served every file, and some sentence is gone, no longer unique, or
    no longer quoted. Everything else, a crash included, is exit 2. *)
Theorem sibling_verdicts : exit_code ≠ 2 →
  ∃ rows l, table = Literal rows ∧ sibling_entries rows = Ok l ∧ l ≠ [] ∧
    (∀ i e, l !! i = Some e → stands (before l i) e ∨ fails (before l i) e) ∧
    (exit_code = 0 ∧ (∀ i e, l !! i = Some e → stands (before l i) e) ∨
     exit_code = 1 ∧ ∃ i e, l !! i = Some e ∧ fails (before l i) e).
Proof.
  unfold exit_code. destruct (main start) as [[c|x|e] s'] eqn:Hm; cbn [fst]; [|done..]. intros Hne.
  apply main_Done_cases in Hm as [?|(rows & l & ds & s1 & Ht & Hl & Hnil & Hc & ->)]; [done|].
  apply check_entries_Done in Hc as (dss & -> & Hlen & Hi). cbn [asked app] in Hi. exists rows, l. split_and!; [done..| |].
  - intros i e He. destruct (Hi i e He) as (d & _ & [[_ ?]|[_ ?]]); auto.
  - destruct (mjoin dss) as [|d ds] eqn:E; [left|right]; (split; [done|]).
    + intros i e He. destruct (Hi i e He) as (d & Hd & [[_ ?]|[Hdn _]]); [done|]. exfalso. apply Hdn.
      apply list_elem_of_lookup_2 in Hd. destruct d as [|x d]; [done|]. assert (x ∈ mjoin dss) as Hx by (apply list_elem_of_join; exists (x :: d); split; [by left|done]).
      rewrite E in Hx. by apply elem_of_nil in Hx.
    + assert (d ∈ mjoin dss) as Hx by (rewrite E; by left). apply list_elem_of_join in Hx as (dl & Hin & Hdl).
      apply list_elem_of_lookup_1 in Hdl as [i Hdl]. destruct (lookup_lt_is_Some_2 l i) as [e He];
        [rewrite <- Hlen; by eapply lookup_lt_Some|]. exists i, e. split; [done|].
      destruct (Hi i e He) as (d' & Hd' & [[-> _]|[_ ?]]); [|done]. rewrite Hd' in Hdl. injection Hdl as <-. by apply elem_of_nil in Hin.
Qed.
End quotes.

(** ** A table to check *)

Definition toy_rows : list row :=
  [(lit "COMPATIBILITY.md", lit "../seam-aegis/pyproject.toml", lit "seam-agent-core[sdk]>=0.6"); (lit "README.md", lit "docs/local.md", lit "local")].
Definition toy_siblings (served : pystr) : Siblings := {|
  table := Literal toy_rows;
  gh_installed := true;
  gh_api := λ _ p, if bool_decide (p = lit "repos/zer07labs/seam-aegis/contents/pyproject.toml") then Ok (0, served) else Ok (1, []);
  read_doc := λ _, Ok (lit "Aegis pins seam-agent-core[sdk]>=0.6 today.")
|}.
Definition newer : pystr := lit "deps = [" ++ [10] ++ lit "seam-agent-core[sdk]>=0.7" ++ [10] ++ lit "]".
Definition current : pystr := lit "deps = [" ++ [10] ++ lit "seam-agent-core[sdk]>=0.6" ++ [10] ++ lit "]".

Example toy_exit_codes : (@exit_code (toy_siblings current), @exit_code (toy_siblings newer), @exit_code (toy_siblings (current ++ current))) = (0, 1, 1).
Proof. vm_compute. reflexivity. Qed.

Lemma sibling_verdicts_witness : @exit_code (toy_siblings newer) ≠ 2 ∧
  ∃ rows l, @table (toy_siblings newer) = Literal rows ∧ sibling_entries rows = Ok l ∧ ∃ i e, l !! i = Some e ∧ @fails (toy_siblings newer) (before l i) e.
Proof.
  assert (E : @exit_code (toy_siblings newer) ≠ 2) by (vm_compute; discriminate). split; [exact E|].
  destruct (@sibling_verdicts (toy_siblings newer) E) as (rows & l & Ht & Hl & _ & _ & [[E0 _]|[_ Hf]]).
  - exfalso. vm_compute in E0. discriminate.
  - exists rows, l. split; [exact Ht|]. split; [exact Hl|exact Hf].
Defined.
