(* ===== verification/FrameworkProbe.v ===== *)
(** * FrameworkProbe: which frameworks co-install with the SDK ([scripts/probe_framework_coinstall.py])

    [COMPATIBILITY.md] declares, per framework, whether it can share an environment with the SDK; the script asks
    [uv] to resolve each and compares. Exit 0: every row matches; 1: a row does not; 2: there is no verdict. What
    [uv] answers may depend on everything asked before. *)

From stdpp Require Import base list numbers option strings.
From S2P Require Import Prelude Text Keys Regex Script JsonRead.

Record Row := MkRow { framework : pystr; constraint : pystr; expected : pystr }.
Definition requirement (r : Row) : pystr := framework r ++ constraint r.

Definition VERDICT_COMPATIBLE : pystr := lit "compatible".
Definition VERDICT_INCOMPATIBLE : pystr := lit "incompatible".
Definition TABLE_MARKER : pystr := lit "<!-- PROBE-TABLE:".

(** A row of the table, three cells in backquotes; [ws] is [\s*]. *)
Local Open Scope regex_scope.
Definition ws : regex := Star (Set_ py_space).
Definition unquoted : regex := Plus (Set_ (λ c, negb (c =? 96))).
Definition ROW : regex :=
  Bol ▷ Chr 124 ▷ ws ▷ Chr 96 ▷ Group 1 unquoted ▷ Chr 96 ▷ ws ▷ Chr 124 ▷ ws ▷ Chr 96 ▷ Group 2 unquoted ▷ Chr 96 ▷ ws ▷ Chr 124
  ▷ ws ▷ Chr 96 ▷ Group 3 (Alt (text "compatible") (text "incompatible")) ▷ Chr 96 ▷ ws ▷ Chr 124.
Local Close Scope regex_scope.

(** ** The machine *)

(** How a run of [uv] ends: with a status, its output, and the resolved file if there is one. *)
Inductive uv_end := NotInstalled | TimedOut | Exited (status : Z) (stdout stderr : pystr) (resolved : option (res pystr)) | Threw (e : exn).
(** The requirements asked about, and the Python version. *)
Record question := Question { requirements : list pystr; python_version : pystr }.

Class Machine := {
  python_311 : bool;
  compatibility : res pystr;
  dependencies : res (list pystr);
  uv : list question → question → uv_end
}.

Inductive infra := NoDependencies | NoMarker | NoRows | NoUv | UvTimedOut (req : pystr) | Outage (framework marker : pystr) | Unrecognised (framework : pystr) (status : Z).
Inductive line :=
| LError (x : infra) | LProbing (n : nat) | LFloors (floors : list pystr) | LNoVerdict (r : Row) (x : infra)
| LVerdict (ok : bool) (r : Row) (verdict evidence : pystr) | LInfra (l : list infra) | LMismatches (l : list (Row * pystr * pystr)) | LAllMatch (n : nat).

Record State := MkState { asked : list question; out : list line }.
Abbreviation F := (Script State infra).

Section probe.
Context `{Machine}.

Definition print (l : line) : F () := modify (λ s, MkState (asked s) (out s ++ [l])).

Definition sdk_floors : F (list pystr) :=
  deps ← of_res dependencies;
  match deps with [] => fail NoDependencies | _ => mret deps end.

Definition row_of (gs : list (nat * list Z)) : Row :=
  MkRow (default [] (find_group 1 gs)) (default [] (find_group 2 gs)) (default [] (find_group 3 gs)).

Definition table_rows : F (list Row) :=
  text ← of_res compatibility;
  match find_sub TABLE_MARKER text with
  | None => fail NoMarker
  | Some i =>
    match row_of <$> finditer ROW (drop i text) with
    | [] => fail NoRows
    | rows => mret rows
    end
  end.

(** ** One framework *)

Definition infra_markers : list pystr := lit <$>
  ["network was disabled"; "was not found in the package registry"; "Failed to fetch"; "error sending request"; "Request failed after"; "os error"]%string.

(** The pins worth quoting from a resolution. *)
Definition pins (framework resolved : pystr) : pystr :=
  sep_join (lit "; ") (str_strip <$> filter (λ l, starts_with (lit "protobuf==") l || starts_with (framework ++ lit "==") l) (splitlines resolved)).

(** [re.sub(r'\s+', ' ', line)] *)
Definition one_spaced (line : pystr) : pystr :=
  mjoin ((λ p, match p with Kept c => [c] | Found _ _ => [32] end) <$> pieces (Plus (Set_ py_space)) line).

(** The last line that concludes something. *)
Definition conclusion (message : pystr) : pystr :=
  match last (filter (λ l, contains_sub (lit "we can conclude") l) (splitlines message)) with
  | Some l => one_spaced (str_strip l)
  | None => lit "unsatisfiable"
  end.

Definition unsatisfiable (message : pystr) : bool := contains_sub (lit "requirements are unsatisfiable") message.
Definition outage (message : pystr) : option pystr := head (filter (λ m, contains_sub m message) infra_markers).

(** What an end of [uv] says about a row. *)
Definition verdict_of (r : Row) (a : uv_end) : F (pystr * pystr) :=
  match a with
  | NotInstalled => fail NoUv
  | TimedOut => fail (UvTimedOut (requirement r))
  | Threw e => of_res (Raise e)
  | Exited status stdout stderr resolved =>
    if status =? 0 then
      pinned ← (match resolved with None => mret [] | Some t => pins (framework r) <$> of_res t end);
      mret (VERDICT_COMPATIBLE, match pinned with [] => lit "resolved" | _ => pinned end)
    else
      match outage (stdout ++ 10 :: stderr) with
      | Some marker => fail (Outage (framework r) marker)
      | None =>
        if unsatisfiable (stdout ++ 10 :: stderr) then mret (VERDICT_INCOMPATIBLE, conclusion (stdout ++ 10 :: stderr))
        else fail (Unrecognised (framework r) status)
      end
  end.

Definition ask_uv (q : question) : F uv_end := λ s, (Done (uv (asked s) q), MkState (asked s ++ [q]) (out s)).

(** The verdict on a row and its evidence. *)
Definition resolve (r : Row) (floors : list pystr) (version : pystr) : F (pystr * pystr) :=
  a ← ask_uv (Question (requirement r :: floors) version); verdict_of r a.

(** ** The program *)

(** What the rows come to: the frameworks without a verdict, and those that disagree with the table. *)
Record tally := Tally { infras : list infra; mismatches : list (Row * pystr * pystr) }.

Definition probe_row (r : Row) (floors : list pystr) (version : pystr) (t : tally) : F tally :=
  a ← handling (inr <$> resolve r floors version) (λ x, mret (inl x));
  match a with
  | inl x => _ ← print (LNoVerdict r x); mret (Tally (infras t ++ [x]) (mismatches t))
  | inr (verdict, evidence) =>
    let ok := bool_decide (verdict = expected r) in
    _ ← print (LVerdict ok r verdict evidence);
    mret (if ok then t else Tally (infras t) (mismatches t ++ [(r, verdict, evidence)]))
  end.
Fixpoint probe_rows (rows : list Row) (floors : list pystr) (version : pystr) (t : tally) : F tally :=
  match rows with [] => mret t | r :: rows => t ← probe_row r floors version t; probe_rows rows floors version t end.

Definition main (version : pystr) : F Z :=
  if negb python_311 then mret 2
  else
    i ← handling (floors ← sdk_floors; rows ← table_rows; mret (Some (floors, rows))) (λ x, _ ← print (LError x); mret None);
    match i with
    | None => mret 2
    | Some (floors, rows) =>
      _ ← print (LProbing (length rows));
      _ ← print (LFloors floors);
      t ← probe_rows rows floors version (Tally [] []);
      match infras t, mismatches t with
      | _ :: _, _ => _ ← print (LInfra (infras t)); mret 2
      | [], _ :: _ => _ ← print (LMismatches (mismatches t)); mret 1
      | [], [] => _ ← print (LAllMatch (length rows)); mret 0
      end
    end.

Definition start : State := MkState [] [].
(** An exception that escapes [main] is 2. *)
Definition exit_code (version : pystr) : Z := match (main version start).1 with Done c => c | Failed _ | Escaped _ => 2 end.

(** ** What an exit code says *)

(** [uv], asked about [r] after [h], gave the verdict [v]: it resolved, or it said the requirements are unsatisfiable
    and showed no sign of an outage. *)
Definition established (h : list question) (floors : list pystr) (version : pystr) (r : Row) (v : pystr) : Prop :=
  ∃ status stdout stderr resolved, uv h (Question (requirement r :: floors) version) = Exited status stdout stderr resolved ∧
    let message := stdout ++ 10 :: stderr in
    (v = VERDICT_COMPATIBLE ∧ status = 0 ∨
     v = VERDICT_INCOMPATIBLE ∧ status ≠ 0 ∧ unsatisfiable message = true ∧ Forall (λ m, ¬ occurs m message) infra_markers).
(** What was asked before the row at [i]. *)
Definition before (rows : list Row) (floors : list pystr) (version : pystr) (i : nat) : list question :=
  (λ r, Question (requirement r :: floors) version) <$> take i rows.

Lemma outage_None message : outage message = None → Forall (λ m, ¬ occurs m message) infra_markers.
Proof.
  unfold outage. generalize infra_markers as l. intros l. induction l as [|m l IH]; [done|]. rewrite filter_cons.
  case_decide as Hm; [done|]. intros Hl. constructor; [|by apply IH]. intros Ho%contains_sub_iff. apply Hm. by rewrite Ho.
Qed.

Lemma resolve_Done r floors version s v ev s' : resolve r floors version s = (Done (v, ev), s') → established (asked s) floors version r v.
Proof.
  unfold resolve, verdict_of. intros (a & s1 & Ha & Hr)%bind_Done. injection Ha as <- <-.
  destruct (uv _ _) as [| |status so se resolved|e] eqn:Eu; [by inv_done..| |by inv_done].
  exists status, so, se, resolved. split; [done|]. cbn zeta. destruct (Z.eqb_spec status 0) as [->|Hs].
  - apply bind_Done in Hr as (p & s2 & _ & [[= -> _] _]%ret_Done). by left.
  - destruct (outage _) eqn:Eo; [by inv_done|]. destruct (unsatisfiable _) eqn:Es; [|by inv_done].
    apply ret_Done in Hr as [[= -> _] _]. right. split_and!; [done..|by apply outage_None].
Qed.

Definition same_asked (s s' : State) : Prop := asked s' = asked s.
Global Instance same_asked_preorder : PreOrder same_asked.
Proof. split; [by intros s|]. intros s1 s2 s3 E1 E2. unfold same_asked in *. congruence. Qed.

Lemma resolve_asked r floors version s o s' : resolve r floors version s = (o, s') →
  asked s' = asked s ++ [Question (requirement r :: floors) version].
Proof.
  unfold resolve, mbind, script_bind, ask_uv. apply (keeps_step same_asked). unfold verdict_of. keep.
Qed.

Lemma probe_row_Done r floors version t s t' s' : probe_row r floors version t s = (Done t', s') →
  asked s' = asked s ++ [Question (requirement r :: floors) version] ∧
  (infras t' ≠ [] ∨ ∃ v, established (asked s) floors version r v ∧ infras t' = infras t ∧
     (v = expected r ∧ mismatches t' = mismatches t ∨ v ≠ expected r ∧ mismatches t' ≠ [])).
Proof.
  unfold probe_row. intros (a & s1 & Ha & Hr)%bind_Done. apply handling_Done in Ha as [Ha|(x & s2 & Hx & Ha)].
  - apply fmap_Done in Ha as ([v ev] & Hv & ->). pose proof (resolve_asked _ _ _ _ _ _ Hv) as Hs. apply resolve_Done in Hv.
    apply bind_Done in Hr as (u & s2 & Hp & [-> ->]%ret_Done). injection Hp as <- <-. split; [done|]. right. exists v.
    case_bool_decide; cbn [infras mismatches]; split_and!; auto. right. split; [done|]. by destruct (mismatches t).
  - apply ret_Done in Ha as [-> ->]. apply bind_Done in Hr as (u & s3 & Hp & [-> ->]%ret_Done). injection Hp as <- <-.
    assert (Hs : asked s2 = asked s ++ [Question (requirement r :: floors) version]).
    { unfold fmap, script_fmap in Hx. destruct (resolve r floors version s) as [[?|?|?] s4] eqn:E; try discriminate Hx.
      injection Hx as _ <-. by eapply resolve_asked. }
    split; [done|]. left. cbn. by destruct (infras t).
Qed.

Lemma probe_rows_Done rows floors version t s t' s' : probe_rows rows floors version t s = (Done t', s') → infras t' = [] →
  infras t = [] ∧
  (∀ i r, rows !! i = Some r → ∃ v, established (asked s ++ before rows floors version i) floors version r v ∧
     (mismatches t' = [] → v = expected r)) ∧
  (mismatches t' ≠ [] → mismatches t ≠ [] ∨
     ∃ i r v, rows !! i = Some r ∧ established (asked s ++ before rows floors version i) floors version r v ∧ v ≠ expected r) ∧
  (mismatches t ≠ [] → mismatches t' ≠ []).
Proof.
  revert t s. induction rows as [|r rows IH]; intros t s Hp Hi; cbn [probe_rows] in Hp.
  { apply ret_Done in Hp as [-> ->]. split_and!; auto. by intros i r Hr; rewrite lookup_nil in Hr. }
  apply bind_Done in Hp as (t1 & s1 & Hr & Hp). apply probe_row_Done in Hr as [Hs Hr].
  destruct (IH _ _ Hp Hi) as (Hi1 & Hall & Hsome & Hmono). destruct Hr as [?|(v & Hv & Ei & Hm)]; [done|].
  assert (Hb : ∀ i, asked s1 ++ before rows floors version i = asked s ++ before (r :: rows) floors version (S i)).
  { intros i. rewrite Hs, <- (assoc_L (++)). done. }
  split; [congruence|]. split_and!.
  - intros [|i] r' Hr'.
    + injection Hr' as <-. exists v. unfold before. cbn [take fmap list_fmap]. rewrite app_nil_r. split; [done|]. intros Hn.
      destruct Hm as [[-> _]|[_ Hm]]; [done|]. by apply Hmono in Hm.
    + rewrite <- Hb. by apply Hall.
  - intros [Hn|(i & r' & v' & Hl & He & Hne)]%Hsome.
    + destruct Hm as [[_ Hm]|[Hne _]]; [left; congruence|]. right. exists 0%nat, r, v. unfold before. cbn [take fmap list_fmap].
      rewrite app_nil_r. done.
    + right. exists (S i), r', v'. rewrite <- Hb. done.
  - intros Hn. apply Hmono. destruct Hm as [[_ ->]|[_ ?]]; done.
Qed.

(** C24. Exit 0 and exit 1 of the probe are verdicts. Every row of the declared table - at least one - got a positive
    answer: [uv] resolved it against the SDK's own floors, or called it unsatisfiable without a sign of an
    outage. Exit 0: every answer is the declared one; exit 1: some row's is not. A timeout, a missing tool,
    an unreadable table or answer, or a crash is exit 2, never a verdict. *)
Theorem probe_verdicts version : exit_code version ≠ 2 →
  ∃ floors text n, dependencies = Ok floors ∧ compatibility = Ok text ∧ find_sub TABLE_MARKER text = Some n ∧
    let rows := row_of <$> finditer ROW (drop n text) in
    let answer i r v := rows !! i = Some r ∧ established (before rows floors version i) floors version r v in
    floors ≠ [] ∧ rows ≠ [] ∧
    (exit_code version = 0 ∧ (∀ i r, rows !! i = Some r → answer i r (expected r)) ∨
     exit_code version = 1 ∧ (∀ i r, rows !! i = Some r → ∃ v, answer i r v) ∧ ∃ i r v, answer i r v ∧ v ≠ expected r).
Proof.
  unfold exit_code. destruct (main version start) as [[c|x|e] s'] eqn:Hm; cbn [fst]; [|done..]. intros Hne.
  unfold main in Hm. destruct (negb python_311); [by apply ret_Done in Hm as [-> _]|].
  apply bind_Done in Hm as (o & s1 & Ho & Hm). destruct o as [[floors rows]|]; [|by apply ret_Done in Hm as [-> _]].
  apply handling_Done in Ho as [Ho|(x & s2 & _ & Ho)]; [|by inv_done].
  apply bind_Done in Ho as (fl & s2 & Hf & Ho). apply bind_Done in Ho as (rw & s3 & Ht & [[= -> ->] ->]%ret_Done).
  unfold sdk_floors in Hf. apply bind_Done in Hf as (deps & s4 & [Hd ->]%of_res_Done & Hf).
  destruct deps as [|d deps]; [by inv_done|]. apply ret_Done in Hf as [-> ->].
  unfold table_rows in Ht. apply bind_Done in Ht as (text & s4 & [Hc ->]%of_res_Done & Ht).
  destruct (find_sub TABLE_MARKER text) as [n|] eqn:En; [|by inv_done]. exists (d :: deps), text, n. do 3 (split; [done|]).
  destruct (row_of <$> finditer ROW (drop n text)) as [|r0 rows0] eqn:Er; [by inv_done|]. apply ret_Done in Ht as [-> ->].
  cbn zeta. split; [done|]. split; [done|].
  apply bind_Done in Hm as (u1 & s5 & Hp1 & Hm). injection Hp1 as <- <-. apply bind_Done in Hm as (u2 & s6 & Hp2 & Hm). injection Hp2 as <- <-.
  apply bind_Done in Hm as (t & s7 & Hp & Hm). destruct (infras t) as [|x xs] eqn:Ei; [|by inv_done].
  destruct (probe_rows_Done _ _ _ _ _ _ _ Hp Ei) as (_ & Hall & Hsome & _). cbn [asked start app] in Hall, Hsome.
  destruct (mismatches t) as [|mm ms] eqn:Em; inv_done; [left|right]; (split; [done|]).
  - intros i r Hr. destruct (Hall i r Hr) as (v & Hv & Hx). rewrite <- (Hx eq_refl). done.
  - split; [intros i r Hr; destruct (Hall i r Hr) as (v & Hv & _); by exists v|].
    destruct Hsome as [?|(i & r & v & Hr & Hv & Hx)]; [done|done|]. by exists i, r, v.
Qed.
End probe.

(** ** A table to probe *)

Definition toy_table : pystr := mjoin ((λ l, lit l ++ [10]) <$>
  ["# 4a"; "<!-- PROBE-TABLE: parsed -->"; "| framework | constraint | verdict | note |"; "|---|---|---|---|";
   "| `crewai` | `>=1.15.3,<2` | `incompatible` | protobuf |"; "|`langgraph`|`>=1`|`compatible`|  |"]%string).
Definition toy_message : pystr :=
  lit "  x No solution found" ++ [10] ++ lit "  because crewai needs protobuf<6,   we can conclude that your requirements are unsatisfiable." ++ [10].
(** [crewai] conflicts; [langgraph] resolves, or the network is down. *)
Definition toy_machine (up fixed : bool) : Machine := {|
  python_311 := true;
  compatibility := Ok toy_table;
  dependencies := Ok [lit "protobuf>=6"];
  uv := λ _ q,
    if bool_decide (head (requirements q) = Some (lit "crewai>=1.15.3,<2")) && negb fixed then Exited 1 [] toy_message None
    else if up then Exited 0 [] [] (Some (Ok (lit "protobuf==6.33.0" ++ [10] ++ lit "langgraph==1.0.4" ++ [10])))
    else Exited 1 [] (lit "error sending request: requirements are unsatisfiable") None
|}.
Definition toy_probe (up fixed : bool) : Z := @exit_code (toy_machine up fixed) (lit "3.12").

Example toy_rows_read : row_of <$> finditer ROW toy_table =
  [MkRow (lit "crewai") (lit ">=1.15.3,<2") (lit "incompatible"); MkRow (lit "langgraph") (lit ">=1") (lit "compatible")].
Proof. vm_compute. reflexivity. Qed.
Example toy_verdicts : (toy_probe true false, toy_probe true true, toy_probe false false) = (0, 1, 2).
Proof. vm_compute. reflexivity. Qed.
Example toy_conclusion : conclusion toy_message = lit "because crewai needs protobuf<6, we can conclude that your requirements are unsatisfiable.".
Proof. vm_compute. reflexivity. Qed.

Lemma probe_verdicts_witness : toy_probe true true ≠ 2 ∧
  ∃ i r v, (row_of <$> finditer ROW toy_table) !! i = Some r ∧ v ≠ expected r.
Proof.
  assert (E : toy_probe true true ≠ 2) by (vm_compute; discriminate). split; [exact E|].
  assert (E1 : toy_probe true true = 1) by (vm_compute; reflexivity).
  destruct (@probe_verdicts (toy_machine true true) (lit "3.12") E) as (floors & text & n & _ & Hc & Hn & _ & _ & [[E0 _]|(_ & _ & i & r & v & (Hr & _) & Hv)]).
  - exfalso. unfold toy_probe in E1. congruence.
  - injection Hc as <-. exists i, r, v. split; [|exact Hv].
    assert (n = 5%nat) as -> by (vm_compute in Hn; by injection Hn as <-). 
    assert (Ef : finditer ROW (drop 5 toy_table) = finditer ROW toy_table) by (vm_compute; reflexivity).
    rewrite <- Ef. exact Hr.
Defined.
