(* ===== verification/VendoredSpec.v ===== *)
(** * VendoredSpec: the gate on vendored specifications

    [scripts/check_vendored_spec.py]: the pin header of a vendored copy, the two places upstream bytes come
    from ([GitHub], [LocalCheckout], implementations of the interface [Source]), the checks of one copy and
    the program. The commands it runs answer as they like, and differently each time; [upstream_view] is a
    source that answers consistently. Messages are values ([Refusal], [Notice]); the diff they print is
    left out, as is [argparse]: [main] takes the parsed option. *)

From stdpp Require Import base list numbers option strings sets.
From S2P Require Import Prelude Text Keys Regex Script.

(** ** Copies and refusals *)

Record Vendored := MkVendored { local : pystr; repo : pystr; remote : pystr }.

(** [v.declared] *)
Definition declared (v : Vendored) : res pystr :=
  match split_on 47 (repo v) with
  | _ :: n :: _ => Ok (n ++ lit "/" ++ remote v)
  | _ => Raise IndexError
  end.

Definition VENDORED : list Vendored :=
  [MkVendored (lit "verify/docs/seam-event.v1.md") (lit "zer07labs/seam-runtime") (lit "docs/specs/seam-event.v1.md");
   MkVendored (lit "verify/docs/evidence-bundle.v1.md") (lit "zer07labs/seam-runtime") (lit "docs/specs/evidence-bundle.v1.md");
   MkVendored (lit "docs/specs/mgmt-dpop.md") (lit "zer07labs/seam-runtime") (lit "docs/specs/mgmt-dpop.md")].

Record Header := MkHeader { h_declared : pystr; h_sha : pystr; h_branch : option pystr; body : bytes }.

(** [Failure], by the place that raises it. *)
Inductive Refusal :=
| NoHeader | Unclosed | NoPin | NoSeparator
| CommandFailed (cmd : list pystr) (code : Z)
| NotACheckout (dir : pystr) | NoDefaultBranch (dir : pystr) | UnknownSource (spec : pystr)
| CameBackEmpty (ref : pystr)
| NoSuchCopy | Misdeclared (said registered : pystr)
| LandedAndMoved (branch at_ : pystr) | BranchGone (branch : pystr) | PinLanded (sha : pystr) | SameOnBoth (branch : pystr)
| Unreachable (sha tracked : pystr)
| NotVerbatim (sha : pystr) | Stale (sha now_at : pystr).

Inductive Notice :=
| HasLanded (branch : pystr)
| TracksUnmerged (branch : pystr)
| PinLags (sha newest : pystr).

Inductive line := LError (x : Refusal) | LOk (path source : pystr) | LNotice (n : Notice) | LNothingRegistered.

(** The commands run so far, and the lines printed, oldest first. *)
Record State := MkState { ran : list (list pystr); printed : list line }.
Abbreviation V := (Script State Refusal).

(** The machine the script runs on: what [subprocess.run] answers to a command after the earlier ones (its
    exit code and output, or [FileNotFoundError] and the like), the files of the repository, the
    directories that hold a [.git], [Path.expanduser], [Path.resolve], and [SEAM_RUNTIME_DIR]. *)
Class Machine := {
  run_command : list (list pystr) → list pystr → res (Z * bytes);
  repo_file : pystr → option (res bytes);
  has_git : pystr → bool;
  expanduser : pystr → res pystr;
  resolve_path : pystr → res pystr;
  SEAM_RUNTIME_DIR : option pystr;
  sibling_dir : pystr
}.

(** ** The pin header *)

Definition word_byte (c : Z) : bool :=
  is_digit c || ((65 <=? c) && (c <=? 90)) || ((97 <=? c) && (c <=? 122)) || (c =? 95).
(** [[\w./-]] *)
Definition pin_char (c : Z) : bool := word_byte c || (c =? 46) || (c =? 47) || (c =? 45).
(** [[0-9a-f]] *)
Definition pin_hex (c : Z) : bool := is_digit c || ((97 <=? c) && (c <=? 102)).

Local Open Scope regex_scope.
Definition PIN : regex :=
  Bol ▷ text "<!-- Pinned copy of " ▷ Group 1 (Plus (Set_ pin_char)) ▷ text " @ " ▷ Group 2 (Between 7 33 (Set_ pin_hex))
  ▷ Opt (text " tracking " ▷ Group 3 (Plus (Set_ pin_char))) ▷ NotAhead pin_char.
Local Close Scope regex_scope.

Definition CLOSE : bytes := lit "-->".

(** [split_header]; [PIN]'s groups are ASCII, so that decoding them is the identity. *)
Definition split_header (data : bytes) : V Header :=
  _ ← require (starts_with (lit "<!--") data) NoHeader;
  match find_sub CLOSE data with
  | None => fail Unclosed
  | Some close =>
    match re_match PIN data with
    | None => fail NoPin
    | Some m =>
      let rest := drop (close + length CLOSE) data in
      _ ← require (starts_with [10; 10] rest) NoSeparator;
      mret (MkHeader (default [] (group 1 m)) (default [] (group 2 m)) (group 3 m) (drop 2 rest))
    end
  end.

(** ** Reaching the upstream repository *)

Section reach.
Context `{Machine}.

Definition _run (cmd : list pystr) : V bytes := λ s,
  let s' := MkState (ran s ++ [cmd]) (printed s) in
  match run_command (ran s) cmd with
  | Ok (code, out) => if code =? 0 then (Done out, s') else (Failed (CommandFailed (take 4 cmd) code), s')
  | Raise e => (Escaped e, s')
  end.

(** [_run(cmd).decode()] *)
Definition run_text (cmd : list pystr) : V pystr := out ← _run cmd; of_res (utf8_decode out).

(** [try: m; except Failure: return False; return True] *)
Definition succeeds {A} (m : V A) : V bool := handling (_ ← m; mret true) (λ _, mret false).

Definition some_text (s : pystr) : option pystr := match s with [] => None | _ => Some s end.
End reach.

(** The interface of [Source]: every branch that crosses it is logical. *)
Record Source := MkSource {
  source_name : pystr;
  default_branch : pystr → V pystr;
  branch_exists : pystr → pystr → V bool;
  fetch : pystr → pystr → pystr → V bytes;
  last_commit : pystr → pystr → pystr → V (option pystr);
  contains : pystr → pystr → pystr → V bool;
  commits_touching : pystr → pystr → pystr → Z → V (list pystr)
}.

Section backends.
Context `{Machine}.

Definition gh_commits (repo path ref : pystr) (limit : pystr) : pystr :=
  lit "repos/" ++ repo ++ lit "/commits?path=" ++ path ++ lit "&sha=" ++ ref ++ lit "&per_page=" ++ limit.

Definition GitHub : Source := {|
  source_name := lit "github api";
  default_branch repo :=
    str_strip <$> run_text [lit "gh"; lit "api"; lit "repos/" ++ repo; lit "--jq"; lit ".default_branch"];
  branch_exists repo branch :=
    succeeds (_run [lit "gh"; lit "api"; lit "repos/" ++ repo ++ lit "/branches/" ++ branch; lit "--jq"; lit ".name"]);
  fetch repo path ref :=
    _run [lit "gh"; lit "api"; lit "repos/" ++ repo ++ lit "/contents/" ++ path ++ lit "?ref=" ++ ref; lit "-H";
          lit "Accept: application/vnd.github.raw"];
  last_commit repo path ref :=
    (λ out, some_text (str_strip out)) <$>
      run_text [lit "gh"; lit "api"; gh_commits repo path ref (lit "1"); lit "--jq"; lit ".[0].sha"];
  contains repo branch sha :=
    (λ out, bool_decide (str_strip out ∈ [lit "identical"; lit "behind"])) <$>
      run_text [lit "gh"; lit "api"; lit "repos/" ++ repo ++ lit "/compare/" ++ branch ++ lit "..." ++ sha; lit "--jq"; lit ".status"];
  commits_touching repo path ref limit :=
    str_split <$> run_text [lit "gh"; lit "api"; gh_commits repo path ref (str_of_int limit); lit "--jq"; lit ".[].sha"]
|}.

(** [LocalCheckout(directory)], [dir] being the resolved directory. *)
Section checkout.
Context (dir : pystr).

Definition _git (args : list pystr) : V bytes := _run (lit "git" :: lit "-C" :: dir :: args).
Definition git_text (args : list pystr) : V pystr := out ← _git args; of_res (utf8_decode out).

Definition _remote (branch : pystr) : pystr := lit "origin/" ++ branch.

Definition local_branch_exists (branch : pystr) : V bool :=
  succeeds (_git [lit "rev-parse"; lit "--verify"; lit "--quiet"; _remote branch ++ lit "^{commit}"]).

Definition local_default_branch : V pystr :=
  handling
    (head ← git_text [lit "symbolic-ref"; lit "--short"; lit "refs/remotes/origin/HEAD"];
     mret (removeprefix (lit "origin/") (str_strip head)))
    (λ _, main ← local_branch_exists (lit "main");
          if main : bool then mret (lit "main") else
          master ← local_branch_exists (lit "master");
          if master : bool then mret (lit "master") else fail (NoDefaultBranch dir)).

Definition _rev (ref : pystr) : V pystr :=
  b ← local_branch_exists ref; mret (if b : bool then _remote ref else ref).

Definition LocalCheckout : Source := {|
  source_name := lit "local checkout";
  default_branch _ := local_default_branch;
  branch_exists _ branch := local_branch_exists branch;
  fetch _ path ref := r ← _rev ref; _git [lit "show"; r ++ lit ":" ++ path];
  last_commit _ path ref :=
    r ← _rev ref;
    (λ out, some_text (str_strip out)) <$> git_text [lit "log"; lit "-1"; lit "--format=%H"; r; lit "--"; path];
  contains _ branch sha :=
    succeeds (_git [lit "merge-base"; lit "--is-ancestor"; sha; _remote branch]);
  commits_touching _ path ref limit :=
    r ← _rev ref;
    str_split <$> git_text [lit "log"; lit "-" ++ str_of_int limit; lit "--format=%H"; r; lit "--"; path]
|}.
End checkout.

(** The constructor of [LocalCheckout]. *)
Definition open_checkout (directory : pystr) : V Source :=
  d ← of_res (expanduser directory);
  d ← of_res (resolve_path d);
  _ ← require (has_git d) (NotACheckout d);
  mret (LocalCheckout d).

(** The candidates of the automatic choice, in order. *)
Fixpoint pick_candidate (l : list (option pystr)) : V Source :=
  match l with
  | [] => mret GitHub
  | Some (c :: r) :: l =>
    d ← of_res (expanduser (c :: r));
    if has_git d then open_checkout (c :: r) else pick_candidate l
  | _ :: l => pick_candidate l
  end.

Definition pick_source (spec : option pystr) : V Source :=
  match spec with
  | Some (c :: r) =>
    if bool_decide (c :: r = lit "gh") then mret GitHub
    else match strip_prefix (lit "local:") (c :: r) with
         | Some d => open_checkout d
         | None => fail (UnknownSource (c :: r))
         end
  | _ => pick_candidate [SEAM_RUNTIME_DIR; Some sibling_dir]
  end.

(** ** The checks *)

Definition _nonempty (blob : bytes) (ref : pystr) : V bytes :=
  match bytes_strip blob with [] => fail (CameBackEmpty ref) | _ => mret blob end.

Definition LANDED_WINDOW : Z := 20.

Fixpoint first_equal (src : Source) (v : Vendored) (b : bytes) (shas : list pystr) : V (option pystr) :=
  match shas with
  | [] => mret None
  | sha :: shas =>
    f ← fetch src (repo v) (remote v) sha;
    if bool_decide (f = b) then mret (Some sha) else first_equal src v b shas
  end.
Definition _ever_on (src : Source) (v : Vendored) (ref : pystr) (b : bytes) : V (option pystr) :=
  shas ← commits_touching src (repo v) (remote v) ref LANDED_WINDOW;
  first_equal src v b shas.

(** The arms that end a tracking declaration, once the body is known not to have landed. *)
Definition check_tracking (src : Source) (v : Vendored) (head : Header) (branch dflt : pystr) : V () :=
  landed_at ← _ever_on src v dflt (body head);
  match landed_at with
  | Some sha => fail (LandedAndMoved branch sha)
  | None =>
    e ← branch_exists src (repo v) branch;
    _ ← require e (BranchGone branch);
    c ← contains src (repo v) dflt (h_sha head);
    _ ← require (negb c) (PinLanded (h_sha head));
    at_branch ← fetch src (repo v) (remote v) branch;
    at_default ← fetch src (repo v) (remote v) dflt;
    require (negb (bool_decide (at_branch = at_default))) (SameOnBoth branch)
  end.

(** REACHABILITY, INTEGRITY and CURRENCY *)
Definition check_pin (src : Source) (v : Vendored) (head : Header) (tracked : pystr) (notices : list Notice)
    : V (list Notice) :=
  c ← contains src (repo v) tracked (h_sha head);
  _ ← require c (Unreachable (h_sha head) tracked);
  f ← fetch src (repo v) (remote v) (h_sha head);
  at_pin ← _nonempty f (h_sha head);
  _ ← require (bool_decide (body head = at_pin)) (NotVerbatim (h_sha head));
  f ← fetch src (repo v) (remote v) tracked;
  at_head ← _nonempty f tracked;
  newest ← last_commit src (repo v) (remote v) tracked;
  _ ← require (bool_decide (body head = at_head)) (Stale (h_sha head) (take 7 (default tracked newest)));
  mret (notices ++
    match newest with
    | Some n => if starts_with (h_sha head) n then [] else [PinLags (h_sha head) (take 7 n)]
    | None => []
    end).

(** [check], once the header is read. *)
Definition check_header (v : Vendored) (src : Source) (head : Header) : V (list Notice) :=
  d ← of_res (declared v);
  _ ← require (bool_decide (h_declared head = d)) (Misdeclared (h_declared head) d);
  dflt ← default_branch src (repo v);
  match h_branch head with
  | Some branch =>
    at_default ← fetch src (repo v) (remote v) dflt;
    if bool_decide (body head = at_default) then mret [HasLanded branch]
    else _ ← check_tracking src v head branch dflt;
         check_pin src v head branch [TracksUnmerged branch]
  | None => check_pin src v head dflt []
  end.

Definition check (v : Vendored) (src : Source) : V (list Notice) :=
  match repo_file (local v) with
  | None => fail NoSuchCopy
  | Some r => data ← of_res r; head ← split_header data; check_header v src head
  end.

(** ** The program *)

Definition print (l : line) : V () := modify (λ s, MkState (ran s) (printed s ++ [l])).

(** One copy: whether it failed. *)
Definition check_one (src : Source) (v : Vendored) : V bool :=
  handling
    (notices ← check v src;
     _ ← print (LOk (local v) (source_name src));
     _ ← each (λ n, print (LNotice n)) notices;
     mret false)
    (λ x, _ ← print (LError x); mret true).

Fixpoint check_all (src : Source) (vs : list Vendored) (failed : bool) : V bool :=
  match vs with
  | [] => mret failed
  | v :: vs => f ← check_one src v; check_all src vs (failed || f)
  end.

Definition run_main (vs : list Vendored) (spec : option pystr) : V Z :=
  match vs with
  | [] => _ ← print LNothingRegistered; mret 1
  | _ =>
    src ← handling (Some <$> pick_source spec) (λ x, _ ← print (LError x); mret None);
    match src with
    | None => mret 1
    | Some src => failed ← check_all src vs false; mret (if failed : bool then 1 else 0)
    end
  end.

Definition main (spec : option pystr) : V Z := run_main VENDORED spec.
End backends.

(** ** Headers *)

Lemma split_header_Done data s h s' : split_header data s = (Done h, s') → s' = s ∧
  ∃ comment m, data = comment ++ CLOSE ++ [10; 10] ++ body h ∧
    (∀ i, (i < length comment)%nat → starts_with CLOSE (drop i data) = false) ∧
    re_match PIN data = Some m ∧ h_declared h = default [] (group 1 m) ∧ h_sha h = default [] (group 2 m) ∧
    h_branch h = group 3 m.
Proof.
  unfold split_header. intros Hh. inv_done. destruct (find_sub CLOSE data) as [close|] eqn:Hf; [|inv_done].
  destruct (re_match PIN data) as [m|] eqn:Hm; [|inv_done]. inv_done. split; [done|].
  apply find_sub_spec in Hf as (Hc & Hl & Hb). apply starts_with_true in Hc as [r Hr].
  exists (take close data), m. split_and!; try done.
  - rewrite <- (take_drop close data) at 1. f_equal. rewrite Hr. f_equal. cbn [body].
    match goal with H : starts_with [10; 10] _ = true |- _ => apply starts_with_true in H as [r2 H2] end.
    rewrite H2. cbn [drop app]. do 2 f_equal. rewrite drop_0.
    rewrite <- drop_drop, Hr, drop_app_length in H2. by rewrite H2.
  - intros i Hi. rewrite length_take in Hi. apply Hb. lia.
Qed.

Lemma split_header_any data s h s' : split_header data s = (Done h, s') → ∀ s2, split_header data s2 = (Done h, s2).
Proof.
  intros Hh s2. unfold split_header in *. inv_done. destruct (find_sub CLOSE data) as [close|]; [|inv_done].
  destruct (re_match PIN data) as [m|]; [|inv_done]. inv_done. apply bind_Done. exists (), s2. split; [by apply require_Done|].
  apply bind_Done. exists (), s2. split; [by apply require_Done|done].
Qed.

(** What a pin says: where it is, and that the longest run of pin characters was read. *)
Definition pin_text (path sha : pystr) (branch : option pystr) : bytes :=
  lit "<!-- Pinned copy of " ++ path ++ lit " @ " ++ sha ++ match branch with Some b => lit " tracking " ++ b | None => [] end.

Definition well_formed_pin (path sha : pystr) (branch : option pystr) : Prop :=
  path ≠ [] ∧ forallb pin_char path = true ∧ (7 ≤ length sha ≤ 40)%nat ∧ forallb pin_hex sha = true ∧
  match branch with Some b => b ≠ [] ∧ forallb pin_char b = true | None => True end.

Lemma PIN_sound data m : re_match PIN data = Some m → ∃ path sha branch,
  group 1 m = Some path ∧ group 2 m = Some sha ∧ group 3 m = branch ∧ well_formed_pin path sha branch ∧
  data = pin_text path sha branch ++ ahead m ∧ stops pin_char (ahead m).
Proof.
  intros H%re_match_Some. unfold PIN in H.
  apply matches_cat in H as (s0 & Hb & H). inversion Hb; subst. clear Hb.
  apply matches_cat in H as (s1 & [E1 G1]%matches_chars & H).
  apply matches_cat in H as (s2 & (s2' & (path & Hp & Hpc & [E2 G2])%matches_plus_set & ->)%matches_group & H).
  apply matches_cat in H as (s3 & [E3 G3]%matches_chars & H). cbn [capture ahead groups] in E3, G3.
  apply matches_cat in H as (s4 & (s4' & (sha & Hs & Hsc & [E4 G4])%matches_between_set & ->)%matches_group & H).
  apply matches_cat in H as (s5 & Hopt & Hn). inversion Hn as [| | | | | | | |? ? Hna| |]; subst. clear Hn.
  rewrite (consumed_reads path) in G3 by done.
  assert (stops pin_char (ahead m)) as Hst.
  { unfold not_ahead in Hna. destruct (ahead m); [done|]. by apply negb_true_iff. }
  cbn [start ahead] in E1.
  apply matches_opt in Hopt as [H| ->].
  - apply matches_cat in H as (s6 & [E6 G6]%matches_chars & (s6' & (b & Hb & Hbc & [E7 G7])%matches_plus_set & ->)%matches_group).
    cbn [capture ahead groups] in *. exists path, sha, (Some b). unfold group, well_formed_pin, pin_text. cbn [capture groups ahead].
    rewrite (consumed_reads b), G7, G6, (consumed_reads sha), G4, G3 by done. split_and!; try done; [lia|lia|].
    rewrite E1, E2, E3, E4, E6, E7, <- !(assoc_L (++)). done.
  - exists path, sha, None. unfold group, well_formed_pin, pin_text. cbn [capture groups ahead] in *.
    rewrite (consumed_reads sha), G4, G3, G2, G1 by done. split_and!; try done; [lia|lia|].
    rewrite E1, E2, E3, E4, <- !(assoc_L (++)). done.
Qed.

Lemma pin_hex_char c : pin_hex c = true → pin_char c = true.
Proof. unfold pin_hex, pin_char, word_byte, is_digit. lia. Qed.

Definition pin_tail (branch : option pystr) : bytes := match branch with Some b => lit " tracking " ++ b | None => [] end.

(** Where the optional branch leaves the matcher. *)
Definition after_branch (branch : option pystr) (s : pos) : pos :=
  match branch with
  | Some b => let s1 := skip (lit " tracking ") s in capture 3 s1 (skip b s1)
  | None => s
  end.

Lemma PIN_branch branch s rest : ahead s = pin_tail branch ++ rest → stops pin_char rest →
  match branch with Some b => b ≠ [] ∧ forallb pin_char b = true | None => strip_prefix (lit " tracking ") rest = None end →
  rmatch (Opt (text " tracking " ▷ Group 3 (Plus (Set_ pin_char)))%re) (rmatch (NotAhead pin_char) Some) s
    = Some (after_branch branch s).
Proof.
  intros E Hst Hb. destruct branch as [b|]; cbn [after_branch pin_tail] in *.
  - destruct Hb as [Hb Hbc]. rewrite <- (assoc_L (++)) in E. destruct (skip_reads _ _ _ E) as [_ E1].
    destruct (skip_reads _ _ _ E1) as [_ E2].
    apply rmatch_opt. rewrite rmatch_cat. unfold text. rewrite (rmatch_chars _ _ _ _ E), rmatch_group.
    eapply rmatch_plus_set; [exact E1|done..|]. apply rmatch_not_ahead. cbn [capture ahead]. by rewrite E2.
  - rewrite rmatch_opt_None; [apply rmatch_not_ahead; by rewrite E|].
    rewrite rmatch_cat. apply rmatch_chars_None. by rewrite E.
Qed.

Lemma pin_tail_stops branch rest : stops pin_char rest →
  stops pin_char (pin_tail branch ++ rest) ∧ stops pin_hex (pin_tail branch ++ rest).
Proof.
  intros H. destruct branch; [done|]. cbn. split; [done|]. destruct rest as [|c r]; [done|]. cbn in *.
  apply not_true_is_false. intros Hh%pin_hex_char. congruence.
Qed.

(** A pin is read back as it was written, whatever follows it that cannot belong to it. *)
Lemma PIN_complete path sha branch rest : well_formed_pin path sha branch → stops pin_char rest →
  (branch = None → strip_prefix (lit " tracking ") rest = None) →
  ∃ m, re_match PIN (pin_text path sha branch ++ rest) = Some m ∧
    group 1 m = Some path ∧ group 2 m = Some sha ∧ group 3 m = branch.
Proof.
  intros (Hp & Hpc & Hl & Hsc & Hb) Hst Hnt. unfold re_match, PIN. set (data := pin_text path sha branch ++ rest).
  assert (E0 : ahead (start data) = lit "<!-- Pinned copy of " ++ path ++ lit " @ " ++ sha ++ pin_tail branch ++ rest).
  { subst data. unfold pin_text. cbn [start ahead]. by rewrite <- !(assoc_L (++)). }
  destruct (pin_tail_stops branch rest Hst) as [Hstop Hhex].
  destruct (skip_reads _ _ _ E0) as [_ E1]. set (s1 := skip (lit "<!-- Pinned copy of ") (start data)) in *.
  destruct (skip_reads _ _ _ E1) as [[C1%consumed_reads _] E2]. set (s2 := capture 1 s1 (skip path s1)).
  change (ahead s2 = lit " @ " ++ sha ++ pin_tail branch ++ rest) in E2.
  destruct (skip_reads _ _ _ E2) as [_ E3]. set (s3 := skip (lit " @ ") s2) in *.
  destruct (skip_reads _ _ _ E3) as [[C2%consumed_reads _] E4]. set (s4 := capture 2 s3 (skip sha s3)).
  change (ahead s4 = pin_tail branch ++ rest) in E4.
  assert (groups s4 = [(2%nat, sha); (1%nat, path)]) as G4.
  { change (groups s4) with ((2%nat, consumed s3 (skip sha s3)) :: (1%nat, consumed s1 (skip path s1)) :: []). by rewrite C1, C2. }
  exists (after_branch branch s4). split.
  - rewrite rmatch_cat, rmatch_bol by done. rewrite rmatch_cat. unfold text at 1. rewrite (rmatch_chars _ _ _ _ E0), rmatch_cat, rmatch_group.
    eapply rmatch_plus_set; [exact E1|done..|]. cbn beta. rewrite rmatch_cat. unfold text at 1.
    rewrite (rmatch_chars _ _ s2 _ E2), rmatch_cat, rmatch_group.
    eapply rmatch_between_set; [exact E3|lia|done|done|]. cbn beta. rewrite rmatch_cat.
    apply (PIN_branch branch s4 rest); [done|done|]. destruct branch; [done|by apply Hnt].
  - destruct branch as [b|]; unfold group; cbn [after_branch]; [|by rewrite G4].
    cbn [pin_tail] in E4. rewrite <- (assoc_L (++)) in E4. destruct (skip_reads _ _ _ E4) as [[_ G5] E5].
    destruct (skip_reads _ _ _ E5) as [[C3%consumed_reads G6] _]. cbn [capture groups].
    by rewrite G6, G5, G4, C3.
Qed.

Lemma strip_prefix_cut p a c b r : strip_prefix p (a ++ c :: b) = Some r → c ∉ p → starts_with p a = true.
Proof.
  unfold starts_with. revert a. induction p as [|d p IH]; intros [|x a] H Hc; cbn in *; try done.
  - destruct (d =? c) eqn:E; [|done]. apply Z.eqb_eq in E as ->. set_solver.
  - destruct (d =? x); [|done]. apply IH; [done|set_solver].
Qed.

(** The end of a comment without [>] is found where it is. *)
Lemma find_close comment rest : 62 ∉ comment → find_sub CLOSE (comment ++ CLOSE ++ rest) = Some (length comment).
Proof.
  intros Hc. apply find_sub_spec. split_and!.
  - rewrite drop_app_length. apply starts_with_app.
  - rewrite length_app. apply Nat.le_add_r.
  - intros i Hi. apply not_true_is_false. intros [r Hr]%starts_with_true.
    rewrite drop_app_le in Hr; [|lia]. apply (f_equal (λ l, l !! 2%nat)) in Hr.
    change ((CLOSE ++ r) !! 2%nat) with (Some 62) in Hr.
    destruct (drop i comment) as [|x [|y [|z d]]] eqn:E; try discriminate Hr.
    { apply (f_equal length) in E. rewrite length_drop in E. simpl in E. lia. }
    injection Hr as ->. apply Hc. rewrite <- (take_drop i comment), E. set_solver.
Qed.

Lemma pin_text_no_gt path sha branch : well_formed_pin path sha branch → 62 ∉ pin_text path sha branch.
Proof.
  intros (_ & Hp & _ & Hs & Hb). assert (Hno : ∀ p t, p 62 = false → forallb p t = true → 62 ∉ t).
  { intros p t H62 Ht Hin. rewrite forallb_forall in Ht. specialize (Ht 62). rewrite Ht in H62; [done|by apply list_elem_of_In]. }
  unfold pin_text. rewrite !not_elem_of_app. split_and!; [by vm_compute; set_solver|by apply (Hno pin_char)| |by apply (Hno pin_hex)|].
  - by vm_compute; set_solver.
  - destruct branch; [|set_solver]. rewrite not_elem_of_app. split; [by vm_compute; set_solver|]. by apply (Hno pin_char), Hb.
Qed.

(** C22. A copy written as the gate's fix says - a pin, a note, the end of the comment, one blank line, the
    upstream bytes - is parsed back into exactly the path, the commit, the branch and the bytes, whatever
    the bytes are. *)
Theorem pin_header_roundtrip path sha branch note b s : well_formed_pin path sha branch →
  note ≠ [] → stops pin_char note → 62 ∉ note → (branch = None → starts_with (lit " tracking ") note = false) →
  split_header (pin_text path sha branch ++ note ++ CLOSE ++ [10; 10] ++ b) s = (Done (MkHeader path sha branch b), s).
Proof.
  intros Hw Hn Hst Hgt Ht. set (data := _ ++ _).
  assert (Hd : data = (pin_text path sha branch ++ note) ++ CLOSE ++ [10; 10] ++ b) by (subst data; by rewrite <- (assoc_L (++))).
  destruct (PIN_complete path sha branch (note ++ CLOSE ++ [10; 10] ++ b) Hw) as (m & Hm & G1 & G2 & G3).
  { by destruct note. }
  { intros Hb%Ht. destruct (strip_prefix _ _) eqn:E; [|done].
    rewrite (strip_prefix_cut (lit " tracking ") note 45 _ _ E) in Hb; [done|]. by vm_compute; set_solver. }
  fold data in Hm. unfold split_header.
  rewrite Hm, Hd, find_close; [|rewrite not_elem_of_app; split; [by apply pin_text_no_gt|done]].
  rewrite (drop_app_add' _ _ _ (length CLOSE)) by done. rewrite drop_app_length, G1, G2, G3. done.
Qed.

(** ** What the gate answers when upstream answers consistently *)

(** Upstream as one snapshot: which bytes a ref holds, which commits a branch has. *)
Record Upstream := MkUpstream {
  u_default : pystr;
  u_branch : pystr → bool;
  u_file : pystr → option bytes;
  u_has : pystr → pystr → bool;
  u_touching : pystr → list pystr;
  u_last : pystr → option pystr
}.

Class upstream_view (src : Source) (v : Vendored) (u : Upstream) : Prop := {
  view_default : yields (default_branch src (repo v)) (u_default u);
  view_branch b : yields (branch_exists src (repo v) b) (u_branch u b);
  view_fetch ref b : u_file u ref = Some b → yields (fetch src (repo v) (remote v) ref) b;
  view_missing ref b s s' : u_file u ref = None → fetch src (repo v) (remote v) ref s ≠ (Done b, s');
  view_has b sha : yields (contains src (repo v) b sha) (u_has u b sha);
  view_touching ref : yields (commits_touching src (repo v) (remote v) ref LANDED_WINDOW) (u_touching u ref);
  view_last ref : yields (last_commit src (repo v) (remote v) ref) (u_last u ref)
}.

(** The pin is on the ref, and the body is what the ref holds, at the pin and now. *)
Definition verbatim (u : Upstream) (h : Header) (ref : pystr) : Prop :=
  u_has u ref (h_sha h) = true ∧ u_file u (h_sha h) = Some (body h) ∧ u_file u ref = Some (body h) ∧ bytes_strip (body h) ≠ [].

(** Published on the default branch, or a copy ahead of it whose exception still stands. *)
Definition sound_copy (u : Upstream) (h : Header) : Prop :=
  let d := u_default u in
  match h_branch h with
  | None => verbatim u h d
  | Some b =>
    u_file u d = Some (body h) ∨
    (verbatim u h b ∧ u_branch u b = true ∧ u_has u d (h_sha h) = false ∧
     (∃ f, u_file u d = Some f ∧ f ≠ body h) ∧
     Forall (λ sha, ∃ f, u_file u sha = Some f ∧ f ≠ body h) (u_touching u d))
  end.

Section verdict.
Context (src : Source) (v : Vendored) (u : Upstream) `{!upstream_view src v u}.

Lemma fetched ref b s s' : fetch src (repo v) (remote v) ref s = (Done b, s') → u_file u ref = Some b.
Proof.
  intros H. destruct (u_file u ref) as [f|] eqn:E; [|by apply view_missing in H].
  f_equal. symmetry. by eapply yields_Done; [apply view_fetch|].
Qed.

Lemma yields_nonempty f x : bytes_strip f ≠ [] → yields (_nonempty f x) f.
Proof. intros H. unfold _nonempty. destruct (bytes_strip f); [done|apply yields_ret]. Qed.
Lemma nonempty_Done f x b s s' : _nonempty f x s = (Done b, s') → b = f ∧ bytes_strip f ≠ [] ∧ s' = s.
Proof. unfold _nonempty. destruct (bytes_strip f) as [|c l]; intros H; inv_done. done. Qed.

Lemma first_equal_None b shas s s' : first_equal src v b shas s = (Done None, s') →
  Forall (λ sha, ∃ f, u_file u sha = Some f ∧ f ≠ b) shas.
Proof.
  revert s. induction shas as [|sha shas IH]; intros s H; cbn [first_equal] in H; [by constructor|]. inv_done.
  match goal with H : fetch _ _ _ _ _ = _ |- _ => apply fetched in H end. case_bool_decide; inv_done.
  constructor; by eauto.
Qed.
Lemma yields_first_equal b shas : Forall (λ sha, ∃ f, u_file u sha = Some f ∧ f ≠ b) shas → yields (first_equal src v b shas) None.
Proof.
  induction 1 as [|sha shas (f & Hf & Hn) _ IH]; cbn [first_equal]; [apply yields_ret|].
  eapply yields_bind; [by apply view_fetch|]. by rewrite bool_decide_eq_false_2.
Qed.
End verdict.

(** The answers of the view, read off a run. *)
Ltac fetched_ H := match goal with V : upstream_view ?src ?v ?u |- _ => apply (fetched src v u) in H end.
Ltac viewed := repeat match goal with
  | H : fetch _ _ _ _ _ = (Done _, _) |- _ => fetched_ H
  | H : default_branch _ _ _ = (Done _, _) |- _ => apply (yields_Done _ _ _ _ _ view_default) in H; subst
  | H : contains _ _ ?b ?sha _ = (Done _, _) |- _ => apply (yields_Done _ _ _ _ _ (view_has b sha)) in H
  | H : branch_exists _ _ ?b _ = (Done _, _) |- _ => apply (yields_Done _ _ _ _ _ (view_branch b)) in H
  | H : commits_touching _ _ _ ?r _ _ = (Done _, _) |- _ => apply (yields_Done _ _ _ _ _ (view_touching r)) in H
  | H : _nonempty _ _ _ = (Done _, _) |- _ => apply nonempty_Done in H as (? & ? & ?)
  | H : bool_decide _ = true |- _ => apply bool_decide_eq_true in H
  | H : bool_decide _ = false |- _ => apply bool_decide_eq_false in H
  | H : negb _ = true |- _ => apply negb_true_iff in H
  end.
Ltac do_yield := eapply yields_bind; [first [apply yields_require|by apply view_fetch|by apply yields_nonempty|apply view_has
  |apply view_branch|apply view_touching|apply view_last|apply view_default]|].

Section checks.
Context (src : Source) (v : Vendored) (u : Upstream) `{!upstream_view src v u}.

Lemma check_pin_Done h ref ns r s s' : check_pin src v h ref ns s = (Done r, s') → verbatim u h ref.
Proof. unfold check_pin, verbatim. intros H. inv_done. viewed. subst. by split_and!; try congruence. Qed.
Lemma check_pin_yields h ref ns : verbatim u h ref → ∃ r, yields (check_pin src v h ref ns) r.
Proof.
  intros (Hh & Hs & Hr & Hn). eexists. unfold check_pin. do_yield. rewrite Hh. do 3 do_yield.
  rewrite bool_decide_eq_true_2 by done. do 4 do_yield. rewrite bool_decide_eq_true_2 by done. do_yield. apply yields_ret.
Qed.

Definition outlives (h : Header) (b : pystr) : Prop :=
  let d := u_default u in
  u_branch u b = true ∧ u_has u d (h_sha h) = false ∧
  Forall (λ sha, ∃ f, u_file u sha = Some f ∧ f ≠ body h) (u_touching u d) ∧
  ∃ fb fd, u_file u b = Some fb ∧ u_file u d = Some fd ∧ fb ≠ fd.

Lemma check_tracking_Done h b s s' : check_tracking src v h b (u_default u) s = (Done (), s') → outlives h b.
Proof.
  unfold check_tracking, _ever_on, outlives. intros H. inv_done.
  match goal with H : (match ?o with _ => _ end) _ = _ |- _ => destruct o; [inv_done|] end. inv_done. viewed. subst.
  match goal with H : first_equal _ _ _ _ _ = _ |- _ => apply (first_equal_None src v u) in H end.
  split_and!; try congruence. by eauto 10.
Qed.
Lemma check_tracking_yields h b : outlives h b → yields (check_tracking src v h b (u_default u)) ().
Proof.
  intros (Hb & Hh & Ht & fb & fd & Hfb & Hfd & Hn). unfold check_tracking, _ever_on.
  eapply yields_bind; [do_yield; by apply (yields_first_equal src v u)|]. do_yield. rewrite Hb. do 2 do_yield. rewrite Hh.
  do 3 do_yield. rewrite bool_decide_eq_false_2 by done. apply yields_require.
Qed.
Lemma check_header_Done h ns s s' : check_header v src h s = (Done ns, s') → declared v = Ok (h_declared h) ∧ sound_copy u h.
Proof.
  unfold check_header, sound_copy. intros H. inv_done. viewed. split; [congruence|].
  destruct (h_branch h) as [b|]; [|by eapply check_pin_Done].
  inv_done. viewed. case_bool_decide; inv_done; [left; congruence|right].
  match goal with H : check_tracking _ _ _ _ _ _ = _ |- _ => apply check_tracking_Done in H as (? & ? & ? & _) end.
  match goal with H : check_pin _ _ _ _ _ _ = _ |- _ => apply check_pin_Done in H end. by eauto 10.
Qed.
Lemma check_header_yields h : declared v = Ok (h_declared h) → sound_copy u h → ∃ ns, yields (check_header v src h) ns.
Proof.
  intros Hd Hs.
  assert (Hstart : ∀ (k : pystr → V (list Notice)) ns, yields (k (u_default u)) ns → yields (
    d ← of_res (declared v); _ ← require (bool_decide (h_declared h = d)) (Misdeclared (h_declared h) d);
    dflt ← default_branch src (repo v); k dflt) ns).
  { intros k ns Hk. eapply yields_bind; [by apply yields_of_res|]. rewrite bool_decide_eq_true_2 by done. by do 2 do_yield. }
  unfold check_header. unfold sound_copy in Hs. destruct (h_branch h) as [b|].
  - destruct Hs as [Hnow|(Hv & Hb & Hh & (f & Hf & Hn) & Hall)].
    + exists [HasLanded b]. apply Hstart. do_yield. rewrite bool_decide_eq_true_2 by done. apply yields_ret.
    + destruct (check_pin_yields h b [TracksUnmerged b] Hv) as [ns Hns]. exists ns. apply Hstart. do_yield.
      rewrite bool_decide_eq_false_2 by congruence. eapply yields_bind; [apply check_tracking_yields|done].
      destruct Hv as (_ & _ & Hv & _). split_and!; [done|done|done|]. eauto 10.
  - destruct (check_pin_yields h (u_default u) [] Hs) as [ns Hns]. exists ns. by apply Hstart.
Qed.
End checks.

(** C14. Against an upstream that answers consistently, a copy is green exactly when it parses, names the file it
    is registered for, and is sound: byte-identical to the upstream file at its pin and now, the pin being
    on the ref it tracks; or, for a copy that declares a branch, already published on the default branch, or
    ahead of it with the branch still there, the pin not on the default branch, and the body not among the
    recent versions of the default branch. *)
Theorem check_green_iff `{Machine} src v u data s : upstream_view src v u → repo_file (local v) = Some (Ok data) →
  (∃ ns s', check v src s = (Done ns, s')) ↔
  ∃ h, split_header data s = (Done h, s) ∧ declared v = Ok (h_declared h) ∧ sound_copy u h.
Proof.
  intros Hv Hf. unfold check. rewrite Hf. split.
  - intros (ns & s' & H0). inv_done.
    match goal with H : split_header _ _ = _ |- _ => destruct (split_header_Done _ _ _ _ H) as [-> _] end.
    eexists. split; [done|by eapply check_header_Done].
  - intros (h & Hh & Hd & Hs). destruct (check_header_yields src v u h Hd Hs) as [ns Hns].
    destruct (Hns s) as [s' E]. exists ns, s'. apply bind_Done. eexists _, s. split; [done|]. apply bind_Done. eauto.
Qed.

(** ** What the gate may claim, whatever the commands answer *)

Definition later (s s' : State) : Prop := ∃ l, ran s' = ran s ++ l.
Definition unprinted (s s' : State) : Prop := printed s' = printed s.
Global Instance later_preorder : PreOrder later.
Proof.
  split; [intros s; exists []; by rewrite app_nil_r|].
  intros s1 s2 s3 [l E] [l' E']. exists (l ++ l'). by rewrite E', E, (assoc_L (++)).
Qed.
Global Instance unprinted_preorder : PreOrder unprinted.
Proof. unfold unprinted. split; [done|]. intros s1 s2 s3 E1 E2. by rewrite E2. Qed.

(** A source only runs commands. *)
Class runs_only (R : State → State → Prop) (src : Source) : Prop := {
  runs_default r : keeps R (default_branch src r);
  runs_branch r b : keeps R (branch_exists src r b);
  runs_fetch r p f : keeps R (fetch src r p f);
  runs_last r p f : keeps R (last_commit src r p f);
  runs_contains r b x : keeps R (contains src r b x);
  runs_touching r p f n : keeps R (commits_touching src r p f n)
}.

Ltac keep_source := first
  [ apply runs_default | apply runs_branch | apply runs_fetch | apply runs_last | apply runs_contains | apply runs_touching ].

Section runs.
Context `{Machine} (R : State → State → Prop) `{!PreOrder R}.
Hypothesis R_run : ∀ s cmd, R s (MkState (ran s ++ [cmd]) (printed s)).

Lemma run_keeps cmd : keeps R (_run cmd).
Proof. intros s. unfold _run. destruct (run_command _ _) as [[code out]|e]; [destruct (code =? 0)|]; apply R_run. Qed.
Lemma github_runs : runs_only R GitHub.
Proof. split; intros; cbn; unfold run_text, succeeds; keep; apply run_keeps. Qed.
Lemma local_runs dir : runs_only R (LocalCheckout dir).
Proof.
  split; intros; cbn; unfold local_default_branch, git_text, _rev, local_branch_exists, _git, succeeds; keep; apply run_keeps.
Qed.
Lemma nonempty_keeps f x : keeps R (_nonempty f x).
Proof. unfold _nonempty. keep. Qed.
Lemma split_header_keeps data : keeps R (split_header data).
Proof. unfold split_header. keep. Qed.
Lemma open_checkout_keeps d : keeps R (open_checkout d).
Proof. unfold open_checkout. keep. Qed.
Lemma open_checkout_runs d s src s' : open_checkout d s = (Done src, s') → runs_only R src.
Proof. unfold open_checkout. intros Hd. inv_done. apply local_runs. Qed.

Section source.
Context (src : Source) `{!runs_only R src}.
Lemma first_equal_keeps v b shas : keeps R (first_equal src v b shas).
Proof. induction shas as [|sha shas IH]; cbn [first_equal]; keep; keep_source. Qed.
Lemma check_tracking_keeps v h b d : keeps R (check_tracking src v h b d).
Proof. unfold check_tracking, _ever_on. keep; first [apply first_equal_keeps|keep_source]. Qed.
Lemma check_pin_keeps v h t ns : keeps R (check_pin src v h t ns).
Proof. unfold check_pin. keep; first [apply nonempty_keeps|keep_source]. Qed.
Lemma copy_check_keeps v : keeps R (check v src).
Proof.
  unfold check, check_header. keep; first [apply split_header_keeps|apply check_tracking_keeps|apply check_pin_keeps|keep_source].
Qed.
End source.
End runs.

Local Abbreviation obtained := (obtained later).

(** What a green verdict rests on, in terms of the source: its answers, given during the run. *)
Definition upheld (src : Source) (v : Vendored) (s s' : State) (h : Header) : Prop :=
  declared v = Ok (h_declared h) ∧
  ∃ d, obtained s s' (default_branch src (repo v)) d ∧
    ((∃ b, h_branch h = Some b ∧ obtained s s' (fetch src (repo v) (remote v) d) (body h)) ∨
     let t := default d (h_branch h) in
     obtained s s' (contains src (repo v) t (h_sha h)) true ∧
     obtained s s' (fetch src (repo v) (remote v) (h_sha h)) (body h) ∧
     obtained s s' (fetch src (repo v) (remote v) t) (body h) ∧ bytes_strip (body h) ≠ []).

Lemma later_run s cmd : later s (MkState (ran s ++ [cmd]) (printed s)).
Proof. by exists [cmd]. Qed.
Lemma upheld_wider src v s0 s1 s s' h : later s s0 → later s1 s' → upheld src v s0 s1 h → upheld src v s s' h.
Proof.
  intros H0 H1. assert (Hw : ∀ A (m : V A) a, obtained s0 s1 m a → obtained s s' m a) by (intros A m a; by apply (obtained_wider later)).
  intros (Hd & d & Ho & Hv). split; [done|]. exists d. split; [by apply Hw|].
  destruct Hv as [(b & Hb & Hf)|(Hc & Hs & Ht & Hn)]; [left; exists b; by auto|right; by auto 10].
Qed.

Ltac laters := repeat match goal with
  | H : ?m ?s = (Done _, ?s') |- _ =>
    lazymatch goal with L : later s s' |- _ => fail | _ => idtac end;
    assert (later s s') by (eapply keeps_step; [|exact H];
      first [keep_source|apply check_tracking_keeps|apply check_pin_keeps|apply copy_check_keeps]; first [apply _|apply later_run])
  end.

Section vouch.
Context `{Machine} (src : Source) `{!runs_only later src}.

Lemma check_pin_upheld v h t ns r s s' : check_pin src v h t ns s = (Done r, s') →
  obtained s s' (contains src (repo v) t (h_sha h)) true ∧
  obtained s s' (fetch src (repo v) (remote v) (h_sha h)) (body h) ∧
  obtained s s' (fetch src (repo v) (remote v) t) (body h) ∧ bytes_strip (body h) ≠ [].
Proof.
  unfold check_pin. intros Hc. inv_done.
  repeat match goal with H : _nonempty _ _ _ = (Done _, _) |- _ => apply nonempty_Done in H as (? & ? & ?) end.
  repeat match goal with H : bool_decide _ = true |- _ => apply bool_decide_eq_true in H end. subst. laters.
  split_and!; [obtain|obtain|obtain|done].
Qed.

Lemma check_upheld v ns s s' : check v src s = (Done ns, s') →
  ∃ data h, repo_file (local v) = Some (Ok data) ∧ split_header data s = (Done h, s) ∧ upheld src v s s' h.
Proof.
  unfold check, check_header. destruct (repo_file (local v)) as [r|] eqn:Ef; [|done]. intros Hc. inv_done.
  match goal with H : split_header ?d _ = (Done ?h, _) |- _ => destruct (split_header_Done _ _ _ _ H) as [-> _]; exists d, h end.
  match goal with H : bool_decide _ = true |- _ => apply bool_decide_eq_true in H end. subst.
  unfold upheld. split_and!; [done|done|done|]. destruct (h_branch _) as [b|] eqn:Eb.
  - inv_done. case_bool_decide; inv_done; laters.
    + eexists. split; [obtain|]. left. exists b. split; [done|]. obtain.
    + eexists. split; [obtain|]. right. cbn [default].
      match goal with H : check_pin _ _ _ _ _ _ = _ |- _ => apply check_pin_upheld in H as (? & ? & ? & ?) end.
      split_and!; [..|done]; (eapply (obtained_wider later); [| |eassumption]; chain).
  - laters. eexists. split; [obtain|]. right. cbn [default].
    match goal with H : check_pin _ _ _ _ _ _ = _ |- _ => apply check_pin_upheld in H as (? & ? & ? & ?) end.
    split_and!; [..|done]; (eapply (obtained_wider later); [| |eassumption]; chain).
Qed.
End vouch.

Lemma print_all_Done ns s s' : each (λ n, print (LNotice n)) ns s = (Done (), s') →
  ran s' = ran s ∧ printed s' = printed s ++ (LNotice <$> ns).
Proof.
  revert s. induction ns as [|n ns IH]; intros s Hc; cbn [each] in Hc; [inv_done; by rewrite app_nil_r|].
  inv_done. match goal with H : print _ _ = _ |- _ => injection H as <- end.
  match goal with H : each _ _ _ = _ |- _ => apply IH in H as [-> ->] end. cbn. by rewrite <- (assoc_L (++)).
Qed.

(** What is printed for one copy, and whether it failed. *)
Definition is_report (name : pystr) (v : Vendored) (failed : bool) (r : list line) : Prop :=
  if failed then ∃ x, r = [LError x] else ∃ ns, r = LOk (local v) name :: (LNotice <$> ns).

Section program.
Context `{Machine}.

Lemma check_one_Done src v f s s' : runs_only unprinted src → check_one src v s = (Done f, s') →
  (∃ r, printed s' = printed s ++ r ∧ is_report (source_name src) v f r) ∧
  (f = false → ∃ ns s1, check v src s = (Done ns, s1) ∧ ran s' = ran s1).
Proof.
  intros Hr Hc. assert (Hp : ∀ o s1, check v src s = (o, s1) → printed s1 = printed s).
  { intros o s1. eapply (keeps_step unprinted). by apply copy_check_keeps; try apply _. }
  apply handling_Done in Hc as [Hc|(x & s1 & Hx & Hc)].
  - inv_done. match goal with H : check _ _ _ = (Done ?ns, ?s1) |- _ => specialize (Hp _ _ H) end.
    match goal with H : print _ _ = _ |- _ => injection H as <- end.
    match goal with H : each _ _ _ = _ |- _ => apply print_all_Done in H as [Hr1 Hp1] end.
    cbn in Hr1, Hp1. split; [|eauto]. eexists. split; [|by eexists]. by rewrite Hp1, Hp, <- (assoc_L (++)).
  - inv_done. match goal with H : print _ _ = _ |- _ => injection H as <- end. split; [|done].
    exists [LError x]. split; [|by exists x]. cbn.
    apply bind_Failed in Hx as [Hx|(ns & s2 & _ & Hx)]; [by rewrite (Hp _ _ Hx)|]. exfalso. revert Hx.
    apply unfailing_bind; [apply unfailing_modify|intros _].
    apply unfailing_bind; [apply unfailing_each; intros; apply unfailing_modify|intros _; apply unfailing_ret].
Qed.

Lemma check_all_Done src vs f b s s' : runs_only unprinted src → runs_only later src → check_all src vs f s = (Done b, s') →
  (∃ rs fs, Forall3 (λ v fl r, is_report (source_name src) v fl r) vs fs rs ∧
     printed s' = printed s ++ concat rs ∧ b = f || existsb id fs) ∧
  later s s' ∧
  (b = false → ∀ v, v ∈ vs → ∃ data h, repo_file (local v) = Some (Ok data) ∧ split_header data s = (Done h, s) ∧ upheld src v s s' h).
Proof.
  intros Hu Hl. revert f s. induction vs as [|v vs IH]; intros f s Hc; cbn [check_all] in Hc.
  - inv_done. split_and!; [|done|set_solver]. exists [], []. split_and!; [constructor|by rewrite app_nil_r|by rewrite orb_false_r].
  - apply bind_Done in Hc as (f1 & s1 & H1 & H2). apply IH in H2 as ((rs & fs & H3 & Hp & ->) & Hs & Hv).
    assert (later s s1) as Hs1.
    { eapply (keeps_step later); [|exact H1]. unfold check_one. keep; [apply copy_check_keeps; first [apply later_run|apply _|done]|..];
        intros s2; exists []; by rewrite app_nil_r. }
    destruct (check_one_Done _ _ _ _ _ Hu H1) as [(r & Hr & Hi) Hf]. split_and!; [|by etrans|].
    + exists (r :: rs), (f1 :: fs). split_and!; [by constructor|by rewrite Hp, Hr, <- (assoc_L (++))|]. cbn. by rewrite orb_assoc.
    + intros Hb w Hw. assert (Hb' := Hb). rewrite !orb_false_iff in Hb'. destruct Hb' as [[_ ->] _].
      apply elem_of_cons in Hw as [->|Hw].
      * destruct (Hf eq_refl) as (ns & s2 & Hck & Hran). apply (check_upheld src) in Hck as (data & h & Hd & Hh & Hvo).
        exists data, h. split_and!; [done|done|]. apply (upheld_wider _ _ s s2); [done| |exact Hvo].
        destruct Hs as [l Hl2]. exists l. by rewrite <- Hran.
      * destruct (Hv Hb w Hw) as (data & h & Hd & Hh & Hvo). exists data, h.
        split_and!; [done|by eapply split_header_any|by apply (upheld_wider _ _ s1 s')].
Qed.

Lemma check_one_unfailing src v : unfailing (check_one src v).
Proof. apply unfailing_handling. intros x. apply unfailing_bind; [apply unfailing_modify|intros _; apply unfailing_ret]. Qed.
Lemma check_all_unfailing src vs f : unfailing (check_all src vs f).
Proof. revert f. induction vs as [|v vs IH]; intros f; cbn [check_all]; [apply unfailing_ret|]. apply unfailing_bind; [apply check_one_unfailing|done]. Qed.

Lemma pick_candidate_keeps R `{!PreOrder R} l : keeps R (pick_candidate l).
Proof. induction l as [|[[|c r]|] l IH]; cbn [pick_candidate]; unfold open_checkout; keep. Qed.
Lemma pick_source_keeps R `{!PreOrder R} spec : keeps R (pick_source spec).
Proof. unfold pick_source, open_checkout. keep; apply pick_candidate_keeps; apply _. Qed.
Lemma pick_source_runs R spec s src s' : PreOrder R → (∀ s cmd, R s (MkState (ran s ++ [cmd]) (printed s))) →
  pick_source spec s = (Done src, s') → runs_only R src.
Proof.
  intros HR Hr Hc. assert (Hg : runs_only R GitHub) by by apply github_runs.
  assert (Ho : ∀ d s s', open_checkout d s = (Done src, s') → runs_only R src) by (intros d s0 s1; by apply open_checkout_runs).
  assert (Hp : ∀ l s, pick_candidate l s = (Done src, s') → runs_only R src).
  { intros l. induction l as [|[[|c r]|] l IH]; intros s0 H0; cbn [pick_candidate] in H0; [by inv_done|by eauto| |by eauto].
    apply bind_Done in H0 as (d & s1 & _ & H0). destruct (has_git d); by eauto. }
  unfold pick_source in Hc. destruct spec as [[|c r]|]; [by eauto| |by eauto].
  case_bool_decide; [by inv_done|]. destruct (strip_prefix _ _); [by eauto|inv_done].
Qed.

(** [main], run to its exit code: which source was picked, and the copies checked against it. *)
Lemma gate_main_Done spec c s s' : main spec s = (Done c, s') →
  (c = 1 ∧ ∃ x, printed s' = printed s ++ [LError x]) ∨
  (∃ src s1 b, pick_source spec s = (Done src, s1) ∧ check_all src VENDORED false s1 = (Done b, s') ∧ c = if b then 1 else 0).
Proof.
  unfold main, run_main, VENDORED. intros Hc. apply bind_Done in Hc as (o & s1 & Ho & Hc).
  apply handling_Done in Ho as [Ho|(x & s2 & Hx & Ho)].
  - apply fmap_Done in Ho as (src & Ho & ->). right.
    apply bind_Done in Hc as (b & s2 & Hc & Hr). apply ret_Done in Hr as [-> ->]. by exists src, s1, b.
  - inv_done. apply ret_Done in Hc as [-> ->]. left. split; [done|]. exists x.
    match goal with H : print _ _ = _ |- _ => injection H as <- end. cbn. f_equal.
    unfold fmap, script_fmap in Hx. destruct (pick_source spec s) as [[src|y|e] s3] eqn:E; [done| |done]. injection Hx as _ <-.
    by apply (keeps_step unprinted _ _ _ _ (pick_source_keeps unprinted spec)) in E.
Qed.
End program.

(** ** The commands behind a source's answers *)

(** The two places upstream is read from: the API of GitHub and the checkout in a directory. *)
Inductive place := Hub | Checkout (dir : pystr).

Section commands.
Context `{Machine}.

Definition source_at (p : place) : Source := match p with Hub => GitHub | Checkout d => LocalCheckout d end.

(** During the run this command was run, after those before it, and succeeded with this output. *)
Definition answered (s s' : State) (cmd : list pystr) (out : bytes) : Prop :=
  ∃ before rest, ran s' = ran s ++ before ++ cmd :: rest ∧ run_command (ran s ++ before) cmd = Ok (0, out).

(** The content of the file at a ref; a local checkout may look a name up as a branch of [origin]. *)
Definition read_at (p : place) (v : Vendored) (ref : pystr) (s s' : State) (b : bytes) : Prop :=
  match p with
  | Hub => answered s s' [lit "gh"; lit "api"; lit "repos/" ++ repo v ++ lit "/contents/" ++ remote v ++ lit "?ref=" ++ ref;
                          lit "-H"; lit "Accept: application/vnd.github.raw"] b
  | Checkout d => ∃ rev, rev ∈ [ref; lit "origin/" ++ ref] ∧
      answered s s' [lit "git"; lit "-C"; d; lit "show"; rev ++ lit ":" ++ remote v] b
  end.
(** The commit is on the branch. *)
Definition on_branch (p : place) (v : Vendored) (branch sha : pystr) (s s' : State) : Prop :=
  match p with
  | Hub => ∃ out t, utf8_decode out = Ok t ∧ str_strip t ∈ [lit "identical"; lit "behind"] ∧
      answered s s' [lit "gh"; lit "api"; lit "repos/" ++ repo v ++ lit "/compare/" ++ branch ++ lit "..." ++ sha; lit "--jq"; lit ".status"] out
  | Checkout d => ∃ out, answered s s' [lit "git"; lit "-C"; d; lit "merge-base"; lit "--is-ancestor"; sha; lit "origin/" ++ branch] out
  end.
(** The default branch. *)
Definition default_is (p : place) (v : Vendored) (s s' : State) (d : pystr) : Prop :=
  match p with
  | Hub => ∃ out t, utf8_decode out = Ok t ∧ d = str_strip t ∧
      answered s s' [lit "gh"; lit "api"; lit "repos/" ++ repo v; lit "--jq"; lit ".default_branch"] out
  | Checkout dir => obtained s s' (local_default_branch dir) d
  end.

(** What a green verdict rests on. *)
Definition vouched (p : place) (v : Vendored) (s s' : State) (h : Header) : Prop :=
  declared v = Ok (h_declared h) ∧
  ∃ d, default_is p v s s' d ∧
    ((∃ b, h_branch h = Some b ∧ read_at p v d s s' (body h)) ∨
     let t := default d (h_branch h) in
     on_branch p v t (h_sha h) s s' ∧ read_at p v (h_sha h) s s' (body h) ∧ read_at p v t s s' (body h) ∧ bytes_strip (body h) ≠ []).

Lemma run_answered s s0 s1 s' cmd out : later s s0 → _run cmd s0 = (Done out, s1) → later s1 s' → answered s s' cmd out.
Proof.
  intros [before Eb] Hr [rest Er]. unfold _run in Hr. destruct (run_command _ _) as [[code o]|e] eqn:Hc; [|done].
  destruct (Z.eqb_spec code 0) as [->|]; [|done]. injection Hr as -> <-. exists before, rest. cbn [ran] in Er.
  rewrite <- Eb. split; [|done]. by rewrite Er, Eb, <- !(assoc_L (++)).
Qed.
Lemma later_runs p : runs_only later (source_at p).
Proof. destruct p; [apply github_runs|apply local_runs]; first [apply _|intros; by eexists [_]]. Qed.

Lemma fetch_read p v ref s s' b : obtained s s' (fetch (source_at p) (repo v) (remote v) ref) b → read_at p v ref s s' b.
Proof.
  intros (s0 & s1 & H0 & Hf & H1). destruct p as [|d]; cbn [source_at fetch GitHub LocalCheckout] in Hf; [by eapply run_answered|].
  apply bind_Done in Hf as (rev & s2 & Hr & Hf). unfold _rev in Hr. apply bind_Done in Hr as (b0 & s3 & Hb & Hr).
  apply ret_Done in Hr as [-> ->].
  assert (later s0 s3) by (eapply (keeps_step later); [|exact Hb]; destruct (later_runs (Checkout d)) as [_ Hbr _ _ _ _]; exact (Hbr [] ref)).
  exists (if b0 then lit "origin/" ++ ref else ref). split; [destruct b0; set_solver|].
  eapply run_answered; [|exact Hf|exact H1]. by etrans.
Qed.
Lemma contains_on p v t sha s s' : obtained s s' (contains (source_at p) (repo v) t sha) true → on_branch p v t sha s s'.
Proof.
  intros (s0 & s1 & H0 & Hc & H1). destruct p as [|d]; cbn [source_at contains GitHub LocalCheckout] in Hc.
  - apply fmap_Done in Hc as (o & Hc & Ho). symmetry in Ho. apply bool_decide_eq_true in Ho. unfold run_text in Hc.
    apply bind_Done in Hc as (out & s2 & Hc & Hd). apply of_res_Done in Hd as [Hd ->]. exists out, o. split_and!; [done|done|by eapply run_answered].
  - unfold succeeds in Hc. apply handling_Done in Hc as [Hc|(x & s2 & _ & Hc)]; [|by apply ret_Done in Hc as [? _]].
    apply bind_Done in Hc as (out & s2 & Hc & Hd). apply ret_Done in Hd as [_ ->]. exists out. by eapply run_answered.
Qed.
Lemma default_read p v d s s' : obtained s s' (default_branch (source_at p) (repo v)) d → default_is p v s s' d.
Proof.
  destruct p as [|dir]; [|done]. intros (s0 & s1 & H0 & Hc & H1). cbn [source_at default_branch GitHub] in Hc.
  apply fmap_Done in Hc as (o & Hc & ->). unfold run_text in Hc. apply bind_Done in Hc as (out & s2 & Hc & Hd).
  apply of_res_Done in Hd as [Hd ->]. exists out, o. split_and!; [done|done|by eapply run_answered].
Qed.
Lemma upheld_vouched p v s s' h : upheld (source_at p) v s s' h → vouched p v s s' h.
Proof.
  intros (Hd & d & Ho & Hv). split; [done|]. exists d. split; [by apply default_read|].
  destruct Hv as [(b & Hb & Hf)|(Hc & Hs & Ht & Hn)]; [left; exists b|right]; split_and!; auto using fetch_read, contains_on.
Qed.

Lemma open_checkout_at d s src s' : open_checkout d s = (Done src, s') → ∃ p, src = source_at p.
Proof. unfold open_checkout. intros Hd. inv_done. by eexists (Checkout _). Qed.
Lemma pick_source_at spec s src s' : pick_source spec s = (Done src, s') → ∃ p, src = source_at p.
Proof.
  assert (Hp : ∀ l s0, pick_candidate l s0 = (Done src, s') → ∃ p, src = source_at p).
  { intros l. induction l as [|[[|c r]|] l IH]; intros s0 H0; cbn [pick_candidate] in H0; [inv_done; by exists Hub|by eauto| |by eauto].
    inv_done. destruct (has_git _); [by eapply open_checkout_at|by eauto]. }
  unfold pick_source. intros Hc. destruct spec as [[|c r]|]; [by eauto| |by eauto].
  case_bool_decide; [inv_done; by exists Hub|]. destruct (strip_prefix _ _); [by eapply open_checkout_at|inv_done].
Qed.
End commands.

(** C13. No green light without evidence. When the program exits 0, the source it picked (the API of GitHub, or a
    local checkout) is the one every registered copy was checked against; and for every such copy - however the commands
    answered, and however their answers changed during the run - the file parses, names what it is registered for,
    and the run itself ran, on that source, the command that says the pin is on the tracked ref, the command that reads
    the upstream file at the pin and the one that reads it at the tracked ref, and both printed the copy's exact bytes,
    which are not blank; or the copy declares a branch and the command that reads the file at the default
    branch printed its exact bytes. *)
Theorem main_green_vouched `{Machine} spec s s' : main spec s = (Done 0, s') →
  ∃ p, obtained s s' (pick_source spec) (source_at p) ∧ ∀ v, v ∈ VENDORED → ∃ data h,
    repo_file (local v) = Some (Ok data) ∧ split_header data s = (Done h, s) ∧ vouched p v s s' h.
Proof.
  intros [[? _]|(src & s1 & b & Hp & Hc & Hb)]%gate_main_Done; [done|]. destruct b; [done|].
  destruct (pick_source_at _ _ _ _ Hp) as [p ->]. exists p.
  assert (later s s1) as Hs by (by eapply (keeps_step later); [apply (pick_source_keeps later)|exact Hp]).
  apply check_all_Done in Hc as (_ & Hl & Hg);
    [|eapply (pick_source_runs unprinted); [apply _|done|exact Hp]|apply later_runs].
  split; [exists s, s1; by split_and!|]. intros v Hv.
  destruct (Hg eq_refl v Hv) as (data & h & Hd & Hh & Hvo). exists data, h.
  split_and!; [done|by eapply split_header_any|by apply upheld_vouched, (upheld_wider _ _ s1 s')].
Qed.

(** The program ends in 0 or 1, or in an exception that is no [Failure]; and it reports every copy whatever
    became of the others: unless no source could be opened, it prints one report per registered copy, in
    order, and exits 1 exactly when one of them is an error. *)
Theorem main_reports_all `{Machine} spec s o s' : main spec s = (o, s') →
  match o with
  | Failed _ => False
  | Escaped _ => True
  | Done c =>
    (c = 1 ∧ ∃ x, printed s' = printed s ++ [LError x]) ∨
    ∃ name failed reports, Forall3 (is_report name) VENDORED failed reports ∧
      printed s' = printed s ++ concat reports ∧ c = if existsb id failed then 1 else 0
  end.
Proof.
  intros Hm. destruct o as [c|x|e]; [|exfalso|done].
  - apply gate_main_Done in Hm as [?|(src & s1 & b & Hp & Hc & ->)]; [by left|right].
    pose proof (keeps_step unprinted _ _ _ _ (pick_source_keeps unprinted spec) Hp) as Hs1.
    apply check_all_Done in Hc as ((rs & fs & H3 & Hpr & ->) & _);
      [|eapply (pick_source_runs unprinted); [apply _|done|exact Hp]|eapply (pick_source_runs later); [apply _|apply later_run|exact Hp]].
    exists (source_name src), fs, rs. split_and!; [done|by rewrite Hpr, Hs1|done].
  - revert Hm. unfold main, run_main, VENDORED. apply unfailing_bind.
    + apply unfailing_handling. intros y. apply unfailing_bind; [apply unfailing_modify|intros _; apply unfailing_ret].
    + intros [src|]; [|apply unfailing_ret]. apply unfailing_bind; [apply check_all_unfailing|intros b; apply unfailing_ret].
Qed.

(** A local checkout resolves a ref through [origin/] whenever [origin] has it: an unpushed branch of the same
    name is never read. *)
Lemma local_fetch_reads_origin `{Machine} dir r path ref s code out :
  let probe := [lit "git"; lit "-C"; dir; lit "rev-parse"; lit "--verify"; lit "--quiet"; lit "origin/" ++ ref ++ lit "^{commit}"] in
  run_command (ran s) probe = Ok (code, out) →
  fetch (LocalCheckout dir) r path ref s =
    _run [lit "git"; lit "-C"; dir; lit "show"; (if code =? 0 then lit "origin/" ++ ref else ref) ++ lit ":" ++ path]
      (MkState (ran s ++ [probe]) (printed s)).
Proof.
  intros probe Hp. cbn [fetch LocalCheckout]. unfold _rev, local_branch_exists, succeeds, handling, _git, _run, _remote.
  unfold mbind, script_bind. rewrite <- (assoc_L (++)). fold probe. rewrite Hp. cbn [ran printed]. by destruct (code =? 0).
Qed.

(** ** A machine to run it on *)

Definition toy_body : bytes := lit "# spec".
Definition toy_gh (cmd : list pystr) : res (Z * bytes) :=
  match cmd with
  | _ :: _ :: p :: _ =>
    if starts_with (lit "repos/zer07labs/seam-runtime/contents/") p then Ok (0, toy_body)
    else if starts_with (lit "repos/zer07labs/seam-runtime/compare/") p then Ok (0, lit "behind" ++ [10])
    else if starts_with (lit "repos/zer07labs/seam-runtime/commits?") p then Ok (0, lit "e69914aa00" ++ [10])
    else Ok (0, lit "main" ++ [10])
  | _ => Raise (OSError ENOENT)
  end.
Definition toy_copy (b : bytes) (p : pystr) : option (res bytes) :=
  match list_find (λ v, local v = p) VENDORED with
  | Some (_, v) => Some (Ok (pin_text (lit "seam-runtime/" ++ remote v) (lit "e69914aa") None ++ lit " (refreshed)." ++ CLOSE ++ [10; 10] ++ b))
  | None => None
  end.
Definition toy_machine (b : bytes) : Machine := {|
  run_command _ := toy_gh;
  repo_file := toy_copy b;
  has_git _ := false;
  expanduser p := Ok p;
  resolve_path p := Ok p;
  SEAM_RUNTIME_DIR := None;
  sibling_dir := lit "../seam-runtime"
|}.
Definition fresh : State := MkState [] [].

Example main_clean : (main (H := toy_machine toy_body) (Some (lit "gh")) fresh).1 = Done 0.
Proof. vm_compute. reflexivity. Qed.
Example main_edited : (main (H := toy_machine (lit "# edited")) None fresh).1 = Done 1.
Proof. vm_compute. reflexivity. Qed.
Example edited_refused : printed (main (H := toy_machine (lit "# edited")) None fresh).2 = repeat (LError (NotVerbatim (lit "e69914aa"))) 3.
Proof. vm_compute. reflexivity. Qed.

(** The first line of [verify/docs/seam-event.v1.md] *)
Example pin_of_seam_event :
  group 2 <$> re_match PIN (lit "<!-- Pinned copy of seam-runtime/docs/specs/seam-event.v1.md @ e69914aa (refreshed 2026-11-04).") = Some (Some (lit "e69914aa")).
Proof. vm_compute. reflexivity. Qed.
(** An abbreviation of six digits, and a digest too long for a commit, are no pins. *)
Example pin_too_short : re_match PIN (lit "<!-- Pinned copy of a/b @ e69914 x") = None.
Proof. vm_compute. reflexivity. Qed.
Example pin_too_long : re_match PIN (lit "<!-- Pinned copy of a/b @ e69914aae69914aae69914aae69914aae69914aae x") = None.
Proof. vm_compute. reflexivity. Qed.

Definition toy_upstream : Upstream := {|
  u_default := lit "main"; u_branch _ := true; u_file _ := Some toy_body; u_has _ _ := true;
  u_touching _ := [lit "e69914aa00"]; u_last _ := Some (lit "e69914aa00")
|}.
Definition toy_vendored : Vendored := MkVendored (lit "docs/specs/mgmt-dpop.md") (lit "zer07labs/seam-runtime") (lit "docs/specs/mgmt-dpop.md").

Lemma toy_view : @upstream_view (GitHub (H := toy_machine toy_body)) toy_vendored toy_upstream.
Proof. split; intros; cbn [u_file toy_upstream] in *; simplify_eq; intros s; eexists; vm_compute; reflexivity. Qed.

Lemma pin_header_roundtrip_witness :
  split_header (pin_text (lit "seam-runtime/docs/a.md") (lit "e69914aa") (Some (lit "feat/x")) ++ lit " (today)." ++ CLOSE ++ [10; 10] ++ toy_body) fresh
    = (Done (MkHeader (lit "seam-runtime/docs/a.md") (lit "e69914aa") (Some (lit "feat/x")) toy_body), fresh).
Proof.
  apply (pin_header_roundtrip _ _ (Some (lit "feat/x"))); [by vm_compute; split_and!; [|..]; try lia| done|done|by vm_compute; set_solver|done].
Defined.

Lemma check_green_iff_witness :
  (∃ ns s', check (H := toy_machine toy_body) toy_vendored (GitHub (H := toy_machine toy_body)) fresh = (Done ns, s')) ↔
  ∃ h, split_header (default [] (toy_copy toy_body (local toy_vendored) ≫= λ r, match r with Ok d => Some d | Raise _ => None end)) fresh = (Done h, fresh) ∧
    declared toy_vendored = Ok (h_declared h) ∧ sound_copy toy_upstream h.
Proof. apply (check_green_iff (H := toy_machine toy_body)); [exact toy_view|vm_compute; reflexivity]. Defined.

Lemma main_green_vouched_witness : ∃ s', main (H := toy_machine toy_body) (Some (lit "gh")) fresh = (Done 0, s') ∧
  ∃ p, obtained fresh s' (pick_source (H := toy_machine toy_body) (Some (lit "gh"))) (source_at (H := toy_machine toy_body) p) ∧
    ∀ v, v ∈ VENDORED → ∃ data h, repo_file (Machine := toy_machine toy_body) (local v) = Some (Ok data) ∧
      split_header data fresh = (Done h, fresh) ∧ vouched (H := toy_machine toy_body) p v fresh s' h.
Proof.
  eexists. split; [vm_compute; reflexivity|].
  apply (main_green_vouched (H := toy_machine toy_body) (Some (lit "gh"))). vm_compute. reflexivity.
Defined.

Lemma main_reports_all_witness : ∃ s', main (H := toy_machine (lit "# edited")) None fresh = (Done 1, s') ∧
  ((1 = 1 ∧ ∃ x, printed s' = printed fresh ++ [LError x]) ∨
   ∃ name failed reports, Forall3 (is_report name) VENDORED failed reports ∧
     printed s' = printed fresh ++ concat reports ∧ 1 = if existsb id failed then 1 else 0).
Proof.
  eexists. split; [vm_compute; reflexivity|].
  apply (main_reports_all (H := toy_machine (lit "# edited")) None fresh (Done 1)). vm_compute. reflexivity.
Defined.

(** Two comparisons are made without [_nonempty]: a copy with an empty body that declares a branch is green when
    the default branch's file comes back empty. *)
Definition blank_copy : Vendored := MkVendored (lit "x") (lit "o/r") (lit "x").
Example blank_landed_copy_green :
  let m := {| run_command _ _ := Ok (0, []); repo_file _ := Some (Ok (pin_text (lit "r/x") (lit "e69914aa") (Some (lit "b")) ++ lit " " ++ CLOSE ++ [10; 10]));
              has_git _ := false; expanduser := Ok; resolve_path := Ok; SEAM_RUNTIME_DIR := None; sibling_dir := [] |} in
  (check (H := m) blank_copy (GitHub (H := m)) fresh).1 = Done [HasLanded (lit "b")].
Proof. vm_compute. reflexivity. Qed.
