(* ===== verification/DriftRows.v ===== *)
(** * DriftRows: what the registry-drift check reads

    The pure parts of [scripts/check_registry_drift.py]: versions and their order, the rows of a registry
    response, the newest complete version, time stamps, the cron line. A computation ends in a value, in
    an [InfraError] - a value of [infra], named after the place that raises it, with the response content
    its message repeats - or in another exception. Digits are ASCII: [\d] also accepts
    others, which neither the constants nor the programs that answer here produce. *)

From stdpp Require Import base list numbers option strings sets gmap.
From Stdlib Require Import SpecFloat Sorted.
From S2P Require Import Prelude Text Order Keys Floats Json Commitment Dumps Regex Script.

(** [InfraError]. *)
Inductive infra :=
| GraceOutOfOrder | CannotParse (what : string) (raw : pystr) | NoTimezone (what : string) (raw : pystr)
| NoPyproject | NoPackageJson | NoVersionLine | BadPackageJson | NoTsVersion | VersionsDisagree
| NotQuerySafe (version : pystr)
| PartnerDumpAlone | DumpMissing (flag : string) | DumpUnreadable (flag : string) | DumpNotJson (flag : string)
| ResponseNotList | RowNotObject | EmptyOffline (flag : string)
| NoToken | NoCurl | CurlNotRun | CurlFailed (code : Z) | NotJson
| PageFull | QualifierIgnored (present : list pystr) (withheld : nat)
| NoCanary | CanariesFailed
| NewestNoRow | NotDescending (higher lower : pystr) | NoNewest (edge : option pystr) | BelowCanary (newest : pystr) | BelowDeclared (newest : pystr)
| StampNotText | StampBadShape | StampNotInstant | NoStamp | OfflineStamp (cause : infra)
| UploadedAfterNow | AttemptAfterNow
| NoGit | GitNotRun | GitFailed (code : Z) | NotInHistory (version : pystr) | FewTags (n : nat)
| NoRepo | BadRepo (repo : pystr) | NoGh | GhNotRun | GhTimeout | GhFailed (code : Z) | BadIssueRow | BadIssueNumber
| Unexpected (where_ : string) (e : exn).

(** ** Constants *)

Definition SOFT_GRACE_MINUTES : Z := 90.
Definition HARD_GRACE_MINUTES : Z := 360.
Definition TAG_FLOOR : nat := 20.
Definition CLOCK_SKEW_TOLERANCE_MINUTES : Z := 5.
Definition PACKAGE_NAME : pystr := lit "seam-sdk".
Definition REQUIRED_FORMATS : list pystr := [lit "python"; lit "npm"].
Definition CANARY_VERSIONS : list pystr := [lit "0.7.71"; lit "0.7.50"; lit "0.7.65"; lit "0.7.75"].
Definition PAGE_SIZE : nat := 50.
Definition CRON : pystr := lit "17 */2 * * *".
Definition STALENESS_MULTIPLIER : Z := 3.

Local Open Scope regex_scope.
Definition SAFE_VERSION : regex := Bol ▷ Plus (Set_ is_digit) ▷ Star (Chr 46 ▷ Plus (Set_ is_digit)) ▷ Eol.
Definition PYPROJECT_VERSION : regex :=
  Bol ▷ chars (lit "version = " ++ [34]) ▷ Group 1 (Plus (Set_ (λ c, negb (c =? 34)))) ▷ Chr 34.
Definition NPM_SCOPE : regex := Bol ▷ Chr 64 ▷ Plus (Set_ (λ c, negb (c =? 47))) ▷ Chr 47.
Definition UPLOAD_STAMP : regex :=
  Times 4 (Set_ is_digit) ▷ Chr 45 ▷ Times 2 (Set_ is_digit) ▷ Chr 45 ▷ Times 2 (Set_ is_digit) ▷ Chr 84
  ▷ Times 2 (Set_ is_digit) ▷ Chr 58 ▷ Times 2 (Set_ is_digit) ▷ Chr 58 ▷ Times 2 (Set_ is_digit)
  ▷ Opt (Chr 46 ▷ Between 1 5 (Set_ is_digit))
  ▷ Alt (Chr 90) (Set_ (λ c, (c =? 43) || (c =? 45)) ▷ Times 2 (Set_ is_digit) ▷ Chr 58 ▷ Times 2 (Set_ is_digit)).
Local Close Scope regex_scope.

(** [int(text)] of ASCII digits *)
Definition py_int (s : pystr) : res Z := if MAX_STR_DIGITS <? zlen s then Raise ValueError else Ok (dec_value s).

(** ** Versions *)

(** [_plain] *)
Definition _plain (v : pyval) : option pystr :=
  match v with PStr s => if fullmatches SAFE_VERSION s then Some s else None | _ => None end.

Definition _version_key (version : pystr) : res (list Z) := mapM py_int (split_on 46 version).

(** [a < b] on tuples of integers *)
Definition key_ltb (a b : list Z) : bool := negb (lex_leb b a).

(** ** Rows *)

Section rows.
Context {S : Type}.
Abbreviation D := (Script S infra).

Definition assert_query_safe (version : pystr) : D () :=
  require (match re_match SAFE_VERSION version with Some _ => true | None => false end) (NotQuerySafe version).

(** [row.get(k)] of a row, a [dict] *)
Definition row_get (k : pystr) (row : list (pyval * pyval)) : pyval := default PNone (dict_find k row).

(** [NPM_SCOPE.sub("", name)] *)
Definition unscoped (name : pystr) : pystr := match re_match NPM_SCOPE name with Some m => ahead m | None => name end.
(** The name test; [str()] of a value that is no [str] is never the name of a package. *)
Definition is_seam_sdk (row : list (pyval * pyval)) : bool :=
  match dict_find (lit "name") row with Some (PStr s) => bool_decide (unscoped s = PACKAGE_NAME) | _ => false end.

Fixpoint seam_sdk_rows_of (rows : list pyval) : D (list (list (pyval * pyval))) :=
  match rows with
  | [] => mret []
  | PDict row :: rows => rest ← seam_sdk_rows_of rows; mret (if is_seam_sdk row then row :: rest else rest)
  | _ => fail RowNotObject
  end.
Definition _seam_sdk_rows (rows : pyval) : D (list (list (pyval * pyval))) :=
  match rows with PList l => seam_sdk_rows_of l | _ => fail ResponseNotList end.

(** [row.get("format") in REQUIRED_FORMATS], and which. *)
Definition required_format (row : list (pyval * pyval)) : option pystr :=
  list_find (λ f, py_eq_str (row_get (lit "format") row) f = true) REQUIRED_FORMATS ≫= λ p, Some p.2.

Definition registry_formats (rows : pyval) (version : pystr) : D (gset pystr) :=
  l ← _seam_sdk_rows rows;
  mret (list_to_set (omap (λ row, if py_eq_str (row_get (lit "version") row) version then required_format row else None) l)).

Definition required : gset pystr := list_to_set REQUIRED_FORMATS.

Definition assert_offline_instrument_healthy (rows : pyval) (flag : string) : D () :=
  l ← _seam_sdk_rows rows; require (negb (bool_decide (l = [] :> list (list (pyval * pyval))))) (EmptyOffline flag).

(** ** The newest complete version *)

(** Two values of a JSON text with the same [repr] *)
Fixpoint same_repr (v w : pyval) : bool :=
  let fix elems (l m : list pyval) : bool :=
    match l, m with [], [] => true | x :: l, y :: m => same_repr x y && elems l m | _, _ => false end in
  let fix items (l m : list (pyval * pyval)) : bool :=
    match l, m with
    | [], [] => true
    | (PStr k, x) :: l, (PStr k', y) :: m => bool_decide (k = k') && same_repr x y && items l m
    | _, _ => false
    end in
  match v, w with
  | PNone, PNone => true
  | PBool a, PBool b => Bool.eqb a b
  | PInt a, PInt b => a =? b
  | PFloat a, PFloat b => bool_decide (a = b)
  | PStr a, PStr b => bool_decide (a = b)
  | PList l, PList m => elems l m
  | PDict l, PDict m => items l m
  | _, _ => false
  end.

(** [formats.setdefault(version, set()).add(format)]: a [dict] keeps the order of first insertion. *)
Fixpoint add_format (v f : pystr) (d : list (pystr * gset pystr)) : list (pystr * gset pystr) :=
  match d with
  | [] => [(v, {[ f ]})]
  | (w, fs) :: d => if decide (w = v) then (w, {[ f ]} ∪ fs) :: d else (w, fs) :: add_format v f d
  end.
Fixpoint collect_formats (rows : list (list (pyval * pyval))) (d : list (pystr * gset pystr)) : list (pystr * gset pystr) :=
  match rows with
  | [] => d
  | row :: rows =>
    collect_formats rows
      match _plain (row_get (lit "version") row), required_format row with
      | Some v, Some f => add_format v f d
      | _, _ => d
      end
  end.

(** [len(withheld)] *)
Fixpoint count_withheld (rows : list (list (pyval * pyval))) (seen : list pyval) : nat :=
  match rows with
  | [] => length seen
  | row :: rows =>
    let v := row_get (lit "version") row in
    count_withheld rows
      match _plain v with
      | Some _ => seen
      | None => if existsb (same_repr v) seen then seen else v :: seen
      end
  end.

(** [max(l, key=_version_key)]: the first of the largest. *)
Fixpoint max_from (best : pystr * list Z) (l : list (pystr * list Z)) : pystr :=
  match l with
  | [] => best.1
  | x :: l => max_from (if key_ltb best.2 x.2 then x else best) l
  end.
Definition max_version (l : list pystr) : D (option pystr) :=
  keys ← of_res (mapM _version_key l);
  mret (match zip l keys with [] => None | x :: r => Some (max_from x r) end).

Definition complete_versions (rows : list (list (pyval * pyval))) (exclude : option pystr) : list pystr :=
  fst <$> filter (λ p : pystr * gset pystr, required ⊆ p.2 ∧ Some p.1 ≠ exclude) (collect_formats rows []).

Definition newest_complete_version (rows : pyval) (exclude : option pystr) : D (option pystr * nat) :=
  l ← _seam_sdk_rows rows;
  newest ← max_version (complete_versions l exclude);
  mret (newest, count_withheld l []).
End rows.

(** ** Time

    An instant is a number of microseconds since 0001-01-01T00:00:00 UTC. *)

Definition USEC : Z := 1000000.
Definition DAY : Z := 86400 * USEC.
(** The end of 9999-12-31 *)
Definition TIME_END : Z := 3652059 * DAY.

Definition is_leap (y : Z) : bool := (y mod 4 =? 0) && (negb (y mod 100 =? 0) || (y mod 400 =? 0)).
Definition days_in_month (y m : Z) : Z :=
  if m =? 2 then (if is_leap y then 29 else 28)
  else if (m =? 4) || (m =? 6) || (m =? 9) || (m =? 11) then 30 else 31.
Definition days_before_year (y : Z) : Z := let y := y - 1 in y * 365 + y / 4 - y / 100 + y / 400.
Fixpoint days_before_month (y : Z) (n : nat) : Z :=
  match n with O => 0 | S n => days_before_month y n + days_in_month y (Z.of_nat (S n)) end.

Definition local_time (y mo d h mi s us : Z) : option Z :=
  if (1 <=? y) && (1 <=? mo) && (mo <=? 12) && (1 <=? d) && (d <=? days_in_month y mo) && (h <=? 23) && (mi <=? 59) && (s <=? 59)
  then Some ((days_before_year y + days_before_month y (Z.to_nat (mo - 1)) + (d - 1)) * DAY + ((h * 60 + mi) * 60 + s) * USEC + us)
  else None.

Definition slice (i n : nat) (s : pystr) : pystr := take n (drop i s).

(** [2026-10-11T04:43:28], a fraction of up to six digits, [Z] or an offset, or neither: the local time, and
    the offset. *)
Definition read_fraction (r : pystr) : Z * pystr :=
  match r with
  | c :: r => if c =? 46 then let '(ds, r) := span_digits r in (dec_value ds * 10 ^ (6 - zlen ds), r) else (0, c :: r)
  | [] => (0, [])
  end.
Definition read_offset (r : pystr) : option (option Z) :=
  match r with
  | [] => Some None
  | c :: r =>
    if c =? 90 then Some (Some 0)
    else let minutes := dec_value (take 2 r) * 60 + dec_value (drop 3 r) in
         if minutes <? 1440 then Some (Some ((if c =? 45 then - minutes else minutes) * 60 * USEC)) else None
  end.
Definition read_calendar (s : pystr) : option (Z * option Z) :=
  let n i k := dec_value (slice i k s) in
  let '(us, r) := read_fraction (drop 19 s) in
  t ← local_time (n 0%nat 4%nat) (n 5%nat 2%nat) (n 8%nat 2%nat) (n 11%nat 2%nat) (n 14%nat 2%nat) (n 17%nat 2%nat) us;
  off ← read_offset r;
  Some (t, off).

(** The spellings [read_calendar] reads: [UPLOAD_STAMP]'s, with the offset optional. *)
Local Open Scope regex_scope.
Definition CALENDAR : regex :=
  Alt UPLOAD_STAMP
    (Times 4 (Set_ is_digit) ▷ Chr 45 ▷ Times 2 (Set_ is_digit) ▷ Chr 45 ▷ Times 2 (Set_ is_digit) ▷ Chr 84
     ▷ Times 2 (Set_ is_digit) ▷ Chr 58 ▷ Times 2 (Set_ is_digit) ▷ Chr 58 ▷ Times 2 (Set_ is_digit)
     ▷ Opt (Chr 46 ▷ Between 1 5 (Set_ is_digit))).
Local Close Scope regex_scope.

(** The other spellings of ISO 8601 that [datetime.fromisoformat] reads; only [--now], which a person types,
    can hold one. *)
Class OtherIso := other_iso : pystr → option (Z * option Z).

Definition fromisoformat `{OtherIso} (s : pystr) : option (Z * option Z) :=
  if fullmatches CALENDAR s then read_calendar s else other_iso s.

(** [dt.astimezone(timezone.utc)] *)
Definition to_utc (t off : Z) : res Z :=
  let u := t - off in
  if off =? 0 then Ok t else if (0 <=? u) && (u <? TIME_END) then Ok u else Raise OverflowError.

Section clock.
Context {S : Type} `{OtherIso}.
Abbreviation D := (Script S infra).

Definition _parse_iso (raw : pystr) (what : string) : D Z :=
  match fromisoformat raw with
  | None => fail (CannotParse what raw)
  | Some (_, None) => fail (NoTimezone what raw)
  | Some (t, Some off) => of_res (to_utc t off)
  end.

Definition _parse_upload_stamp (v : pyval) : D Z :=
  match v with
  | PStr s =>
    _ ← require (fullmatches UPLOAD_STAMP s) StampBadShape;
    match fromisoformat s with
    | Some (t, Some off) => of_res (to_utc t off)
    | Some (t, None) => mret t
    | None => fail StampNotInstant
    end
  | _ => fail StampNotText
  end.

Fixpoint parse_stamps (vs : list pyval) : D (list Z) :=
  match vs with [] => mret [] | v :: vs => t ← _parse_upload_stamp v; ts ← parse_stamps vs; mret (t :: ts) end.

Definition newest_upload_clock (rows : pyval) (version : pystr) : D Z :=
  l ← _seam_sdk_rows rows;
  stamps ← parse_stamps (row_get (lit "uploaded_at") <$>
    filter (λ row, py_eq_str (row_get (lit "version") row) version = true ∧ is_Some (required_format row)) l);
  match stamps with
  | [] => fail NoStamp
  | t :: ts => mret (foldr Z.max t ts)
  end.
End clock.

(** [(a - b).total_seconds() / 60.0], and the comparison of a float with an integer *)
Definition minutes_between (a b : Z) : spec_float :=
  let us := a - b in f64_div (float_of_decimal (us <? 0) (Z.abs us) (-6)) (f64_round_int 60).
Definition float_lt_int (f : spec_float) (n : Z) : bool := let '(p, q) := f64_ratio f in p <? n * q.
Definition int_lt_float (n : Z) (f : spec_float) : bool := let '(p, q) := f64_ratio f in n * q <? p.
(** [max(f, 0.0)] *)
Definition float_max0 (f : spec_float) : spec_float := if float_lt_int f 0 then S754_zero false else f.

Inductive tier := Deferred | Warned | Drift.
Definition _tier (age : spec_float) (soft hard : Z) : tier :=
  if float_lt_int age soft then Deferred else if float_lt_int age hard then Warned else Drift.

(** ** The schedule *)

Local Open Scope regex_scope.
Definition digits1 : regex := Plus (Set_ is_digit).
Definition CRON_STEP : regex := Alt (Chr 42) (Group 1 digits1 ▷ Chr 45 ▷ Group 2 digits1) ▷ Chr 47 ▷ Group 3 digits1.
Definition CRON_LIST : regex := digits1 ▷ Star (Chr 44 ▷ digits1).
Local Close Scope regex_scope.

(** [range(first, last + 1, step)] *)
Definition py_range (first last step : Z) : list Z :=
  if last <? first then [] else (λ i, first + Z.of_nat i * step) <$> seq 0 (Z.to_nat ((last - first) / step) + 1).

(** [sorted] of integers *)
Fixpoint insert_sorted (x : Z) (l : list Z) : list Z :=
  match l with [] => [x] | y :: l => if x <=? y then x :: y :: l else y :: insert_sorted x l end.
Definition sort_ints (l : list Z) : list Z := foldr insert_sorted [] l.

(** The hours of the hour field, or [None] when it is not read. *)
Definition cron_hours (hours : pystr) : res (option (list Z)) :=
  match re_fullmatch CRON_STEP hours with
  | Some m =>
    step ← py_int (default [] (group 3 m));
    if step =? 0 then Ok None else
    match group 1 m with
    | Some low =>
      first ← py_int low; last ← py_int (default [] (group 2 m)); Ok (Some (py_range first last step))
    | None => Ok (Some (py_range 0 23 step))
    end
  | None =>
    if fullmatches CRON_LIST hours then Some ∘ sort_ints <$> mapM py_int (split_on 44 hours) else Ok None
  end.

Fixpoint gaps (l : list Z) : list Z :=
  match l with a :: (b :: _) as l' => (b - a) * 60 :: gaps l' | _ => [] end.

(** The largest gap between consecutive firings of a day's hours, [runs] being sorted. *)
Definition largest_gap (runs : list Z) : option Z :=
  match runs with
  | [] => None
  | [_] => Some (24 * 60)
  | first :: _ => Some (foldr Z.max ((first + 24 - List.last runs 0) * 60) (gaps runs))
  end.

Definition cron_period_minutes (spec : pystr) : res (option Z) :=
  match str_split spec with
  | [minute; hours; dom; month; dow] =>
    let star := [42] in
    if negb (bool_decide (dom = star) && bool_decide (month = star) && bool_decide (dow = star)) ||
       negb (forallb is_digit minute) then Ok None
    else if bool_decide (hours = star) then Ok (Some 60)
    else runs ← cron_hours hours; Ok (runs ≫= largest_gap)
  | _ => Ok None
  end.

Definition staleness_threshold_minutes (spec : pystr) : res (option Z) :=
  (λ period : option Z, (λ p, p * STALENESS_MULTIPLIER) <$> period) <$> cron_period_minutes spec.

(** ** The exit codes of the two questions (D3) *)

Definition _with_newest (code : Z) (newest_verdict : option tier) (newest_error : option infra) : Z :=
  match newest_error with
  | Some _ => if code =? 1 then 1 else 2
  | None => match newest_verdict with Some Drift => 1 | _ => code end
  end.

Example period_of_the_cron : cron_period_minutes CRON = Ok (Some 120).
Proof. vm_compute. reflexivity. Qed.
Example period_twice_a_day : cron_period_minutes (lit "17 0,12 * * *") = Ok (Some 720).
Proof. vm_compute. reflexivity. Qed.
Example period_weekly : cron_period_minutes (lit "17 */2 * * 1") = Ok None.
Proof. vm_compute. reflexivity. Qed.
Example period_odd_hours : cron_period_minutes (lit "17 1-23/2 * * *") = Ok (Some 120).
Proof. vm_compute. reflexivity. Qed.
Example stamp_read : fromisoformat (H := λ _, None) (lit "2026-10-11T04:43:28.896556Z") = Some (63927290608896556, Some 0).
Proof. vm_compute. reflexivity. Qed.
Example stamp_of_epoch : fromisoformat (H := λ _, None) (lit "1970-01-01T00:00:00+00:00") = Some (62135596800000000, Some 0).
Proof. vm_compute. reflexivity. Qed.
Example stamp_month_13 : fromisoformat (H := λ _, None) (lit "2026-13-11T04:43:28Z") = None.
Proof. vm_compute. reflexivity. Qed.

(** ** The newest complete version is the largest *)

Abbreviation row := (list (pyval * pyval)).

(** [v] is a plain version, and the rows hold it in every required format. *)
Definition complete (l : list row) (v : pystr) : Prop :=
  fullmatches SAFE_VERSION v = true ∧
  ∀ f, f ∈ REQUIRED_FORMATS → ∃ r, r ∈ l ∧ row_get (lit "version") r = PStr v ∧ row_get (lit "format") r = PStr f.

Lemma required_format_Some r f : required_format r = Some f ↔ f ∈ REQUIRED_FORMATS ∧ row_get (lit "format") r = PStr f.
Proof.
  unfold required_format. destruct (list_find _ REQUIRED_FORMATS) as [[i g]|] eqn:E; cbn [mbind option_bind snd].
  - apply list_find_Some in E as (Hl & Hg%py_eq_str_true & _). apply list_elem_of_lookup_2 in Hl.
    split; [intros [= ->]; done|]. intros [_ Hf]. congruence.
  - apply list_find_None in E. split; [done|]. intros [Hf Hr]. rewrite Forall_forall in E.
    exfalso. apply (E f Hf). by apply py_eq_str_true.
Qed.
Lemma plain_Some v s : _plain v = Some s ↔ v = PStr s ∧ fullmatches SAFE_VERSION s = true.
Proof.
  destruct v as [| | | |t| | | | | |]; try (split; [done|by intros [? _]]). cbn [_plain].
  destruct (fullmatches SAFE_VERSION t) eqn:E; split; [by intros [= ->]|by intros [[= ->] _]|done|].
  intros [[= ->] Hs]. congruence.
Qed.

Definition formats_of (d : list (pystr * gset pystr)) (v f : pystr) : Prop := ∃ fs, (v, fs) ∈ d ∧ f ∈ fs.

Lemma add_format_spec v f d w g : formats_of (add_format v f d) w g ↔ (w = v ∧ g = f) ∨ formats_of d w g.
Proof.
  unfold formats_of. induction d as [|[u fs] d IH]; cbn [add_format].
  - split; [|by intros [[-> ->]|(hs & []%not_elem_of_nil & _)]; exists {[ f ]}; set_solver].
    intros (hs & [= -> ->]%list_elem_of_singleton & ->%elem_of_singleton). by left.
  - case_decide as E; setoid_rewrite elem_of_cons.
    + subst u. split.
      * intros (hs & [[= -> ->]|H] & Hg); [|by eauto 10]. apply elem_of_union in Hg as [->%elem_of_singleton|Hg]; eauto 10.
      * intros [[-> ->]|(hs & [[= -> ->]|H] & Hg)]; [| |by eauto].
        -- exists ({[ f ]} ∪ fs). split; [by left|set_solver].
        -- exists ({[ f ]} ∪ fs). split; [by left|set_solver].
    + destruct IH as [IH1 IH2]. split.
      * intros (hs & [[= -> ->]|H] & Hg); [by eauto 10|]. destruct IH1 as [?|(? & ? & ?)]; eauto 10.
      * intros [?|(hs & [[= -> ->]|H] & Hg)]; [|by eauto 10|]; (destruct IH2 as (? & ? & ?); [by eauto|by eauto]).
Qed.
Lemma add_format_keys v f d : NoDup d.*1 → NoDup (add_format v f d).*1 ∧ ∀ w, w ∈ (add_format v f d).*1 ↔ w = v ∨ w ∈ d.*1.
Proof.
  induction d as [|[u fs] d IH]; cbn [add_format fmap list_fmap fst]; intros Hd.
  - split; [apply NoDup_singleton|]. intros w. rewrite elem_of_cons. tauto.
  - apply NoDup_cons in Hd as [Hu Hd]. destruct (IH Hd) as [IHd IHw].
    case_decide as E; cbn [fmap list_fmap fst].
    + subst u. split; [by apply NoDup_cons|]. intros w. rewrite elem_of_cons. tauto.
    + split; [apply NoDup_cons; split; [|done]; rewrite IHw; tauto|]. intros w. rewrite !elem_of_cons, IHw. tauto.
Qed.

Definition row_has (r : row) (v f : pystr) : Prop :=
  row_get (lit "version") r = PStr v ∧ fullmatches SAFE_VERSION v = true ∧ f ∈ REQUIRED_FORMATS ∧ row_get (lit "format") r = PStr f.

Lemma collect_formats_spec l d v f : formats_of (collect_formats l d) v f ↔ (∃ r, r ∈ l ∧ row_has r v f) ∨ formats_of d v f.
Proof.
  revert d. induction l as [|r l IH]; intros d; cbn [collect_formats].
  { split; [by right|intros [(r & []%not_elem_of_nil & _)|?]; done]. }
  rewrite IH.
  assert (Hr : formats_of (match _plain (row_get (lit "version") r), required_format r with
                 | Some v, Some f => add_format v f d | _, _ => d end) v f ↔ row_has r v f ∨ formats_of d v f).
  { unfold row_has. destruct (_plain _) as [w|] eqn:Ev; [destruct (required_format r) as [g|] eqn:Ef|].
    - rewrite add_format_spec. apply plain_Some in Ev as [Ev Hp]. apply required_format_Some in Ef as [Hg Ef]. rewrite Ev, Ef.
      split; [intros [[-> ->]|?]; [by left|by right]|intros [([= ->] & _ & _ & [= ->])|?]; [by left|by right]].
    - split; [by right|]. intros [(_ & _ & Hf & Hg)|?]; [|done]. assert (required_format r = Some f) by by apply required_format_Some. congruence.
    - split; [by right|]. intros [(Hv & Hp & _)|?]; [|done]. assert (_plain (row_get (lit "version") r) = Some v) by by apply plain_Some. congruence. }
  rewrite Hr. setoid_rewrite elem_of_cons. split.
  - intros [(r' & ? & ?)|[?|?]]; [left; by exists r'; eauto|left; exists r; eauto|by right].
  - intros [(r' & [->|?] & ?)|?]; [by right; left|left; by exists r'|by right; right].
Qed.
Lemma collect_formats_NoDup l d : NoDup d.*1 → NoDup (collect_formats l d).*1.
Proof.
  revert d. induction l as [|r l IH]; intros d Hd; cbn [collect_formats]; [done|]. apply IH.
  destruct (_plain _) as [w|]; [|done]. destruct (required_format r) as [g|]; [|done]. by apply add_format_keys.
Qed.

Lemma complete_versions_spec l excl v : v ∈ complete_versions l excl ↔ complete l v ∧ Some v ≠ excl.
Proof.
  unfold complete_versions. rewrite list_elem_of_fmap. setoid_rewrite list_elem_of_filter. split.
  - intros ([w fs] & -> & (Hsub & Hne) & Hin). cbn [fst snd] in *. split; [|done].
    assert (Hf : ∀ f, f ∈ REQUIRED_FORMATS → ∃ r, r ∈ l ∧ row_has r w f).
    { intros f Hf. destruct (proj1 (collect_formats_spec l [] w f)) as [?|(? & []%not_elem_of_nil & _)]; [|done].
      exists fs. split; [done|]. apply Hsub. by apply elem_of_list_to_set. }
    split; [by destruct (Hf (lit "python")) as (r & _ & _ & ? & _); [by left|]|].
    intros f Hff. destruct (Hf f Hff) as (r & ? & ? & _ & _ & ?). by exists r.
  - intros [[Hp Hc] Hne].
    assert (Hf : ∀ f, f ∈ REQUIRED_FORMATS → formats_of (collect_formats l []) v f).
    { intros f Hff. apply collect_formats_spec. left. destruct (Hc f Hff) as (r & ? & ? & ?). by exists r. }
    destruct (Hf (lit "python")) as (fs & Hin & _); [by left|]. exists (v, fs). split_and!; [done| |done|done].
    intros f Hff%elem_of_list_to_set. destruct (Hf f Hff) as (fs' & Hin' & Hff').
    assert (fs' = fs) as <-; [|done]. assert (Hn := collect_formats_NoDup l [] (NoDup_nil_2)).
    revert Hin Hin' Hn. generalize (collect_formats l []) as d. induction d as [|[u us] d IH]; [by intros []%not_elem_of_nil|].
    intros Hi Hi' [Hu Hn]%NoDup_cons. apply elem_of_cons in Hi, Hi'.
    destruct Hi as [Hi|Hi], Hi' as [Hi'|Hi']; [congruence| | |by apply IH]; simplify_eq.
    + destruct Hu. by apply (list_elem_of_fmap_2 fst) in Hi'.
    + destruct Hu. by apply (list_elem_of_fmap_2 fst) in Hi.
Qed.

Lemma seam_sdk_rows_Done {S} rows l (s s' : S) : _seam_sdk_rows rows s = (Done l, s') ↔
  s' = s ∧ ∃ ds, rows = PList (PDict <$> ds) ∧ l = filter (λ r, is_seam_sdk r = true) ds.
Proof.
  assert (Hof : ∀ vs l s', seam_sdk_rows_of vs s = (Done l, s') ↔
    s' = s ∧ ∃ ds, vs = PDict <$> ds ∧ l = filter (λ r, is_seam_sdk r = true) ds).
  { intros vs. induction vs as [|v vs IH]; intros l0 s0; cbn [seam_sdk_rows_of].
    - rewrite ret_Done. split; [intros [-> ->]; split; [done|by exists []]|].
      intros (-> & [|d ds] & Hd & ->); [done|discriminate Hd].
    - split.
      + intros H. destruct v as [| | | | | | | | |kv|]; inv_done. apply IH in H as (-> & ds & -> & ->). split; [done|].
        exists (kv :: ds). split; [done|]. rewrite filter_cons. by destruct (is_seam_sdk kv).
      + intros (-> & [|d ds] & Hd & ->); [discriminate Hd|]. injection Hd as -> ->.
        apply bind_Done. exists (filter (λ r, is_seam_sdk r = true) ds), s. split; [apply IH; by eauto|].
        apply ret_Done. split; [|done]. rewrite filter_cons. by destruct (is_seam_sdk d). }
  destruct rows; cbn [_seam_sdk_rows]; try (split; [done|by intros (_ & ds & [=] & _)]).
  rewrite Hof. naive_solver.
Qed.

Lemma max_from_spec best l : ∃ k, (max_from best l, k) ∈ best :: l ∧ ∀ x, x ∈ best :: l → lex_le x.2 k.
Proof.
  revert best. induction l as [|x l IH]; intros best; cbn [max_from].
  - exists best.2. split; [destruct best; by left|]. intros x [->|[]%not_elem_of_nil]%elem_of_cons. apply lex_le_refl.
  - unfold key_ltb. destruct (lex_leb x.2 best.2) eqn:E; cbn [negb].
    + destruct (IH best) as (k & Hin & Hk). exists k. split; [apply elem_of_cons in Hin as [->|]; [by left|by right; right]|].
      intros y [->|[->|Hy]%elem_of_cons]%elem_of_cons; [apply Hk; by left| |apply Hk; by right].
      etrans; [exact E|]. apply Hk. by left.
    + destruct (IH x) as (k & Hin & Hk). exists k. split; [by right|].
      intros y [->|Hy]%elem_of_cons; [|by apply Hk]. etrans; [|apply (Hk x); by left].
      destruct (total lex_le best.2 x.2) as [?|H]; [done|]. unfold lex_le in H. congruence.
Qed.

Lemma max_version_Done {S} l o (s s' : S) : max_version l s = (Done o, s') → s' = s ∧
  match o with
  | None => l = []
  | Some v => v ∈ l ∧ ∃ k, _version_key v = Ok k ∧ ∀ w, w ∈ l → ∃ kw, _version_key w = Ok kw ∧ lex_le kw k
  end.
Proof.
  unfold max_version. intros H. inv_done. split; [done|].
  match goal with H : mapM _ _ = Ok ?ks |- _ => rename H into Hm; rename ks into keys end.
  assert (Hz : ∀ w kw, (w, kw) ∈ zip l keys → _version_key w = Ok kw).
  { clear s. revert keys Hm. induction l as [|v l IH]; intros keys Hm; [by intros w kw []%not_elem_of_nil|].
    apply mapM_res_cons in Hm as (k & ks & Hk & Hks & ->). intros w kw [[= -> ->]|Hin]%elem_of_cons; [done|by eapply IH]. }
  assert (Hw : ∀ w, w ∈ l → ∃ kw, (w, kw) ∈ zip l keys).
  { clear s Hz. revert keys Hm. induction l as [|v l IH]; intros keys Hm; [by intros w []%not_elem_of_nil|].
    apply mapM_res_cons in Hm as (k & ks & Hk & Hks & ->). intros w [->|Hin]%elem_of_cons; [exists k; by left|].
    destruct (IH ks Hks w Hin) as [kw ?]. exists kw. by right. }
  destruct (zip l keys) as [|x r] eqn:E.
  - destruct l as [|w l]; [done|]. destruct (Hw w) as (kw & []%not_elem_of_nil). by left.
  - destruct (max_from_spec x r) as (k & Hin & Hk).
    split; [rewrite <- E in Hin; by apply elem_of_zip_l in Hin|]. exists k. split; [by apply Hz|]. intros w [kw Hkw]%Hw.
    exists kw. split; [by apply Hz|]. by apply (Hk (w, kw)).
Qed.

(** [o] is the newest of the complete versions of [l], the excluded one aside. *)
Definition newest_of (l : list row) (exclude o : option pystr) : Prop :=
  match o with
  | None => ∀ v, complete l v → exclude = Some v
  | Some v => complete l v ∧ exclude ≠ Some v ∧ ∃ k, _version_key v = Ok k ∧
      ∀ w, complete l w → exclude ≠ Some w → ∃ kw, _version_key w = Ok kw ∧ lex_le kw k
  end.

Lemma newest_complete_Done {S} rows exclude o n (s s' : S) : newest_complete_version rows exclude s = (Done (o, n), s') →
  ∃ ds, rows = PList (PDict <$> ds) ∧ newest_of (filter (λ r, is_seam_sdk r = true) ds) exclude o.
Proof.
  unfold newest_complete_version. intros H. inv_done.
  match goal with H : _seam_sdk_rows _ _ = _ |- _ => apply seam_sdk_rows_Done in H as (-> & ds & -> & ->) end.
  exists ds. split; [done|]. match goal with H : max_version _ _ = _ |- _ => apply max_version_Done in H as [_ H]; revert H end.
  generalize (filter (λ r, is_seam_sdk r = true) ds) as l. intros l.
  match goal with |- match ?o with _ => _ end → _ => destruct o as [v|] end.
  - intros [Hv (k & Hk & Hmax)]. apply complete_versions_spec in Hv as [Hc He]. split_and!; [done|done|].
    exists k. split; [done|]. intros w Hw Hne. apply Hmax, complete_versions_spec. split; [done|congruence].
  - intros Hn v Hc. destruct (decide (exclude = Some v)) as [|Hne]; [done|]. exfalso.
    assert (v ∈ complete_versions l exclude) as Hin by (apply complete_versions_spec; split; [done|congruence]).
    rewrite Hn in Hin. by apply not_elem_of_nil in Hin.
Qed.

(** The newest version the check asks partner about is the numerically largest of the complete ones: it is a
    plain version whose [seam-sdk] rows carry both formats, it is not the excluded one, and every other
    such version is at most as large, part by part as numbers, whatever order the rows come in; no version
    is returned only when there is none. *)
Theorem newest_complete_largest {S} rows exclude o n (s s' : S) :
  newest_complete_version rows exclude s = (Done (o, n), s') →
  ∃ ds, rows = PList (PDict <$> ds) ∧ let l := filter (λ r, is_seam_sdk r = true) ds in
    match o with
    | None => ∀ v, complete l v → exclude = Some v
    | Some v => complete l v ∧ exclude ≠ Some v ∧ ∃ k, _version_key v = Ok k ∧
        ∀ w, complete l w → exclude ≠ Some w → ∃ kw, _version_key w = Ok kw ∧ lex_le kw k
    end.
Proof. apply newest_complete_Done. Qed.

(** ** The period of the schedule *)

(** The check runs in hour [t] (counted from some midnight) when its hour of the day is one of [runs]. *)
Definition fires (runs : list Z) (t : Z) : Prop := t mod 24 ∈ runs.

Lemma foldr_max_in x l : foldr Z.max x l ∈ x :: l.
Proof.
  induction l as [|y l IH]; cbn; [by left|]. destruct (Z.max_spec y (foldr Z.max x l)) as [[_ ->]|[_ ->]]; [|by right; left].
  apply elem_of_cons in IH as [->|IH]; [by left|by right; right].
Qed.
Lemma foldr_max_ge x l y : y ∈ x :: l → y ≤ foldr Z.max x l.
Proof.
  induction l as [|z l IH]; cbn; intros Hy; [apply elem_of_cons in Hy as [->|[]%not_elem_of_nil]; lia|].
  apply elem_of_cons in Hy as [->|[->|Hy]%elem_of_cons]; [|lia|]; (transitivity (foldr Z.max x l); [apply IH; set_solver|lia]).
Qed.

(** [a] and [b] are neighbours in the day. *)
Definition neighbours (l : list Z) (a b : Z) : Prop := a ∈ l ∧ b ∈ l ∧ a < b ∧ ∀ x, x ∈ l → ¬ (a < x < b).

Lemma sorted_head a b l : StronglySorted Z.lt (a :: b :: l) → neighbours (a :: b :: l) a b.
Proof.
  intros [Hs Ha]%StronglySorted_inv. apply StronglySorted_inv in Hs as [_ Hb]. rewrite Forall_forall in Ha, Hb.
  split_and!; [by left|by right; left|apply Ha; by left|].
  intros x [->|[->|Hx]%elem_of_cons]%elem_of_cons; [lia|lia|]. specialize (Hb x Hx). lia.
Qed.
Lemma neighbours_cons a l x y : StronglySorted Z.lt (a :: l) → neighbours l x y → neighbours (a :: l) x y.
Proof.
  intros [_ Ha]%StronglySorted_inv (Hx & Hy & Hlt & Hn). rewrite Forall_forall in Ha. split_and!; [by right|by right|done|].
  intros z [->|Hz]%elem_of_cons; [|by apply Hn]. specialize (Ha x Hx). lia.
Qed.

(** The gaps are the distances between neighbours. *)
Lemma gaps_spec l g : StronglySorted Z.lt l → g ∈ gaps l ↔ ∃ a b, neighbours l a b ∧ g = (b - a) * 60.
Proof.
  intros Hs. induction l as [|a [|b l] IH].
  - split; [by intros []%not_elem_of_nil|by intros (? & ? & ([]%not_elem_of_nil & _) & _)].
  - split; [by intros []%not_elem_of_nil|]. intros (x & y & (->%list_elem_of_singleton & ->%list_elem_of_singleton & ? & _) & _). lia.
  - change (gaps (a :: b :: l)) with ((b - a) * 60 :: gaps (b :: l)). rewrite elem_of_cons, IH by (by apply StronglySorted_inv in Hs as [? _]).
    split.
    + intros [->|(x & y & Hn & ->)]; [exists a, b; split; [by apply sorted_head|done]|].
      exists x, y. split; [by apply neighbours_cons|done].
    + intros (x & y & (Hx & Hy & Hlt & Hn) & ->). apply StronglySorted_inv in Hs as [Hs Ha]. rewrite Forall_forall in Ha.
      apply elem_of_cons in Hx as [->|Hx], Hy as [->|Hy]; [lia| |specialize (Ha x Hx); lia|].
      * left. f_equal. f_equal. apply StronglySorted_inv in Hs as [_ Hb]. rewrite Forall_forall in Hb.
        apply elem_of_cons in Hy as [->|Hy]; [done|]. specialize (Hb y Hy). destruct (Hn b); [by right; left|]. split; [apply Ha; by left|done].
      * right. exists x, y. split; [|done]. split_and!; [done|done|done|]. intros z Hz. apply Hn. by right.
Qed.

Lemma last_is_max l x : StronglySorted Z.lt l → x ∈ l → List.last l 0 ∈ l ∧ x ≤ List.last l 0.
Proof.
  revert x. induction l as [|a [|b l] IH]; intros x Hs Hx; [by apply not_elem_of_nil in Hx|apply list_elem_of_singleton in Hx as ->; split; [by left|done]|].
  apply StronglySorted_inv in Hs as [Hs Ha]. rewrite Forall_forall in Ha.
  change (List.last (a :: b :: l) 0) with (List.last (b :: l) 0). apply elem_of_cons in Hx as [->|Hx].
  - destruct (IH b Hs) as [Hin Hb]; [by left|]. split; [by right|]. specialize (Ha b). assert (a < b) by (apply Ha; by left). lia.
  - destruct (IH x Hs Hx). split; [by right|done].
Qed.
Lemma next_neighbour l x : StronglySorted Z.lt l → x ∈ l → x = List.last l 0 ∨ ∃ y, neighbours l x y.
Proof.
  induction l as [|a [|b l] IH]; intros Hs Hx; [by apply not_elem_of_nil in Hx|apply list_elem_of_singleton in Hx; by left|].
  apply elem_of_cons in Hx as [->|Hx]; [right; exists b; by apply sorted_head|].
  destruct IH as [->|[y Hy]]; [by apply StronglySorted_inv in Hs as [? _]|done|by left|].
  right. exists y. by apply neighbours_cons.
Qed.

(** The period derived from the cron line is the largest gap between consecutive firings, over all days:
    after every firing the next one comes within the period, and after some firing none comes before it. *)
Theorem largest_gap_is_period runs p : StronglySorted Z.lt runs → Forall (λ h, 0 ≤ h < 24) runs → largest_gap runs = Some p →
  (∀ t, fires runs t → ∃ k, 0 < k ∧ k * 60 ≤ p ∧ fires runs (t + k)) ∧
  (∃ t, fires runs t ∧ ∀ k, 0 < k → k * 60 < p → ¬ fires runs (t + k)).
Proof.
  intros Hs Hr Hp. assert (Hmod : ∀ t k, (t + k) mod 24 = (t mod 24 + k) mod 24) by (intros t k; by rewrite Z.add_mod_idemp_l).
  rewrite Forall_forall in Hr. unfold fires.
  assert (∃ first rest, runs = first :: rest) as (first & rest & Erun) by (destruct runs as [|f r]; [done|by eauto]).
  set (lst := List.last runs 0). destruct (last_is_max runs first Hs) as [Hlast Hle]; [rewrite Erun; by left|]. fold lst in Hlast, Hle.
  assert (Hfirst : ∀ x, x ∈ runs → first ≤ x).
  { intros x Hx. rewrite Erun in Hs, Hx. apply StronglySorted_inv in Hs as [_ Ha]. rewrite Forall_forall in Ha.
    apply elem_of_cons in Hx as [->|Hx]; [done|]. specialize (Ha x Hx). lia. }
  assert (Hfr := Hr first ltac:(rewrite Erun; by left)). assert (Hlr := Hr lst Hlast).
  assert (Ep : p = foldr Z.max ((first + 24 - lst) * 60) (gaps runs)).
  { unfold lst in *. rewrite Erun in Hp |- *. destruct rest as [|b rest]; cbn in Hp |- *; injection Hp as <-; [lia|done]. }
  split.
  - intros t Ht. destruct (next_neighbour runs _ Hs Ht) as [Hl|[y Hy]].
    + exists (first + 24 - lst). split_and!; [lia|rewrite Ep; apply foldr_max_ge; by left|].
      rewrite Hmod, Hl. fold lst. replace (lst + (first + 24 - lst)) with (first + 1 * 24) by lia.
      rewrite Z.mod_add, Z.mod_small by lia. rewrite Erun. by left.
    + exists (y - t mod 24). assert (Hg : (y - t mod 24) * 60 ∈ gaps runs) by (apply gaps_spec; by eauto).
      destruct Hy as (_ & Hy & Hlt & _). specialize (Hr y Hy).
      split_and!; [lia|rewrite Ep; apply foldr_max_ge; by right|]. rewrite Hmod, Z.add_comm, Z.sub_add, Z.mod_small by lia. done.
  - assert (Hin := foldr_max_in ((first + 24 - lst) * 60) (gaps runs)). rewrite <- Ep in Hin.
    apply elem_of_cons in Hin as [E|(a & b & (Ha & Hb & Hlt & Hn) & E)%gaps_spec]; [..|done].
    + exists lst. rewrite Z.mod_small by lia. split; [done|]. intros k Hk Hkp Hf. rewrite Hmod, Z.mod_small with (a := lst) in Hf by lia.
      destruct (decide (lst + k < 24)) as [Hlk|Hlk].
      * rewrite Z.mod_small in Hf by lia. destruct (last_is_max runs _ Hs Hf) as [_ Hx]. fold lst in Hx. lia.
      * replace (lst + k) with (lst + k - 24 + 1 * 24) in Hf by lia. rewrite Z.mod_add, Z.mod_small in Hf by lia.
        specialize (Hfirst _ Hf). lia.
    + specialize (Hr a Ha) as Har. specialize (Hr b Hb). exists a. rewrite Z.mod_small by lia. split; [done|].
      intros k Hk Hkp Hf. rewrite Z.mod_small in Hf by lia. apply (Hn _ Hf). lia.
Qed.

Definition some_rows : list row :=
  (λ p : string * string, [(PStr (lit "name"), PStr (lit "seam-sdk")); (PStr (lit "version"), PStr (lit p.1)); (PStr (lit "format"), PStr (lit p.2))])
    <$> [("0.9.0"%string, "npm"%string); ("0.9.0"%string, "python"%string); ("0.10.0"%string, "python"%string); ("0.10.0"%string, "npm"%string); ("0.11.0"%string, "npm"%string)].

Lemma newest_complete_largest_witness :
  newest_complete_version (PList (PDict <$> some_rows)) None () = (Done (Some (lit "0.10.0"), 0%nat), ()) ∧
  ∃ ds, PList (PDict <$> some_rows) = PList (PDict <$> ds) ∧ let l := filter (λ r, is_seam_sdk r = true) ds in
    complete l (lit "0.10.0") ∧ None ≠ Some (lit "0.10.0") ∧ ∃ k, _version_key (lit "0.10.0") = Ok k ∧
      ∀ w, complete l w → None ≠ Some w → ∃ kw, _version_key w = Ok kw ∧ lex_le kw k.
Proof.
  split; [vm_compute; reflexivity|].
  apply (newest_complete_largest (PList (PDict <$> some_rows)) None (Some (lit "0.10.0")) 0%nat () ()). vm_compute. reflexivity.
Defined.

Lemma largest_gap_is_period_witness : largest_gap (py_range 0 23 2) = Some 120 ∧
  (∀ t, fires (py_range 0 23 2) t → ∃ k, 0 < k ∧ k * 60 ≤ 120 ∧ fires (py_range 0 23 2) (t + k)) ∧
  (∃ t, fires (py_range 0 23 2) t ∧ ∀ k, 0 < k → k * 60 < 120 → ¬ fires (py_range 0 23 2) (t + k)).
Proof.
  split; [vm_compute; reflexivity|]. apply (largest_gap_is_period (py_range 0 23 2) 120); [| |vm_compute; reflexivity].
  - vm_compute. repeat first [apply SSorted_cons|apply SSorted_nil|apply Forall_cons; split|apply Forall_nil; exact I|reflexivity].
  - vm_compute. repeat first [apply Forall_cons; split; [split; [discriminate|reflexivity]|]|apply Forall_nil; exact I].
Defined.

(** [SAFE_VERSION.match] accepts a version that ends in a newline, which [fullmatch] does not: the guard of the query
    string lets it through. *)
Example query_guard_newline : assert_query_safe (lit "0.45.0" ++ [10]) () = (Done (), ()) ∧ _plain (PStr (lit "0.45.0" ++ [10])) = None.
Proof. vm_compute. by split. Qed.
