(* ===== verification/DriftFetch.v ===== *)
(** * DriftFetch: how the registry-drift check asks its questions

    The parts of [scripts/check_registry_drift.py] that run [git] and [curl]: the declared version and its
    clock, the two registries with their canaries, the newest release. Every command is recorded in [calls]
    and answered by the machine, differently each time if it likes; a command that cannot be run, fails, or
    answers nonsense is an [InfraError]. *)

From stdpp Require Import base list numbers option strings sets gmap sorting.
From Stdlib Require Import SpecFloat.
From S2P Require Import Prelude Text Order Keys Floats Json Commitment Dumps Regex Script DriftRows.

(** What the body of an issue is made of. *)
Inductive subject := Internal | Partner.
Inductive question := Declared | Newest.
Record issue_body := IssueBody {
  b_version : pystr;
  b_tagged : bool;
  b_missing : gset pystr;
  b_age : spec_float;
  b_cross_link : option Z;
  b_subject : subject;
  b_partner_missing : option (gset pystr);
  b_partner_unreadable : bool;
  b_question : question;
  b_declared : option pystr
}.

(** The commands the check runs: [git] in the checkout, [curl] with its credential, [gh]. *)
Inductive arg := Txt (s : pystr) | Body (b : issue_body).
Inductive call :=
| Git (args : list pystr)
| Curl (url : pystr) (token : pystr)
| Gh (args : list arg).

Inductive newest_answer := AnsweredAbove | NotAnswered.

(** What is printed. *)
Inductive dline :=
| LError (x : infra)
| LPartnerUnreadable (x : infra) | LNewestFault (x : infra)
| LOldPython
| LNewestUnchecked (why : string) | LNewestUnreadable
| LNewestIsDeclared (newest : pystr) (withheld : nat) (answered : newest_answer)
| LNewestUploaded (newest : pystr) (withheld : nat) (age : spec_float) | LPartnerServesNewest (newest : pystr) (found : gset pystr)
| LNewestVerdict (t : tier) (newest version : pystr) (missing : gset pystr) (age : spec_float) | LNewestClean (newest : pystr)
| LInstrument (canary : pystr) | LPartnerInstrument (canary : pystr)
| LSource (version : pystr) (tagged : bool) | LRegistryServes (found : gset pystr)
| LPartnerCouldNotBeRead | LPartnerNotChecked | LPartnerServes (found : gset pystr)
| LAttempt (started : Z) (age : spec_float)
| LServed (version : pystr) | LClean (version : pystr) (partner_checked : bool)
| LVerdict (t : tier) (s : subject) (version : pystr) (missing : gset pystr) (age : spec_float) (tagged : bool)
| LTruncated | LFiled (title : pystr) | LAlreadyReported (number : Z) | LSuppressed (version : pystr) (number : Z) | LReopened (number : Z)
| LCanClose (number : Z) (version : pystr) (s : subject)
| LGitHubUnreachable (x : infra) (newest_too : bool)
| LNoHistory (x : infra) | LNoThreshold | LSilent (minutes : spec_float) (threshold : Z) | LHeartbeatFailed (e : exn).

Record issue := Issue { number : Z; state : pystr; labels : list pystr; title : pystr }.

(** What a run did, in order: the commands it ran and the lines it printed. *)
Inductive event := Ran (c : call) | Said (l : dline).
(** And the listing of the run: not fetched yet, or fetched once. *)
Record run := Run { trace : list event; listing_cache : option (infra + list issue * pystr) }.
Definition calls (s : run) : list call := omap (λ e, match e with Ran c => Some c | Said _ => None end) (trace s).
Definition out (s : run) : list dline := omap (λ e, match e with Said l => Some l | Ran _ => None end) (trace s).
Abbreviation D := (Script run infra).

(** The machine: what a command answers after the earlier ones (its exit code and its decoded output, or
    the exception of [subprocess.run]), the files, the environment, the clock, and the interpreter. *)
Class DriftWorld := {
  run_call : list call → call → res (Z * pystr);
  pyproject_toml : res pystr;
  package_json : res pystr;
  dump_file : pystr → res pystr;
  environ : pystr → option pystr;
  utc_now : Z;
  python_311 : bool;
  world_iso :: OtherIso
}.

Definition TIMEOUT_EXPIRED : exn := OtherException (lit "TimeoutExpired").

Definition print (l : dline) : D () := modify (λ s, Run (trace s ++ [Said l]) (listing_cache s)).

Definition REGISTRY_URL : pystr := lit "https://api.cloudsmith.io/v1/packages/zer07labs/internal/".
Definition PARTNER_REGISTRY_URL : pystr := lit "https://api.cloudsmith.io/v1/packages/zer07labs/partner/".
Definition NEWEST_QUERY : pystr := lit "?query=seam-sdk&sort=-version&page_size=50".
Definition TOKEN_ENV : pystr := lit "SEAM_REGISTRY_TOKEN".

Section fetch.
Context `{DriftWorld}.

Definition invoke (c : call) : D (res (Z * pystr)) := λ s,
  (Done (run_call (calls s) c), Run (trace s ++ [Ran c]) (listing_cache s)).

(** [json.loads(text)] *)
Definition loads (text : pystr) : res pyval := json_loads_str dict_pairs text.
(** The same, [except json.JSONDecodeError]. *)
Definition loads_or (text : pystr) (x : infra) : D pyval :=
  match loads text with
  | Ok v => mret v
  | Raise e => if isa e CJSONDecodeError then fail x else of_res (Raise e)
  end.
(** [path.read_text()], [except FileNotFoundError]. *)
Definition read_or (r : res pystr) (x : infra) : D pystr :=
  match r with
  | Ok t => mret t
  | Raise e => if isa e CFileNotFoundError then fail x else of_res (Raise e)
  end.

(** ** Git *)

Definition _git (args : list pystr) : D pystr :=
  r ← invoke (Git args);
  match r with
  | Raise e => if isa e CFileNotFoundError then fail NoGit else if isa e COSError then fail GitNotRun else of_res (Raise e)
  | Ok (code, stdout) => if code =? 0 then mret (str_strip stdout) else fail (GitFailed code)
  end.

Definition source_version : D pystr :=
  py_text ← read_or pyproject_toml NoPyproject;
  ts_text ← read_or package_json NoPackageJson;
  match re_search PYPROJECT_VERSION py_text ≫= group 1 with
  | None => fail NoVersionLine
  | Some py_version =>
    v ← loads_or ts_text BadPackageJson;
    ts_version ← of_res (py_get v (lit "version"));
    _ ← require (py_truthy ts_version) NoTsVersion;
    _ ← require (py_eq_str ts_version py_version) VersionsDisagree;
    mret py_version
  end.

Definition version_landed_at (version : pystr) : D Z :=
  raw ← _git [lit "log"; lit "-1"; lit "--format=%cI"; lit "-S"; lit "version = " ++ [34] ++ version ++ [34]; lit "--"; lit "python/pyproject.toml"];
  match raw with [] => fail (NotInHistory version) | _ => _parse_iso raw "commit date" end.

Definition tag_created_at (version : pystr) : D (option Z) :=
  raw ← _git [lit "for-each-ref"; lit "--format=%(creatordate:iso-strict)"; lit "refs/tags/v" ++ version];
  match splitlines raw with [] => mret None | l :: _ => Some <$> _parse_iso l "tag date" end.

Definition tag_present (version : pystr) : D bool :=
  raw ← _git [lit "tag"; lit "-l"; lit "v*"];
  let all_tags := filter (λ t, str_strip t ≠ []) (splitlines raw) in
  _ ← require (negb (bool_decide (length all_tags < TAG_FLOOR)%nat)) (FewTags (length all_tags));
  mret (bool_decide (lit "v" ++ version ∈ all_tags)).

(** ** The registries *)

Definition registry_token : D pystr :=
  match str_strip (default [] (environ TOKEN_ENV)) with [] => fail NoToken | t => mret t end.

Definition _query_for (version : pystr) : pystr := lit "?query=seam-sdk+version:" ++ version ++ lit "&page_size=50".

Definition _curl_json (url query token : pystr) : D pyval :=
  r ← invoke (Curl (url ++ query) token);
  match r with
  | Raise e => if isa e CFileNotFoundError then fail NoCurl else if isa e COSError then fail CurlNotRun else of_res (Raise e)
  | Ok (code, stdout) => if code =? 0 then loads_or stdout NotJson else fail (CurlFailed code)
  end.

(** [str(v)] of a value of a response; a list or an object prints in brackets, so it is no version. *)
Definition str_value (v : pyval) : option pystr :=
  match v with
  | PStr s => Some s
  | PInt z => Some (str_of_int z)
  | PFloat f => Some (float_repr f)
  | PBool b => Some (if b then lit "True" else lit "False")
  | PNone => Some (lit "None")
  | _ => None
  end.

(** The versions the refusal of [fetch_registry] names. *)
Definition versions_shown (matched : list row) : list pystr :=
  merge_sort lex_le (remove_dups (filter (λ v, re_match SAFE_VERSION v ≠ None) (omap (λ r, str_value (row_get (lit "version") r)) matched))).

Definition fetch_registry (version token url : pystr) : D pyval :=
  rows ← _curl_json url (_query_for version) token;
  _ ← require (match rows with PList l => negb (length l =? PAGE_SIZE)%nat | _ => true end) PageFull;
  matched ← _seam_sdk_rows rows;
  _ ← require (bool_decide (matched = []) || existsb (λ r, py_eq_str (row_get (lit "version") r) version) matched)
        (QualifierIgnored (take 5 (versions_shown matched)) (length (versions_shown matched) - 5));
  mret rows.

Fixpoint try_canaries (token url : pystr) (candidates : list pystr) : D pystr :=
  match candidates with
  | [] => fail CanariesFailed
  | c :: candidates =>
    rows ← fetch_registry c token url;
    formats ← registry_formats rows c;
    if bool_decide (required ⊆ formats) then mret c else try_canaries token url candidates
  end.
Definition assert_live_instrument_healthy (target token url : pystr) : D pystr :=
  _ ← each assert_query_safe CANARY_VERSIONS;
  match filter (λ v, v ≠ target) CANARY_VERSIONS with
  | [] => fail NoCanary
  | candidates => try_canaries token url candidates
  end.

(** Is every version at least as large as the next? *)
Fixpoint check_descending (plain : list pystr) : D () :=
  match plain with
  | higher :: ((lower :: _) as rest) =>
    kl ← of_res (_version_key lower);
    kh ← of_res (_version_key higher);
    _ ← require (negb (key_ltb kh kl)) (NotDescending higher lower);
    check_descending rest
  | _ => mret ()
  end.

(** [_version_key(a) < _version_key(b)] *)
Definition older (a b : pystr) : D bool :=
  ka ← of_res (_version_key a); kb ← of_res (_version_key b); mret (key_ltb ka kb).

Definition rows_of (raw : pyval) : list row :=
  match raw with PList l => omap (λ v, match v with PDict d => Some d | _ => None end) l | _ => [] end.
Definition plain_versions (raw : pyval) : list pystr := omap (λ r, _plain (row_get (lit "version") r)) (rows_of raw).
(** The lowest version of a full page. *)
Definition page_edge (raw : pyval) : option pystr :=
  if (PAGE_SIZE <=? length (rows_of raw))%nat then last (plain_versions raw) else None.

Definition fetch_newest (token proved_by : pystr) (declared : option pystr) : D (pystr * pyval * nat) :=
  raw ← _curl_json REGISTRY_URL NEWEST_QUERY token;
  matched ← _seam_sdk_rows raw;
  _ ← require (negb (bool_decide (matched = []))) NewestNoRow;
  _ ← check_descending (plain_versions raw);
  '(newest, withheld) ← newest_complete_version raw (page_edge raw);
  match newest with
  | None => fail (NoNewest (page_edge raw))
  | Some newest =>
    b ← older newest proved_by;
    _ ← require (negb b) (BelowCanary newest);
    match declared with
    | Some d => b ← older newest d; _ ← require (negb b) (BelowDeclared newest); mret (newest, raw, withheld)
    | None => mret (newest, raw, withheld)
    end
  end.

Definition _load_packages_json (path : pystr) (flag : string) : D pyval :=
  match dump_file path with
  | Ok raw => loads_or raw (DumpNotJson flag)
  | Raise e => if isa e CFileNotFoundError then fail (DumpMissing flag) else if isa e COSError then fail (DumpUnreadable flag) else of_res (Raise e)
  end.
End fetch.
