(* ===== verification/DriftReport.v ===== *)
(** * DriftReport: how the registry-drift check reports

    The parts of [scripts/check_registry_drift.py] that talk to GitHub: the one listing of issues, what is
    filed, commented, reopened or recognised as suppressed, the notices that an issue can be closed, and the
    watch over the check's own schedule. The text of an issue is its ingredients, an [issue_body]. *)

From stdpp Require Import base list numbers option strings sets gmap.
From Stdlib Require Import SpecFloat.
From S2P Require Import Prelude Text Keys Floats Regex Script DriftRows DriftFetch.

Definition DRIFT_TITLE (version : pystr) : pystr := lit "Registry drift: seam-sdk " ++ version ++ lit " is not installable".
Definition PARTNER_DRIFT_TITLE (version : pystr) : pystr := lit "Registry drift: seam-sdk " ++ version ++ lit " is not on partner".
Definition RELEASE_NOTICE_TITLE (version : pystr) : pystr := lit "Release v" ++ version ++ lit " did not publish".
Definition SUPPRESSION_LABEL : pystr := lit "deliberately-unpublished".
Definition ISSUE_LIMIT : nat := 500.
Definition REPO_ENV : pystr := lit "REPO".
Definition WORKFLOW_FILENAME : pystr := lit "registry-drift.yml".
Definition HEARTBEAT_QUERY : pystr := lit "event=schedule&status=completed&per_page=5".
Definition LABEL_SEP : Z := 31.
Definition _LABEL_SEP_JQ : pystr := lit "\u001f".
Definition _ISSUE_LIST_JQ : pystr :=
  lit ".[] | [.number, .state, ((.labels|map(.name))|join(" ++ [34] ++ _LABEL_SEP_JQ ++ [34] ++ lit ")), .title] | @tsv".

Definition OPEN : pystr := lit "OPEN".

(** [[A-Za-z0-9_.-]] *)
Definition repo_char (c : Z) : bool :=
  is_digit c || ((65 <=? c) && (c <=? 90)) || ((97 <=? c) && (c <=? 122)) || (c =? 95) || (c =? 46) || (c =? 45).
Definition REPO_NAME : regex := (Plus (Set_ repo_char) ▷ Chr 47 ▷ Plus (Set_ repo_char))%re.

(** [line.split(sep, n)] *)
Fixpoint split_at_most (sep : Z) (n : nat) (s : list Z) : list (list Z) :=
  match n with
  | O => [s]
  | S n =>
    let fix go (w s : list Z) : list (list Z) :=
      match s with
      | [] => [rev w]
      | c :: r => if c =? sep then rev w :: split_at_most sep n r else go (c :: w) r
      end in
    go [] s
  end.

(** [s.upper()] of the states [gh] prints *)
Definition ascii_upper (s : pystr) : pystr := (λ c, if (97 <=? c) && (c <=? 122) then c - 32 else c) <$> s.

(** The one issue whose title is exactly this. *)
Definition _exact (issues : list issue) (t : pystr) : option issue := list_find (λ i, title i = t) issues ≫= λ p, Some p.2.

Section report.
Context `{DriftWorld}.

Definition issue_repo : D pystr :=
  let repo := str_strip (default [] (environ REPO_ENV)) in
  _ ← require (negb (bool_decide (repo = []))) NoRepo;
  _ ← require (fullmatches REPO_NAME repo) (BadRepo repo);
  mret repo.

Definition _gh (args : list arg) (repo : option pystr) : D pystr :=
  r ← invoke (Gh (args ++ match repo with Some r => [Txt (lit "--repo"); Txt r] | None => [] end));
  match r with
  | Raise e =>
    if isa e CFileNotFoundError then fail NoGh else if isa e COSError then fail GhNotRun
    else match e with
         | OtherException n => if bool_decide (n = lit "TimeoutExpired") then fail GhTimeout else of_res (Raise e)
         | _ => of_res (Raise e)
         end
  | Ok (code, stdout) => if code =? 0 then mret stdout else fail (GhFailed code)
  end.

(** [str.isdigit] holds of some characters that are no decimal digits (superscripts, circled digits, ...), which
    [int] refuses. *)
Definition other_digits : list (Z * Z) :=
  [(178, 179); (185, 185); (4969, 4977); (6618, 6618); (8304, 8304); (8308, 8313); (8320, 8329); (9312, 9320); (9332, 9340);
   (9352, 9360); (9450, 9450); (9461, 9469); (9471, 9471); (10102, 10110); (10112, 10120); (10122, 10130); (68160, 68163);
   (69216, 69224); (69714, 69722); (127232, 127242)].
Definition isdigit (c : Z) : bool := is_decimal c || existsb (λ r, (r.1 <=? c) && (c <=? r.2)) other_digits.
Definition int_of_digits (s : pystr) : res Z := if forallb is_decimal s then int_of_decimals s else Raise ValueError.

Definition read_issue (line : pystr) : D issue :=
  match split_at_most 9 3 line with
  | [number; state; labels; title] =>
    _ ← require (forallb isdigit number && negb (bool_decide (number = []))) BadIssueNumber;
    n ← of_res (int_of_digits number);
    mret (Issue n (ascii_upper (str_strip state)) (filter (λ l, l ≠ []) (split_on LABEL_SEP labels)) title)
  | _ => fail BadIssueRow
  end.
Fixpoint read_issues (lines : list pystr) : D (list issue) :=
  match lines with
  | [] => mret []
  | l :: lines =>
    match str_strip l with
    | [] => read_issues lines
    | _ => i ← read_issue l; rest ← read_issues lines; mret (i :: rest)
    end
  end.

Definition fetch_issues (repo : pystr) : D (list issue) :=
  raw ← _gh [Txt (lit "issue"); Txt (lit "list"); Txt (lit "--state"); Txt (lit "all"); Txt (lit "--limit"); Txt (lit "500");
             Txt (lit "--json"); Txt (lit "number,state,title,labels"); Txt (lit "--jq"); Txt _ISSUE_LIST_JQ] (Some repo);
  issues ← read_issues (splitlines raw);
  _ ← (if (length issues =? ISSUE_LIMIT)%nat then print LTruncated else mret ());
  mret issues.

(** The run's one listing: fetched by the first that needs it, and kept, also when it failed. *)
Definition fetch_listing : D (list issue * pystr) := target ← issue_repo; issues ← fetch_issues target; mret (issues, target).
Definition listing : D (list issue * pystr) := λ s,
  match listing_cache s with
  | Some (inl x) => (Failed x, s)
  | Some (inr l) => (Done l, s)
  | None =>
    match fetch_listing s with
    | (Done l, s') => (Done l, Run (trace s') (Some (inr l)))
    | (Failed x, s') => (Failed x, Run (trace s') (Some (inl x)))
    | r => r
    end
  end.

(** What a question knows when it reports a drift. *)
Record finding := Finding {
  f_version : pystr;
  f_tagged : bool;
  f_missing : gset pystr;
  f_age : spec_float;
  f_subject : subject;
  f_partner_missing : option (gset pystr);
  f_partner_unreadable : bool;
  f_question : question;
  f_declared : option pystr
}.
Definition body_for (f : finding) (cross_link : option issue) : issue_body :=
  IssueBody (f_version f) (f_tagged f) (f_missing f) (f_age f) (number <$> cross_link) (f_subject f) (f_partner_missing f)
    (f_partner_unreadable f) (f_question f) (f_declared f).

Definition is_open (i : issue) : bool := bool_decide (state i = OPEN).
Definition drift_title (f : finding) : pystr :=
  match f_subject f with Partner => PARTNER_DRIFT_TITLE (f_version f) | Internal => DRIFT_TITLE (f_version f) end.

(** An issue of that title that is still open can be closed. *)
Definition notice_can_close (issues : list issue) (t version : pystr) (s : subject) : D () :=
  match _exact issues t with
  | Some i => if is_open i then print (LCanClose (number i) version s) else mret ()
  | None => mret ()
  end.

Definition report_drift (f : finding) (issues : list issue) (repo : pystr) : D bool :=
  _ ← (match f_subject f with
       | Partner => notice_can_close issues (DRIFT_TITLE (f_version f)) (f_version f) Internal
       | Internal => mret ()
       end);
  match _exact issues (drift_title f) with
  | None =>
    let cross_link := _exact issues (RELEASE_NOTICE_TITLE (f_version f)) ≫= λ i, if is_open i then Some i else None in
    _ ← _gh [Txt (lit "issue"); Txt (lit "create"); Txt (lit "--title"); Txt (drift_title f); Txt (lit "--body"); Body (body_for f cross_link)] (Some repo);
    _ ← print (LFiled (drift_title f));
    mret false
  | Some existing =>
    if is_open existing then _ ← print (LAlreadyReported (number existing)); mret false
    else if bool_decide (SUPPRESSION_LABEL ∈ labels existing) then _ ← print (LSuppressed (f_version f) (number existing)); mret true
    else
      _ ← _gh [Txt (lit "issue"); Txt (lit "comment"); Txt (str_of_int (number existing)); Txt (lit "--body"); Body (body_for f None)] (Some repo);
      _ ← _gh [Txt (lit "issue"); Txt (lit "reopen"); Txt (str_of_int (number existing))] (Some repo);
      _ ← print (LReopened (number existing));
      mret false
  end.

Definition report_clean (version : pystr) (issues : list issue) (partner_checked : bool) : D () :=
  _ ← notice_can_close issues (DRIFT_TITLE version) version Internal;
  if partner_checked then notice_can_close issues (PARTNER_DRIFT_TITLE version) version Partner else mret ().

Definition report_newest_clean (newest : pystr) (issues : list issue) : D () :=
  notice_can_close issues (PARTNER_DRIFT_TITLE newest) newest Partner.

(** ** The watch over the schedule *)

Fixpoint parse_runs (lines : list pystr) : D (list Z) :=
  match lines with
  | [] => mret []
  | l :: lines =>
    match str_strip l with
    | [] => parse_runs lines
    | l => t ← _parse_iso l "a workflow run's created_at"; ts ← parse_runs lines; mret (t :: ts)
    end
  end.

Definition read_history : D pystr :=
  repo ← issue_repo;
  _gh [Txt (lit "api"); Txt (lit "repos/" ++ repo ++ lit "/actions/workflows/" ++ WORKFLOW_FILENAME ++ lit "/runs?" ++ HEARTBEAT_QUERY);
       Txt (lit "--jq"); Txt (lit ".workflow_runs[].created_at")] None.

(** [try: m; except InfraError as exc: print(...); return] *)
Definition or_warn {A} (m : D A) : D (option A) := handling (Some <$> m) (λ x, _ ← print (LNoHistory x); mret None).

Definition _staleness_heartbeat (now : Z) : D () :=
  raw ← or_warn read_history;
  match raw with
  | None => mret ()
  | Some raw =>
    stamps ← or_warn (parse_runs (splitlines raw));
    match stamps with
    | None | Some [] => mret ()
    | Some (t :: ts) =>
      threshold ← of_res (staleness_threshold_minutes CRON);
      match threshold with
      | None => print LNoThreshold
      | Some threshold =>
        let silence := minutes_between now (foldr Z.max t ts) in
        if int_lt_float threshold silence then print (LSilent silence threshold) else mret ()
      end
    end
  end.

(** [except Exception]: an [InfraError] is one too. *)
Definition warn_if_schedule_is_stale (now : Z) : D () := λ s,
  match _staleness_heartbeat now s with
  | (Failed x, s') => print (LHeartbeatFailed (OtherException (lit "InfraError"))) s'
  | (Escaped e, s') => if isa e CException then print (LHeartbeatFailed e) s' else (Escaped e, s')
  | r => r
  end.
End report.
