(* ===== verification/Drift.v ===== *)
(** * Drift: the registry-drift check

    [main] of [scripts/check_registry_drift.py]: the questions (does internal serve the declared version, does
    partner, does partner serve internal's newest release), the verdict on the grace ladder, the reporting,
    and the exit code. The source's one function is cut where its comments cut it; a [try] is [handling] or
    [attempt], a local variable a later part reads is a field of [facts] or [declared_clock]. [main] takes the
    parsed options. *)

From stdpp Require Import base list numbers option strings sets gmap.
From Stdlib Require Import SpecFloat.
From S2P Require Import Prelude Text Keys Floats Json Commitment Regex Script DriftRows DriftFetch DriftReport.

Record Args := MkArgs {
  a_packages : option pystr;
  a_partner : option pystr;
  a_now : option pystr;
  a_soft : Z;
  a_hard : Z;
  a_report : bool
}.

(** What was read of partner, and which canary proved it. *)
Inductive partner_answer :=
| PFault (proved_by : option pystr) (x : infra)
| PNotChecked
| PMissing (proved_by : option pystr) (rows : option pyval) (missing : gset pystr).

(** The answer to the newest question. *)
Inductive newest_state :=
| NUnchecked (why : string)
| NFault (x : infra)
| NIsDeclared (newest : pystr) (withheld : nat)
| NAsked (newest : pystr) (withheld : nat) (missing : gset pystr) (age : spec_float).

Record facts := Facts {
  now : Z;
  version : pystr;
  rows : pyval;
  proved_by : option pystr;
  partner : partner_answer;
  newest : newest_state
}.

Record declared_clock := DeclaredClock { found : gset pystr; missing : gset pystr; tagged : bool; started : Z; age : spec_float }.

Inductive verdict := Clean | Tier (t : tier).

(** Any [Exception] becomes this question's fault; the class name only, never the message. *)
Definition attempt {A} (where_ : string) (m : D A) : D (infra + A) := λ s,
  match m s with
  | (Done a, s') => (Done (inr a), s')
  | (Failed x, s') => (Done (inl x), s')
  | (Escaped e, s') => if isa e CException then (Done (inl (Unexpected where_ e)), s') else (Escaped e, s')
  end.

Section main.
Context `{DriftWorld} (args : Args).

(** ** Asking *)

(** The rows of internal; live, the credential and the canary with them. *)
Definition read_internal (version : pystr) : D (pyval * option (pystr * pystr)) :=
  match a_packages args with
  | Some path =>
    rows ← _load_packages_json path "--packages-json";
    _ ← assert_offline_instrument_healthy rows "--packages-json";
    mret (rows, None)
  | None =>
    token ← registry_token;
    proved_by ← assert_live_instrument_healthy version token REGISTRY_URL;
    rows ← fetch_registry version token REGISTRY_URL;
    mret (rows, Some (token, proved_by))
  end.

Definition missing_at (rows : pyval) (version : pystr) : D (gset pystr) :=
  formats ← registry_formats rows version; mret (required ∖ formats).

Definition read_partner (version : pystr) (live : option (pystr * pystr)) : D partner_answer :=
  match live with
  | None =>
    match a_partner args with
    | None => mret PNotChecked
    | Some path =>
      r ← attempt "reading partner"
        (rows ← _load_packages_json path "--partner-packages-json";
         _ ← assert_offline_instrument_healthy rows "--partner-packages-json";
         missing ← missing_at rows version;
         mret (rows, missing));
      mret (match r with inl x => PFault None x | inr (rows, missing) => PMissing None (Some rows) missing end)
    end
  | Some (token, _) =>
    c ← attempt "reading partner" (assert_live_instrument_healthy version token PARTNER_REGISTRY_URL);
    match c with
    | inl x => mret (PFault None x)
    | inr canary =>
      r ← attempt "reading partner" (rows ← fetch_registry version token PARTNER_REGISTRY_URL; missing_at rows version);
      mret (match r with inl x => PFault (Some canary) x | inr missing => PMissing (Some canary) None missing end)
    end
  end.

(** The newest version, the rows its clock is read from, and the values set aside. *)
Definition find_newest (version : pystr) (rows : pyval) (live : option (pystr * pystr)) : D (pystr * pyval * nat) :=
  match live with
  | None =>
    '(newest, withheld) ← newest_complete_version rows None;
    match newest with Some v => mret (v, rows, withheld) | None => fail (NoNewest None) end
  | Some (token, proved_by) =>
    formats ← registry_formats rows version;
    fetch_newest token proved_by (if bool_decide (required ⊆ formats) then Some version else None)
  end.

Definition ask_newest (now : Z) (version : pystr) (rows : pyval) (live : option (pystr * pystr)) (partner_rows : option pyval)
    : D newest_state :=
  '(newest, newest_rows, withheld) ← find_newest version rows live;
  if bool_decide (newest = version) then mret (NIsDeclared newest withheld)
  else
    uploaded ← (match live with
                | Some _ => newest_upload_clock newest_rows newest
                | None => handling (newest_upload_clock newest_rows newest) (λ x, fail (OfflineStamp x))
                end);
    let age := minutes_between now uploaded in
    _ ← require (negb (float_lt_int age (- CLOCK_SKEW_TOLERANCE_MINUTES))) UploadedAfterNow;
    missing ← (match live with
               | None => missing_at (default PNone partner_rows) newest
               | Some (token, _) => r ← fetch_registry newest token PARTNER_REGISTRY_URL; missing_at r newest
               end);
    mret (NAsked newest withheld missing (float_max0 age)).

Definition read_newest (now : Z) (version : pystr) (rows : pyval) (live : option (pystr * pystr)) (p : partner_answer) : D newest_state :=
  match p with
  | PFault _ _ => mret (NUnchecked "partner could not be read")
  | PNotChecked => mret (NUnchecked "offline run without --partner-packages-json")
  | PMissing _ partner_rows _ =>
    r ← attempt "answering the newest-version question" (ask_newest now version rows live partner_rows);
    mret (match r with inl x => NFault x | inr n => n end)
  end.

Definition read_now : D Z := match a_now args with Some (c :: r) => _parse_iso (c :: r) "--now" | _ => mret utc_now end.

Definition gather : D facts :=
  _ ← require (a_soft args <=? a_hard args) GraceOutOfOrder;
  now ← read_now;
  version ← source_version;
  _ ← assert_query_safe version;
  _ ← require (negb (bool_decide (is_Some (a_partner args)) && negb (bool_decide (is_Some (a_packages args))))) PartnerDumpAlone;
  '(rows, live) ← read_internal version;
  p ← read_partner version live;
  n ← read_newest now version rows live p;
  mret (Facts now version rows (snd <$> live) p n).

(** ** Printing *)

Definition print_newest_facts (n : newest_state) (declared_answered : bool) : D () :=
  match n with
  | NUnchecked why => print (LNewestUnchecked why)
  | NFault _ => print LNewestUnreadable
  | NIsDeclared v withheld => print (LNewestIsDeclared v withheld (if declared_answered then AnsweredAbove else NotAnswered))
  | NAsked v withheld missing age => _ ← print (LNewestUploaded v withheld age); print (LPartnerServesNewest v (required ∖ missing))
  end.

Definition print_newest_verdict (f : facts) : D (option tier) :=
  match newest f with
  | NFault x => _ ← print (LNewestFault x); mret None
  | NAsked v _ missing age =>
    if bool_decide (missing = ∅) then _ ← print (LNewestClean v); mret None
    else let t := _tier age (a_soft args) (a_hard args) in
         _ ← print (LNewestVerdict t v (version f) missing age); mret (Some t)
  | _ => mret None
  end.

Definition newest_error (f : facts) : option infra := match newest f with NFault x => Some x | _ => None end.
Definition partner_error (f : facts) : option infra := match partner f with PFault _ x => Some x | _ => None end.
Definition partner_missing (f : facts) : option (gset pystr) := match partner f with PMissing _ _ m => Some m | _ => None end.
Definition partner_proved_by (f : facts) : option pystr := match partner f with PFault p _ | PMissing p _ _ => p | PNotChecked => None end.

(** The declared version against internal, and when its release was last attempted. *)
Definition read_clock (f : facts) : D declared_clock :=
  found ← registry_formats (rows f) (version f);
  landed ← version_landed_at (version f);
  tagged ← tag_present (version f);
  tag_date ← tag_created_at (version f);
  let started := match tag_date with Some t => Z.max landed t | None => landed end in
  let age := minutes_between (now f) started in
  _ ← require (negb (float_lt_int age (- CLOCK_SKEW_TOLERANCE_MINUTES))) AttemptAfterNow;
  mret (DeclaredClock found (required ∖ found) tagged started (float_max0 age)).

Definition print_some (l : pystr → dline) (o : option pystr) : D () := match o with Some v => print (l v) | None => mret () end.

Definition print_facts (f : facts) (c : declared_clock) : D () :=
  _ ← print_some LInstrument (proved_by f);
  _ ← print_some LPartnerInstrument (partner_proved_by f);
  _ ← print (LSource (version f) (tagged c));
  _ ← print (LRegistryServes (found c));
  _ ← print (match partner f with
             | PFault _ _ => LPartnerCouldNotBeRead
             | PNotChecked => LPartnerNotChecked
             | PMissing _ _ m => LPartnerServes (required ∖ m)
             end);
  _ ← print_newest_facts (newest f) true;
  print (LAttempt (started c) (age c)).

(** The verdict, what it is about, and its exit code; [None] when partner is the only answer wanting. *)
Definition decide_verdict (f : facts) (c : declared_clock) : D (option (verdict * subject * Z)) :=
  let code t := match t with Drift => 1 | _ => 0 end in
  if bool_decide (missing c = ∅) then
    match partner f with
    | PFault _ x => _ ← print (LServed (version f)); _ ← print (LError x); mret None
    | PNotChecked => _ ← print (LClean (version f) false); mret (Some (Clean, Internal, 0))
    | PMissing _ _ m =>
      if bool_decide (m = ∅) then _ ← print (LClean (version f) true); mret (Some (Clean, Internal, 0))
      else let t := _tier (age c) (a_soft args) (a_hard args) in
           _ ← print (LServed (version f)); _ ← print (LVerdict t Partner (version f) m (age c) (tagged c));
           mret (Some (Tier t, Partner, code t))
    end
  else let t := _tier (age c) (a_soft args) (a_hard args) in
       _ ← print (LVerdict t Internal (version f) (missing c) (age c) (tagged c));
       mret (Some (Tier t, Internal, code t)).

(** ** Reporting *)

Definition internal_finding (f : facts) (c : declared_clock) : finding :=
  Finding (version f) (tagged c) (missing c) (age c) Internal (partner_missing f) (bool_decide (is_Some (partner_error f))) Declared None.
Definition partner_finding (f : facts) (c : declared_clock) (m : gset pystr) : finding :=
  Finding (version f) (tagged c) m (age c) Partner None false Declared None.
Definition newest_finding (f : facts) (v : pystr) (t : bool) (m : gset pystr) (a : spec_float) : finding :=
  Finding v t m a Partner None false Newest (Some (version f)).

(** File it; [0] when it turns out to be suppressed. *)
Definition file (x : finding) (code : Z) : D Z :=
  '(issues, target) ← listing;
  suppressed ← report_drift x issues target;
  mret (if suppressed : bool then 0 else code).

Definition report_declared (f : facts) (c : declared_clock) (v : verdict) (s : subject) (code : Z) (newest_reaches : bool) : D Z :=
  match v, s with
  | Tier Drift, Partner => file (partner_finding f c (default ∅ (partner_missing f))) code
  | Tier Drift, Internal => file (internal_finding f c) code
  | Clean, _ =>
    handling
      ('(issues, _) ← listing; _ ← report_clean (version f) issues (bool_decide (is_Some (partner_missing f))); mret code)
      (λ x, _ ← print (LGitHubUnreachable x newest_reaches); mret code)
  | _, _ => mret code
  end.

Definition reaches (v : verdict) : bool := match v with Clean | Tier Drift => true | _ => false end.

Definition report_newest (f : facts) (v : verdict) (newest_verdict : option tier) : D (option tier) :=
  match newest f, newest_verdict with
  | NAsked n _ m a, Some Drift =>
    '(issues, target) ← listing;
    t ← tag_present n;
    suppressed ← report_drift (newest_finding f n t m a) issues target;
    mret (if suppressed : bool then None else Some Drift)
  | NAsked n _ m _, _ =>
    if bool_decide (m = ∅) && reaches v then
      _ ← handling ('(issues, _) ← listing; report_newest_clean n issues) (λ _, mret ());
      mret newest_verdict
    else mret newest_verdict
  | _, _ => mret newest_verdict
  end.

Definition is_drift (t : option tier) : bool := match t with Some Drift => true | _ => false end.

(** Only a run that asked for the listing watches over the schedule; the code stays as it is. *)
Definition heartbeat (now : Z) (code : Z) : D Z := λ s,
  match listing_cache s with
  | Some _ => (_ ← warn_if_schedule_is_stale now; mret code) s
  | None => (Done code, s)
  end.

Definition report (f : facts) (c : declared_clock) (v : verdict) (s : subject) (code : Z) (newest_verdict : option tier) : D Z :=
  r ← handling
    (code ← report_declared f c v s code (is_drift newest_verdict);
     newest_verdict ← report_newest f v newest_verdict;
     mret (Some (code, newest_verdict)))
    (λ x, _ ← print (LError x); mret None);
  match r with
  | None => mret 2
  | Some (code, newest_verdict) =>
    let code := if bool_decide (is_Some (partner_error f)) && (code =? 0) then 2 else code in
    let code := _with_newest code newest_verdict (newest_error f) in
    heartbeat (now f) code
  end.

(** ** The program *)

(** Once both questions are answered. *)
Definition judge (f : facts) (c : declared_clock) : D Z :=
  _ ← print_facts f c;
  d ← decide_verdict f c;
  match d with
  | None => mret 2
  | Some (v, s, code) =>
    newest_verdict ← print_newest_verdict f;
    match partner_error f with
    | Some x =>
      _ ← print (LPartnerUnreadable x);
      match v with
      | Tier Drift => if a_report args then report f c v s code newest_verdict else mret (_with_newest code newest_verdict (newest_error f))
      | _ => mret 2
      end
    | None => if a_report args then report f c v s code newest_verdict else mret (_with_newest code newest_verdict (newest_error f))
    end
  end.

(** [except InfraError]: print it, and go on without. *)
Definition or_error {A} (m : D A) : D (option A) := handling (Some <$> m) (λ x, _ ← print (LError x); mret None).

Definition main : D Z :=
  if negb python_311 then _ ← print LOldPython; mret 2
  else
    f ← or_error gather;
    match f with
    | None => mret 2
    | Some f =>
      c ← or_error (read_clock f);
      match c with
      | None =>
        _ ← print_newest_facts (newest f) false;
        v ← print_newest_verdict f;
        mret (_with_newest 2 v (newest_error f))
      | Some c => judge f c
      end
    end.

Definition start : run := Run [] None.

(** The status the process ends with: an exception that escapes [main] is 2. *)
Definition exit_code : Z := match (main start).1 with Done c => c | Failed _ | Escaped _ => 2 end.
End main.

(** The watch over the schedule cannot vote: whatever [gh] answers and whatever it makes the watch raise, the
    exit code stays what the verdicts made it (only an exception that is no [Exception] ends the run). *)
Theorem heartbeat_cannot_vote `{DriftWorld} t code s : match (heartbeat t code s).1 with
  | Done c => c = code
  | Failed _ => False
  | Escaped e => isa e CException = false
  end.
Proof.
  unfold heartbeat. destruct (listing_cache s); [|done]. unfold mbind, script_bind, warn_if_schedule_is_stale.
  destruct (_staleness_heartbeat t s) as [[[]|x|e] s1]; [done|done|]. destruct (isa e CException) eqn:E; [done|exact E].
Qed.

(** ** A world to run it in *)

Definition toy_row (name f v : pystr) : pystr :=
  quoted "{'name':'" ++ name ++ quoted "','format':'" ++ f ++ quoted "','version':'" ++ v ++ quoted "','uploaded_at':'2026-10-10T00:00:00Z'}".
Definition toy_rows (vs : list pystr) : pystr :=
  let items := vs ≫= λ v, [toy_row (lit "seam-sdk") (lit "python") v; toy_row (lit "@zer07labs/seam-sdk") (lit "npm") v] in
  lit "[" ++ match items with [] => [] | i :: l => i ++ mjoin ((λ x, lit "," ++ x) <$> l) end ++ lit "]".

(** A registry that serves these versions, newest first. *)
Definition toy_answer (served : list pystr) (query : pystr) : pystr :=
  match strip_prefix (lit "?query=seam-sdk+version:") query with
  | Some r => toy_rows (filter (λ v, starts_with (v ++ lit "&") r = true) served)
  | None => toy_rows served
  end.
Definition toy_run (internal partner : list pystr) (commit : pystr) (gh : pystr) (c : call) : res (Z * pystr) :=
  match c with
  | Curl url _ =>
    match strip_prefix REGISTRY_URL url, strip_prefix PARTNER_REGISTRY_URL url with
    | Some q, _ => Ok (0, toy_answer internal q)
    | None, Some q => Ok (0, toy_answer partner q)
    | None, None => Ok (6, [])
    end
  | Git (cmd :: _) =>
    Ok (0, if bool_decide (cmd = lit "log") then commit
           else if bool_decide (cmd = lit "tag") then mjoin ((λ n, lit "v0.1." ++ str_of_int n ++ [10]) <$> seqZ 0 20)
           else [])
  | Git [] => Raise (OSError ENOENT)
  | Gh (Txt a :: Txt b :: _) => if bool_decide (b = lit "list") then Ok (0, gh) else Ok (0, [])
  | Gh _ => Ok (4, [])
  end.
Definition toy_world (internal partner : list pystr) (commit gh : pystr) : DriftWorld := {|
  run_call _ := toy_run internal partner commit gh;
  pyproject_toml := Ok (quoted "[project]" ++ [10] ++ quoted "version = '0.45.0'" ++ [10]);
  package_json := Ok (quoted "{'version':'0.45.0'}");
  dump_file _ := Raise (OSError ENOENT);
  environ k := if bool_decide (k = TOKEN_ENV) then Some (lit "key") else if bool_decide (k = REPO_ENV) then Some (lit "zer07labs/seam-sdk") else None;
  utc_now := 63927290608896556;
  python_311 := true;
  world_iso _ := None
|}.
Definition live (r : bool) : Args := MkArgs None None None SOFT_GRACE_MINUTES HARD_GRACE_MINUTES r.
Definition canaries : list pystr := [lit "0.7.71"].
Definition day_before : pystr := lit "2026-10-10T00:00:00+00:00".
Definition just_now : pystr := lit "2026-10-11T04:00:00+00:00".

(** 0.45.0 is on both, [0.7.71] being older. *)
Definition toy_versions : list pystr := [lit "0.45.0"; lit "0.7.71"].
Example clean_run : exit_code (H := toy_world toy_versions toy_versions day_before []) (live true) = 0.
Proof. vm_compute. reflexivity. Qed.
(** Internal lacks it, and the release attempt is a day old. *)
Example drift_run : exit_code (H := toy_world canaries canaries day_before []) (live true) = 1.
Proof. vm_compute. reflexivity. Qed.
(** The same, 43 minutes after the attempt. *)
Example deferred_run : exit_code (H := toy_world canaries canaries just_now []) (live true) = 0.
Proof. vm_compute. reflexivity. Qed.
(** Partner lacks it. *)
Example promotion_lag : exit_code (H := toy_world toy_versions canaries day_before []) (live true) = 1.
Proof. vm_compute. reflexivity. Qed.
(** No canary answers: the query is broken, which is no drift. *)
Example no_canary : exit_code (H := toy_world [] [] day_before []) (live true) = 2.
Proof. vm_compute. reflexivity. Qed.
(** A closed issue with the label. *)
Definition suppressing : pystr :=
  lit "7" ++ [9] ++ lit "closed" ++ [9] ++ SUPPRESSION_LABEL ++ [9] ++ DRIFT_TITLE (lit "0.45.0") ++ [10].
Example suppressed_run : exit_code (H := toy_world canaries canaries day_before suppressing) (live true) = 0.
Proof. vm_compute. reflexivity. Qed.
