(* ===== verification/DriftProofs.v ===== *)
(** * DriftProofs: what the exit code of the registry-drift check means

    For any behaviour of the commands: exit 1 rests on a proven instrument, an answer that lacks a format and
    an attempt past the hard window; exit 0 on answers to every question, each lag excused by its age or by the
    issue that suppresses it, and on no fault; any other run exits 2; without [--report]
    nothing touches GitHub, and with it neither does a grace tier; the listing is read once; a report is
    filed, recognised or reopened as the decision table says; the watch over the schedule cannot vote. *)

From stdpp Require Import base list numbers option strings sets gmap.
From Stdlib Require Import SpecFloat.
From S2P Require Import Prelude Text Keys Floats Json Commitment Regex Script DriftRows DriftFetch DriftReport Drift.

(** ** What each part does to the run *)

Definition is_gh (c : call) : bool := match c with Gh _ => true | _ => false end.

(** The lines that tell of a fault: of a command, of an answer, of the interpreter. *)
Definition fault_line (l : dline) : bool :=
  match l with LError _ | LPartnerUnreadable _ | LNewestFault _ | LOldPython => true | _ => false end.

(** A relation closed under [git], [curl] and the printing of any other line; one closed under printing these as well. *)
Class tells (R : run → run → Prop) : Prop := {
  tells_preorder :: PreOrder R;
  tells_print l s : fault_line l = false → R s (Run (trace s ++ [Said l]) (listing_cache s));
  tells_call c s : is_gh c = false → R s (Run (trace s ++ [Ran c]) (listing_cache s))
}.
Class asks (R : run → run → Prop) : Prop := {
  asks_tells :: tells R;
  asks_fault l s : fault_line l = true → R s (Run (trace s ++ [Said l]) (listing_cache s))
}.

Lemma print_keeps R `{!asks R} l : keeps R (print l).
Proof. intros s. destruct (fault_line l) eqn:E; [by apply asks_fault|by apply tells_print]. Qed.
Lemma tell_keeps R `{!tells R} l : fault_line l = false → keeps R (print l).
Proof. intros Hl s. by apply tells_print. Qed.

Section asking.
Context `{DriftWorld} (R : run → run → Prop) `{!tells R}.

Lemma invoke_keeps c : is_gh c = false → keeps R (invoke c).
Proof. intros Hc s. by apply tells_call. Qed.

Lemma rows_keeps rows : keeps R (_seam_sdk_rows rows).
Proof.
  unfold _seam_sdk_rows. destruct rows; try apply keeps_fail; try apply _.
  induction l as [|[] l IH]; cbn [seam_sdk_rows_of]; keep.
Qed.
Lemma formats_keeps rows v : keeps R (registry_formats rows v).
Proof. unfold registry_formats. keep. apply rows_keeps. Qed.
Lemma newest_complete_keeps rows e : keeps R (newest_complete_version rows e).
Proof. unfold newest_complete_version, max_version. keep; apply rows_keeps. Qed.
Lemma parse_iso_keeps raw w : keeps R (_parse_iso raw w).
Proof. unfold _parse_iso. keep. Qed.
Lemma upload_clock_keeps rows v : keeps R (newest_upload_clock rows v).
Proof.
  unfold newest_upload_clock. keep; [apply rows_keeps|]. match goal with |- keeps _ (parse_stamps ?l) => generalize l end.
  intros l. induction l as [|x l IH]; cbn [parse_stamps]; unfold _parse_upload_stamp; keep.
Qed.
Lemma offline_keeps rows f : keeps R (assert_offline_instrument_healthy rows f).
Proof. unfold assert_offline_instrument_healthy. keep. apply rows_keeps. Qed.
Lemma loads_or_keeps t x : keeps R (loads_or t x).
Proof. unfold loads_or. keep. Qed.
Lemma read_or_keeps r x : keeps R (read_or r x).
Proof. unfold read_or. keep. Qed.
Lemma git_keeps a : keeps R (_git a).
Proof. unfold _git. keep. by apply invoke_keeps. Qed.
Lemma source_version_keeps : keeps R source_version.
Proof. unfold source_version. keep; first [apply read_or_keeps|apply loads_or_keeps]. Qed.
Lemma landed_keeps v : keeps R (version_landed_at v).
Proof. unfold version_landed_at. keep; first [apply git_keeps|apply parse_iso_keeps]. Qed.
Lemma tag_created_keeps v : keeps R (tag_created_at v).
Proof. unfold tag_created_at. keep; first [apply git_keeps|apply parse_iso_keeps]. Qed.
Lemma tag_present_keeps v : keeps R (tag_present v).
Proof. unfold tag_present. keep; apply git_keeps. Qed.
Lemma token_keeps : keeps R registry_token.
Proof. unfold registry_token. keep. Qed.
Lemma curl_keeps u q t : keeps R (_curl_json u q t).
Proof. unfold _curl_json. keep; first [by apply invoke_keeps|apply loads_or_keeps]. Qed.
Lemma fetch_registry_keeps v t u : keeps R (fetch_registry v t u).
Proof. unfold fetch_registry. keep; first [apply curl_keeps|apply rows_keeps]. Qed.
Lemma canaries_keeps t u cs : keeps R (try_canaries t u cs).
Proof. induction cs as [|c cs IH]; cbn [try_canaries]; keep; first [apply fetch_registry_keeps|apply formats_keeps]. Qed.
Lemma healthy_keeps v t u : keeps R (assert_live_instrument_healthy v t u).
Proof. unfold assert_live_instrument_healthy, assert_query_safe. keep; apply canaries_keeps. Qed.
Lemma descending_keeps l : keeps R (check_descending l).
Proof.
  induction l as [|a l IH]; [by apply keeps_ret; apply _|]. destruct l as [|b l]; [by apply keeps_ret; apply _|].
  change (check_descending (a :: b :: l)) with
    (kl ← of_res (_version_key b); kh ← of_res (_version_key a); _ ← require (negb (key_ltb kh kl)) (NotDescending a b); check_descending (b :: l) : D ()).
  keep.
Qed.
Lemma fetch_newest_keeps t p d : keeps R (fetch_newest t p d).
Proof.
  unfold fetch_newest, older. keep; first [apply curl_keeps|apply rows_keeps|apply descending_keeps|apply newest_complete_keeps].
Qed.
Lemma load_keeps p f : keeps R (_load_packages_json p f).
Proof. unfold _load_packages_json. keep; apply loads_or_keeps. Qed.
Lemma attempt_keeps {A} w (m : D A) : keeps R m → keeps R (attempt w m).
Proof. intros Hm s. specialize (Hm s). unfold attempt. destruct (m s) as [[a|x|e] s']; cbn [snd] in *; [done..|]. by destruct (isa e CException). Qed.
End asking.

Ltac keep_ask := first
  [ apply tell_keeps; [apply _|by repeat case_match] | apply print_keeps; apply _ | apply source_version_keeps | apply landed_keeps | apply tag_created_keeps | apply tag_present_keeps
  | apply token_keeps | apply fetch_registry_keeps | apply healthy_keeps | apply formats_keeps | apply newest_complete_keeps
  | apply upload_clock_keeps | apply offline_keeps | apply fetch_newest_keeps | apply load_keeps | apply parse_iso_keeps ];
  try apply _.

Section gathering.
Context `{DriftWorld} (args : Args) (R : run → run → Prop) `{!tells R}.

Lemma read_internal_keeps v : keeps R (read_internal args v).
Proof. unfold read_internal. keep; keep_ask. Qed.
Lemma missing_keeps rows v : keeps R (missing_at rows v).
Proof. unfold missing_at. keep; keep_ask. Qed.
Lemma read_partner_keeps v l : keeps R (read_partner args v l).
Proof.
  unfold read_partner. keep; apply attempt_keeps; keep; first [apply missing_keeps|keep_ask].
Qed.
Lemma find_newest_keeps v rows l : keeps R (find_newest v rows l).
Proof. unfold find_newest. keep; keep_ask. Qed.
Lemma ask_newest_keeps n v rows l p : keeps R (ask_newest n v rows l p).
Proof. unfold ask_newest. keep; first [apply find_newest_keeps|apply missing_keeps|keep_ask]. Qed.
Lemma read_newest_keeps n v rows l p : keeps R (read_newest n v rows l p).
Proof. unfold read_newest. keep. apply attempt_keeps, ask_newest_keeps. Qed.
Lemma gather_keeps : keeps R (gather args).
Proof.
  unfold gather, read_now, assert_query_safe. keep; first [apply read_internal_keeps|apply read_partner_keeps|apply read_newest_keeps|keep_ask].
Qed.
Lemma read_clock_keeps f : keeps R (read_clock f).
Proof. unfold read_clock. keep; keep_ask. Qed.
Lemma newest_facts_keeps n b : keeps R (print_newest_facts n b).
Proof. unfold print_newest_facts. keep; keep_ask. Qed.
Lemma print_facts_keeps f c : keeps R (print_facts f c).
Proof. unfold print_facts, print_some. keep; first [apply newest_facts_keeps|keep_ask]. Qed.
End gathering.

Section judging.
Context `{DriftWorld} (args : Args) (R : run → run → Prop) `{!asks R}.

Lemma newest_verdict_keeps f : keeps R (print_newest_verdict args f).
Proof. unfold print_newest_verdict. keep; keep_ask. Qed.
Lemma decide_keeps f c : keeps R (decide_verdict args f c).
Proof. unfold decide_verdict. keep; keep_ask. Qed.
End judging.

(** ** Reading GitHub is not free *)

(** [s'] has all that was done by [s], in front of what was done since. *)
Definition extends (s s' : run) : Prop := ∃ l, trace s' = trace s ++ l.
Global Instance extends_preorder : PreOrder extends.
Proof.
  split; [intros s; exists []; by rewrite app_nil_r|].
  intros s1 s2 s3 [l E] [l' E']. exists (l ++ l'). by rewrite E', E, (assoc_L (++)).
Qed.
(** [s'] is a later state of the same run: it has done more, and the listing it remembers it remembered before, or
    fetched since. *)
Definition later `{DriftWorld} (s s' : run) : Prop :=
  extends s s' ∧ ∀ l, listing_cache s' = Some (inr l) → listing_cache s = Some (inr l) ∨ obtained extends s s' fetch_listing l.
Global Instance later_preorder `{DriftWorld} : PreOrder later.
Proof.
  split; [by intros s; split; [reflexivity|by left]|].
  intros s1 s2 s3 [E12 H12] [E23 H23]. split; [by etrans|]. intros l Hl. destruct (H23 l Hl) as [Hl2|Ho].
  - destruct (H12 l Hl2) as [?|Ho]; [by left|right]. by eapply (obtained_wider extends); [reflexivity|exact E23|].
  - right. by eapply (obtained_wider extends); [exact E12|reflexivity|].
Qed.

(** Every event between the two states is a [P]. *)
Section events.
Context (P : event → Prop).
Definition only_events (s s' : run) : Prop := ∃ l, trace s' = trace s ++ l ∧ Forall P l.
Global Instance only_events_preorder : PreOrder only_events.
Proof.
  split; [intros s; exists []; by rewrite app_nil_r|].
  intros s1 s2 s3 (l & E & Hl) (l' & E' & Hl'). exists (l ++ l'). split; [by rewrite E', E, (assoc_L (++))|by apply Forall_app].
Qed.
Lemma only_event e s c : P e → only_events s (Run (trace s ++ [e]) c).
Proof. intros He. exists [e]. split; [done|by apply Forall_singleton]. Qed.
End events.

Definition not_gh (e : event) : Prop := match e with Ran c => is_gh c = false | Said _ => True end.
Definition silent (s s' : run) : Prop := only_events not_gh s s' ∧ listing_cache s' = listing_cache s.
Global Instance silent_asks : asks silent.
Proof.
  assert (PreOrder silent).
  { split; [by intros s; split; [reflexivity|]|]. intros s1 s2 s3 [? Hc] [? Hc']. split; [by etrans|by rewrite Hc']. }
  split; [split; [done|..]|]; intros; (split; [by apply only_event|done]).
Qed.

(** Without [--report] the check is read-only: whatever it finds, and however the commands answer, it runs [git]
    and [curl] and never [gh]. *)
Theorem no_report_no_github `{DriftWorld} args o s s' : a_report args = false → main args s = (o, s') → silent s s'.
Proof.
  intros Hr. apply keeps_step. unfold main, or_error, judge. rewrite Hr.
  keep; first [apply gather_keeps|apply read_clock_keeps|apply print_facts_keeps|apply decide_keeps|apply newest_facts_keeps
              |apply newest_verdict_keeps|apply print_keeps]; apply _.
Qed.

(** ** What a run has done and said *)

Lemma later_event `{DriftWorld} e s : later s (Run (trace s ++ [e]) (listing_cache s)).
Proof. split; [by exists [e]|by left]. Qed.
Global Instance later_asks `{DriftWorld} : asks later.
Proof. split; [split; [apply _|..]|]; intros; apply later_event. Qed.

(** [l] was printed between [s] and [s']. *)
Definition said (s s' : run) (l : dline) : Prop := ∃ es, trace s' = trace s ++ es ∧ Said l ∈ es.
Lemma said_wider `{DriftWorld} s0 s s' s1 l : later s0 s → later s' s1 → said s s' l → said s0 s1 l.
Proof.
  intros [[l0 E0] _] [[l1 E1] _] (es & E & Hl). exists (l0 ++ es ++ l1).
  split; [by rewrite E1, E, E0, <- !(assoc_L (++))|]. rewrite !elem_of_app. by auto.
Qed.
Lemma print_Done `{DriftWorld} l s u s' : print l s = (Done u, s') → s' = Run (trace s ++ [Said l]) (listing_cache s) ∧ later s s' ∧ said s s' l.
Proof. intros [= _ <-]. split_and!; [done|apply later_event|]. exists [Said l]. by rewrite list_elem_of_singleton. Qed.

(** The states of a run whose parts are known. *)
Ltac laters := repeat match goal with
  | H : print _ _ = (Done _, _) |- _ => apply print_Done in H as (_ & ? & ?)
  | H : ?m ?s = (Done _, ?s') |- _ =>
    lazymatch goal with L : later s s' |- _ => fail | _ => idtac end;
    assert (later s s') by (eapply (keeps_step later); [|exact H];
      first [ apply gather_keeps | apply read_clock_keeps | apply print_facts_keeps | apply decide_keeps | apply newest_facts_keeps
            | apply newest_verdict_keeps | apply read_internal_keeps | apply read_partner_keeps | apply find_newest_keeps
            | apply ask_newest_keeps | apply read_newest_keeps | apply missing_keeps | keep_ask ]; apply _)
  end.
Ltac saying := match goal with H : said ?s ?s' ?l |- said _ _ ?l => apply (said_wider _ s s'); [chain|chain|exact H] end.

(** ** The verdict *)

Definition tier_code (t : tier) : Z := match t with Drift => 1 | _ => 0 end.

(** What [decide_verdict] decided, and that it said so. *)
Inductive decided (args : Args) (f : facts) (c : declared_clock) (s s' : run) : option (verdict * subject * Z) → Prop :=
| d_fault p x : missing c = ∅ → partner f = PFault p x → decided args f c s s' None
| d_clean b : missing c = ∅ → (partner f = PNotChecked ∨ ∃ p r, partner f = PMissing p r ∅) → said s s' (LClean (version f) b) →
    decided args f c s s' (Some (Clean, Internal, 0))
| d_partner p r m : missing c = ∅ → partner f = PMissing p r m → m ≠ ∅ →
    let t := _tier (age c) (a_soft args) (a_hard args) in
    said s s' (LVerdict t Partner (version f) m (age c) (tagged c)) → decided args f c s s' (Some (Tier t, Partner, tier_code t))
| d_internal : missing c ≠ ∅ → let t := _tier (age c) (a_soft args) (a_hard args) in
    said s s' (LVerdict t Internal (version f) (missing c) (age c) (tagged c)) → decided args f c s s' (Some (Tier t, Internal, tier_code t)).

Section verdicts.
Context `{DriftWorld} (args : Args).

Lemma decide_Done f c s d s' : decide_verdict args f c s = (Done d, s') → decided args f c s s' d.
Proof.
  unfold decide_verdict. case_bool_decide as Em.
  - destruct (partner f) as [p x| |p r m] eqn:Ep; intros Hd.
    + inv_done. by eapply d_fault.
    + inv_done. laters. apply (d_clean _ _ _ _ _ false); [done|by left|saying].
    + case_bool_decide as Epm; inv_done; laters.
      * apply (d_clean _ _ _ _ _ true); [done|by eauto|saying].
      * eapply d_partner; [done..|saying].
  - intros Hd. inv_done. laters. by apply d_internal.
Qed.

Lemma newest_verdict_Done f s t s' : print_newest_verdict args f s = (Done t, s') →
  match newest f with
  | NAsked v _ m a => if decide (m = ∅) then t = None else t = Some (_tier a (a_soft args) (a_hard args)) ∧
      said s s' (LNewestVerdict (_tier a (a_soft args) (a_hard args)) v (version f) m a)
  | _ => t = None
  end.
Proof.
  unfold print_newest_verdict. destruct (newest f) as [w|x|v n|v n m a]; intros Hd; [by inv_done|by inv_done|by inv_done|].
  case_bool_decide; inv_done; case_decide; try done. laters. split; [done|saying].
Qed.
End verdicts.

(** ** Reporting *)

(** What the check asks of [gh]: [gh api] and [gh issue VERB] for these verbs. *)
Definition gh_verb (verbs : list pystr) (a : list arg) : Prop := ∃ x b r, a = Txt x :: Txt b :: r ∧
  (x = lit "api" ∨ x = lit "issue" ∧ b ∈ verbs).
Definition WRITES : list pystr := [lit "create"; lit "comment"; lit "reopen"].

(** A relation that writing to GitHub preserves; one that running [gh issue list] preserves; and one that the listing
    does, which runs it at most once and remembers the answer. *)
Class writes (R : run → run → Prop) : Prop := {
  writes_tells :: tells R;
  writes_gh a s : gh_verb WRITES a → R s (Run (trace s ++ [Ran (Gh a)]) (listing_cache s))
}.
Class lists (R : run → run → Prop) : Prop := {
  lists_writes :: writes R;
  lists_list a s : gh_verb [lit "list"] a → R s (Run (trace s ++ [Ran (Gh a)]) (listing_cache s))
}.
Class reports `{DriftWorld} (R : run → run → Prop) : Prop := {
  reports_writes :: writes R;
  reports_listing : keeps R listing
}.

Ltac verb := eexists _, _, _; split; [done|]; first [by left|right; split; [done|]; unfold WRITES; rewrite !elem_of_cons; by auto 10].

Section writing.
Context `{DriftWorld} (R : run → run → Prop) `{!writes R}.

Lemma gh_keeps a repo : gh_verb WRITES a → keeps R (_gh a repo).
Proof.
  intros (x & b & r & -> & Hx). unfold _gh. apply keeps_bind; [apply _| |intros; keep].
  intros s. apply writes_gh. eexists _, _, _. split; [done|exact Hx].
Qed.
Ltac gh := apply gh_keeps; verb.

Lemma issue_repo_keeps : keeps R issue_repo.
Proof. unfold issue_repo. keep. Qed.
Lemma read_issues_keeps l : keeps R (read_issues l).
Proof. induction l as [|x l IH]; cbn [read_issues]; unfold read_issue; keep. Qed.
Lemma notice_keeps i t v x : keeps R (notice_can_close i t v x).
Proof. unfold notice_can_close. keep; (apply tell_keeps; [apply _|done]). Qed.
Lemma report_drift_keeps x i r : keeps R (report_drift x i r).
Proof. unfold report_drift. keep; first [apply notice_keeps|(apply tell_keeps; [apply _|done])|gh]. Qed.
Lemma parse_runs_keeps l : keeps R (parse_runs l).
Proof. induction l as [|x l IH]; cbn [parse_runs]; keep; apply parse_iso_keeps; apply _. Qed.
Lemma stale_keeps now : keeps R (_staleness_heartbeat now).
Proof.
  unfold _staleness_heartbeat, or_warn, read_history.
  keep; first [apply issue_repo_keeps|apply parse_runs_keeps|(apply tell_keeps; [apply _|done])|gh].
Qed.
Lemma warn_keeps now : keeps R (warn_if_schedule_is_stale now).
Proof.
  intros s. assert (Hs := stale_keeps now s). unfold warn_if_schedule_is_stale.
  destruct (_staleness_heartbeat now s) as [[u|x|e] s']; cbn [snd] in *; [done| |].
  - etrans; [done|]. (apply tell_keeps; [apply _|done]).
  - destruct (isa e CException); [|done]. etrans; [done|]. (apply tell_keeps; [apply _|done]).
Qed.
End writing.

Section listing.
Context `{DriftWorld} (R : run → run → Prop) `{!lists R}.

Lemma fetch_issues_keeps repo : keeps R (fetch_issues repo).
Proof. 
  unfold fetch_issues. keep; first [apply read_issues_keeps; apply _|(apply tell_keeps; [apply _|done])|idtac].
  unfold _gh. apply keeps_bind; [apply _| |intros; keep]. intros s. apply lists_list. verb.
Qed.
Lemma fetch_listing_keeps : keeps R fetch_listing.
Proof. unfold fetch_listing; keep; first [apply issue_repo_keeps; apply _|apply fetch_issues_keeps]. Qed.
Lemma uncached_listing_keeps : (∀ s s' x, R s s' → R s (Run (trace s') x)) → keeps R listing.
Proof.
  intros Hx s. unfold listing. destruct (listing_cache s) as [[x|l]|]; [reflexivity..|].
  pose proof (fetch_listing_keeps s) as Hf. destruct (fetch_listing s) as [[l|x|e] s']; cbn [snd] in *; [by apply Hx..|done].
Qed.
End listing.

Section reporting.
Context `{DriftWorld} (args : Args) (R : run → run → Prop) `{!reports R}.

Lemma file_keeps x c : keeps R (file x c).
Proof. unfold file. keep; first [apply reports_listing|apply report_drift_keeps; apply _]. Qed.
Lemma report_declared_keeps f c v s code n : keeps R (report_declared f c v s code n).
Proof.
  unfold report_declared, report_clean. keep; first [apply file_keeps|apply reports_listing|apply notice_keeps; apply _|(apply tell_keeps; [apply _|done])].
Qed.
Lemma report_newest_keeps f v n : keeps R (report_newest f v n).
Proof.
  unfold report_newest, report_newest_clean. keep;
    first [apply reports_listing|apply notice_keeps; apply _|apply report_drift_keeps; apply _|apply tag_present_keeps; apply _].
Qed.
Lemma heartbeat_keeps now code : keeps R (heartbeat now code).
Proof.
  intros s. unfold heartbeat. destruct (listing_cache s); [|reflexivity].
  revert s. change (keeps R (_ ← warn_if_schedule_is_stale now; mret code)). keep. apply warn_keeps; apply _.
Qed.
End reporting.

Section running.
Context `{DriftWorld} (args : Args) (R : run → run → Prop) `{!reports R, !asks R}.

Lemma report_keeps f c v s code n : keeps R (report f c v s code n).
Proof.
  unfold report. keep; first [apply report_declared_keeps|apply report_newest_keeps|apply print_keeps|apply heartbeat_keeps]; apply _.
Qed.
Lemma judge_keeps f c : keeps R (judge args f c).
Proof.
  unfold judge. keep; first [apply print_facts_keeps|apply decide_keeps|apply newest_verdict_keeps|apply print_keeps|apply report_keeps]; apply _.
Qed.
Lemma main_keeps : keeps R (main args).
Proof.
  unfold main, or_error. keep; first [apply gather_keeps|apply read_clock_keeps|apply newest_facts_keeps|apply newest_verdict_keeps
    |apply print_keeps|apply judge_keeps]; apply _.
Qed.
End running.

Global Instance extends_lists : lists extends.
Proof. split; [split; [split; [apply _|..]|]|]; intros; by eexists [_]. Qed.
Global Instance later_lists `{DriftWorld} : lists later.
Proof. split; [split; [apply _|]|]; intros; apply later_event. Qed.
Global Instance later_reports `{DriftWorld} : reports later.
Proof.
  split; [apply _|]. intros s. unfold listing. destruct (listing_cache s) as [[x|l]|] eqn:Hc; [reflexivity..|].
  pose proof (fetch_listing_keeps later s) as Hf. destruct (fetch_listing s) as [[l|x|e] s'] eqn:E; cbn [snd] in *; [| |done].
  - destruct Hf as [Hf _]. split; [done|]. intros l' [= <-]. right. exists s, s'. split_and!; [reflexivity|done|by exists []; rewrite app_nil_r].
  - by destruct Hf as [Hf _].
Qed.

(** ** What the check does to GitHub *)

(** The calls to [gh] are a listing, the creation, comment or reopening of an issue, or a reading of the API. *)
Definition additive (e : event) : Prop := match e with Ran (Gh a) => gh_verb (lit "list" :: WRITES) a | _ => True end.
Definition only_additive : run → run → Prop := only_events additive.

Global Instance only_additive_asks : asks only_additive.
Proof. split; [split; [apply _|..]|]; intros; apply only_event; [done| |done]. by destruct c. Qed.
Global Instance only_additive_lists : lists only_additive.
Proof.
  split; [split; [apply _|]|..].
  - intros a s (x & b & r & -> & Hx). apply only_event. eexists _, _, _. split; [done|].
    destruct Hx as [?|[? ?]]; [by left|right; split; [done|by right]].
  - intros a s (x & b & r & -> & Hx). apply only_event. eexists _, _, _. split; [done|].
    destruct Hx as [?|[? ->%list_elem_of_singleton]]; [by left|right; split; [done|by left]].
Qed.
Global Instance only_additive_reports `{DriftWorld} : reports only_additive.
Proof. split; [apply _|]. apply uncached_listing_keeps; [apply _|]. by intros s s' x Hl. Qed.

(** The check only ever adds: whatever happens, every [gh] command it runs lists issues, creates one, comments
    on one, reopens one, or reads the API; it never closes, edits or deletes. *)
Theorem github_only_added_to `{DriftWorld} args o s s' : main args s = (o, s') → only_additive s s'.
Proof. apply keeps_step, main_keeps; apply _. Qed.

(** A line that says the declared version drifted or is served, or that the newest one drifted. *)
Definition reaches_github (l : dline) : bool :=
  match l with LVerdict Drift _ _ _ _ _ | LNewestVerdict Drift _ _ _ _ | LClean _ _ => true | _ => false end.

Section grace.
Context `{DriftWorld} (args : Args).

Lemma grace_report f c v s code n st o st' : reaches v = false → is_drift n = false → listing_cache st = None →
  report f c v s code n st = (o, st') → silent st st'.
Proof.
  intros Hv Hn Hc Hr.
  assert (Hd : report_declared f c v s code (is_drift n) = mret code) by (destruct v as [|[]], s; done).
  assert (He : report_newest f v n = mret n).
  { unfold report_newest. rewrite Hv. destruct (newest f); [done..|]. rewrite andb_false_r. by destruct n as [[]|]. }
  unfold report in Hr. rewrite Hd, He in Hr. unfold handling, mbind, script_bind, mret, script_ret in Hr.
  unfold heartbeat in Hr. rewrite Hc in Hr. injection Hr as _ <-. reflexivity.
Qed.

(** Every [gh] command between the two states was run after such a line was printed, in the run. *)
Definition after_verdict (s s' : run) : Prop := ∃ es, trace s' = trace s ++ es ∧
  ∀ before a rest, es = before ++ Ran (Gh a) :: rest → ∃ l, Said l ∈ trace s ++ before ∧ reaches_github l = true.

Lemma silent_after_verdict s s' : silent s s' → after_verdict s s'.
Proof.
  intros [(es & E & Hs) _]. exists es. split; [done|]. intros before a rest ->.
  apply Forall_app in Hs as [_ Hs]. apply Forall_cons in Hs as [Hs _]. discriminate Hs.
Qed.
Lemma after_verdict_trans s s1 s' : after_verdict s s1 → after_verdict s1 s' → after_verdict s s'.
Proof.
  intros (es & E & Hg) (es' & E' & Hg'). exists (es ++ es'). split; [by rewrite E', E, (assoc_L (++))|].
  intros before a rest Hb. apply app_eq_inv in Hb as [(k & -> & Hk)|(k & -> & Hk)].
  - destruct k as [|e k]; [|injection Hk as <- ->; by eapply Hg].
    rewrite app_nil_r in *. destruct (Hg' [] a rest (eq_sym Hk)) as (l & Hl & Hr). exists l. split; [|done]. by rewrite <- E, <- (app_nil_r (trace s1)).
  - destruct (Hg' k a rest Hk) as (l & Hl & Hr). exists l. split; [|done]. by rewrite (assoc_L (++)), <- E.
Qed.
Lemma after_verdict_bind {A B} (m : D A) (k : A → D B) s : keeps silent m →
  (∀ a s1, m s = (Done a, s1) → after_verdict s1 (k a s1).2) → after_verdict s ((m ≫= k) s).2.
Proof.
  intros Hm Hk. specialize (Hm s). unfold mbind, script_bind. destruct (m s) as [[a|x|e] s1]; cbn [snd] in *; [|by apply silent_after_verdict..].
  eapply after_verdict_trans; [by apply silent_after_verdict|by apply Hk].
Qed.
Lemma after_verdict_silent {A} (m : D A) s : keeps silent m → after_verdict s (m s).2.
Proof. intros Hm. apply silent_after_verdict, Hm. Qed.

Lemma report_after_verdict f c v s code n st :
  listing_cache st = None → (reaches v = true ∨ is_drift n = true → ∃ l, Said l ∈ trace st ∧ reaches_github l = true) →
  after_verdict st (report f c v s code n st).2.
Proof.
  intros Hc Hl. destruct (reaches v || is_drift n) eqn:E.
  - apply orb_true_iff in E. destruct (Hl E) as (l & Hin & Hr).
    destruct (report_keeps later f c v s code n st) as [[es Hes] _]. exists es. split; [done|]. intros before a rest _.
    exists l. split; [|done]. apply elem_of_app. by left.
  - apply orb_false_iff in E as [Ev En]. apply silent_after_verdict. destruct (report f c v s code n st) as [o st'] eqn:Er. by eapply grace_report.
Qed.

Lemma said_in s s' s1 l : said s s' l → later s' s1 → Said l ∈ trace s1.
Proof. intros (es & E & Hl) [[l1 E1] _]. rewrite E1, E, !elem_of_app. by auto. Qed.

Lemma judge_after_verdict f c st : listing_cache st = None → after_verdict st (judge args f c st).2.
Proof.
  intros Hc. unfold judge. apply after_verdict_bind; [apply print_facts_keeps; apply _|]. intros [] s1 H1.
  apply after_verdict_bind; [apply decide_keeps; apply _|]. intros d s2 H2. destruct d as [[[v sub] code]|]; [|by apply after_verdict_silent, (keeps_ret silent)].
  apply after_verdict_bind; [apply newest_verdict_keeps; apply _|]. intros n s3 H3.
  assert (Hc3 : listing_cache s3 = None).
  { apply (keeps_step silent) in H1 as (_ & C1); [|apply print_facts_keeps; apply _].
    apply (keeps_step silent) in H2 as (_ & C2); [|apply decide_keeps; apply _].
    apply (keeps_step silent) in H3 as (_ & C3); [|apply newest_verdict_keeps; apply _]. congruence. }
  assert (L3 : later s2 s3) by (eapply (keeps_step later); [apply newest_verdict_keeps; apply _|done]).
  assert (Hr : ∀ s4, later s3 s4 → listing_cache s4 = None → after_verdict s4 (report f c v sub code n s4).2).
  { intros s4 L4 C4. apply report_after_verdict; [done|]. intros [Hv|Hn].
    - apply decide_Done in H2. inversion H2; subst; simplify_eq;
        match goal with Hs : said s1 s2 ?l |- _ => exists l; split; [eapply said_in; [exact Hs|]; by etrans|] end;
        [done|cbn in Hv |- *; by destruct (_tier _ _ _)..].
    - apply newest_verdict_Done in H3. destruct (newest f); subst; try done. case_decide; subst; [done|]. destruct H3 as [-> H3].
      eexists. split; [eapply said_in; [exact H3|done]|]. by destruct (_tier _ _ _). }
  destruct (partner_error f) as [x|].
  - apply after_verdict_bind; [apply print_keeps; apply _|]. intros [] s4 H4. apply print_Done in H4 as (-> & L4 & _).
    destruct v as [|[]]; try (by apply after_verdict_silent, (keeps_ret silent)).
    destruct (a_report args); [by apply Hr|by apply after_verdict_silent, (keeps_ret silent)].
  - destruct (a_report args); [by apply Hr|by apply after_verdict_silent, (keeps_ret silent)].
Qed.

(** C30. A grace tier never touches GitHub. In any run, every [gh] command is run after the check has printed, in that
    run, that the declared version drifted or is served, or that the newest version drifted: a deferral or a
    warning contributes no read, and a verdict is on record before anything is reported. *)
Theorem grace_never_touches_github o s' : main args start = (o, s') → after_verdict start s'.
Proof.
  intros Hm. replace s' with (main args start).2 by by rewrite Hm. clear Hm o s'. unfold main, or_error.
  destruct (negb python_311); [apply after_verdict_silent; keep; apply print_keeps; apply _|].
  assert (Hg : ∀ (A : Type) (m : D A), keeps silent m → keeps silent (handling (Some <$> m) (λ x, _ ← print (LError x); mret None))).
  { intros A m Hm. keep; first [done|apply print_keeps; apply _]. }
  apply after_verdict_bind; [apply Hg, gather_keeps; apply _|]. intros [f|] s1 H1; [|by apply after_verdict_silent, (keeps_ret silent)].
  apply after_verdict_bind; [apply Hg, read_clock_keeps; apply _|]. intros [c|] s2 H2.
  - apply judge_after_verdict. apply (keeps_step silent) in H1 as (_ & C1); [|apply Hg, gather_keeps; apply _].
    apply (keeps_step silent) in H2 as (_ & C2); [|apply Hg, read_clock_keeps; apply _]. by rewrite C2, C1.
  - apply after_verdict_silent. keep; first [apply newest_facts_keeps|apply newest_verdict_keeps]; apply _.
Qed.
End grace.

(** ** One listing per run *)

Definition is_listing (c : call) : bool :=
  match c with Gh (Txt x :: Txt b :: _) => bool_decide (x = lit "issue") && bool_decide (b = lit "list") | _ => false end.
Definition listings (s : run) : nat := length (filter (λ c, is_listing c = true) (calls s)).

Definition unlisted (s s' : run) : Prop := listings s' = listings s ∧ listing_cache s' = listing_cache s.
Lemma calls_ran c s x : calls (Run (trace s ++ [Ran c]) x) = calls s ++ [c].
Proof. unfold calls. cbn [trace]. by rewrite omap_app. Qed.
Lemma calls_said l s x : calls (Run (trace s ++ [Said l]) x) = calls s.
Proof. unfold calls. cbn [trace]. rewrite omap_app. apply app_nil_r. Qed.
Lemma listings_call c s x : listings (Run (trace s ++ [Ran c]) x) = (listings s + if is_listing c then 1 else 0)%nat.
Proof. unfold listings. rewrite calls_ran, filter_app, length_app, filter_cons. by destruct (is_listing c). Qed.
Lemma listings_said l s x : listings (Run (trace s ++ [Said l]) x) = listings s.
Proof. unfold listings. by rewrite calls_said. Qed.
Global Instance unlisted_asks : asks unlisted.
Proof.
  assert (PreOrder unlisted) by (split; [done|]; intros s1 s2 s3 [E1 C1] [E2 C2]; split; congruence).
  split; [split; [done|..]|].
  - intros l s _. by split; [apply listings_said|].
  - intros c s Hc. split; [|done]. rewrite listings_call. destruct c; cbn [is_listing]; [lia..|done].
  - intros l s _. by split; [apply listings_said|].
Qed.
Global Instance unlisted_writes : writes unlisted.
Proof.
  split; [apply _|]. intros a s (x & b & r & -> & Hx). split; [|done]. rewrite listings_call. cbn [is_listing].
  destruct Hx as [->|[-> Hb]]; [by rewrite bool_decide_eq_false_2, Nat.add_0_r|].
  rewrite (bool_decide_eq_false_2 (b = lit "list")); [by rewrite andb_false_r, Nat.add_0_r|].
  intros ->. revert Hb. unfold WRITES. rewrite !elem_of_cons. intros [[=]|[[=]|[[=]|[]%not_elem_of_nil]]].
Qed.

(** At most one listing, and none until the run remembers it. *)
Definition once (s : run) : Prop := match listing_cache s with None => listings s = 0%nat | Some _ => (listings s ≤ 1)%nat end.
Definition lists_once {A} (m : D A) : Prop := ∀ s, once s →
  (listings (m s).2 ≤ 1)%nat ∧ match (m s).1 with Escaped _ => True | _ => once (m s).2 end.

Lemma once_le s : once s → (listings s ≤ 1)%nat.
Proof. unfold once. destruct (listing_cache s); lia. Qed.
Lemma lists_once_keeps {A} (m : D A) : keeps unlisted m → lists_once m.
Proof.
  intros Hm s Hs. destruct (Hm s) as [E C]. assert (once (m s).2) as H1 by (unfold once in *; by rewrite C, E).
  split; [by apply once_le|by destruct (m s).1].
Qed.
Lemma lists_once_bind {A B} (m : D A) (k : A → D B) : lists_once m → (∀ a, lists_once (k a)) → lists_once (m ≫= k).
Proof.
  intros Hm Hk s Hs. specialize (Hm s Hs). unfold mbind, script_bind. destruct (m s) as [[a|x|e] s1]; cbn [fst snd] in *; [|done..].
  apply Hk, Hm.
Qed.
Lemma lists_once_handling {A} (m : D A) h : lists_once m → (∀ x, lists_once (h x)) → lists_once (handling m h).
Proof.
  intros Hm Hh s Hs. specialize (Hm s Hs). unfold handling. destruct (m s) as [[a|x|e] s1]; cbn [fst snd] in *; [done| |done].
  apply Hh, Hm.
Qed.

Section once.
Context `{DriftWorld} (args : Args).

Lemma fetch_listing_count s : (listings (fetch_listing s).2 ≤ listings s + 1)%nat.
Proof.
  assert (Hi : ∀ s, listings (issue_repo s).2 = listings s) by (intros s0; by apply (issue_repo_keeps unlisted)).
  assert (Hf : ∀ r s, (listings (fetch_issues r s).2 ≤ listings s + 1)%nat).
  { intros r s0. unfold fetch_issues, mbind, script_bind.
    assert (Hg : ∀ a, (listings (_gh a (Some r) s0).2 ≤ listings s0 + 1)%nat).
    { intros a. unfold _gh, mbind, script_bind, invoke.
      assert (Hc := listings_call (Gh (a ++ [Txt (lit "--repo"); Txt r])) s0 (listing_cache s0)).
      match type of Hc with listings ?st = _ => set (s1 := st) in *; transitivity (listings s1); [|destruct (is_listing _); lia] end.
      destruct (run_call _ _) as [[code o]|e]; repeat case_match; reflexivity. }
    specialize (Hg [Txt (lit "issue"); Txt (lit "list"); Txt (lit "--state"); Txt (lit "all"); Txt (lit "--limit"); Txt (lit "500");
             Txt (lit "--json"); Txt (lit "number,state,title,labels"); Txt (lit "--jq"); Txt _ISSUE_LIST_JQ]).
    destruct (_gh _ _ s0) as [[raw|x|e] s1]; [|done..].
    assert (Hr : keeps unlisted (issues ← read_issues (splitlines raw); _ ← (if (length issues =? ISSUE_LIMIT)%nat then print LTruncated else mret ()); mret issues)).
    { keep; first [apply read_issues_keeps|apply print_keeps]; apply _. }
    destruct (Hr s1) as [E _]. unfold mbind, script_bind in E. cbn [snd] in Hg. by rewrite E. }
  unfold fetch_listing, mbind, script_bind. specialize (Hi s). destruct (issue_repo s) as [[r|x|e] s1]; cbn [snd] in *; [|lia..].
  specialize (Hf r s1). destruct (fetch_issues r s1) as [[i|x|e] s2]; cbn [snd] in *; unfold mret, script_ret; cbn [snd]; lia.
Qed.

Lemma listing_once : lists_once listing.
Proof.
  intros s Hs. unfold listing. assert (Hc := fetch_listing_count s). unfold once in *.
  destruct (listing_cache s) as [[x|l]|] eqn:E; cbn [fst snd]; rewrite ?E; [done..|].
  destruct (fetch_listing s) as [[l|x|e] s']; cbn [fst snd listing_cache] in *; unfold listings, calls in *; cbn [trace] in *; split; lia || done.
Qed.

Ltac once_step := repeat match goal with
  | |- ∀ _, _ => intros
  | |- lists_once (_ ≫= _) => apply lists_once_bind
  | |- lists_once (handling _ _) => apply lists_once_handling
  | |- lists_once listing => apply listing_once
  | |- lists_once (match _ with _ => _ end) => case_match
  end.

Lemma file_once x c : lists_once (file x c).
Proof. unfold file. once_step; apply lists_once_keeps; [apply report_drift_keeps; apply _|keep]. Qed.
Lemma report_declared_once f c v s code n : lists_once (report_declared f c v s code n).
Proof.
  unfold report_declared, report_clean. once_step; try apply file_once; apply lists_once_keeps; keep;
    first [apply notice_keeps|apply print_keeps]; apply _.
Qed.
Lemma report_newest_once f v n : lists_once (report_newest f v n).
Proof.
  unfold report_newest, report_newest_clean. once_step; apply lists_once_keeps; keep;
    first [apply notice_keeps|apply report_drift_keeps|apply tag_present_keeps]; apply _.
Qed.
Lemma heartbeat_once now code : lists_once (heartbeat now code).
Proof.
  apply lists_once_keeps. intros s. unfold heartbeat. destruct (listing_cache s); [|reflexivity].
  revert s. change (keeps unlisted (_ ← warn_if_schedule_is_stale now; mret code)). keep. apply warn_keeps; apply _.
Qed.
Lemma report_once f c v s code n : lists_once (report f c v s code n).
Proof.
  unfold report. once_step; try apply report_declared_once; try apply report_newest_once; try apply heartbeat_once;
    apply lists_once_keeps; keep; apply print_keeps; apply _.
Qed.
Lemma judge_once f c : lists_once (judge args f c).
Proof.
  unfold judge. once_step; try apply report_once; apply lists_once_keeps; keep;
    first [apply print_facts_keeps|apply decide_keeps|apply newest_verdict_keeps|apply print_keeps]; apply _.
Qed.

(** One listing per run: however many questions report, and whether or not it fails, [gh issue list] is run at
    most once, so no two reports of a run can see different listings. *)
Theorem one_listing_per_run o s' : main args start = (o, s') → (listings s' ≤ 1)%nat.
Proof.
  intros Hm. replace s' with (main args start).2 by by rewrite Hm. clear Hm o s'.
  enough (Ho : lists_once (main args)) by by apply Ho. unfold main, or_error. once_step; try apply judge_once;
    apply lists_once_keeps; keep;
    first [apply gather_keeps|apply read_clock_keeps|apply newest_facts_keeps|apply newest_verdict_keeps|apply print_keeps]; apply _.
Qed.
End once.

(** ** The decision table *)

(** What [report_drift] does with the issue of its title, as commands in order. *)
Definition report_commands (x : finding) (issues : list issue) (repo : pystr) : list call :=
  let to_repo a := Gh (a ++ [Txt (lit "--repo"); Txt repo]) in
  match _exact issues (drift_title x) with
  | None =>
    let cross := _exact issues (RELEASE_NOTICE_TITLE (f_version x)) ≫= λ i, if is_open i then Some i else None in
    [to_repo [Txt (lit "issue"); Txt (lit "create"); Txt (lit "--title"); Txt (drift_title x); Txt (lit "--body"); Body (body_for x cross)]]
  | Some i =>
    if is_open i || bool_decide (SUPPRESSION_LABEL ∈ labels i) then []
    else [to_repo [Txt (lit "issue"); Txt (lit "comment"); Txt (str_of_int (number i)); Txt (lit "--body"); Body (body_for x None)];
          to_repo [Txt (lit "issue"); Txt (lit "reopen"); Txt (str_of_int (number i))]]
  end.
(** Closed, and labelled. *)
Definition is_suppressed (x : finding) (issues : list issue) : bool :=
  match _exact issues (drift_title x) with Some i => negb (is_open i) && bool_decide (SUPPRESSION_LABEL ∈ labels i) | None => false end.

(** Calls grow by exactly [l]. *)
Definition ran (l : list call) (s s' : run) : Prop := calls s' = calls s ++ l.

Lemma gh_Done `{DriftWorld} a r s t s' : _gh a (Some r) s = (Done t, s') → ran [Gh (a ++ [Txt (lit "--repo"); Txt r])] s s'.
Proof.
  unfold _gh, ran. intros Hg. apply bind_Done in Hg as (x & s1 & Hi & Hg). injection Hi as <- <-. revert Hg. set (s1 := Run _ _). intros Hg.
  assert (Ec : calls s1 = calls s ++ [Gh (a ++ [Txt (lit "--repo"); Txt r])]) by apply calls_ran.
  destruct (run_call _ _) as [[code o]|e]; [destruct (code =? 0); inv_done; by rewrite <- Ec|].
  destruct (isa e CFileNotFoundError); [inv_done|]. destruct (isa e COSError); [inv_done|].
  destruct e; try (by inv_done). case_bool_decide; inv_done.
Qed.
Lemma print_ran `{DriftWorld} l s u s' : print l s = (Done u, s') → ran [] s s' ∧ said s s' l.
Proof. intros Hp. pose proof (print_Done _ _ _ _ Hp) as (-> & _ & Hs). split; [unfold ran; by rewrite calls_said, app_nil_r|exact Hs]. Qed.
Lemma notice_ran `{DriftWorld} i t v x s u s' : notice_can_close i t v x s = (Done u, s') → ran [] s s'.
Proof.
  unfold notice_can_close. destruct (_exact i t) as [j|]; [destruct (is_open j)|]; intros Hn.
  1: by apply print_ran in Hn as [? _]. all: inv_done; by unfold ran; rewrite app_nil_r.
Qed.
Lemma ran_app l1 l2 s s1 s' : ran l1 s s1 → ran l2 s1 s' → ran (l1 ++ l2) s s'.
Proof. unfold ran. intros E1 E2. by rewrite E2, E1, (assoc_L (++)). Qed.

(** The decision table of a report. When it succeeds: without an issue of the exact title it creates one; an open
    one it leaves alone; a closed one it comments on and then reopens, in that order; a closed one that
    carries the label it leaves alone, and only then is the drift suppressed. *)
Theorem report_drift_table `{DriftWorld} x issues repo b s s' : report_drift x issues repo s = (Done b, s') →
  ran (report_commands x issues repo) s s' ∧ b = is_suppressed x issues.
Proof.
  unfold report_drift, report_commands, is_suppressed. intros Hr. apply bind_Done in Hr as ([] & s1 & H1 & Hr).
  assert (Hn : ran [] s s1).
  { destruct (f_subject x); [inv_done; by unfold ran; rewrite app_nil_r|by apply notice_ran in H1]. }
  assert (Hp : ∀ l, ran l s1 s' → ran l s s') by (intros l; by apply (ran_app [])).
  destruct (_exact issues (drift_title x)) as [i|].
  - destruct (is_open i) eqn:Eo; cbn [orb negb andb]; [|destruct (bool_decide (SUPPRESSION_LABEL ∈ labels i)) eqn:El]; inv_done;
      repeat match goal with
      | H : print _ _ = _ |- _ => apply print_ran in H as [? _]
      | H : _gh _ _ _ = _ |- _ => apply gh_Done in H
      end; (split; [apply Hp|done]); [done|done|].
    eapply (ran_app [_]); [eassumption|]. eapply (ran_app [_]); [eassumption|done].
  - inv_done. match goal with H : print _ _ = _ |- _ => apply print_ran in H as [? _] end.
    match goal with H : _gh _ _ _ = _ |- _ => apply gh_Done in H end.
    split; [apply Hp|done]. eapply (ran_app [_] []); eassumption.
Qed.

(** ** What an answer of a registry says *)

Definition served (ds : list row) (v f : pystr) : Prop :=
  ∃ r, r ∈ ds ∧ is_seam_sdk r = true ∧ row_get (lit "version") r = PStr v ∧ row_get (lit "format") r = PStr f.
(** The response holds [seam-sdk] at exactly this version in every required format; or not in [f]. *)
Definition serves (rows : pyval) (v : pystr) : Prop := ∃ ds, rows = PList (PDict <$> ds) ∧ ∀ f, f ∈ REQUIRED_FORMATS → served ds v f.
Definition lacks (rows : pyval) (v f : pystr) : Prop := ∃ ds, rows = PList (PDict <$> ds) ∧ f ∈ REQUIRED_FORMATS ∧ ¬ served ds v f.
Definition lag (rows : pyval) (v : pystr) (m : gset pystr) : Prop := (m = ∅ → serves rows v) ∧ (m ≠ ∅ → ∃ f, lacks rows v f).

Lemma registry_formats_Done rows v (s : run) fs s' : registry_formats rows v s = (Done fs, s') →
  s' = s ∧ ∃ ds, rows = PList (PDict <$> ds) ∧ ∀ f, f ∈ fs ↔ f ∈ REQUIRED_FORMATS ∧ served ds v f.
Proof.
  unfold registry_formats. intros Hf. inv_done.
  match goal with H : _seam_sdk_rows _ _ = _ |- _ => apply seam_sdk_rows_Done in H as (-> & ds & -> & ->) end.
  split; [done|]. exists ds. split; [done|]. intros f. rewrite elem_of_list_to_set, list_elem_of_omap. split.
  - intros (r & [Hs Hr]%list_elem_of_filter & He). destruct (py_eq_str _ v) eqn:Ev; [|done]. apply py_eq_str_true in Ev.
    apply required_format_Some in He as [Hq He]. split; [done|]. by exists r.
  - intros [Hq (r & Hr & Hs & Hv & Hf)]. exists r. split; [by apply list_elem_of_filter|].
    rewrite (proj2 (py_eq_str_true _ _) Hv). by apply required_format_Some.
Qed.
Lemma lag_of_formats rows v fs (s s' : run) : registry_formats rows v s = (Done fs, s') → lag rows v (required ∖ fs).
Proof.
  intros (-> & ds & -> & Hfs)%registry_formats_Done. split.
  - intros He. exists ds. split; [done|]. intros f Hf. destruct (decide (f ∈ fs)) as [Hin|Hn]; [by apply Hfs|].
    assert (f ∈ required ∖ fs) as Hd by (apply elem_of_difference; split; [by apply elem_of_list_to_set|done]).
    rewrite He in Hd. by apply not_elem_of_empty in Hd.
  - intros Hne. apply set_choose_L in Hne as [f [Hf Hn]%elem_of_difference]. apply elem_of_list_to_set in Hf.
    exists f, ds. split_and!; [done|done|]. intros Hs. by apply Hn, Hfs.
Qed.

Section answers.
Context `{DriftWorld} (args : Args).

(** The instrument was shown to work with this credential: some canary, another version than the one asked about,
    was queried and the answer holds it in every required format. *)
Definition canary_answered (s s' : run) (token url : pystr) : Prop :=
  ∃ target canary answer, obtained later s s' (assert_live_instrument_healthy target token url) canary ∧
    canary ∈ CANARY_VERSIONS ∧ canary ≠ target ∧ obtained later s s' (fetch_registry canary token url) answer ∧ serves answer canary.
(** A registry, shown by a canary to answer in this run, then answered [rows] to the query for [v]. *)
Definition proven (s s' : run) (url v : pystr) (rows : pyval) : Prop :=
  ∃ token s1 s2 s3, canary_answered s s1 token url ∧ later s1 s2 ∧ fetch_registry v token url s2 = (Done rows, s3) ∧ later s3 s'.
(** Internal answered [rows] to the query for the newest release. *)
Definition listed (s s' : run) (rows : pyval) : Prop := ∃ token, obtained later s s' (_curl_json REGISTRY_URL NEWEST_QUERY token) rows.

Lemma canary_wider s0 s1 s s' t u : later s s0 → later s1 s' → canary_answered s0 s1 t u → canary_answered s s' t u.
Proof.
  intros L0 L1 (g & c & a & Ho & Hin & Hne & Hf & Hs). exists g, c, a.
  split_and!; [by eapply (obtained_wider later)|done|done|by eapply (obtained_wider later)|done].
Qed.
Lemma proven_wider s0 s1 s s' u v r : later s s0 → later s1 s' → proven s0 s1 u v r → proven s s' u v r.
Proof.
  intros H0 H1 (t & x1 & x2 & x3 & Hc & L1 & Hf & L2). exists t, x1, x2, x3.
  split_and!; [by eapply canary_wider; [exact H0|reflexivity|]|done|done|by etrans].
Qed.

Lemma try_canaries_Done token url cs s c s' : try_canaries token url cs s = (Done c, s') →
  c ∈ cs ∧ ∃ answer, obtained later s s' (fetch_registry c token url) answer ∧ serves answer c.
Proof.
  revert s. induction cs as [|c0 cs IH]; intros s Hc; cbn [try_canaries] in Hc; [done|].
  apply bind_Done in Hc as (rows & s1 & Hf & Hc). apply bind_Done in Hc as (fs & s2 & Hr & Hc).
  assert (later s s1) by (eapply (keeps_step later); [apply fetch_registry_keeps; apply _|exact Hf]).
  pose proof (lag_of_formats _ _ _ _ _ Hr) as [Hl _]. apply registry_formats_Done in Hr as [-> _].
  case_bool_decide as Hq.
  - apply ret_Done in Hc as [-> ->]. split; [by left|]. exists rows. split; [exists s, s1; by split_and!|].
    apply Hl. by apply subseteq_empty_difference_L.
  - apply IH in Hc as (Hin & a & Ho & Hs). split; [by right|]. exists a. split; [|done].
    eapply (obtained_wider later); [eassumption|reflexivity|done].
Qed.
Lemma healthy_Done target token url s c s' : assert_live_instrument_healthy target token url s = (Done c, s') →
  canary_answered s s' token url.
Proof.
  intros Hh. assert (Ho : obtained later s s' (assert_live_instrument_healthy target token url) c) by (exists s, s'; by split_and!).
  unfold assert_live_instrument_healthy in Hh. apply bind_Done in Hh as ([] & s1 & He & Hh).
  assert (L : later s s1) by (eapply (keeps_step later); [|exact He]; unfold assert_query_safe; keep; apply _).
  set (cs := filter _ _) in Hh. assert (Ht : try_canaries token url cs s1 = (Done c, s')) by by destruct cs.
  apply try_canaries_Done in Ht as ([Hne Hin]%list_elem_of_filter & a & Hf & Hs).
  exists target, c, a. split_and!; [done|done|done|by eapply (obtained_wider later); [exact L|reflexivity|]|done].
Qed.

Lemma attempt_Done {A} w (m : D A) s r s' : attempt w m s = (Done r, s') → match r with inr a => m s = (Done a, s') | inl _ => True end.
Proof. unfold attempt. destruct (m s) as [[a|x|e] s1]; [by intros [= <- <-]|by intros [= <- <-]|]. destruct (isa e CException); [by intros [= <- <-]|done]. Qed.
Lemma missing_at_Done rows v s m s' : missing_at rows v s = (Done m, s') → s' = s ∧ lag rows v m.
Proof.
  unfold missing_at. intros Hm. inv_done. match goal with H : registry_formats _ _ _ = _ |- _ => pose proof (lag_of_formats _ _ _ _ _ H); apply registry_formats_Done in H as [-> _] end.
  done.
Qed.

(** What each question found, live. *)
Definition partner_found (s s' : run) (v : pystr) (p : partner_answer) : Prop :=
  match p with
  | PFault _ _ => True
  | PNotChecked => False
  | PMissing _ _ m => ∃ r, proven s s' PARTNER_REGISTRY_URL v r ∧ lag r v m
  end.
(** When the release of [v] was last attempted, by git: the later of its commit and of its tag, if it has one. *)
Definition attempted (s s' : run) (v : pystr) (t : Z) : Prop := ∃ landed tag,
  obtained later s s' (version_landed_at v) landed ∧ obtained later s s' (tag_created_at v) tag ∧
  t = match tag with Some t1 => Z.max landed t1 | None => landed end.
Lemma attempted_wider s0 s1 s s' v t : later s s0 → later s1 s' → attempted s0 s1 v t → attempted s s' v t.
Proof. intros L0 L1 (l & g & Hl & Hg & ->). exists l, g. split_and!; [by eapply (obtained_wider later)..|done]. Qed.
Definition newest_found (s s' : run) (nw : Z) (v : pystr) (p : partner_answer) (n : newest_state) : Prop :=
  match n with
  | NUnchecked _ => ∃ pr x, p = PFault pr x
  | NFault _ => True
  | NIsDeclared w _ => w = v ∧ ∃ ir, listed s s' ir ∧ serves ir v
  | NAsked w _ m a => ∃ ir r t, listed s s' ir ∧ serves ir w ∧ proven s s' PARTNER_REGISTRY_URL w r ∧ lag r w m ∧
      obtained later s s' (newest_upload_clock ir w) t ∧ a = float_max0 (minutes_between nw t)
  end.

Lemma fetch_newest_Done token p d s n raw w s' : fetch_newest token p d s = (Done (n, raw, w), s') → listed s s' raw ∧ serves raw n.
Proof.
  unfold fetch_newest. intros Hf.
  apply bind_Done in Hf as (raw0 & s1 & Hc & Hf). apply bind_Done in Hf as (m & s2 & Hm & Hf).
  apply bind_Done in Hf as ([] & s3 & Hq & Hf). apply bind_Done in Hf as ([] & s4 & Hd & Hf).
  apply bind_Done in Hf as ([o w0] & s5 & Hn & Hf).
  assert (L1 : later s s1) by (eapply (keeps_step later); [apply curl_keeps; apply _|exact Hc]).
  assert (Lr : later s1 s') .
  { apply seam_sdk_rows_Done in Hm as (-> & _). apply require_Done in Hq as [_ ->].
    apply (keeps_step later) in Hd; [|apply descending_keeps; apply _].
    apply (keeps_step later) in Hn; [|apply newest_complete_keeps; apply _].
    destruct o as [v|]; [|by inv_done]. etrans; [exact Hd|]. etrans; [exact Hn|]. unfold older in Hf.
    destruct d; inv_done; reflexivity. }
  assert (raw0 = raw ∧ o = Some n) as [-> ->].
  { destruct o as [v|]; [|by inv_done]. unfold older in Hf. destruct d; by inv_done. }
  split; [exists token, s, s1; split_and!; [reflexivity|done|done]|].
  apply newest_complete_Done in Hn as (ds & -> & (_ & Hc1) & _). exists ds. split; [done|]. intros f Hf1.
  destruct (Hc1 f Hf1) as (r & [Hs Hr]%list_elem_of_filter & Hv & Hfm). by exists r.
Qed.

Ltac laters_live := repeat match goal with
  | H : ?m ?s = (Done _, ?s') |- _ =>
    lazymatch goal with L : later s s' |- _ => fail | _ => idtac end;
    assert (later s s') by (eapply (keeps_step later); [|exact H];
      first [ apply attempt_keeps; keep; first [apply missing_keeps|keep_ask; apply _] | apply find_newest_keeps | apply missing_keeps
            | apply read_internal_keeps | apply read_partner_keeps | apply read_newest_keeps | keep_ask ]; apply _)
  end.
Lemma proven_of_canary s s1 s2 s3 s' token url v rows : canary_answered s s1 token url → later s1 s2 →
  fetch_registry v token url s2 = (Done rows, s3) → later s3 s' → proven s s' url v rows.
Proof. intros. by exists token, s1, s2, s3. Qed.

Lemma read_partner_Done v token can s p s' : read_partner args v (Some (token, can)) s = (Done p, s') →
  partner_found s s' v p ∧ match p with PMissing _ _ _ => canary_answered s s' token PARTNER_REGISTRY_URL | _ => True end.
Proof.
  unfold read_partner. intros Hp. apply bind_Done in Hp as (r & s1 & Hc & Hp). apply attempt_Done in Hc as Hc'.
  destruct r as [x|canary]; [apply ret_Done in Hp as [-> ->]; split; exact I|].
  apply bind_Done in Hp as (r & s2 & Hf & Hp). apply ret_Done in Hp as [-> ->].
  apply attempt_Done in Hf. destruct r as [x|m]; [split; exact I|]. clear Hc. apply bind_Done in Hf as (rows & s3 & Hf & Hm).
  laters_live. apply missing_at_Done in Hm as [-> Hl].
  apply healthy_Done in Hc' as Hca.
  split; [exists rows; split; [eapply proven_of_canary; [exact Hca|reflexivity|exact Hf|chain]|done]|].
  eapply canary_wider; [reflexivity| |exact Hca]. chain.
Qed.

Lemma find_newest_Done v rows token can s w raw wh s' : find_newest v rows (Some (token, can)) s = (Done (w, raw, wh), s') →
  listed s s' raw ∧ serves raw w.
Proof.
  unfold find_newest. intros Hf. apply bind_Done in Hf as (fs & s0 & Hr & Hf). apply registry_formats_Done in Hr as [-> _].
  by eapply fetch_newest_Done.
Qed.

Lemma ask_newest_Done nw v rows token can pr s0 s n s' : canary_answered s0 s token PARTNER_REGISTRY_URL → later s0 s →
  ask_newest nw v rows (Some (token, can)) pr s = (Done n, s') → ∀ p, newest_found s0 s' nw v p n.
Proof.
  intros Hca L0. unfold ask_newest. intros Hn p. apply bind_Done in Hn as ([[w raw] wh] & s1 & Hfn & Hn).
  destruct (find_newest_Done _ _ _ _ _ _ _ _ _ Hfn) as [(tk & Hl) Hs]. laters_live.
  assert (Hls : ∀ s2, later s1 s2 → listed s0 s2 raw) by (intros s2 L2; exists tk; eapply (obtained_wider later); [exact L0|exact L2|exact Hl]).
  case_bool_decide as Ew.
  - apply ret_Done in Hn as [-> ->]. split; [done|]. exists raw. subst w. by split; [apply Hls|].
  - apply bind_Done in Hn as (t & s2 & Hu & Hn). apply bind_Done in Hn as ([] & s3 & [_ ->]%require_Done & Hn).
    apply bind_Done in Hn as (m & s3 & Hm & Hn). apply bind_Done in Hm as (r & s4 & Hf & Hm). apply ret_Done in Hn as [-> ->].
    laters_live. apply missing_at_Done in Hm as [-> Hlag].
    exists raw, r, t. split_and!; [apply Hls; chain|done| |done| |done].
    + eapply proven_of_canary; [exact Hca| |exact Hf|reflexivity]. chain.
    + exists s1, s2. split_and!; [etrans; [exact L0|chain]|exact Hu|chain].
Qed.

Lemma read_newest_Done nw v rows token can p s0 s n s' : 
  match p with PMissing _ _ _ => canary_answered s0 s token PARTNER_REGISTRY_URL | _ => True end → later s0 s → p ≠ PNotChecked →
  read_newest nw v rows (Some (token, can)) p s = (Done n, s') → newest_found s0 s' nw v p n.
Proof.
  intros Hca L0 Hp. unfold read_newest. destruct p as [pr x| |pr r m]; intros Hn; [|done|].
  - apply ret_Done in Hn as [-> ->]. by exists pr, x.
  - apply bind_Done in Hn as (q & s1 & Ha & Hn). apply ret_Done in Hn as [-> ->]. apply attempt_Done in Ha.
    destruct q as [x|n]; [exact I|]. by eapply ask_newest_Done.
Qed.

Lemma newest_found_wider s0 s s' nw v p n : later s s0 → newest_found s0 s' nw v p n → newest_found s s' nw v p n.
Proof.
  intros L. assert (Hls : ∀ ir, listed s0 s' ir → listed s s' ir).
  { intros ir [tk Hl]. exists tk. eapply (obtained_wider later); [exact L|reflexivity|exact Hl]. }
  destruct n as [w|x|w k|w k m a]; cbn; [done|done| |].
  - intros (-> & ir & Hl & Hs). split; [done|]. exists ir. auto.
  - intros (ir & r & t & Hl & Hs & Hp & Hlag & Ht & ->). exists ir, r, t. split_and!; [by apply Hls|done| |done| |done].
    + by eapply proven_wider; [exact L|reflexivity|].
    + by eapply (obtained_wider later); [exact L|reflexivity|].
Qed.

Lemma gather_Done f s s' : a_packages args = None → gather args s = (Done f, s') →
  obtained later s s' source_version (version f) ∧ obtained later s s' (read_now args) (now f) ∧
  proven s s' REGISTRY_URL (version f) (rows f) ∧ partner_found s s' (version f) (partner f) ∧
  newest_found s s' (now f) (version f) (partner f) (newest f) ∧ a_soft args ≤ a_hard args.
Proof.
  intros Hl. unfold gather. intros Hg.
  apply bind_Done in Hg as ([] & s1 & [Hgrace%Z.leb_le ->]%require_Done & Hg). apply bind_Done in Hg as (nw & s1 & Hn & Hg).
  apply bind_Done in Hg as (v & s2 & Hv & Hg). apply bind_Done in Hg as ([] & s3 & [_ ->]%require_Done & Hg).
  apply bind_Done in Hg as ([] & s3 & [_ ->]%require_Done & Hg). apply bind_Done in Hg as ([rows lv] & s3 & Hi & Hg).
  apply bind_Done in Hg as (p & s4 & Hp & Hg). apply bind_Done in Hg as (n & s5 & Hne & Hg). apply ret_Done in Hg as [-> ->].
  cbn [now version Drift.rows partner newest].
  assert (later s s1) by (eapply (keeps_step later); [|exact Hn]; unfold read_now; keep; apply parse_iso_keeps; apply _).
  assert (later s2 s3) by (eapply (keeps_step later); [apply read_internal_keeps; apply _|exact Hi]).
  unfold read_internal in Hi. rewrite Hl in Hi. apply bind_Done in Hi as (token & x1 & Ht & Hi).
  apply bind_Done in Hi as (can & x2 & Hc & Hi). apply bind_Done in Hi as (r & x3 & Hf & Hi). apply ret_Done in Hi as [[= -> ->] ->].
  laters_live. destruct (read_partner_Done _ _ _ _ _ _ Hp) as [Hpf Hca].
  apply healthy_Done in Hc as Hih.
  split_and!; [obtain|obtain| | | |exact Hgrace].
  - eapply proven_of_canary; [|reflexivity|exact Hf|chain]. eapply canary_wider; [|reflexivity|exact Hih]. chain.
  - destruct p as [pr x| |pr q m]; [exact I|done|]. destruct Hpf as (r' & Hpr & Hlag). exists r'. split; [|done].
    eapply proven_wider; [| |exact Hpr]; chain.
  - assert (Hnf : newest_found x3 s5 nw v p n) by (eapply read_newest_Done; [exact Hca|done|by intros ->|exact Hne]).
    eapply newest_found_wider; [|exact Hnf]. chain.
Qed.

Lemma read_clock_Done f c s s' : read_clock f s = (Done c, s') →
  lag (rows f) (version f) (missing c) ∧ age c = float_max0 (minutes_between (now f) (started c)) ∧
  attempted s s' (version f) (started c).
Proof.
  unfold read_clock. intros Hc. apply bind_Done in Hc as (fs & s1 & Hf & Hc). apply bind_Done in Hc as (t0 & s2 & Ht & Hc).
  apply bind_Done in Hc as (tg & s3 & Htg & Hc). apply bind_Done in Hc as (td & s4 & Htd & Hc).
  apply bind_Done in Hc as ([] & s5 & [_ ->]%require_Done & Hc). apply ret_Done in Hc as [-> ->]. cbn [missing age started].
  pose proof (lag_of_formats _ _ _ _ _ Hf) as Hl. apply registry_formats_Done in Hf as [-> _].
  assert (later s s2) by (eapply (keeps_step later); [apply landed_keeps; apply _|exact Ht]).
  assert (later s2 s3) by (eapply (keeps_step later); [apply tag_present_keeps; apply _|exact Htg]).
  assert (later s3 s4) by (eapply (keeps_step later); [apply tag_created_keeps; apply _|exact Htd]).
  assert (later s4 s4) by reflexivity.
  assert (later s3 s4) by (eapply (keeps_step later); [apply tag_created_keeps; apply _|exact Htd]).
  split_and!; [done|done|]. exists t0, td. split_and!; [obtain|obtain|done].
Qed.
End answers.

(** ** The exit code *)

Section exits.
Context `{DriftWorld} (args : Args).

Lemma with_newest_1 code n e : _with_newest code n e = 1 → code = 1 ∨ n = Some Drift.
Proof.
  unfold _with_newest. destruct e; [destruct (Z.eqb_spec code 1); [by left|done]|]. destruct n as [[]|]; auto.
Qed.
Lemma tier_Drift a soft hard : _tier a soft hard = Drift → float_lt_int a hard = false.
Proof. unfold _tier. destruct (float_lt_int a soft); [done|]. by destruct (float_lt_int a hard). Qed.

Lemma float_lt_le a n n' : float_lt_int a n = true → n ≤ n' → float_lt_int a n' = true.
Proof.
  unfold float_lt_int. assert (0 < (f64_ratio a).2) by (destruct a as [| | |sgn m e]; cbn; [lia..|]; destruct (0 <=? e) eqn:E; cbn; [lia|];
    apply Z.leb_gt in E; apply Z.pow_pos_nonneg; lia).
  destruct (f64_ratio a) as [q d]; cbn [snd] in *. rewrite !Z.ltb_lt. nia.
Qed.
Lemma tier_not_Drift a soft hard : soft ≤ hard → _tier a soft hard ≠ Drift → float_lt_int a hard = true.
Proof.
  unfold _tier. intros Hle. destruct (float_lt_int a soft) eqn:E; [intros _; by eapply float_lt_le|]. by destruct (float_lt_int a hard).
Qed.

(** The listing of issues of a run: the one it remembered at its start (none, for [start]), or the one it fetched. *)
Definition listing_of (s s' : run) (l : list issue * pystr) : Prop :=
  listing_cache s = Some (inr l) ∨ obtained extends s s' fetch_listing l.
Lemma listing_of_wider s0 s1 s s' l : later s s0 → extends s0 s1 → later s1 s' → listing_of s0 s1 l → listing_of s s' l.
Proof.
  intros [E0 H0] E [E1 _] [Hc|Ho]; [destruct (H0 l Hc) as [?|Ho]; [by left|right]|right].
  - eapply (obtained_wider extends); [reflexivity| |exact Ho]. by etrans.
  - by eapply (obtained_wider extends).
Qed.
Lemma listing_Done s l s' : listing s = (Done l, s') → listing_of s s' l.
Proof.
  unfold listing, listing_of. destruct (listing_cache s) as [[x|l']|]; [done|intros [= -> _]; by left|].
  destruct (fetch_listing s) as [[l'|x|e] s1] eqn:E; intros [= -> <-]. right. exists s, s1.
  split_and!; [reflexivity|done|by exists []; rewrite app_nil_r].
Qed.

(** The listing of the run holds a closed issue of the exact title a lag of [v] behind [sub] has, and it carries
    the label; and the run said so. *)
Definition title_of (sub : subject) (v : pystr) : pystr := match sub with Internal => DRIFT_TITLE v | Partner => PARTNER_DRIFT_TITLE v end.
Definition suppressed (s s' : run) (sub : subject) (v : pystr) : Prop :=
  ∃ issues target j, listing_of s s' (issues, target) ∧ _exact issues (title_of sub v) = Some j ∧
    is_open j = false ∧ SUPPRESSION_LABEL ∈ labels j ∧ said s s' (LSuppressed v (number j)).
Lemma suppressed_wider s0 s1 s s' sub v : later s s0 → later s1 s' → suppressed s0 s1 sub v → suppressed s s' sub v.
Proof.
  intros L0 L1 (i & tg & j & Hl & ? & ? & ? & Hs). exists i, tg, j.
  split_and!; [eapply listing_of_wider; [exact L0| |exact L1|exact Hl]; destruct Hs as (es & E & _); by exists es|done..|by eapply said_wider].
Qed.

Lemma report_drift_suppressed x i r s s' : report_drift x i r s = (Done true, s') → ∃ j, _exact i (drift_title x) = Some j ∧
  is_open j = false ∧ SUPPRESSION_LABEL ∈ labels j ∧ said s s' (LSuppressed (f_version x) (number j)).
Proof.
  unfold report_drift. intros Hr. apply bind_Done in Hr as ([] & s3 & Hn & Hr).
  assert (later s s3).
  { eapply (keeps_step later); [|exact Hn]. destruct (f_subject x); [apply keeps_ret; apply _|apply notice_keeps; apply _]. }
  destruct (_exact i (drift_title x)) as [j|]; [|inv_done]. exists j. destruct (is_open j); [inv_done|].
  case_bool_decide; [|inv_done]. inv_done. laters. split_and!; [done..|saying].
Qed.
Lemma file_Done x code s c s' : file x code s = (Done c, s') → c = code ∨ c = 0 ∧ suppressed s s' (f_subject x) (f_version x).
Proof.
  unfold file. intros Hf. apply bind_Done in Hf as ([i t] & s1 & Hl & Hf). apply bind_Done in Hf as (b & s2 & Hr & Hf).
  apply ret_Done in Hf as [-> ->]. destruct b; [right|by left]. split; [done|].
  assert (later s s1) by (eapply (keeps_step later); [apply reports_listing|exact Hl]).
  assert (later s1 s2) by (eapply (keeps_step later); [apply report_drift_keeps; apply _|exact Hr]).
  apply report_drift_suppressed in Hr as (j & Hj & Ho & Hlb & Hs). exists i, t, j.
  split_and!; [|exact Hj|done..|by eapply said_wider; [|reflexivity|exact Hs]].
  eapply listing_of_wider; [reflexivity| | |by apply listing_Done]; [by match goal with L : later s s1 |- _ => destruct L end|done].
Qed.

Lemma report_declared_code f c v sub code b s c' s' : report_declared f c v sub code b s = (Done c', s') →
  c' = code ∨ c' = 0 ∧ v = Tier Drift ∧ suppressed s s' sub (version f).
Proof.
  unfold report_declared. intros Hr. destruct v as [|[]].
  - left. apply handling_Done in Hr as [Hr|(x & s1 & _ & Hr)].
    + apply bind_Done in Hr as ([i t] & s1 & _ & Hr). apply bind_Done in Hr as ([] & s2 & _ & Hr). by apply ret_Done in Hr as [-> _].
    + apply bind_Done in Hr as ([] & s2 & _ & Hr). by apply ret_Done in Hr as [-> _].
  - left. destruct sub; by apply ret_Done in Hr as [-> _].
  - left. destruct sub; by apply ret_Done in Hr as [-> _].
  - destruct sub; apply file_Done in Hr as [->|[-> ?]]; [by left|by right|by left|by right].
Qed.
Lemma report_newest_code f v n s n' s' : report_newest f v n s = (Done n', s') →
  n' = n ∨ n' = None ∧ n = Some Drift ∧ ∃ w k m a, newest f = NAsked w k m a ∧ suppressed s s' Partner w.
Proof.
  unfold report_newest. intros Hr. destruct (newest f) as [w|x|w k|w k m a]; [by apply ret_Done in Hr as [-> _]; left..|].
  assert (Hclean : (if bool_decide (m = ∅) && reaches v
      then _ ← handling ('(issues, _) ← listing; report_newest_clean w issues) (λ _, mret ()); mret n else mret n) s = (Done n', s') → n' = n).
  { destruct (_ && _); intros Hc; [apply bind_Done in Hc as ([] & s1 & _ & Hc)|]; by apply ret_Done in Hc as [-> _]. }
  destruct n as [[]|]; [left; by apply Hclean..| |left; by apply Hclean].
  apply bind_Done in Hr as ([i t] & s1 & Hl & Hr). apply bind_Done in Hr as (tg & s2 & Ht & Hr).
  apply bind_Done in Hr as (b & s3 & Hd & Hr). apply ret_Done in Hr as [-> ->]. destruct b; [right|by left].
  assert (later s2 s3) by (eapply (keeps_step later); [apply report_drift_keeps; apply _|exact Hd]).
  apply report_drift_suppressed in Hd as (j & Hj & Ho & Hlb & Hs).
  assert (later s s1) by (eapply (keeps_step later); [apply reports_listing|exact Hl]).
  assert (later s1 s2) by (eapply (keeps_step later); [apply tag_present_keeps; apply _|exact Ht]).
  split_and!; [done|done|]. exists w, k, m, a. split; [done|]. exists i, t, j.
  split_and!; [|exact Hj|done..|eapply said_wider; [|reflexivity|exact Hs]; chain].
  eapply listing_of_wider; [reflexivity| | |by apply listing_Done]; [by match goal with L : later s s1 |- _ => destruct L end|chain].
Qed.

(** How the final code comes about: the declared code, unless its drift was suppressed, and the newest verdict,
    unless it was. *)
Lemma report_Done f c v sub code n s c' s' : report f c v sub code n s = (Done c', s') →
  c' = 2 ∨ ∃ code' n', c' = _with_newest (if bool_decide (is_Some (partner_error f)) && (code' =? 0) then 2 else code') n' (newest_error f) ∧
    (code' = code ∨ code' = 0 ∧ v = Tier Drift ∧ suppressed s s' sub (version f)) ∧
    (n' = n ∨ n' = None ∧ n = Some Drift ∧ ∃ w k m a, newest f = NAsked w k m a ∧ suppressed s s' Partner w).
Proof.
  unfold report. intros Hr. apply bind_Done in Hr as (r & s1 & Hh & Hr). apply handling_Done in Hh as [Hh|(x & s2 & _ & Hh)].
  - apply bind_Done in Hh as (code' & s2 & Hd & Hh). apply bind_Done in Hh as (n' & s3 & Hn & Hh). apply ret_Done in Hh as [-> ->].
    assert (Hc : c' = _with_newest (if bool_decide (is_Some (partner_error f)) && (code' =? 0) then 2 else code') n' (newest_error f)).
    { unfold heartbeat in Hr. destruct (listing_cache s3); [|by injection Hr as <- _].
      apply bind_Done in Hr as ([] & s4 & _ & Hr). by apply ret_Done in Hr as [-> _]. }
    assert (later s s2) by (eapply (keeps_step later); [apply report_declared_keeps; apply _|exact Hd]).
    assert (later s2 s3) by (eapply (keeps_step later); [apply report_newest_keeps; apply _|exact Hn]).
    assert (later s3 s') by (eapply (keeps_step later); [apply (heartbeat_keeps later (now f)); apply _|exact Hr]).
    right. exists code', n'. split_and!; [done|..].
    + apply report_declared_code in Hd as [->|(-> & -> & Hi)]; [by left|right]. split_and!; [done|done|].
      eapply suppressed_wider; [| |exact Hi]; chain.
    + apply report_newest_code in Hn as [->|(-> & -> & w & k & m & a & Hw & Hi)]; [by left|right]. split_and!; [done|done|].
      exists w, k, m, a. split; [done|]. eapply suppressed_wider; [| |exact Hi]; chain.
  - apply bind_Done in Hh as ([] & s3 & _ & Hh). apply ret_Done in Hh as [-> ->]. apply ret_Done in Hr as [-> _]. by left.
Qed.

Lemma decided_wider f c s0 s1 s s' d : later s s0 → later s1 s' → decided args f c s0 s1 d → decided args f c s s' d.
Proof.
  intros L0 L1 Hd. assert (Hs : ∀ l, said s0 s1 l → said s s' l) by (intros l; by apply said_wider).
  destruct Hd; [eapply d_fault; by eauto|eapply d_clean; by eauto|eapply d_partner; by eauto|apply d_internal; by auto].
Qed.

Lemma decided_Drift f c s s' sub code : decided args f c s s' (Some (Tier Drift, sub, code)) → code = 1.
Proof.
  intros Hd. remember (Some (Tier Drift, sub, code)) as d eqn:E. destruct Hd as [| |p r m Hm Hp Hne t Hs|Hm t Hs]; try discriminate E;
    injection E as E _ <-; by rewrite E.
Qed.

(** The newest verdict, and that it was said. *)
Definition newest_said (f : facts) (s s' : run) (n : option tier) : Prop :=
  match newest f with
  | NAsked v _ m a => if decide (m = ∅) then n = None else n = Some (_tier a (a_soft args) (a_hard args)) ∧
      said s s' (LNewestVerdict (_tier a (a_soft args) (a_hard args)) v (version f) m a)
  | _ => n = None
  end.
Lemma newest_said_wider f s0 s1 s s' n : later s s0 → later s1 s' → newest_said f s0 s1 n → newest_said f s s' n.
Proof.
  intros L0 L1. unfold newest_said. destruct (newest f); [done..|]. case_decide; [done|]. intros [-> Hs].
  split; [done|by eapply said_wider].
Qed.

Definition code_of (f : facts) (code' : Z) (n' : option tier) : Z :=
  _with_newest (if bool_decide (is_Some (partner_error f)) && (code' =? 0) then 2 else code') n' (newest_error f).

Lemma judge_Done f c s c' s' : judge args f c s = (Done c', s') →
  c' = 2 ∨ ∃ v sub code n code' n', decided args f c s s' (Some (v, sub, code)) ∧ newest_said f s s' n ∧ c' = code_of f code' n' ∧
    (code' = code ∨ code' = 0 ∧ v = Tier Drift ∧ suppressed s s' sub (version f)) ∧
    (n' = n ∨ n' = None ∧ n = Some Drift ∧ ∃ w k m a, newest f = NAsked w k m a ∧ suppressed s s' Partner w).
Proof.
  unfold judge. intros Hj. apply bind_Done in Hj as ([] & s1 & Hpf & Hj). apply bind_Done in Hj as (d & s2 & Hdc & Hj).
  assert (later s s1) by (eapply (keeps_step later); [apply print_facts_keeps; apply _|exact Hpf]).
  assert (later s1 s2) by (eapply (keeps_step later); [apply decide_keeps; apply _|exact Hdc]).
  apply decide_Done in Hdc. destruct d as [[[v sub] code]|]; [|by apply ret_Done in Hj as [-> _]; left].
  apply bind_Done in Hj as (n & s3 & Hnv & Hj).
  assert (later s2 s3) by (eapply (keeps_step later); [apply newest_verdict_keeps; apply _|exact Hnv]).
  pose proof (newest_verdict_Done _ _ _ _ _ Hnv) as Hns. change (newest_said f s2 s3 n) in Hns.
  assert (Hfin : ∀ s4, later s3 s4 → (partner_error f = None ∨ v = Tier Drift) →
    (if a_report args then report f c v sub code n else mret (_with_newest code n (newest_error f))) s4 = (Done c', s') →
    c' = 2 ∨ ∃ v0 sub0 code0 n code' n', decided args f c s s' (Some (v0, sub0, code0)) ∧ newest_said f s s' n ∧ c' = code_of f code' n' ∧
    (code' = code0 ∨ code' = 0 ∧ v0 = Tier Drift ∧ suppressed s s' sub0 (version f)) ∧
    (n' = n ∨ n' = None ∧ n = Some Drift ∧ ∃ w k m a, newest f = NAsked w k m a ∧ suppressed s s' Partner w)).
  { intros s4 L4 Hpe Hr.
    assert (later s4 s').
    { eapply (keeps_step later); [|exact Hr]. destruct (a_report args); [apply report_keeps; apply _|apply keeps_ret; apply _]. }
    assert (Hd : decided args f c s s' (Some (v, sub, code))) by (eapply decided_wider; [| |exact Hdc]; chain).
    assert (Hn : newest_said f s s' n) by (eapply newest_said_wider; [| |exact Hns]; chain).
    destruct (a_report args).
    - apply report_Done in Hr as [->|(code' & n' & -> & Hc & Hn')]; [by left|right]. exists v, sub, code, n, code', n'.
      split_and!; [done|done|done| |].
      + destruct Hc as [->|(-> & -> & Hi)]; [by left|right]. split_and!; [done|done|]. eapply suppressed_wider; [| |exact Hi]; chain.
      + destruct Hn' as [->|(-> & -> & w & k & m & a & Hw & Hi)]; [by left|right]. split_and!; [done|done|].
        exists w, k, m, a. split; [done|]. eapply suppressed_wider; [| |exact Hi]; chain.
    - apply ret_Done in Hr as [-> ->]. right. exists v, sub, code, n, code, n. split_and!; [done|done| |by left|by left].
      unfold code_of. destruct Hpe as [->| ->]; [done|]. assert (code = 1) as -> by (by apply decided_Drift in Hd).
      by destruct (bool_decide _). }
  destruct (partner_error f) as [x|] eqn:Ep.
  - apply bind_Done in Hj as ([] & s4 & Hpx & Hj). apply print_Done in Hpx as (_ & L4 & _).
    destruct v as [|[]]; try (apply ret_Done in Hj as [-> _]; by left). eapply Hfin; [exact L4|by right|exact Hj].
  - eapply Hfin; [reflexivity|by left|exact Hj].
Qed.

Lemma or_error_Done {A} (m : D A) s o s' : or_error m s = (Done o, s') → match o with Some a => m s = (Done a, s') | None => True end.
Proof.
  unfold or_error. intros [Hm|(x & s1 & _ & Hm)]%handling_Done.
  - by apply fmap_Done in Hm as (a & Hm & ->).
  - apply bind_Done in Hm as ([] & s2 & _ & Hm). by apply ret_Done in Hm as [-> _].
Qed.

Lemma main_Done c s s' : main args s = (Done c, s') → c = 2 ∨ ∃ f s1, gather args s = (Done f, s1) ∧ later s1 s' ∧
  ((∃ k s2, read_clock f s1 = (Done k, s2) ∧ judge args f k s2 = (Done c, s') ∧ later s2 s') ∨
   (∃ n, newest_said f s1 s' n ∧ c = _with_newest 2 n (newest_error f))).
Proof.
  unfold main. destruct (negb python_311).
  { intros Hm. apply bind_Done in Hm as ([] & s1 & _ & Hm). apply ret_Done in Hm as [-> _]. by left. }
  intros Hm. apply bind_Done in Hm as (o & s1 & Hg & Hm). apply or_error_Done in Hg.
  destruct o as [f|]; [|apply ret_Done in Hm as [-> _]; by left]. apply bind_Done in Hm as (o & s2 & Hk & Hm).
  right. exists f, s1. split; [done|].
  assert (Ls : later s1 s2).
  { eapply (keeps_step later); [|exact Hk]. unfold or_error. keep; first [apply read_clock_keeps|apply print_keeps]; apply _. }
  apply or_error_Done in Hk. destruct o as [k|].
  - assert (later s2 s') by (eapply (keeps_step later); [apply judge_keeps; apply _|exact Hm]).
    split; [by etrans|]. left. by exists k, s2.
  - apply bind_Done in Hm as ([] & s3 & Hf & Hm). apply bind_Done in Hm as (n & s4 & Hv & Hm). apply ret_Done in Hm as [-> ->].
    assert (later s2 s3) by (eapply (keeps_step later); [apply newest_facts_keeps; apply _|exact Hf]).
    assert (later s3 s4) by (eapply (keeps_step later); [apply newest_verdict_keeps; apply _|exact Hv]).
    split; [chain|]. right. exists n. split; [|done]. eapply newest_said_wider; [|reflexivity|].
    2: { pose proof (newest_verdict_Done _ _ _ _ _ Hv) as Hn. exact Hn. }
    chain.
Qed.

Lemma code_of_0 f code' n' : 0 = code_of f code' n' → partner_error f = None ∧ newest_error f = None ∧ code' = 0 ∧ n' ≠ Some Drift.
Proof.
  unfold code_of, _with_newest. destruct (newest_error f).
  - by destruct (_ =? 1).
  - destruct (partner_error f); cbn [andb bool_decide]; destruct n' as [[]|]; destruct (Z.eqb_spec code' 0); done.
Qed.

(** No fault was told of between the two states. *)
Definition untroubled : run → run → Prop := only_events (λ e, match e with Said l => fault_line l = false | Ran _ => True end).
#[local] Instance untroubled_tells : tells untroubled.
Proof. split; [apply _|..]; intros; by apply only_event. Qed.
#[local] Instance untroubled_reports : reports untroubled.
Proof.
  assert (lists untroubled) by (split; [split; [apply _|]|]; intros; by apply only_event).
  split; [apply _|]. apply uncached_listing_keeps; [apply _|]. by intros s s' x Hu.
Qed.

Lemma decide_untroubled f c s d s' : decide_verdict args f c s = (Done (Some d), s') → untroubled s s'.
Proof.
  unfold decide_verdict. intros Hd.
  destruct (bool_decide (missing c = ∅)); [destruct (partner f) as [p x| |p rw m]; [by apply bind_Done in Hd as ([] & ? & _ & ([] & ? & _ & [? _]%ret_Done)%bind_Done)| |destruct (bool_decide (m = ∅))]|];
    (apply (keeps_step untroubled) in Hd; [exact Hd|]; keep; (apply tell_keeps; [apply _|done])).
Qed.
Lemma newest_verdict_untroubled f : newest_error f = None → keeps untroubled (print_newest_verdict args f).
Proof.
  unfold newest_error, print_newest_verdict. destruct (newest f); [|done|..]; intros _; keep; (apply tell_keeps; [apply _|done]).
Qed.
Lemma report_untroubled f c v sub code n s s' : report f c v sub code n s = (Done 0, s') → untroubled s s'.
Proof.
  unfold report. intros Hr. apply bind_Done in Hr as (r & s1 & Hh & Hr). apply handling_Done in Hh as [Hh|(x & s2 & _ & Hh)].
  - apply (keeps_step untroubled) in Hh; [|keep; first [apply report_declared_keeps|apply report_newest_keeps]; apply _].
    etrans; [exact Hh|]. destruct r as [[code' n']|]; [|by apply ret_Done in Hr as [_ ->]].
    eapply (keeps_step untroubled); [apply heartbeat_keeps; apply _|exact Hr].
  - apply bind_Done in Hh as ([] & s3 & _ & Hh). apply ret_Done in Hh as [-> ->]. by apply ret_Done in Hr as [? _].
Qed.
Lemma judge_untroubled f c s s' : judge args f c s = (Done 0, s') → untroubled s s'.
Proof.
  intros Hj. pose proof (judge_Done _ _ _ _ _ Hj) as [?|(v0 & sub0 & code0 & n0 & code' & n' & _ & _ & Hc & _)]; [done|].
  apply code_of_0 in Hc as (Hpe & Hne & _). unfold judge in Hj. rewrite Hpe in Hj.
  apply bind_Done in Hj as ([] & s1 & H1 & Hj). apply bind_Done in Hj as (d & s2 & H2 & Hj). destruct d as [[[v sub] code]|]; [|by apply ret_Done in Hj as [? _]].
  apply bind_Done in Hj as (n & s3 & H3 & Hj).
  apply (keeps_step untroubled) in H1; [|apply print_facts_keeps; apply _]. apply decide_untroubled in H2.
  apply (keeps_step untroubled) in H3; [|by apply newest_verdict_untroubled].
  etrans; [exact H1|]. etrans; [exact H2|]. etrans; [exact H3|]. destruct (a_report args); [by eapply report_untroubled|].
  by apply ret_Done in Hj as [_ ->].
Qed.
Lemma main_untroubled s s' : main args s = (Done 0, s') → untroubled s s'.
Proof.
  unfold main. destruct (negb python_311); [by intros (? & ? & _ & [? _]%ret_Done)%bind_Done|].
  intros Hm. apply bind_Done in Hm as (o & s1 & Hg & Hm). apply or_error_Done in Hg.
  destruct o as [f|]; [|by apply ret_Done in Hm as [? _]]. apply bind_Done in Hm as (o & s2 & Hk & Hm). apply or_error_Done in Hk.
  destruct o as [k|].
  - apply (keeps_step untroubled) in Hg; [|apply gather_keeps; apply _]. apply (keeps_step untroubled) in Hk; [|apply read_clock_keeps; apply _].
    etrans; [exact Hg|]. etrans; [exact Hk|]. by eapply judge_untroubled.
  - exfalso. apply bind_Done in Hm as ([] & s3 & _ & Hm). apply bind_Done in Hm as (n & s4 & _ & Hm). apply ret_Done in Hm as [Hc _].
    unfold _with_newest in Hc. destruct (newest_error f); [done|]. by destruct n as [[]|].
Qed.

(** The codes a verdict can have. *)
Lemma judge_code f k s c' s' : judge args f k s = (Done c', s') → c' = 0 ∨ c' = 1 ∨ c' = 2.
Proof.
  intros Hj. apply judge_Done in Hj as [->|(v & sub & code & n & code' & n' & Hd & _ & -> & Hc & _)]; [auto|].
  assert (code = 0 ∨ code = 1) as Hcode.
  { remember (Some (v, sub, code)) as d eqn:E. destruct Hd as [| |p r m Hm Hp Hne t Hs|Hm t Hs]; try discriminate E; injection E as _ _ <-;
      [auto|destruct t; auto..]. }
  assert (code' = 0 ∨ code' = 1) as Hc1 by (destruct Hc as [->|[-> _]]; auto).
  unfold code_of, _with_newest. destruct (bool_decide _); cbn [andb]; destruct Hc1 as [-> | ->], (newest_error f), n' as [[]|]; auto.
Qed.
Lemma drift_exit_codes : exit_code args = 0 ∨ exit_code args = 1 ∨ exit_code args = 2.
Proof.
  unfold exit_code. destruct (main args start) as [[c|x|e] s'] eqn:Hm; cbn [fst]; [|auto..].
  apply main_Done in Hm as [->|(f & s1 & _ & _ & [(k & s2 & _ & Hj & _)|(n & _ & ->)])]; [auto|by eapply judge_code|].
  unfold _with_newest. destruct (newest_error f), n as [[]|]; auto.
Qed.

(** The age, at [nw], of what happened at [t] is past the hard window. *)
Definition past_hard (nw t : Z) : Prop := float_lt_int (float_max0 (minutes_between nw t)) (a_hard args) = false.

(** A finding: at this version a required format is missing, from internal, or from partner while internal serves
    it; it is not young, by git for the declared version and by the upload for the newest. *)
Definition backed_by (s s' : run) (nw : Z) : Prop :=
  ∃ v t, past_hard nw t ∧
    ((obtained later s s' source_version v ∧ attempted s s' v t ∧
      ∃ ir, proven s s' REGISTRY_URL v ir ∧
        ((∃ f, lacks ir v f) ∨ (serves ir v ∧ ∃ pr f, proven s s' PARTNER_REGISTRY_URL v pr ∧ lacks pr v f))) ∨
     (∃ ir pr f, listed s s' ir ∧ serves ir v ∧ obtained later s s' (newest_upload_clock ir v) t ∧
        proven s s' PARTNER_REGISTRY_URL v pr ∧ lacks pr v f)).

Lemma newest_backed f s s1 s' n : newest_found s s1 (now f) (version f) (partner f) (newest f) → later s1 s' →
  newest_said f s1 s' n → n = Some Drift → backed_by s s' (now f).
Proof.
  intros Hn L Hs ->. unfold newest_said in Hs. destruct (newest f) as [w|x|w k|w k m a]; try discriminate Hs.
  case_decide as Hm; [discriminate Hs|]. destruct Hs as [Ht Hs].
  destruct Hn as (ir & r & t & (tk & Hl) & Hserves & Hp & [_ Hlag] & Hu & ->). destruct (Hlag Hm) as [fm Hf].
  symmetry in Ht. injection Ht as Ht. exists w, t. split; [by apply tier_Drift in Ht|]. right. exists ir, r, fm.
  split_and!; [exists tk; by eapply (obtained_wider later); [reflexivity|exact L|]|done
    |by eapply (obtained_wider later); [reflexivity|exact L|]|by eapply proven_wider; [reflexivity|exact L|]|done].
Qed.

Lemma declared_backed f k s s1 s2 s3 s' sub : a_packages args = None → gather args s = (Done f, s1) → read_clock f s1 = (Done k, s2) →
  later s2 s' → decided args f k s3 s' (Some (Tier Drift, sub, 1)) → backed_by s s' (now f).
Proof.
  intros Hl Hg Hk L Hd.
  assert (L1 : later s s1) by (eapply (keeps_step later); [apply gather_keeps; apply _|exact Hg]).
  assert (L2 : later s1 s2) by (eapply (keeps_step later); [apply read_clock_keeps; apply _|exact Hk]).
  apply (gather_Done args _ _ _ Hl) in Hg as (Hv & _ & Hi & Hp & _ & _). apply read_clock_Done in Hk as ([Hl1 Hl2] & Ha & Hatt).
  exists (version f), (started k).
  assert (Ht : _tier (age k) (a_soft args) (a_hard args) = Drift).
  { remember (Some (Tier Drift, sub, 1)) as d eqn:E. destruct Hd as [| |p r m Hm Hpm Hne t Hs|Hm t Hs]; try discriminate E; by injection E. }
  split; [apply tier_Drift in Ht; unfold past_hard; by rewrite <- Ha|]. left.
  split_and!; [eapply (obtained_wider later); [reflexivity| |exact Hv]; chain|eapply attempted_wider; [exact L1|exact L|exact Hatt]|].
  exists (rows f). split; [eapply proven_wider; [reflexivity| |exact Hi]; chain|].
  remember (Some (Tier Drift, sub, 1)) as d eqn:E. destruct Hd as [| |p r m Hm Hpm Hne t Hs|Hm t Hs]; try discriminate E.
  - right. split; [by apply Hl1|]. rewrite Hpm in Hp. destruct Hp as (pr & Hp & [_ Hlag]). destruct (Hlag Hne) as [fm Hf].
    exists pr, fm. split; [eapply proven_wider; [reflexivity| |exact Hp]; chain|done].
  - left. by apply Hl2.
Qed.
End exits.

Lemma finding_of_exit_1 `{DriftWorld} args : a_packages args = None → exit_code args = 1 →
  ∃ nw, obtained later start (main args start).2 (read_now args) nw ∧ backed_by args start (main args start).2 nw.
Proof.
  unfold exit_code. intros Hl He. destruct (main args start) as [[c|x|e] s'] eqn:Hm; cbn [fst snd] in *; [subst c|done..].
  apply main_Done in Hm as [?|(f & s1 & Hg & L1 & Hm)]; [done|].
  pose proof (gather_Done args f _ _ Hl Hg) as (_ & Hnow & _ & _ & Hn & _). exists (now f).
  split; [by eapply (obtained_wider later); [reflexivity|exact L1|exact Hnow]|].
  destruct Hm as [(k & s2 & Hk & Hj & L2)|(n & Hs & Hc)].
  - apply judge_Done in Hj as [?|(v & sub & code & n & code' & n' & Hd & Hs & Hc & Hcode & Hn')]; [done|]. unfold code_of in Hc.
    assert (code = 1 ∨ n = Some Drift) as [->|Hdr].
    { symmetry in Hc. apply with_newest_1 in Hc as [Hc|Hc].
      - left. destruct (_ && _); [done|]. destruct Hcode as [->|(-> & _)]; [done|discriminate Hc].
      - right. destruct Hn' as [->|(-> & _)]; [done|discriminate Hc]. }
    + assert (∃ t, v = Tier t ∧ t = Drift) as (t & -> & ->).
      { remember (Some (v, sub, 1)) as d eqn:E. destruct Hd as [| |p r m Hm Hpm Hne t Hsd|Hm t Hsd]; try discriminate E;
          injection E as <- _ Hcd; exists t; split; try done; by destruct t. }
      by eapply declared_backed.
    + eapply newest_backed; [exact Hn|exact L1| |exact Hdr].
      assert (later s1 s2) by (eapply (keeps_step later); [apply read_clock_keeps; apply _|exact Hk]).
      eapply newest_said_wider; [|reflexivity|exact Hs]. chain.
  - symmetry in Hc. apply with_newest_1 in Hc as [?|Hdr]; [done|]. by eapply newest_backed.
Qed.

(** C4. Exit 1 is a finding, exit 0 is no fault, and whatever else happens exits 2. In a live run that exits 1, however
    the commands answered, a version is missing from a registry in a required format: that registry had served a
    canary in every required format in this run, its answer for the version lacks the format, internal serves the
    version if the registry is partner, and the release attempt (by git, the later of commit and tag, for the
    declared version) or the end of the upload (for the newest) is past the hard window at the time of the run. A run
    that exits 0 ended without an exception and printed no fault of a command, of an answer or of the interpreter
    (an unreadable GitHub is a warning when nothing was to be filed there). Every other run exits 2. *)
Theorem exit_1_is_a_finding `{DriftWorld} args s' : a_packages args = None → (main args start).2 = s' →
  match exit_code args with
  | 0 => (main args start).1 = Done 0 ∧ untroubled start s'
  | 1 => ∃ nw, obtained later start s' (read_now args) nw ∧ backed_by args start s' nw
  | c => c = 2
  end.
Proof.
  intros Hl <-. destruct (drift_exit_codes args) as [He|[He|He]]; rewrite He; [| |done].
  { unfold exit_code in He. destruct (main args start) as [[c|x|e] s'] eqn:Hm; cbn [fst snd] in *; [subst c|done..].
    split; [done|by eapply main_untroubled]. }
  by apply finding_of_exit_1.
Qed.
Section green.
Context `{DriftWorld} (args : Args).

(** The age, at [nw], of what happened at [t]. *)
Definition age_at (nw t : Z) : spec_float := float_max0 (minutes_between nw t).
Definition younger (nw t : Z) : Prop := float_lt_int (age_at nw t) (a_hard args) = true.
Definition tier_at (nw t : Z) : tier := _tier (age_at nw t) (a_soft args) (a_hard args).

(** What excuses a lag of the declared version behind [sub]: by git the attempt is younger than the hard window,
    and the run printed the grace verdict of that age; or a suppression. *)
Definition declared_excused (s s' : run) (nw : Z) (sub : subject) (v : pystr) : Prop :=
  (∃ t, attempted s s' v t ∧ younger nw t ∧ ∃ m g, m ≠ ∅ ∧ said s s' (LVerdict (tier_at nw t) sub v m (age_at nw t) g)) ∨
  suppressed s s' sub v.
(** What excuses a lag of internal's newest: its upload ended less than the hard window ago. *)
Definition newest_excused (s s' : run) (nw : Z) (ir : pyval) (v w : pystr) : Prop :=
  (∃ t, obtained later s s' (newest_upload_clock ir w) t ∧ younger nw t ∧
    ∃ m, m ≠ ∅ ∧ said s s' (LNewestVerdict (tier_at nw t) w v m (age_at nw t))) ∨
  suppressed s s' Partner w.

Definition declared_answer (s s' : run) (nw : Z) (ir pr : pyval) (v : pystr) : Prop :=
  (serves ir v ∧ serves pr v) ∨ ((∃ f, lacks ir v f) ∧ declared_excused s s' nw Internal v) ∨
  (serves ir v ∧ (∃ f, lacks pr v f) ∧ declared_excused s s' nw Partner v).
Definition newest_answer (s s' : run) (nw : Z) (ir pr : pyval) (v w : pystr) : Prop :=
  serves pr w ∨ ((∃ f, lacks pr w f) ∧ newest_excused s s' nw ir v w).

Lemma declared_green f k s s' v sub code code' ir pr p r m : decided args f k s s' (Some (v, sub, code)) → code' = 0 →
  a_soft args ≤ a_hard args → age k = age_at (now f) (started k) → attempted s s' (version f) (started k) →
  lag ir (version f) (missing k) → partner f = PMissing p r m → lag pr (version f) m →
  (code' = code ∨ code' = 0 ∧ v = Tier Drift ∧ suppressed s s' sub (version f)) →
  declared_answer s s' (now f) ir pr (version f).
Proof.
  intros Hd -> Hle Ha Hatt [Hi1 Hi2] Hp [Hp1 Hp2] Hc. unfold declared_answer.
  assert (Hex : ∀ sub0 m0 g, m0 ≠ ∅ → 0 = tier_code (_tier (age k) (a_soft args) (a_hard args)) →
    said s s' (LVerdict (_tier (age k) (a_soft args) (a_hard args)) sub0 (version f) m0 (age k) g) → declared_excused s s' (now f) sub0 (version f)).
  { intros sub0 m0 g Hm0 Ht Hs. left. exists (started k). rewrite Ha in Ht, Hs. split_and!; [done| |by exists m0, g].
    eapply tier_not_Drift; [exact Hle|]. by destruct (_tier _ _ _). }
  remember (Some (v, sub, code)) as d eqn:E. destruct Hd as [|b Hm Hpn Hs|p' r' m' Hm Hpm Hne t Hs|Hm t Hs]; try discriminate E;
    injection E as <- <- <-.
  - left. split; [by apply Hi1|apply Hp1]. rewrite Hp in Hpn. destruct Hpn as [?|(? & ? & [= _ _ ->])]; done.
  - rewrite Hp in Hpm. injection Hpm as _ _ ->. right. right. split_and!; [by apply Hi1|by apply Hp2|].
    destruct Hc as [Hc|(_ & _ & ?)]; [by eapply Hex|by right].
  - right. left. split; [by apply Hi2|]. destruct Hc as [Hc|(_ & _ & ?)]; [by eapply Hex|by right].
Qed.

Lemma newest_green f s s' n n' w k m t ir pr : newest f = NAsked w k m (age_at (now f) t) → newest_said args f s s' n → n' ≠ Some Drift →
  a_soft args ≤ a_hard args → obtained later s s' (newest_upload_clock ir w) t → lag pr w m →
  (n' = n ∨ n' = None ∧ n = Some Drift ∧ ∃ w k m a, newest f = NAsked w k m a ∧ suppressed s s' Partner w) →
  newest_answer s s' (now f) ir pr (version f) w.
Proof.
  intros Ew Hs Hnd Hle Ht [Hl1 Hl2] Hn'. unfold newest_said in Hs. rewrite Ew in Hs.
  case_decide as Hm; [left; by apply Hl1|right]. split; [by apply Hl2|]. destruct Hs as [-> Hs].
  destruct Hn' as [->|(_ & _ & w0 & k0 & m0 & a0 & Ew0 & Hi)].
  - left. exists t. split_and!; [done| |by exists m]. eapply tier_not_Drift; [exact Hle|]. intros E. by rewrite E in Hnd.
  - right. rewrite Ew0 in Ew. by injection Ew as -> _ _ _.
Qed.

Lemma declared_answer_wider s0 s1 s s' nw ir pr v : later s s0 → later s1 s' → declared_answer s0 s1 nw ir pr v → declared_answer s s' nw ir pr v.
Proof.
  intros L0 L1. assert (He : ∀ sub, declared_excused s0 s1 nw sub v → declared_excused s s' nw sub v).
  { intros sub [(t & Ha & Hy & m & g & Hm & Hs)|Hs]; [left|right; by eapply suppressed_wider].
    exists t. split_and!; [by eapply attempted_wider|done|]. exists m, g. split; [done|by eapply said_wider]. }
  unfold declared_answer. naive_solver.
Qed.
Lemma newest_answer_wider s0 s1 s s' nw ir pr v w : later s s0 → later s1 s' → newest_answer s0 s1 nw ir pr v w → newest_answer s s' nw ir pr v w.
Proof.
  intros L0 L1 [?|[Hl [(t & Ho & Hy & m & Hm & Hs)|Hs]]]; [by left|right; split; [done|]..]; [left|right; by eapply suppressed_wider].
  exists t. split_and!; [by eapply (obtained_wider later)|done|]. exists m. split; [done|by eapply said_wider].
Qed.
End green.

(** C5. Exit 0 is an answer. In a live run that exits 0 every question was answered through an instrument a canary
    proved in this run. Internal and partner both serve the declared version in both formats; or one lacks a format,
    and the attempt to release it (by git, the later of commit and tag) is younger than the hard window at the
    time of the run, which printed the verdict of that age; or the run's listing of issues holds the closed,
    labelled issue of that very lag. The same of internal's newest at partner, with the end of its upload for
    the attempt. No fault of an instrument, and no unread registry, is green. *)
Theorem exit_0_is_an_answer `{DriftWorld} args s' : a_packages args = None → exit_code args = 0 → (main args start).2 = s' →
  ∃ v nw, obtained later start s' source_version v ∧ obtained later start s' (read_now args) nw ∧
    (∃ ir pr, proven start s' REGISTRY_URL v ir ∧ proven start s' PARTNER_REGISTRY_URL v pr ∧
       declared_answer args start s' nw ir pr v) ∧
    (∃ ir w, listed start s' ir ∧ serves ir w ∧
       (w = v ∨ ∃ pr, proven start s' PARTNER_REGISTRY_URL w pr ∧ newest_answer args start s' nw ir pr v w)).
Proof.
  unfold exit_code. intros Hl He <-. destruct (main args start) as [[c|x|e] s'] eqn:Hm; cbn [fst snd] in *; [subst c|done..].
  apply main_Done in Hm as [?|(f & s1 & Hg & L1 & Hm)]; [done|].
  pose proof (gather_Done args f _ _ Hl Hg) as (Hv & Hnow & Hi & Hp & Hn & Hle).
  assert (L0 : later start s1) by (eapply (keeps_step later); [apply gather_keeps; apply _|exact Hg]).
  destruct Hm as [(k & s2 & Hk & Hj & L2)|(n & Hs & Hc)].
  2: { exfalso. unfold _with_newest in Hc. destruct (newest_error f); [done|]. by destruct n as [[]|]. }
  assert (Lk : later s1 s2) by (eapply (keeps_step later); [apply read_clock_keeps; apply _|exact Hk]).
  apply read_clock_Done in Hk as (Hlag & Hage & Hatt).
  apply judge_Done in Hj as [?|(v & sub & code & n & code' & n' & Hd & Hs & Hc & Hcode & Hn')]; [done|]. unfold code_of in Hc.
  apply code_of_0 in Hc as (Hpe & Hne & Hc0 & Hnd).
  destruct (partner f) as [px x| |px prow m] eqn:Epf; [by unfold partner_error in Hpe; rewrite Epf in Hpe|done|].
  destruct Hp as (pr & Hp & Hplag). exists (version f), (now f).
  assert (Hw : ∀ u x r, proven start s1 u x r → proven start s' u x r) by (intros u x r; by apply proven_wider).
  split_and!; [by eapply (obtained_wider later); [reflexivity|exact L1|]..| |].
  - exists (rows f), pr. split_and!; [by apply Hw|by apply Hw|].
    eapply (declared_answer_wider args s1 s'); [chain|reflexivity|]. eapply declared_green; try done.
    + eapply decided_wider; [| |exact Hd]; chain.
    + eapply attempted_wider; [| |exact Hatt]; chain.
    + destruct Hcode as [?|(? & ? & Hi')]; [by left|right]. split_and!; [done|done|]. eapply suppressed_wider; [| |exact Hi']; chain.
  - destruct (newest f) as [w|x|w kk|w kk nm a] eqn:Enf.
    + destruct Hn as (? & ? & [=]).
    + by unfold newest_error in Hne; rewrite Enf in Hne.
    + destruct Hn as (-> & ir & (tk & Hls) & Hsv). exists ir, (version f).
      split_and!; [exists tk; by eapply (obtained_wider later); [reflexivity|exact L1|]|done|by left].
    + destruct Hn as (ir & r & t & (tk & Hls) & Hsv & Hpw & Hlw & Ho & ->). exists ir, w.
      split_and!; [exists tk; by eapply (obtained_wider later); [reflexivity|exact L1|]|done|]. right. exists r. split; [by apply Hw|].
      eapply newest_green; [exact Enf| |exact Hnd|done| |exact Hlw|].
      * eapply newest_said_wider; [| |exact Hs]; chain.
      * by eapply (obtained_wider later); [reflexivity|exact L1|].
      * destruct Hn' as [?|(? & ? & w0 & k0 & m0 & a0 & Hw0 & Hi')]; [by left|right]. split_and!; [done|done|].
        injection Hw0 as <- <- <- <-. exists w, kk, nm, (age_at (now f) t). split; [exact Enf|].
        eapply suppressed_wider; [| |exact Hi']; chain.
Qed.

(** ** The theorems at work *)

Definition drifting : DriftWorld := toy_world canaries canaries day_before [].
Definition clean : DriftWorld := toy_world toy_versions toy_versions day_before [].

Lemma no_report_no_github_witness : a_report (live false) = false ∧
  ∃ o s', main (H := drifting) (live false) start = (o, s') ∧ silent start s'.
Proof.
  split; [done|]. eexists _, _. split; [vm_compute; reflexivity|].
  apply (no_report_no_github (H := drifting) (live false) (Done 1) start); [done|vm_compute; reflexivity].
Defined.
Lemma github_only_added_to_witness : ∃ o s', main (H := drifting) (live true) start = (o, s') ∧ only_additive start s'.
Proof.
  eexists _, _. split; [vm_compute; reflexivity|].
  apply (github_only_added_to (H := drifting) (live true) (Done 1) start). vm_compute. reflexivity.
Defined.
Lemma grace_never_touches_github_witness : ∃ o s', main (H := drifting) (live true) start = (o, s') ∧ after_verdict start s'.
Proof.
  eexists _, _. split; [vm_compute; reflexivity|].
  apply (grace_never_touches_github (H := drifting) (live true) (Done 1)). vm_compute. reflexivity.
Defined.
Lemma one_listing_per_run_witness : ∃ o s', main (H := drifting) (live true) start = (o, s') ∧ listings s' = 1%nat ∧ (listings s' ≤ 1)%nat.
Proof.
  eexists _, _. split; [vm_compute; reflexivity|]. split; [vm_compute; reflexivity|].
  apply (one_listing_per_run (H := drifting) (live true) (Done 1)). vm_compute. reflexivity.
Defined.
Lemma exit_1_is_a_finding_witness : a_packages (live true) = None ∧ exit_code (H := drifting) (live true) = 1 ∧
  let s' := (main (H := drifting) (live true) start).2 in
  match exit_code (H := drifting) (live true) with
  | 0 => (main (H := drifting) (live true) start).1 = Done 0 ∧ untroubled start s'
  | 1 => ∃ nw, obtained (later (H := drifting)) start s' (read_now (H := drifting) (live true)) nw ∧ backed_by (H := drifting) (live true) start s' nw
  | c => c = 2
  end.
Proof.
  split; [done|]. split; [vm_compute; reflexivity|].
  apply (exit_1_is_a_finding (H := drifting) (live true)); [done|reflexivity].
Defined.
Lemma exit_0_is_an_answer_witness : a_packages (live true) = None ∧ exit_code (H := clean) (live true) = 0 ∧
  let s' := (main (H := clean) (live true) start).2 in
  ∃ v nw, obtained (later (H := clean)) start s' (source_version (H := clean)) v ∧ obtained (later (H := clean)) start s' (read_now (H := clean) (live true)) nw ∧
    (∃ ir pr, proven (H := clean) start s' REGISTRY_URL v ir ∧ proven (H := clean) start s' PARTNER_REGISTRY_URL v pr ∧
       declared_answer (H := clean) (live true) start s' nw ir pr v) ∧
    (∃ ir w, listed (H := clean) start s' ir ∧ serves ir w ∧
       (w = v ∨ ∃ pr, proven (H := clean) start s' PARTNER_REGISTRY_URL w pr ∧
         newest_answer (H := clean) (live true) start s' nw ir pr v w)).
Proof.
  split; [done|]. split; [vm_compute; reflexivity|].
  apply (exit_0_is_an_answer (H := clean) (live true)); [done|vm_compute; reflexivity|reflexivity].
Defined.

Definition closed_issue : issue := Issue 7 (lit "CLOSED") [] (DRIFT_TITLE (lit "0.45.0")).
Definition a_finding : finding := Finding (lit "0.45.0") false required (S754_zero false) Internal None false Declared None.
Lemma report_drift_table_witness : ∃ b s', report_drift (H := drifting) a_finding [closed_issue] (lit "o/r") start = (Done b, s') ∧
  ran (report_commands a_finding [closed_issue] (lit "o/r")) start s' ∧ b = is_suppressed a_finding [closed_issue].
Proof.
  eexists _, _. split; [vm_compute; reflexivity|].
  apply (report_drift_table (H := drifting)). vm_compute. reflexivity.
Defined.
(** A comment, then the reopening. *)
Example closed_issue_commands : length (report_commands a_finding [closed_issue] (lit "o/r")) = 2%nat.
Proof. vm_compute. reflexivity. Qed.
