(* ===== verification/DriftIssue.v ===== *)
(** * DriftIssue: what an issue of the registry-drift check says

    [_issue_body] of [scripts/check_registry_drift.py] with [_remediation], [_partner_remediation] and
    [_partner_cell]: which statements a body makes, in order. A statement is data - its kind and the versions,
    formats and numbers it names - not its wording. *)

From stdpp Require Import base list numbers option strings sets gmap sorting.
From Stdlib Require Import SpecFloat.
From S2P Require Import Prelude Text Order Keys Floats Json Script DriftRows DriftFetch DriftReport Drift.

(** [', '.join(sorted(formats))]: the formats, in order. *)
Definition sorted_formats (s : gset pystr) : list pystr := merge_sort lex_le (elements s).

(** The state of a release, and what to do about it: the tag without the artifact, the claim without the tag, internal
    without partner. *)
Inductive remedy := StateB (version : pystr) (formats : list pystr) | StateC (version : pystr) (formats : list pystr) | StateP (version : pystr) (formats : list pystr).
Definition _remediation (version : pystr) (tagged : bool) (missing : gset pystr) : remedy :=
  if tagged then StateB version (sorted_formats missing) else StateC version (sorted_formats missing).
Definition _partner_remediation (version : pystr) (missing : gset pystr) : remedy := StateP version (sorted_formats missing).

(** Partner's state in an issue about internal: [AlsoMissing] calls the lag expected, [OwnLag] names what internal
    serves and partner does not. *)
Inductive cell := CouldNotBeRead | NotChecked | ServesIt | AlsoMissing (formats : list pystr) | OwnLag (formats own : list pystr).
Definition _partner_cell (partner_missing : option (gset pystr)) (missing : gset pystr) (partner_unreadable : bool) : cell :=
  if partner_unreadable then CouldNotBeRead
  else
    match partner_missing with
    | None => NotChecked
    | Some pm =>
      if bool_decide (pm = ∅) then ServesIt
      else
        let own := pm ∖ missing in
        if bool_decide (own = ∅) then AlsoMissing (sorted_formats pm) else OwnLag (sorted_formats pm) (sorted_formats own)
    end.

Inductive lede := NewestLede (version : pystr) (declared : option pystr) | PartnerLede (version : pystr) | InternalLede (version : pystr).
Inductive where_row := FoundByNewest (declared : option pystr) | FoundByDeclared | PartnerRow (c : cell).
Inductive age_label := SinceAttempt | SinceUpload.
Inductive part :=
| Lede (l : lede)
| Table (version : pystr) (formats : list pystr) (tagged : bool) (w : where_row) (label : age_label) (age : spec_float)
| Remedy (r : remedy)
| CrossLink (number : Z)
| HowToSuppress (version label : pystr).

Definition _issue_body (b : issue_body) : list part :=
  let formats := sorted_formats (b_missing b) in
  let '(l, w, label, r) :=
    match b_subject b, b_question b with
    | Partner, Newest => (NewestLede (b_version b) (b_declared b), FoundByNewest (b_declared b), SinceUpload, _partner_remediation (b_version b) (b_missing b))
    | Partner, Declared => (PartnerLede (b_version b), FoundByDeclared, SinceAttempt, _partner_remediation (b_version b) (b_missing b))
    | Internal, _ =>
      (InternalLede (b_version b), PartnerRow (_partner_cell (b_partner_missing b) (b_missing b) (b_partner_unreadable b)), SinceAttempt,
       _remediation (b_version b) (b_tagged b) (b_missing b))
    end in
  [Lede l; Table (b_version b) formats (b_tagged b) w label (b_age b); Remedy r]
  ++ match b_cross_link b with Some n => [CrossLink n] | None => [] end
  ++ [HowToSuppress (b_version b) SUPPRESSION_LABEL].

(** ** What it may claim *)

Lemma sorted_formats_in f s : f ∈ sorted_formats s ↔ f ∈ s.
Proof. unfold sorted_formats. rewrite (merge_sort_Permutation lex_le). apply elem_of_elements. Qed.

(** A lag is called expected only when internal lacks every format partner lacks; otherwise the formats internal does
    serve are named. *)
Lemma partner_cell_expected pm missing fs :
  _partner_cell (Some pm) missing false = AlsoMissing fs → pm ⊆ missing ∧ ∀ f, f ∈ fs ↔ f ∈ pm.
Proof.
  unfold _partner_cell. repeat case_bool_decide; try done. intros [= <-]. split; [set_solver|]. intros f. apply sorted_formats_in.
Qed.
Lemma partner_cell_own pm missing fs own :
  _partner_cell (Some pm) missing false = OwnLag fs own → own ≠ [] ∧ ∀ f, f ∈ own ↔ f ∈ pm ∧ f ∉ missing.
Proof.
  unfold _partner_cell. repeat case_bool_decide; try done. intros [= <- <-].
  assert (Hin : ∀ f, f ∈ sorted_formats (pm ∖ missing) ↔ f ∈ pm ∧ f ∉ missing) by (intros f; rewrite sorted_formats_in; set_solver).
  split; [|exact Hin]. intros E. match goal with H : pm ∖ missing ≠ ∅ |- _ => apply set_choose_L in H as [f Hf] end.
  assert (f ∈ sorted_formats (pm ∖ missing)) as Hf' by by apply sorted_formats_in. rewrite E in Hf'. by apply elem_of_nil in Hf'.
Qed.

(** The issue about internal states of partner only what the run observed: could not be read exactly when reading it
    failed, not checked exactly when it was not asked, and its formats otherwise. *)
Theorem internal_issue_observed f c x :
  let b := body_for (internal_finding f c) x in
  Table (version f) (sorted_formats (missing c)) (tagged c)
    (PartnerRow (match partner f with
                 | PFault _ _ => CouldNotBeRead
                 | PNotChecked => NotChecked
                 | PMissing _ _ pm => _partner_cell (Some pm) (missing c) false
                 end)) SinceAttempt (age c) ∈ _issue_body b ∧
  (Remedy (StateB (version f) (sorted_formats (missing c))) ∈ _issue_body b ↔ tagged c = true) ∧
  (∀ n, CrossLink n ∈ _issue_body b ↔ number <$> x = Some n).
Proof.
  cbn zeta. unfold _issue_body, body_for, internal_finding, partner_missing, partner_error, _remediation, _partner_cell. cbn.
  split; [|split].
  - destruct (partner f) as [p e| |p r pm]; cbn; right; by left.
  - destruct (tagged c), x; cbn; set_solver.
  - intros n. destruct (tagged c), x as [i|]; cbn; set_solver.
Qed.
