(* ===== verification/DpopCheck.v ===== *)
(** * DpopCheck: a DPoP proof is valid for one call

    The receiver of a proof, as [docs/specs/mgmt-dpop.md] states it (a compact JWS of at most 8 KiB; the exact
    header and claim members; the signature under the header's own key; the thumbprint, method, target, token
    and body of the call; the clock within 60 seconds), against the proofs [mgmt_dpop_proof] makes. *)

From stdpp Require Import base list numbers option strings sets.
From Stdlib Require Import SpecFloat.
From S2P Require Import Prelude Text Sha256 Base64 Keys Framing Floats Json JsonRead Dumps Jcs JcsRead RecordDigest.
From S2P Require Import Commitment Jws Dpop.

(** ** The receiver *)

(** One management call as the receiver sees it: the token's [cnf.jkt], the token, the method, the target and
    the body, at the receiver's clock. *)
Record mgmt_call := {
  mc_jkt : pystr; mc_token : pystr; mc_htm : pystr; mc_htu : pystr; mc_body : bytes; mc_clock : Z;
}.

Definition has (d : list (pyval * pyval)) (k v : pystr) : bool :=
  match dict_find k d with Some w => py_eq_str w v | None => false end.

Definition check_header `{Ed25519} (c : mgmt_call) (header : list (pyval * pyval)) (sig msg : bytes) : bool :=
  (zlen header =? 3) && has header (lit "typ") (lit "dpop+jwt") && has header (lit "alg") (lit "EdDSA") &&
  match dict_find (lit "jwk") header with
  | Some (PDict jwk) =>
    (zlen jwk =? 3) && has jwk (lit "kty") (lit "OKP") && has jwk (lit "crv") (lit "Ed25519") &&
    match dict_find (lit "x") jwk with
    | Some (PStr x) =>
      bool_decide (thumbprint x = mc_jkt c) &&
      match _b64url_decode x with Ok pk => ed_verify pk sig msg | Raise _ => false end
    | _ => false
    end
  | _ => false
  end.

Definition check_claims (c : mgmt_call) (claims : list (pyval * pyval)) : bool :=
  (zlen claims =? 6) &&
  match dict_find (lit "jti") claims with
  | Some (PStr jti) => (0 <? zlen jti) && (zlen jti <=? 256)
  | _ => false
  end &&
  has claims (lit "htm") (mc_htm c) && has claims (lit "htu") (mc_htu c) &&
  match dict_find (lit "iat") claims with
  | Some (PInt iat) => Z.abs (mc_clock c - iat) <=? 60
  | _ => false
  end &&
  has claims (lit "ath") (_sha256_b64url (mc_token c)) && has claims (lit "seam_bd") (_sha256_b64url (mc_body c)).

Definition mgmt_dpop_check `{Ed25519} (c : mgmt_call) (proof : pystr) : bool :=
  (zlen proof <=? MGMT_DPOP_MAX_PROOF_BYTES) &&
  match split_dot proof with
  | [h64; c64; s64] =>
    match _b64url_decode h64 ≫= json_loads _no_duplicate_keys, _b64url_decode c64 ≫= json_loads _no_duplicate_keys,
          _b64url_decode s64 with
    | Ok (PDict header), Ok (PDict claims), Ok sig =>
      check_header c header sig (h64 ++ lit "." ++ c64) && check_claims c claims
    | _, _, _ => false
    end
  | _ => false
  end.

(** ** Reading a proof back *)

(** A part of the proof decodes to the value it was made from. *)
Lemma proof_part_decodes o :
  (∃ k v items, o = JObj ((k, v) :: items)) → dumpable o →
  (_b64url_decode (_b64url (dumps compact 0 o)) ≫= json_loads _no_duplicate_keys) = Ok (py_of o).
Proof. apply (part_decodes _). Qed.

Lemma sha256_b64url_printable b : forallb printable (_sha256_b64url b) = true.
Proof. apply b64url_printable. auto with seam. Qed.

Lemma header_dumpable key pk : _x key = _b64url pk → Forall is_byte pk → dumpable (proof_header key).
Proof.
  intros Hx Hb. unfold proof_header, public_jwk. dumpable_members; [by apply text_dumpable..|].
  dumpable_members; [by apply text_dumpable..|]. rewrite Hx. by apply text_dumpable, b64url_printable.
Qed.

Lemma claims_dumpable jti htm htu iat token body :
  _PRINTABLE jti = true → _METHOD htm = true → _PRINTABLE htu = true → 0 ≤ iat ≤ MGMT_DPOP_MAX_IAT →
  dumpable (proof_claims jti htm htu iat token body).
Proof.
  intros Hj Hm Hu Hi. unfold proof_claims. dumpable_members.
  - by apply text_dumpable, (class_printable printable).
  - apply text_dumpable. eapply class_printable, Hm. apply tchar_printable.
  - by apply text_dumpable, (class_printable printable).
  - apply dumpable_int, str_of_int_short. unfold MGMT_DPOP_MAX_IAT in Hi. lia.
  - apply text_dumpable, sha256_b64url_printable.
  - apply text_dumpable, sha256_b64url_printable.
Qed.

Lemma sha256_b64url_inj a b : _sha256_b64url a = _sha256_b64url b ↔ sha256 a = sha256 b.
Proof.
  split; [|by intros E; unfold _sha256_b64url; rewrite E]. apply b64url_nopad_inj; auto with seam.
Qed.

(** The bytes of a request body argument. *)
Definition body_bytes (v : pyval) : option bytes :=
  match v with PBytes b | PBuf _ _ b => Some b | _ => None end.

(** Look literal keys up. *)
Ltac find_keys :=
  repeat (progress cbn [dict_find fmap list_fmap py_of fst snd andb];
  repeat match goal with
  | |- context [py_eq_str (PStr (lit ?a)) (lit ?b)] =>
    let r := eval vm_compute in (py_eq_str (PStr (lit a)) (lit b)) in
    change (py_eq_str (PStr (lit a)) (lit b)) with r
  end; cbn iota).

Lemma b64url_decode_own b : Forall is_byte b → _b64url_decode (_b64url b) = Ok b.
Proof. apply b64url_decode_nopad. Qed.

Lemma PStr_inj s t : PStr s = PStr t → s = t.
Proof. by intros [= ->]. Qed.

Section check.
Context `{Ed25519Laws}.

Lemma check_own_header c seed sig msg :
  let key := {| _sk := seed; _x := _b64url (ed_public seed); _jkt := thumbprint (_b64url (ed_public seed)) |} in
  match py_of (proof_header key) with
  | PDict d => check_header c d sig msg = bool_decide (_jkt key = mc_jkt c) && ed_verify (ed_public seed) sig msg
  | _ => False
  end.
Proof.
  unfold proof_header, public_jwk. cbn [py_of]. unfold check_header, has. find_keys. cbn [_x _jkt].
  by rewrite b64url_decode_own by apply ed_public_bytes.
Qed.

Lemma check_own_claims c jti htm htu iat token body :
  0 < zlen jti ≤ 256 →
  match py_of (proof_claims jti htm htu iat token body) with
  | PDict d =>
    check_claims c d = true ↔
    htm = mc_htm c ∧ htu = mc_htu c ∧ Z.abs (mc_clock c - iat) ≤ 60 ∧ sha256 (mc_token c) = sha256 token ∧
    sha256 (mc_body c) = sha256 body
  | _ => False
  end.
Proof.
  intros Hj. unfold proof_claims. cbn [py_of]. unfold check_claims, has. find_keys.
  change (zlen [_; _; _; _; _; _] =? 6) with true.
  rewrite (proj2 (Z.ltb_lt _ _)), (proj2 (Z.leb_le (zlen jti) _)) by lia. cbn [andb].
  rewrite !andb_true_iff, !py_eq_str_true, Z.leb_le, <-!sha256_b64url_inj. split.
  - intros ((((->%PStr_inj & ->%PStr_inj) & Hi) & Ht%PStr_inj) & Hb%PStr_inj). rewrite Ht, Hb. auto.
  - intros (-> & -> & Hi & Ht & Hb). rewrite Ht, Hb. auto.
Qed.

Lemma proof_check seed key token htm htu body iat jti now fresh p c :
  new_OperatorDpopKey seed = Ok key →
  mgmt_dpop_proof (Some key) token htm htu body iat jti now fresh = Ok p →
  mgmt_dpop_check c p = true ↔
  mc_jkt c = _jkt key ∧ htm = PStr (mc_htm c) ∧ htu = PStr (mc_htu c) ∧
  (∃ i, (if is_none iat then PInt now else iat) = PInt i ∧ Z.abs (mc_clock c - i) ≤ 60) ∧
  (∃ t, token = PStr t ∧ sha256 (mc_token c) = sha256 t) ∧
  (∃ b, body_bytes body = Some b ∧ sha256 (mc_body c) = sha256 b).
Proof.
  intros [Hl ->]%new_key_spec Hp. set (key := {| _sk := seed |}) in *.
  destruct (mgmt_dpop_proof_inv _ _ _ _ _ _ _ _ _ _ Hp)
    as (t & m & u & b & i & j & -> & Ht & -> & Hm & -> & Hu & Hb & Hbl & Hi & Hir & Hj & Hjp & Hjl & Hpl & ->).
  assert (body_bytes body = Some b) as Hbody by (by destruct Hb as [->|(? & ? & ->)]).
  assert (0 < zlen j ≤ 256) as Hjz.
  { apply all_of_forall in Hjp as [Hne _]. destruct j; [done|]. rewrite length_cons in *. unfold MGMT_DPOP_MAX_JTI_BYTES in Hjl. lia. }
  set (msg := signing_text key j m u i t b) in *.
  assert (split_dot (msg ++ lit "." ++ _b64url (ed_sign (_sk key) msg)) =
    [_b64url (dumps compact 0 (proof_header key)); _b64url (dumps compact 0 (proof_claims j m u i t b));
     _b64url (ed_sign (_sk key) msg)]) as Hsplit.
  { unfold msg at 1, signing_text. rewrite <-!(assoc_L (++)).
    rewrite !split_dot_app by apply b64url_no_dot, dumps_b64url.
    by rewrite split_dot_nodot by apply b64url_no_dot, ed_sign_bytes. }
  unfold mgmt_dpop_check. rewrite (proj2 (Z.leb_le _ _) Hpl), Hsplit. cbn [andb].
  rewrite (proof_part_decodes (proof_header key) (ex_intro _ _ (ex_intro _ _ (ex_intro _ _ eq_refl)))
             (header_dumpable key _ eq_refl (ed_public_bytes seed))).
  rewrite (proof_part_decodes (proof_claims j m u i t b) (ex_intro _ _ (ex_intro _ _ (ex_intro _ _ eq_refl)))
             (claims_dumpable j m u i t b Hjp Hm Hu Hir)).
  rewrite b64url_decode_own by apply ed_sign_bytes.
  pose proof (check_own_header c seed (ed_sign seed msg) msg) as Hh.
  pose proof (check_own_claims c j m u i t b Hjz) as Hc.
  change (_b64url (dumps compact 0 (proof_header key)) ++ lit "." ++ _b64url (dumps compact 0 (proof_claims j m u i t b)))
    with msg.
  cbv zeta in Hh. fold key in Hh. change (_sk key) with seed.
  assert (∃ d, py_of (proof_header key) = PDict d) as [header Eh] by by eexists.
  assert (∃ d, py_of (proof_claims j m u i t b) = PDict d) as [claims Ec] by by eexists.
  rewrite Eh in Hh |- *. rewrite Ec in Hc |- *.
  rewrite Hh, ed_verify_sign by done. rewrite !andb_true_iff, bool_decide_eq_true, Hc, Hbody, Hi. split.
  - intros ([<- _] & -> & -> & Hd & Hs & Hbd). split_and!; eauto.
  - intros (-> & [= ->] & [= ->] & (? & [= <-] & Hd) & (? & [= <-] & Hs) & (? & [= <-] & Hbd)).
    by split_and!.
Qed.

(** C16. A proof is valid for the call it was made for, and for no other: the receiver's check accepts a proof
    of [mgmt_dpop_proof] exactly when the token is bound to the signing key, the method and the target are the
    ones signed, the receiver's clock is within 60 seconds of the signed [iat], and the presented token and
    body have the signed digests (so they are the signed ones, SHA-256 collisions apart). *)
Theorem mgmt_dpop_proof_one_call seed key token htm htu body iat jti now fresh p c :
  new_OperatorDpopKey seed = Ok key →
  mgmt_dpop_proof (Some key) token htm htu body iat jti now fresh = Ok p →
  mgmt_dpop_check c p = true ↔
  mc_jkt c = _jkt key ∧ htm = PStr (mc_htm c) ∧ htu = PStr (mc_htu c) ∧
  (∃ i, (if is_none iat then PInt now else iat) = PInt i ∧ Z.abs (mc_clock c - i) ≤ 60) ∧
  (∃ t, token = PStr t ∧ sha256 (mc_token c) = sha256 t) ∧
  (∃ b, body_bytes body = Some b ∧ sha256 (mc_body c) = sha256 b).
Proof. apply proof_check. Qed.

(** The value of the first member of an object, when it is text. *)
Definition jti_of (v : pyval) : pystr := match v with PDict ((_, PStr s) :: _) => s | _ => [] end.

(** The id of a proof can be read off it: proofs made with fresh ids are equal only if the ids are. *)
Lemma proof_fresh_inj key pk token htm htu body iat now fresh token' htm' htu' body' iat' now' fresh' p :
  _x key = _b64url pk → Forall is_byte pk → Forall is_byte fresh → Forall is_byte fresh' →
  mgmt_dpop_proof (Some key) token htm htu body iat PNone now fresh = Ok p →
  mgmt_dpop_proof (Some key) token' htm' htu' body' iat' PNone now' fresh' = Ok p → fresh = fresh'.
Proof.
  intros Hx Hpk Hf Hf' Hp Hp'.
  destruct (mgmt_dpop_proof_inv _ _ _ _ _ _ _ _ _ _ Hp)
    as (t & m & u & b & i & j & _ & _ & _ & Hm & _ & Hu & _ & _ & _ & Hir & [= <-] & Hjp & _ & _ & E).
  destruct (mgmt_dpop_proof_inv _ _ _ _ _ _ _ _ _ _ Hp')
    as (t' & m' & u' & b' & i' & j' & _ & _ & _ & Hm' & _ & Hu' & _ & _ & _ & Hir' & [= <-] & Hjp' & _ & _ & E').
  apply (f_equal split_dot) in E, E'. unfold signing_text in E, E'. rewrite <-!(assoc_L (++)) in E, E'.
  rewrite !split_dot_app in E, E' by apply b64url_no_dot, dumps_b64url.
  rewrite E in E'. apply (f_equal (λ l, _b64url_decode (nth 1 l []) ≫= json_loads _no_duplicate_keys)) in E'.
  cbn [nth] in E'. rewrite !proof_part_decodes in E' by (by do 3 eexists || by apply claims_dumpable).
  apply Ok_inj, (f_equal jti_of) in E'. unfold proof_claims, jti_of in E'. cbn [py_of fmap list_fmap snd fst] in E'.
  by apply b64url_nopad_inj in E'.
Qed.
End check.

(** ** The theorem at a concrete call *)

Definition sample_htu : pystr := lit "grpc://seam-runtime/seam.api.v1.SeamAdmin/EnrollTenant".
Definition sample_key : OperatorDpopKey :=
  match @new_OperatorDpopKey toy_ed25519 (repeat 0x42 32) with Ok k => k | Raise _ => {| _sk := []; _x := []; _jkt := [] |} end.
Definition sample_proof : res pystr :=
  @mgmt_dpop_proof toy_ed25519 (Some sample_key) (PStr golden_token) (PStr (lit "POST")) (PStr sample_htu)
    (PBytes [1; 2]) PNone (PStr (lit "golden-1")) 1800000000 [].
Definition sample_call : mgmt_call := {|
  mc_jkt := _jkt sample_key; mc_token := golden_token; mc_htm := lit "POST"; mc_htu := sample_htu;
  mc_body := [1; 2]; mc_clock := 1800000060;
|}.

Lemma mgmt_dpop_proof_one_call_witness :
  ∃ p, sample_proof = Ok p ∧ @mgmt_dpop_check toy_ed25519 sample_call p = true.
Proof.
  destruct sample_proof as [p|e] eqn:E; [|exfalso; revert E; vm_compute; discriminate].
  exists p. split; [reflexivity|]. unfold sample_proof in E.
  assert (@new_OperatorDpopKey toy_ed25519 (repeat 0x42 32) = Ok sample_key) as Hk by (vm_compute; reflexivity).
  apply (proj2 (@mgmt_dpop_proof_one_call toy_ed25519 toy_ed25519_laws (repeat 0x42 32) sample_key (PStr golden_token)
    (PStr (lit "POST")) (PStr sample_htu) (PBytes [1; 2]) PNone (PStr (lit "golden-1")) 1800000000 [] p
    sample_call Hk E)).
  split; [reflexivity|]. split; [reflexivity|]. split; [reflexivity|]. split.
  - exists 1800000000. split; [reflexivity|vm_compute; discriminate].
  - split; [exists golden_token|exists [1; 2]]; split; reflexivity.
Defined.
