(* ===== verification/HttpHtu.v ===== *)
(** * HttpHtu: the URL grammar of [mgmt_dpop_http_htu]

    The docstring states a grammar: [scheme "://" authority [path] ["?" query] ["#" fragment]], an authority being
    [host [":" port]], a host a reg-name or a bracketed IPv6 literal, and a port 1-5 digits. The function is laxer
    in two places, an empty port and any text in the brackets, and stricter in one, a port above 65535. A [url_parts] is
    one reading of a URL; [good_url] the readings the function takes; [mgmt_dpop_http_htu] accepts exactly
    the texts with such a reading, and returns what that reading prescribes. *)

From stdpp Require Import base list numbers option strings sets.
From Stdlib Require Import SpecFloat.
From S2P Require Import Prelude Text Base64 Keys Floats Json Dumps Jws Dpop.

(** ** The grammar *)

Record url_parts := {
  u_scheme : pystr;
  u_host : pystr;
  u_port : option pystr;   (** the text after the colon, if there is one *)
  u_path : pystr;
  u_tail : pystr;          (** query and fragment *)
}.

Definition port_suffix (port : option pystr) : pystr := match port with Some p => 58 :: p | None => [] end.

Definition render (u : url_parts) : pystr :=
  u_scheme u ++ lit "://" ++ u_host u ++ port_suffix (u_port u) ++ u_path u ++ u_tail u.

(** No character of [cs] occurs in [s]. *)
Definition free_of (cs s : pystr) : Prop := ∀ c, c ∈ s → c ∉ cs.

(** A reg-name, or any non-empty text in brackets: that it is an IPv6 literal is not checked. *)
Definition good_host (h : pystr) : Prop :=
  h ≠ [] ∧ free_of (lit ":/?#@") h ∧ (∀ r, h ≠ 91 :: r) ∨
  ∃ inner, h = 91 :: inner ++ [93] ∧ inner ≠ [] ∧ free_of (lit "]/?#@") inner.

(** Up to five digits, at most 65535; none at all is taken for no port. *)
Definition good_port (p : pystr) : Prop :=
  p = [] ∨ zlen p ≤ 5 ∧ forallb is_digit p = true ∧ dec_value p ≤ 65535.

Definition good_url (u : url_parts) : Prop :=
  _TOKEN_CHARS (render u) = true ∧
  lower (u_scheme u) ∈ [lit "http"; lit "https"] ∧
  good_host (u_host u) ∧
  (∀ p, u_port u = Some p → good_port p) ∧
  (u_path u = [] ∨ ∃ r, u_path u = 47 :: r ∧ free_of (lit "?#") r) ∧
  (u_tail u = [] ∨ ∃ c r, u_tail u = c :: r ∧ c ∈ lit "?#").

(** The port the runtime compares: an explicit one that is not the scheme's default. *)
Definition kept_port (scheme : pystr) (port : option pystr) : pystr :=
  match port with
  | None | Some [] => []
  | Some p =>
    if decide (dec_value p = if decide (lower scheme = lit "https") then 443 else 80) then []
    else 58 :: str_of_int (dec_value p)
  end.

Definition htu_of (u : url_parts) : pystr :=
  lit "https://" ++ lower (u_host u) ++ kept_port (u_scheme u) (u_port u)
  ++ (match u_path u with [] => lit "/" | _ => u_path u end).

(** ** Cutting text *)

(** A character that is not in a literal. *)
Ltac not_lit H :=
  vm_compute in H; repeat (apply elem_of_cons in H as [?|H]; [done|]); by apply not_elem_of_nil in H.

Lemma str_find_spec c s i : str_find c s = Some i → (i < length s)%nat ∧ s !! i = Some c ∧ c ∉ take i s.
Proof.
  revert i. induction s as [|x s IH]; intros i; simpl; [done|].
  destruct (Z.eqb_spec x c) as [->|Hx].
  - intros [= <-]. split_and!; [lia|done|apply not_elem_of_nil].
  - destruct (str_find c s) as [j|]; [|done]. intros [= <-].
    destruct (IH j eq_refl) as (? & ? & ?). split_and!; [lia|done|]. simpl. rewrite not_elem_of_cons. auto.
Qed.

Lemma str_find_None c s : str_find c s = None ↔ c ∉ s.
Proof.
  induction s as [|x s IH]; simpl; [split; [intros; apply not_elem_of_nil|done]|].
  rewrite not_elem_of_cons. destruct (Z.eqb_spec x c) as [->|]; [by split; [|intros []]|].
  rewrite fmap_None, IH. naive_solver.
Qed.

Lemma str_find_app c a b : c ∉ a → str_find c (a ++ c :: b) = Some (length a).
Proof.
  induction a as [|x a IH]; simpl; [by rewrite Z.eqb_refl|]. rewrite not_elem_of_cons. intros [? ?].
  destruct (Z.eqb_spec x c); [congruence|]. by rewrite IH.
Qed.

(** [first_of] by recursion on the text. *)
Lemma first_of_nil cs : first_of cs [] = 0%nat.
Proof. unfold first_of. by induction cs. Qed.

Lemma first_of_cons cs x s :
  first_of cs (x :: s) = if decide (x ∈ cs) then 0%nat else S (first_of cs s).
Proof.
  unfold first_of. induction cs as [|c cs IH]; [done|]. cbn [omap list_omap].
  change (str_find c (x :: s)) with (if x =? c then Some 0%nat else S <$> str_find c s).
  destruct (Z.eqb_spec x c) as [->|Hx].
  - rewrite decide_True by left. done.
  - case_decide as Hin; case_decide as Hin'; try (exfalso; set_solver);
      destruct (str_find c s); cbn [fmap option_fmap option_map foldr]; rewrite IH; cbn [foldr]; lia.
Qed.

Lemma first_of_spec cs s :
  free_of cs (take (first_of cs s) s) ∧
  (drop (first_of cs s) s = [] ∨ ∃ c r, drop (first_of cs s) s = c :: r ∧ c ∈ cs).
Proof.
  induction s as [|x s [IH1 IH2]]; [rewrite first_of_nil; split; [intros c ?%not_elem_of_nil; done|by left]|].
  rewrite first_of_cons. case_decide as Hx.
  - split; [intros c ?%not_elem_of_nil; done|]. right. by exists x, s.
  - split; [|done]. intros c [->|Hc]%elem_of_cons; [done|by apply IH1].
Qed.

Lemma first_of_unique cs a b :
  free_of cs a → (b = [] ∨ ∃ c r, b = c :: r ∧ c ∈ cs) → first_of cs (a ++ b) = length a.
Proof.
  intros Ha Hb. induction a as [|x a IH]; simpl.
  - destruct Hb as [->|(c & r & -> & Hc)]; [apply first_of_nil|]. by rewrite first_of_cons, decide_True.
  - rewrite first_of_cons, decide_False by (apply Ha; left). f_equal. apply IH. intros c Hc. apply Ha. by right.
Qed.

Lemma partition_true sep s a b : partition sep s = (a, true, b) → s = a ++ sep ++ b.
Proof.
  revert a. induction s as [|c s IH]; intros a; cbn [partition].
  - destruct (strip_prefix sep []) as [r|] eqn:E; [|done]. intros [= <- <-]. by apply strip_prefix_Some in E.
  - destruct (strip_prefix sep (c :: s)) as [r|] eqn:E.
    + intros [= <- <-]. by apply strip_prefix_Some in E.
    + destruct (partition sep s) as [[a' f] b'] eqn:Ep. intros [= <- -> ->]. simpl. f_equal. by apply IH.
Qed.

Lemma partition_app x sep a b : x ∉ a → partition (x :: sep) (a ++ (x :: sep) ++ b) = (a, true, b).
Proof.
  induction a as [|c a IH]; intros Ha.
  - change ([] ++ (x :: sep) ++ b) with ((x :: sep) ++ b).
    pose proof (strip_prefix_app (x :: sep) b) as E. cbn [app] in *. cbn [partition]. by rewrite E.
  - apply not_elem_of_cons in Ha as [Hc Ha]. change ((c :: a) ++ ?r) with (c :: (a ++ r)). cbn [partition].
    assert (strip_prefix (x :: sep) (c :: a ++ (x :: sep) ++ b) = None) as ->.
    { cbn [strip_prefix]. by destruct (Z.eqb_spec x c). }
    by rewrite IH.
Qed.

Lemma partition_false x sep s : x ∉ s → partition (x :: sep) s = (s, false, []).
Proof.
  induction s as [|c s IH]; [done|]. rewrite not_elem_of_cons. intros [Hc Hs]. cbn [partition].
  assert (strip_prefix (x :: sep) (c :: s) = None) as ->.
  { cbn [strip_prefix]. by destruct (Z.eqb_spec x c). }
  by rewrite IH.
Qed.

Lemma partition_colon s :
  (∃ a b, s = a ++ 58 :: b ∧ (58 ∉ a) ∧ partition (lit ":") s = (a, true, b)) ∨
  (58 ∉ s) ∧ partition (lit ":") s = (s, false, []).
Proof.
  destruct (decide (58 ∈ s)) as [Hin|Hin]; [left|right; split; [done|by apply (partition_false 58 [])]].
  destruct (str_find 58 s) as [i|] eqn:E; [|by apply str_find_None in E].
  apply str_find_spec in E as (_ & Hi & Hn). exists (take i s), (drop (S i) s).
  assert (s = take i s ++ 58 :: drop (S i) s) as Hs by (by rewrite take_drop_middle).
  split_and!; [done|done|]. rewrite Hs at 1. by apply (partition_app 58 []).
Qed.

Lemma scheme_no_colon s : lower s ∈ [lit "http"; lit "https"] → 58 ∉ s.
Proof.
  intros Hs Hin. assert (58 ∈ lower s) as Hl by (apply list_elem_of_fmap; by exists 58).
  rewrite !elem_of_cons, elem_of_nil in Hs. destruct Hs as [Hs|[Hs|[]]]; rewrite Hs in Hl; not_lit Hl.
Qed.

(** ** Authorities *)

Lemma parse_port_spec p r :
  parse_port p = Ok r ↔ good_port p ∧ r = match p with [] => None | _ => Some (dec_value p) end.
Proof.
  unfold parse_port, good_port. destruct p as [|c p]; [naive_solver|].
  set (q := c :: p). assert (q ≠ []) as Hq by done. clearbody q.
  destruct (Z.ltb_spec 5 (zlen q)), (forallb is_digit q), (Z.ltb_spec 65535 (dec_value q)); simpl;
    split; try done; try (intros [= <-]; split; [right; split_and!; (done || lia)|done]);
    intros [[?|(? & ? & ?)] ->]; done || lia.
Qed.

Lemma good_port_free p c : good_port p → c ∈ lit ":/?#@" → c ∉ p.
Proof.
  intros [->|(_ & Hd & _)] Hc; [apply not_elem_of_nil|]. intros Hin%list_elem_of_In.
  apply (proj1 (forallb_forall _ _) Hd) in Hin. vm_compute in Hc.
  repeat (apply elem_of_cons in Hc as [->|Hc]; [done|]). by apply not_elem_of_nil in Hc.
Qed.

Lemma split_authority_other a : (∀ r, a ≠ 91 :: r) →
  split_authority a =
  let '(host, _, port_text) := partition (lit ":") a in
  if bool_decide (58 ∈ port_text) then Raise DpopError else Ok (host, port_text).
Proof.
  intros Hb. destruct a as [|c a]; [done|]. unfold split_authority.
  repeat match goal with |- context [match ?p with xI _ => _ | _ => _ end] => destruct p; try done
  | |- context [match ?z with Z0 => _ | _ => _ end] => destruct z; try done end.
  by destruct (Hb a).
Qed.

Lemma split_authority_good h port :
  good_host h → (∀ p, port = Some p → good_port p) →
  split_authority (h ++ port_suffix port) = Ok (h, default [] port).
Proof.
  intros Hh Hp. assert (∀ p, port = Some p → 58 ∉ p) as Hcolon.
  { intros p ?. apply good_port_free; [by apply Hp|by vm_compute; left]. }
  destruct Hh as [(Hne & Hf & Hb)|(inner & -> & Hne & Hf)].
  - assert (58 ∉ h) as H58 by (intros Hin; apply (Hf _ Hin); by vm_compute; left).
    rewrite split_authority_other by (destruct h; [done|]; intros r [= ->]; by apply (Hb h)).
    destruct port as [p|]; cbn [port_suffix].
    + pose proof (partition_app 58 [] h p H58) as E. cbn [app] in E. change (lit ":") with [58]. rewrite E. by rewrite bool_decide_eq_false_2 by by apply Hcolon.
    + change (lit ":") with [58]. rewrite app_nil_r, (partition_false 58 []) by done.
      by rewrite bool_decide_eq_false_2 by apply not_elem_of_nil.
  - assert (93 ∉ inner) as H93 by (intros Hin; apply (Hf _ Hin); by vm_compute; left).
    assert (str_find 93 ((91 :: inner ++ [93]) ++ port_suffix port) = Some (S (length inner))) as E.
    { replace ((91 :: inner ++ [93]) ++ port_suffix port) with ((91 :: inner) ++ 93 :: port_suffix port)
        by (simpl; by rewrite <-(assoc_L (++))).
      rewrite str_find_app; [done|]. by apply not_elem_of_cons. }
    unfold split_authority. change ((91 :: inner ++ [93]) ++ port_suffix port)
      with (91 :: ((inner ++ [93]) ++ port_suffix port)) in *. rewrite E.
    assert ((S (length inner) <? 2)%nat = false) as -> by (apply Nat.ltb_ge; destruct inner; [done|simpl; lia]).
    assert (S (S (length inner)) = length (91 :: inner ++ [93])) as -> by (simpl; rewrite length_app; simpl; lia).
    change (91 :: (inner ++ [93]) ++ port_suffix port) with ((91 :: inner ++ [93]) ++ port_suffix port).
    rewrite take_app_length, drop_app_length. by destruct port.
Qed.

Lemma free_of_app cs a b : free_of cs (a ++ b) ↔ free_of cs a ∧ free_of cs b.
Proof.
  unfold free_of. split; [intros Hf; split; intros c Hc; apply Hf, elem_of_app; auto|].
  intros [Ha Hb] c [Hc|Hc]%elem_of_app; auto.
Qed.

Lemma free_of_sub cs ds s : (∀ c, c ∈ ds → c ∈ cs) → free_of cs s → free_of ds s.
Proof. intros Hsub Hf c Hc Hd. by apply (Hf c Hc), Hsub. Qed.

(** A bracketed authority, cut at its first closing bracket. *)
Lemma split_bracket a h p :
  split_authority (91 :: a) = Ok (h, p) →
  ∃ inner port, h = 91 :: inner ++ [93] ∧ inner ≠ [] ∧ (93 ∉ inner) ∧ 91 :: a = h ++ port_suffix port ∧ p = default [] port.
Proof.
  unfold split_authority. destruct (str_find 93 (91 :: a)) as [close|] eqn:E; [|done].
  apply str_find_spec in E as (Hlt & Hc & Hn). destruct (Nat.ltb_spec close 2); [done|].
  pose proof (take_drop (S close) (91 :: a)) as Hcut. rewrite (take_S_r _ _ _ Hc) in Hcut |- *.
  destruct close as [|close]; [lia|]. cbn [take] in *. apply not_elem_of_cons in Hn as [_ Hn].
  set (inner := take close a) in *.
  assert (inner ≠ []) as Hne.
  { unfold inner. intros Hnil%(f_equal length). rewrite length_take in Hnil. simpl in *. lia. }
  intros Hs. destruct (drop (S (S close)) (91 :: a)) as [|c r] eqn:Ed.
  - apply Ok_inj in Hs. injection Hs as <- <-. exists inner, None. rewrite <-Hcut. by split_and!.
  - destruct (Z.eqb_spec c 58) as [->|]; [|done]. apply Ok_inj in Hs. injection Hs as <- <-.
    exists inner, (Some r). rewrite <-Hcut. by split_and!.
Qed.

Lemma split_authority_inv a h p :
  split_authority a = Ok (h, p) → h ≠ [] → free_of (lit "/?#@") a →
  ∃ port, a = h ++ port_suffix port ∧ p = default [] port ∧ good_host h.
Proof.
  intros Hs Hne Hf. destruct (decide (head a = Some 91)) as [Hh|Hh].
  - destruct a as [|c a]; [done|]. injection Hh as ->.
    destruct (split_bracket _ _ _ Hs) as (inner & port & -> & Hi & H93 & Ha & ->). exists port.
    split_and!; [done|done|]. right. exists inner. split_and!; [done|done|].
    rewrite Ha in Hf. apply free_of_app in Hf as [Hf _]. intros c Hc [->|Hin]%elem_of_cons; [done|].
    by apply (Hf c); [right; apply elem_of_app; left|].
  - rewrite split_authority_other in Hs by (intros r ->; done).
    assert (∀ c, c ∈ lit ":/?#@" → c ≠ 58 → c ∈ lit "/?#@") as Hcs.
    { intros c Hc Hc58. by apply elem_of_cons in Hc as [->|Hc]. }
    assert (∀ s, free_of (lit "/?#@") s → 58 ∉ s → free_of (lit ":/?#@") s) as Hfree.
    { intros s Hs' Hs58 c Hc Hin. apply (Hs' c Hc), Hcs; [done|]. by intros ->. }
    destruct (partition_colon a) as [(x & y & -> & Hx & Ep)|[Ha Ep]]; rewrite Ep in Hs.
    + case_bool_decide; [done|]. apply Ok_inj in Hs. injection Hs as <- <-. exists (Some y).
      split_and!; [done|done|]. left. apply free_of_app in Hf as [Hf _]. split_and!; [done|by apply Hfree|].
      intros r ->. done.
    + case_bool_decide; [done|]. apply Ok_inj in Hs. injection Hs as <- <-. exists None.
      rewrite app_nil_r. split_and!; [done|done|]. left. split_and!; [done|by apply Hfree|]. intros r ->. done.
Qed.

(** ** The theorem *)

Lemma host_free h : good_host h → free_of (lit "/?#@") h.
Proof.
  intros [(_ & Hf & _)|(inner & -> & _ & Hf)] c Hc Hin.
  - apply (Hf c Hc). by right.
  - apply elem_of_cons in Hc as [->|[Hc|Hc]%elem_of_app].
    + not_lit Hin.
    + apply (Hf c Hc). by right.
    + apply list_elem_of_singleton in Hc as ->.
      not_lit Hin.
Qed.

Lemma authority_free h port : good_host h → (∀ p, port = Some p → good_port p) →
  free_of (lit "/?#@") (h ++ port_suffix port).
Proof.
  intros Hh Hp. apply free_of_app. split; [by apply host_free|].
  destruct port as [p|]; [|intros c ?%not_elem_of_nil; done]. intros c [->|Hc]%elem_of_cons Hin.
  - not_lit Hin.
  - eapply good_port_free, Hc; [by apply Hp|by right].
Qed.

(** The path and the rest of the URL are cut off the authority, and apart. *)
Lemma path_free u : good_url u → free_of (lit "?#") (u_path u) ∧
  (u_path u ++ u_tail u = [] ∨ ∃ c r, u_path u ++ u_tail u = c :: r ∧ c ∈ lit "/?#").
Proof.
  intros (_ & _ & _ & _ & Hp & Ht). split.
  - destruct Hp as [->|(r & -> & Hf)]; [intros c ?%not_elem_of_nil; done|].
    intros c [->|Hc]%elem_of_cons Hin; [not_lit Hin|by apply (Hf c)].
  - destruct Hp as [->|(r & -> & _)]; [|right; exists 47, (r ++ u_tail u); split; [done|by vm_compute; left]].
    destruct Ht as [->|(c & r & -> & Hc)]; [by left|right]. exists c, r. split; [done|by right].
Qed.

Lemma kept_port_spec scheme port :
  kept_port scheme port =
  match match default [] port with [] => None | _ => Some (dec_value (default [] port)) end with
  | Some p => if p =? (if decide (lower scheme = lit "https") then 443 else 80) then [] else lit ":" ++ str_of_int p
  | None => []
  end.
Proof.
  unfold kept_port. destruct port as [[|c p]|]; [done| |done]. cbn [default from_option id].
  generalize (dec_value (c :: p)) (if decide (lower scheme = lit "https") then 443 else 80). intros d k.
  destruct (Z.eqb_spec d k); [by rewrite decide_True|by rewrite decide_False].
Qed.

Lemma path_form path query :
  free_of (lit "?#") path → (path ++ query = [] ∨ ∃ c r, path ++ query = c :: r ∧ c ∈ lit "/?#") →
  path = [] ∨ ∃ r, path = 47 :: r ∧ free_of (lit "?#") r.
Proof.
  intros Hf Ht. destruct path as [|x r]; [by left|right].
  destruct Ht as [Ht|(c & r' & [= -> _] & Hc)]; [done|].
  apply elem_of_cons in Hc as [->|Hc]; [|by destruct (Hf c); [left|]].
  exists r. split; [done|]. intros d Hd. apply Hf. by right.
Qed.

Lemma http_htu_reads url h :
  mgmt_dpop_http_htu (PStr url) = Ok h → ∃ u, good_url u ∧ url = render u ∧ h = htu_of u.
Proof.
  unfold mgmt_dpop_http_htu. intros (x & [[= <-] Hv]%dpop_text_spec & Hu)%bind_Ok.
  destruct (partition (lit "://") url) as [[scheme sep] rest] eqn:Ep.
  apply bind_Ok in Hu as ([] & [-> Hscheme%bool_decide_eq_true]%guard_raise_Ok%andb_true_iff & Hu). cbv zeta in Hu.
  apply partition_true in Ep.
  destruct (first_of_spec (lit "/?#") rest) as [Hauth Htail].
  pose proof (take_drop (first_of (lit "/?#") rest) rest) as Hrest.
  set (auth := take (first_of (lit "/?#") rest) rest) in *. set (tail := drop (first_of (lit "/?#") rest) rest) in *.
  destruct (first_of_spec (lit "?#") tail) as [Hpath Hquery].
  pose proof (take_drop (first_of (lit "?#") tail) tail) as Htl.
  set (path := take (first_of (lit "?#") tail) tail) in *. set (query := drop (first_of (lit "?#") tail) tail) in *.
  apply bind_Ok in Hu as ([] & Hat%guard_raise_Ok%negb_true_iff%bool_decide_eq_false & Hu).
  apply bind_Ok in Hu as ([host p] & Hs & Hu).
  apply bind_Ok in Hu as ([] & Hne%guard_raise_Ok%negb_true_iff%bool_decide_eq_false & Hu).
  apply bind_Ok in Hu as (po & [Hgp ->]%parse_port_spec & <-%Ok_inj).
  destruct (split_authority_inv auth host p Hs Hne) as (port & Ea & -> & Hh).
  { intros c Hc [Hin| ->%list_elem_of_singleton]%(elem_of_app (lit "/?#") [64]); [by apply (Hauth c)|done]. }
  set (u := {| u_scheme := scheme; u_host := host; u_port := port; u_path := path; u_tail := query |}).
  assert (url = render u) as Er.
  { unfold render, u. cbn [u_scheme u_host u_port u_path u_tail]. rewrite Ep. f_equal. f_equal.
    transitivity (auth ++ path ++ query); [by rewrite Htl|]. by rewrite Ea, <-(assoc_L (++)). }
  exists u. split_and!; [split_and!|done|].
  - by rewrite <-Er.
  - done.
  - done.
  - unfold u. cbn [u_port]. by intros q ->.
  - apply (path_form path query); [done|]. by rewrite Htl.
  - done.
  - unfold htu_of, u. cbn [u_scheme u_host u_port u_path]. rewrite kept_port_spec.
    destruct (default [] port) as [|c q]; [done|]. case_match; [done|]. by rewrite <-!(assoc_L (++)).
Qed.

Lemma http_htu_accepts u : good_url u → mgmt_dpop_http_htu (PStr (render u)) = Ok (htu_of u).
Proof.
  intros Hu. pose proof Hu as (Hv & Hs & Hh & Hp & _ & Ht). destruct (path_free u Hu) as [Hpath Htail].
  unfold mgmt_dpop_http_htu. rewrite (proj2 (dpop_text_spec _ _ (render u)) (conj eq_refl Hv)). cbn [mbind res_bind].
  unfold render. pose proof (partition_app 58 (lit "//") (u_scheme u)
    (u_host u ++ port_suffix (u_port u) ++ u_path u ++ u_tail u) (scheme_no_colon _ Hs)) as Ep.
  change (58 :: lit "//") with (lit "://") in Ep. rewrite Ep. cbn [andb].
  rewrite (bool_decide_eq_true_2 _ Hs). cbn [guard_raise mbind res_bind].
  pose proof (authority_free _ _ Hh Hp) as Hfree.
  set (auth := u_host u ++ port_suffix (u_port u)) in *. rewrite !(assoc_L (++) (u_host u)). fold auth.
  assert (first_of (lit "/?#") (auth ++ u_path u ++ u_tail u) = length auth) as ->.
  { apply first_of_unique; [|done]. eapply free_of_sub, Hfree. intros c Hc. apply (elem_of_app (lit "/?#") [64]). by left. }
  rewrite take_app_length, drop_app_length.
  rewrite (first_of_unique (lit "?#") (u_path u) (u_tail u)) by done. rewrite take_app_length.
  rewrite bool_decide_eq_false_2 by (intros Hin; by apply (Hfree 64); [|vm_compute; do 3 right; left]).
  cbn [negb guard_raise mbind res_bind]. unfold auth. rewrite split_authority_good by done. cbn [mbind res_bind].
  rewrite bool_decide_eq_false_2 by (destruct Hh as [(? & _)|(? & -> & _)]; done).
  cbn [negb guard_raise mbind res_bind].
  assert (good_port (default [] (u_port u))) as Hgp by (destruct (u_port u); [by apply Hp|by left]).
  rewrite (proj2 (parse_port_spec (default [] (u_port u)) _) (conj Hgp eq_refl)).
  cbn [mbind res_bind]. unfold htu_of. rewrite kept_port_spec. do 2 f_equal.
  destruct (default [] (u_port u)) as [|c q]; [done|]. case_match; [done|]. by rewrite <-!(assoc_L (++)).
Qed.

(** C40. What [mgmt_dpop_http_htu] accepts and returns, exactly: it accepts the visible-ASCII texts that read as
    [scheme "://" host [":" port] [path] [query and fragment]] with an [http] or [https] scheme in any case, a host
    that is a reg-name or any non-empty text in brackets, no userinfo, and a port of no more than five digits up
    to 65535, and nothing else; and it returns [https], the host in lower case, the port unless it is empty or the
    scheme's default, and the path (["/"] when empty), query and fragment dropped. This is the docstring's grammar but for
    the port, which may be empty here ([empty_port_accepted]) and not above 65535, and the brackets, which may
    hold what is no IPv6 literal ([any_bracketed_host_accepted]). *)
Theorem http_htu_grammar url h :
  mgmt_dpop_http_htu (PStr url) = Ok h ↔ ∃ u, good_url u ∧ url = render u ∧ h = htu_of u.
Proof.
  split; [apply http_htu_reads|]. intros (u & Hu & -> & ->). by apply http_htu_accepts.
Qed.

Example empty_port_accepted : mgmt_dpop_http_htu (PStr (lit "https://host:/p")) = Ok (lit "https://host/p").
Proof. vm_compute. reflexivity. Qed.
Example any_bracketed_host_accepted : mgmt_dpop_http_htu (PStr (lit "https://[not-an-address]/p")) = Ok (lit "https://[not-an-address]/p").
Proof. vm_compute. reflexivity. Qed.
Example five_digits_refused : mgmt_dpop_http_htu (PStr (lit "https://host:65536/p")) = Raise DpopError.
Proof. vm_compute. reflexivity. Qed.
