(* ===== verification/AdminAuth.v ===== *)
(** * AdminAuth: how a management call is authorized

    [admin.py]: the two client interceptors ([_BearerAuthInterceptor], [_DpopAuthInterceptor]), the audience
    of a DPoP target ([_resolve_operator_aud]) and the pairing rules of [SeamAdminClient.connect]
    ([_management_auth]). *)

From stdpp Require Import base list numbers option strings sets.
From Stdlib Require Import SpecFloat.
From S2P Require Import Prelude Text Sha256 Base64 Keys Framing Floats Json JsonRead Dumps Jcs JcsRead RecordDigest.
From S2P Require Import Commitment Jws Dpop DpopCheck.

(** ** Interceptors *)

(** [grpc.ClientCallDetails]; the method is a [str], or [bytes] in older versions of grpc. *)
Record ClientCallDetails := {
  d_method : pyval; d_timeout : pyval; d_metadata : option (list (pystr * pystr)); d_credentials : pyval;
  d_wait_for_ready : pyval; d_compression : pyval;
}.
Definition with_metadata (d : ClientCallDetails) (md : list (pystr * pystr)) : ClientCallDetails := {|
  d_method := d_method d; d_timeout := d_timeout d; d_metadata := Some md; d_credentials := d_credentials d;
  d_wait_for_ready := d_wait_for_ready d; d_compression := d_compression d;
|}.

(** [b.decode("ascii")] *)
Definition ascii_decode (b : bytes) : res pystr := if is_ascii b then Ok b else Raise UnicodeDecodeError.

(** [_BearerAuthInterceptor._with_auth] *)
Definition _with_auth (token : pystr) (d : ClientCallDetails) : ClientCallDetails :=
  with_metadata d (default [] (d_metadata d) ++ [(lit "authorization", lit "Bearer " ++ token)]).

(** [_DpopAuthInterceptor]: its clock, when there is one, is the sequence of values it returns. *)
Record DpopAuth := { da_token : pystr; da_key : OperatorDpopKey; da_aud : pystr; da_clock : option (nat → pyval) }.

(** [_DpopAuthInterceptor._with_proof]: [body] is [request.SerializeToString()], [iat] what the clock answers
    ([None] without one), [now] and [fresh] the time and the random bytes [mgmt_dpop_proof] draws. *)
Definition _with_proof `{Ed25519} (it : DpopAuth) (d : ClientCallDetails) (body : bytes) (iat : pyval)
    (now : Z) (fresh : bytes) : res ClientCallDetails :=
  method ← match d_method d with PBytes b => PStr <$> ascii_decode b | m => Ok m end;
  htu ← mgmt_dpop_grpc_htu method (PStr (da_aud it));
  proof ← mgmt_dpop_proof (Some (da_key it)) (PStr (da_token it)) (PStr (lit "POST")) (PStr htu) (PBytes body)
            iat PNone now fresh;
  Ok (with_metadata d (default [] (d_metadata d)
        ++ [(lit "authorization", lit "DPoP " ++ da_token it); (lit "dpop", proof)])).

(** ** Pairing a token and a key *)

Inductive key_arg := NoKey | NotAKey | TheKey (key : OperatorDpopKey).
Inductive clock_arg := NotCallable | ClockFn (f : nat → pyval).
Inductive interceptor := Bearer (token : pystr) | Dpop (it : DpopAuth).

Definition _resolve_operator_aud (explicit : option pystr) (claims : list (pyval * pyval)) : res pystr :=
  aud ← match explicit with
        | Some a => Ok a
        | None =>
          match dict_find (lit "aud") claims with
          | None => Ok DEFAULT_OPERATOR_AUD
          | Some (PStr a) => Ok a
          | Some _ => Raise DpopKeyError
          end
        end;
  _ ← mgmt_dpop_grpc_htu (PStr (lit "/")) (PStr aud);
  Ok aud.

(** The probe of an explicit clock: its first reading is a non-negative [int], not a [bool]. *)
Definition clock_probe (clock : clock_arg) : bool :=
  match clock with
  | ClockFn f => match f 0%nat with PInt z => 0 <=? z | _ => false end
  | NotCallable => false
  end.
Definition clock_of (clock : clock_arg) : nat → pyval :=
  match clock with ClockFn f => λ n, f (S n) | NotCallable => λ _, PNone end.

Definition _management_auth (token : option pystr) (dpop_key : key_arg) (aud : option pystr) (clock : option clock_arg)
    : res (option interceptor) :=
  match dpop_key with
  | NoKey =>
    _ ← guard_raise (bool_decide (aud = None) && match clock with None => true | _ => false end) DpopError;
    match token with
    | None | Some [] => Ok None
    | Some token =>
      bound ← try_except
        ((λ claims, match dict_find (lit "cnf") claims with Some _ => true | None => false end)
           <$> _peek_token_claims (PStr token))
        CDpopError (λ _, Ok false);
      if (bound : bool) then Raise DpopKeyError else Ok (Some (Bearer token))
    end
  | NotAKey => Raise DpopError
  | TheKey dpop_key =>
    match token with
    | None | Some [] => Raise DpopKeyError
    | Some token =>
      _ ← match clock with None => Ok () | Some clock => guard_raise (clock_probe clock) DpopError end;
      claims ← _peek_token_claims (PStr token);
      jkt ← _token_cnf_jkt claims;
      match jkt with
      | None => Raise DpopKeyError
      | Some jkt =>
        _ ← guard_raise (bool_decide (jkt = _jkt dpop_key)) DpopKeyError;
        aud ← _resolve_operator_aud aud claims;
        Ok (Some (Dpop {| da_token := token; da_key := dpop_key; da_aud := aud; da_clock := clock_of <$> clock |}))
      end
    end
  end.

(** ** Properties of the pairing *)

(** An [aud] that forms a target. *)
Definition good_aud (a : pystr) : Prop := _TOKEN_CHARS a = true ∧ (47 ∉ a).

Lemma grpc_htu_spec m a h :
  mgmt_dpop_grpc_htu (PStr m) (PStr a) = Ok h ↔
  (∃ r, m = 47 :: r) ∧ _PRINTABLE m = true ∧ good_aud a ∧ h = lit "grpc://" ++ a ++ m.
Proof.
  unfold mgmt_dpop_grpc_htu, good_aud, startswith. destruct (strip_prefix (lit "/") m) as [r|] eqn:Em.
  - apply strip_prefix_Some in Em as ->. change (lit "/" ++ r) with (47 :: r). cbn [andb].
    destruct (_PRINTABLE (47 :: r)); cbn [mbind res_bind]; [|split; [done|by intros (_ & ? & _)]].
    destruct (_TOKEN_CHARS a); cbn [andb]; [|split; [done|by intros (_ & _ & [? _] & _)]].
    case_bool_decide; cbn; [split; [done|by intros (_ & _ & [_ ?] & _)]|].
    split; [intros <-%Ok_inj; eauto 6|by intros (_ & _ & _ & ->)].
  - split; [done|]. intros ((r & ->) & _). change (47 :: r) with (lit "/" ++ r) in Em.
    by rewrite strip_prefix_app in Em.
Qed.

Lemma resolve_aud_spec explicit claims a :
  _resolve_operator_aud explicit claims = Ok a ↔
  good_aud a ∧ match explicit with
               | Some x => a = x
               | None => match dict_find (lit "aud") claims with
                         | None => a = DEFAULT_OPERATOR_AUD | Some v => v = PStr a end
               end.
Proof.
  unfold _resolve_operator_aud. set (choice := match explicit with Some _ => _ | None => _ end).
  assert (∀ x, choice = Ok x ↔ match explicit with
      | Some y => x = y
      | None => match dict_find (lit "aud") claims with None => x = DEFAULT_OPERATOR_AUD | Some v => v = PStr x end
      end) as Hch.
  { intros x. unfold choice. destruct explicit; [by split; [intros [= ->]|intros ->]|].
    destruct (dict_find _ _) as [[]|]; try (by split); split; (intros [= ->] || intros ->); done. }
  rewrite <-Hch. clear Hch. split.
  - intros (x & -> & (h & Hh & <-%Ok_inj)%bind_Ok)%bind_Ok. by apply grpc_htu_spec in Hh as (_ & _ & ? & _).
  - intros [Hg ->]. cbn [mbind res_bind].
    by rewrite (proj2 (grpc_htu_spec (lit "/") a _) (conj (ex_intro _ [] eq_refl) (conj eq_refl (conj Hg eq_refl)))).
Qed.

Lemma resolve_aud_error explicit claims e : _resolve_operator_aud explicit claims = Raise e → isa e CDpopError = true.
Proof.
  unfold _resolve_operator_aud. intros [He|(a & _ & [He|(h & _ & He)]%bind_Raise)]%bind_Raise; [| |done].
  - destruct explicit; [done|]. destruct (dict_find _ _) as [[]|]; by simplify_eq.
  - by apply grpc_htu_error in He as ->.
Qed.

Lemma cnf_jkt_error claims e : _token_cnf_jkt claims = Raise e → e = DpopKeyError.
Proof. unfold _token_cnf_jkt. repeat case_match; congruence. Qed.

(** Is the token, read as a compact JWS, bound to a key? *)
Definition carries_cnf (token : pystr) : Prop :=
  ∃ claims v, _peek_token_claims (PStr token) = Ok claims ∧ dict_find (lit "cnf") claims = Some v.

Lemma bound_spec token :
  try_except
    ((λ claims, match dict_find (lit "cnf") claims with Some _ => true | None => false end)
       <$> _peek_token_claims (PStr token)) CDpopError (λ _, Ok false) = Ok true ∧ carries_cnf token ∨
  try_except
    ((λ claims, match dict_find (lit "cnf") claims with Some _ => true | None => false end)
       <$> _peek_token_claims (PStr token)) CDpopError (λ _, Ok false) = Ok false ∧ ¬ carries_cnf token.
Proof.
  unfold carries_cnf. destruct (_peek_token_claims (PStr token)) as [claims|e] eqn:E; cbn [fmap res_fmap try_except].
  - destruct (dict_find (lit "cnf") claims) as [v|] eqn:Ec; [left; split; [done|by exists claims, v]|right].
    split; [done|]. intros (c & v & [= <-] & Hv). congruence.
  - right. split; [|by intros (c & v & [=] & _)]. by apply peek_error in E as [[-> _]| ->].
Qed.

Definition no_clock (clock : option clock_arg) : bool := match clock with None => true | _ => false end.
Definition clock_ok (clock : option clock_arg) : bool :=
  match clock with None => true | Some c => clock_probe c end.

(** C38. [connect] pairs a token with the way it can be sent, and refuses every other combination with a
    [DpopError]: no credential only when none was given; [Bearer] only without a key, and never for a token
    that carries [cnf]; DPoP exactly when the key is the one the token's [cnf.jkt] names, the audience (the
    explicit one, else the token's single string, else the default) can form a target, and an explicit clock
    answers a non-negative integer. *)
Theorem management_auth_pairing token key aud clock :
  (_management_auth token key aud clock = Ok None ↔
     key = NoKey ∧ aud = None ∧ no_clock clock = true ∧ (token = None ∨ token = Some [])) ∧
  (∀ t, _management_auth token key aud clock = Ok (Some (Bearer t)) ↔
     key = NoKey ∧ aud = None ∧ no_clock clock = true ∧ token = Some t ∧ t ≠ [] ∧ ¬ carries_cnf t) ∧
  (∀ it, _management_auth token key aud clock = Ok (Some (Dpop it)) ↔
     key = TheKey (da_key it) ∧ token = Some (da_token it) ∧ clock_ok clock = true ∧
     da_clock it = clock_of <$> clock ∧
     ∃ claims, _peek_token_claims (PStr (da_token it)) = Ok claims ∧
       _token_cnf_jkt claims = Ok (Some (_jkt (da_key it))) ∧ _resolve_operator_aud aud claims = Ok (da_aud it)) ∧
  (∀ e, _management_auth token key aud clock = Raise e → isa e CDpopError = true).
Proof.
  destruct key as [| |k]; cbn [_management_auth].
  - destruct (bool_decide_reflect (aud = None)) as [->|]; [|naive_solver].
    destruct clock as [c|]; cbn [andb guard_raise mbind res_bind]; [naive_solver|].
    destruct token as [[|c t]|]; [naive_solver| |naive_solver].
    destruct (bound_spec (c :: t)) as [[-> Hb]|[-> Hb]]; cbn [mbind res_bind]; naive_solver.
  - naive_solver.
  - destruct token as [[|c t]|]; [| |naive_solver].
    { split_and!; try naive_solver. intros it. split; [done|]. intros (_ & [= <-] & _ & _ & claims & Hp & _). done. }
    set (tk := c :: t). assert (tk ≠ []) as Hne by done. clearbody tk. clear c t.
    assert ((match clock with None => Ok () | Some clock => guard_raise (clock_probe clock) DpopError end)
            = guard_raise (clock_ok clock) DpopError) as -> by (by destruct clock).
    destruct (clock_ok clock); cbn [guard_raise mbind res_bind]; [|naive_solver].
    destruct (_peek_token_claims (PStr tk)) as [claims|e] eqn:Ep; cbn [mbind res_bind].
    2: { split_and!; try naive_solver; [intros it; split; [done|]; intros (_ & [= <-] & _ & _ & ? & Hp & _); congruence|].
         intros e' [= <-]. by apply peek_error in Ep as [[-> _]| ->]. }
    assert (∀ it, Some tk = Some (da_token it) → ∀ c, _peek_token_claims (PStr (da_token it)) = Ok c → c = claims) as Hc.
    { intros it [= <-] c Hc. congruence. }
    destruct (_token_cnf_jkt claims) as [[j|]|e] eqn:Ej; cbn [mbind res_bind].
    2: { split_and!; try naive_solver. intros it. split; [done|].
         intros (_ & Ht & _ & _ & c & ->%(Hc it Ht) & Hj & _). congruence. }
    2: { split_and!; try naive_solver; [|intros e' [= <-]; by apply cnf_jkt_error in Ej as ->].
         intros it. split; [done|]. intros (_ & Ht & _ & _ & c & ->%(Hc it Ht) & Hj & _). congruence. }
    destruct (bool_decide_reflect (j = _jkt k)) as [->|Hj]; cbn [guard_raise mbind res_bind].
    2: { split_and!; try naive_solver. intros it. split; [done|].
         intros ([= ->] & Ht & _ & _ & c & ->%(Hc it Ht) & Hj' & _). congruence. }
    destruct (_resolve_operator_aud aud claims) as [a|e] eqn:Ea; cbn [mbind res_bind].
    2: { split_and!; try naive_solver; [|intros e' [= <-]; by eapply resolve_aud_error].
         intros it. split; [done|]. intros ([= ->] & Ht & _ & _ & c & ->%(Hc it Ht) & _ & Ha). congruence. }
    split_and!; [naive_solver..| |done]. intros it. split; [intros [= <-]; cbn; by eauto 10|].
    intros ([= ->] & [= ->] & _ & Hcl & c & ->%(Hc it eq_refl) & _ & Ha). destruct it. simpl in *. congruence.
Qed.

(** What [_with_proof] adds to a call. *)
Lemma with_proof_spec `{Ed25519} it d m body iat now fresh d' :
  d_method d = PStr m → _with_proof it d body iat now fresh = Ok d' →
  ∃ p, d' = with_metadata d (default [] (d_metadata d)
              ++ [(lit "authorization", lit "DPoP " ++ da_token it); (lit "dpop", p)]) ∧
       mgmt_dpop_proof (Some (da_key it)) (PStr (da_token it)) (PStr (lit "POST"))
         (PStr (lit "grpc://" ++ da_aud it ++ m)) (PBytes body) iat PNone now fresh = Ok p.
Proof.
  unfold _with_proof. intros ->. cbn [mbind res_bind].
  intros (h & (_ & _ & _ & ->)%grpc_htu_spec & (p & Hp & <-%Ok_inj)%bind_Ok)%bind_Ok. by exists p.
Qed.
