(* ===== verification/Smoke.v ===== *)
(** * Smoke: the operator-token smoke test ([scripts/smoke/mgmt_dpop_aws_stg.py])

    The script holds an operator token, its DPoP key and perhaps an unbound token, calls the management listener
    with them, and prints what it saw. Every line it prints goes through a redactor; a dry run makes no call.
    The machine is an interface: the CA file, whether the SDK imports, and what the listener answers. *)

From stdpp Require Import base list numbers option strings gmap.
From S2P Require Import Prelude Text Keys Json JsonRead Dumps Script Dpop AdminAuth.

(** ** The redactor *)

Definition env := gmap pystr pystr.

Definition TOKEN : pystr := lit "SEAM_OPERATOR_TOKEN".
Definition JWK : pystr := lit "SEAM_OPERATOR_DPOP_JWK".
Definition TARGET : pystr := lit "SEAM_MGMT_TARGET".
Definition CA_FILE : pystr := lit "SEAM_MGMT_CA_FILE".
Definition UNBOUND : pystr := lit "SEAM_UNBOUND_OPERATOR_TOKEN".
Definition REQUIRED : list pystr := [TOKEN; JWK; TARGET; CA_FILE].
Definition REDACTED_ENV : list (pystr * pystr) :=
  [(TOKEN, lit "<redacted operator token>"); (JWK, lit "<redacted DPoP JWK>"); (UNBOUND, lit "<redacted unbound token>")].

Definition _secret_fragments (value : pystr) : list pystr :=
  match json_loads_str dict_pairs value with
  | Ok (PDict parsed) =>
    match dict_find (lit "d") parsed with Some (PStr d) => if 16 <=? zlen d then [d] else [] | _ => [] end
  | _ =>
    match split_on 46 value with
    | [_; _; signature] => if 16 <=? zlen signature then [signature] else []
    | _ => []
    end
  end.

Definition redacted_parts (value label : pystr) : list (pystr * pystr) :=
  (value, label) :: ((λ l, (str_strip l, label)) <$> filter (λ l, 8 ≤ zlen (str_strip l)) (splitlines value))
    ++ ((λ f, (f, label)) <$> _secret_fragments value).

(** [sorted(parts, key=lambda p: len(p[0]), reverse=True)]: longest first, in order among equals. *)
Fixpoint insert_longest (p : pystr * pystr) (l : list (pystr * pystr)) : list (pystr * pystr) :=
  match l with
  | [] => [p]
  | q :: l => if zlen q.1 <=? zlen p.1 then p :: q :: l else q :: insert_longest p l
  end.
Definition Redactor (e : env) : list (pystr * pystr) :=
  foldr insert_longest []
    (mjoin ((λ p : pystr * pystr, match e !! p.1 with Some ((_ :: _) as value) => redacted_parts value p.2 | _ => [] end) <$> REDACTED_ENV)).
Definition redact (e : env) (text : pystr) : pystr := foldl (λ t p, str_replace p.1 p.2 t) text (Redactor e).

(** ** The run *)

(** What the listener is asked. *)
Inductive call := BoundCall (token : pystr) (key : OperatorDpopKey) | BearerCall (token : pystr).
(** What the raw stub answers: the call succeeds, ends in [grpc.RpcError], or raises something else. *)
Inductive answer := Served | Refused (code : StatusCode) (details : pystr) | Threw (e : exn).

(** The files, the SDK's import ([missing_sdk] names the error), the texts of exceptions ([err_text x] is
    [type(x).__name__] with [str(x)]) and what the listener answers, given the calls so far: [list_bound] is
    connecting with token and key and [list_tenants], [list_bearer] the raw call. *)
Class Host := {
  ca_bundle : pystr → res bytes;
  missing_sdk : option pystr;
  os_reason : exn → pystr;
  err_text : exn → pystr;
  code_name : StatusCode → pystr;
  list_bound : list call → pystr → OperatorDpopKey → res nat;
  list_bearer : list call → pystr → answer
}.

Record State := MkState { printed : list pystr; failed : bool; called : list call }.
(** The failure of a run is [SystemExit(2)]. *)
Abbreviation P := (Script State ()).

Section smoke.
Context `{Ed25519, Host} (e : env) (apply_ : bool).

Definition say (line : pystr) : P () :=
  modify (λ s, MkState (printed s ++ [redact e line]) (failed s) (called s)).

Definition check (name : pystr) (ok : bool) (detail : pystr) : P () :=
  _ ← say (lit "[" ++ (if ok then lit "ok" else lit "FAIL") ++ lit "] " ++ name
           ++ match detail with [] => [] | _ => lit ": " ++ detail end);
  modify (λ s, MkState (printed s) (failed s || negb ok) (called s)).

Definition refuse {A} (why : pystr) : P A := _ ← say (lit "[refused] " ++ why); fail ().

Definition ask {A} (c : call) (answer : list call → A) : P A := λ s,
  (Done (answer (called s)), MkState (printed s) (failed s) (called s ++ [c])).

Definition env_get (k : pystr) : pystr := default [] (e !! k).
Definition missing : list pystr := filter (λ n, env_get n = []) REQUIRED.

(** The local preconditions: the key, and the CA bundle. *)
Definition preconditions : P (OperatorDpopKey * bytes) :=
  _ ← (match missing with [] => mret () | m => refuse (lit "missing environment: " ++ sep_join (lit ", ") m) end);
  ca ← (match ca_bundle (env_get CA_FILE) with
        | Ok ca => mret ca
        | Raise x => if isa x COSError then refuse (lit "SEAM_MGMT_CA_FILE is not readable: " ++ os_reason x) else of_res (Raise x)
        end);
  _ ← (if contains_sub (lit "-----BEGIN CERTIFICATE-----") ca then mret ()
       else refuse (lit "SEAM_MGMT_CA_FILE holds no PEM certificate"));
  _ ← (match missing_sdk with
       | Some n => refuse (lit "seam_sdk is not importable here (" ++ n ++ lit "); pip install -e ./python")
       | None => mret ()
       end);
  key ← (match (key ← from_jwk (PStr (env_get JWK)); _ ← _management_auth (Some (env_get TOKEN)) (TheKey key) None None; Ok key) with
         | Ok key => mret key
         | Raise x => if isa x CDpopError then refuse (lit "the token and JWK cannot work together: " ++ err_text x) else of_res (Raise x)
         end);
  _ ← check (lit "local preconditions") true (lit "key jkt " ++ _jkt key ++ lit ", target " ++ env_get TARGET);
  mret (key, ca).

Definition hint : pystr :=
  match env_get (lit "SEAM_RUNTIME_IMAGE_TAG") with
  | [] => lit " (a bound token needs runtime >= 0.54.0)"
  | tag => lit " (runtime image " ++ tag ++ lit "; a bound token needs >= 0.54.0)"
  end.

Definition BOUND_CHECK : pystr := lit "bound token + DPoP proof: SeamAdmin/ListTenants".

(** 1. Through the public client; every [Exception] fails the check. *)
Definition bound_check (key : OperatorDpopKey) : P () :=
  a ← ask (BoundCall (env_get TOKEN) key) (λ cs, list_bound cs (env_get TOKEN) key);
  match a with
  | Ok n => check BOUND_CHECK true (str_of_int (Z.of_nat n) ++ lit " tenant view(s)")
  | Raise x => if isa x CException then check BOUND_CHECK false (err_text x ++ hint) else of_res (Raise x)
  end.

(** A call that has to be refused UNAUTHENTICATED. *)
Definition _expect_refused (name token : pystr) : P () :=
  a ← ask (BearerCall token) (λ cs, list_bearer cs token);
  match a with
  | Served => check name false (lit "the call SUCCEEDED; the listener accepted it")
  | Refused c d => check name (bool_decide (c = UNAUTHENTICATED)) (code_name c ++ lit ": " ++ d)
  | Threw x => of_res (Raise x)
  end.

Definition run (key : OperatorDpopKey) : P () :=
  _ ← bound_check key;
  _ ← _expect_refused (lit "bound token as Bearer is refused (scheme_mismatch; proves the binding only)") (env_get TOKEN);
  match env_get UNBOUND with
  | [] => say (lit "[skip] required posture: not exercised (set SEAM_UNBOUND_OPERATOR_TOKEN to exercise it)")
  | unbound => _expect_refused (lit "unbound token as Bearer is refused (required posture, no_cnf)") unbound
  end.

Definition verdict : P Z := λ s, (Done (if failed s then 1 else 0), s).

(** [main]: the exit code. *)
Definition main : P Z :=
  handling
    ('(key, _) ← preconditions;
     if negb apply_ then
       _ ← say (lit "[dry-run] no network call made; pass --apply to run the live checks"); mret 0
     else _ ← run key; verdict)
    (λ _, mret 2).

Definition start : State := MkState [] false [].
End smoke.

(** ** What the redactor hides *)

(** What must not be told of a secret input: the whole value; a line of it, stripped, of eight characters or more;
    the private member of a key in JSON, and the signature of a token in three parts, of sixteen or more. *)
Inductive secret_part (value : pystr) : pystr → Prop :=
| sp_whole : secret_part value value
| sp_line l : l ∈ splitlines value → 8 ≤ zlen (str_strip l) → secret_part value (str_strip l)
| sp_private jwk d : json_loads_str dict_pairs value = Ok (PDict jwk) → dict_find (lit "d") jwk = Some (PStr d) → 16 ≤ zlen d →
    secret_part value d
| sp_signature a b c : (∀ o, json_loads_str dict_pairs value ≠ Ok (PDict o)) →
    value = a ++ 46 :: b ++ 46 :: c → 46 ∉ a → 46 ∉ b → 46 ∉ c → 16 ≤ zlen c → secret_part value c.

(** [p] is a part of one of the three secret inputs. *)
Definition secret (e : env) (p : pystr) : Prop :=
  ∃ name value, name ∈ [TOKEN; JWK; UNBOUND] ∧ e !! name = Some value ∧ value ≠ [] ∧ secret_part value p.

(** A part that no label can form: no angle bracket, and not a stretch of a label. *)
Definition tellable (p : pystr) : Prop :=
  (p ≠ []) ∧ (60 ∉ p) ∧ (62 ∉ p) ∧ Forall (λ l : pystr * pystr, ¬ occurs p l.2) REDACTED_ENV.

Lemma insert_longest_perm p l : insert_longest p l ≡ₚ p :: l.
Proof. induction l as [|q l IH]; cbn; [done|]. case_match; [done|]. rewrite IH. apply Permutation_swap. Qed.
Lemma Redactor_in e p label : (p, label) ∈ Redactor e ↔
  ∃ name value, (name, label) ∈ REDACTED_ENV ∧ e !! name = Some value ∧ value ≠ [] ∧ (p, label) ∈ redacted_parts value label.
Proof.
  unfold Redactor. set (parts := mjoin _).
  assert (Hp : foldr insert_longest [] parts ≡ₚ parts).
  { induction parts as [|q parts IH]; cbn; [done|]. by rewrite insert_longest_perm, IH. }
  rewrite Hp. subst parts. rewrite list_elem_of_join. split.
  - intros (l & Hin & (q & -> & Hq)%list_elem_of_fmap). destruct q as [name lb]. cbn [fst snd] in *.
    destruct (e !! name) as [[|c v]|] eqn:E; try by apply not_elem_of_nil in Hin.
    assert (lb = label) as ->.
    { unfold redacted_parts in Hin. rewrite elem_of_cons, elem_of_app, !list_elem_of_fmap in Hin. naive_solver. }
    by exists name, (c :: v).
  - intros (name & value & Hn & Hv & Hne & Hin). eexists. split; [exact Hin|]. apply list_elem_of_fmap.
    exists (name, label). cbn. rewrite Hv. by destruct value.
Qed.

Lemma split_on_app a r : 46 ∉ a → split_on 46 (a ++ 46 :: r) = a :: split_on 46 r.
Proof.
  induction a as [|c a IH]; [done|]. intros [Hc Ha]%not_elem_of_cons. cbn [app split_on]. destruct (Z.eqb_spec c 46); [congruence|].
  by rewrite IH.
Qed.
Lemma split_on_none a : 46 ∉ a → split_on 46 a = [a].
Proof.
  induction a as [|c a IH]; [done|]. intros [Hc Ha]%not_elem_of_cons. cbn [split_on]. destruct (Z.eqb_spec c 46); [congruence|].
  by rewrite IH.
Qed.

(** Every part is one the redactor knows, under the label of its input. *)
Lemma secret_redacted value p label : secret_part value p → (p, label) ∈ redacted_parts value label.
Proof.
  unfold redacted_parts. rewrite elem_of_cons, elem_of_app, !list_elem_of_fmap. intros [|l Hl H8|jwk d Hj Hd H16|a b c Hj -> Ha Hb Hc H16].
  - by left.
  - right. left. exists l. split; [done|]. by apply list_elem_of_filter.
  - right. right. exists d. split; [done|]. unfold _secret_fragments. rewrite Hj, Hd. destruct (Z.leb_spec 16 (zlen d)); [by left|lia].
  - right. right. exists c. split; [done|]. unfold _secret_fragments.
    assert (Hs : split_on 46 (a ++ 46 :: b ++ 46 :: c) = [a; b; c]) by (by rewrite split_on_app, split_on_app, split_on_none).
    rewrite Hs. destruct (json_loads_str dict_pairs _) as [[]|]; try (by exfalso; eapply Hj);
      destruct (Z.leb_spec 16 (zlen c)); by left || lia.
Qed.

Lemma secret_in_redactor e p : secret e p → ∃ label, (p, label) ∈ Redactor e.
Proof.
  intros (name & value & Hn & Hv & Hne & Hp).
  assert (∃ label, (name, label) ∈ REDACTED_ENV) as [label Hl].
  { unfold REDACTED_ENV. rewrite !elem_of_cons in Hn. destruct Hn as [->|[->|[->|[]%elem_of_nil]]]; eexists; [by left|by right; left|by right; right; left]. }
  exists label. apply Redactor_in. exists name, value. split_and!; [done..|by apply secret_redacted].
Qed.

Lemma label_ends name label : (name, label) ∈ REDACTED_ENV → ∃ mid, label = 60 :: mid ++ [62].
Proof.
  intros H. exists (removelast (tail label)). revert label H.
  assert (Hf : Forall (λ q : pystr * pystr, q.2 = 60 :: removelast (tail q.2) ++ [62]) REDACTED_ENV) by (repeat constructor; vm_compute; reflexivity).
  intros label H. rewrite Forall_forall in Hf. exact (Hf _ H).
Qed.

Lemma replace_hides p old name label t : tellable p → (name, label) ∈ REDACTED_ENV →
  (¬ occurs p t ∨ old = p) → ¬ occurs p (str_replace old label t).
Proof.
  intros Hp Hl Ho. destruct Hp as (Hne & Hlt & Hgt & Hall). rewrite Forall_forall in Hall. specialize (Hall _ Hl). cbn in Hall.
  destruct (label_ends name label Hl) as [mid ->].
  assert (Hm : ¬ occurs p mid) by (intros Hm; apply Hall; change (60 :: mid ++ [62]) with ([60] ++ mid ++ [62]); by apply occurs_app_r, occurs_app_l).
  destruct Ho as [Ho| ->]; [by apply replace_keeps_out|by apply replace_leaves_none].
Qed.

Lemma replacements_hide p parts t : tellable p → Forall (λ q : pystr * pystr, ∃ name, (name, q.2) ∈ REDACTED_ENV) parts →
  (¬ occurs p t ∨ p ∈ parts.*1) → ¬ occurs p (foldl (λ t q, str_replace q.1 q.2 t) t parts).
Proof.
  intros Hp Hall. revert t. induction Hall as [|[old label] parts [name Hl] _ IH]; intros t Ht; cbn [foldl fst snd] in *.
  - destruct Ht as [?|?%elem_of_nil]; done.
  - apply IH. rewrite fmap_cons, elem_of_cons in Ht. cbn [fst] in Ht.
    destruct Ht as [Ht|[<-|Ht]]; [left..|by right]; apply (replace_hides p _ name); auto.
Qed.
Lemma redact_hides e p text : secret e p → tellable p → ¬ occurs p (redact e text).
Proof.
  intros [label Hin]%secret_in_redactor Hp. unfold redact. apply replacements_hide; [done| |right].
  - rewrite Forall_forall. intros [old lb] Hq. apply Redactor_in in Hq as (nm & v & ? & _). by exists nm.
  - apply list_elem_of_fmap. by exists (p, label).
Qed.

(** ** What a run prints *)

Section prints.
Context `{Ed25519, Host} (e : env).

(** Lines are only added, and each of them went through the redactor. *)
Definition redacted (s s' : State) : Prop := ∃ ls, printed s' = printed s ++ (redact e <$> ls).
Global Instance redacted_preorder : PreOrder redacted.
Proof.
  split; [intros s; exists []; by rewrite app_nil_r|]. intros s1 s2 s3 [l1 E1] [l2 E2]. exists (l1 ++ l2).
  by rewrite E2, E1, fmap_app, (assoc_L (++)).
Qed.

Lemma say_redacted line : keeps redacted (say e line).
Proof. intros s. by exists [line]. Qed.
Lemma modify_redacted f : (∀ s, printed (f s) = printed s) → keeps redacted (modify f : P ()).
Proof. intros Hf s. exists []. cbn. by rewrite Hf, app_nil_r. Qed.
Lemma ask_redacted {A} c (answer : list call → A) : keeps redacted (ask c answer).
Proof. intros s. exists []. cbn. by rewrite app_nil_r. Qed.
Lemma check_redacted name ok detail : keeps redacted (check e name ok detail).
Proof. unfold check. keep; [apply say_redacted|by apply modify_redacted]. Qed.
Lemma refuse_redacted {A} why : keeps redacted (refuse e why : P A).
Proof. unfold refuse. keep; apply say_redacted. Qed.
Lemma verdict_redacted : keeps redacted verdict.
Proof. intros s. exists []. cbn. by rewrite app_nil_r. Qed.

Hint Resolve say_redacted ask_redacted check_redacted refuse_redacted verdict_redacted : script.

Lemma main_redacted apply_ : keeps redacted (main e apply_).
Proof.
  unfold main, preconditions, run, bound_check, _expect_refused. keep; auto with script.
Qed.
End prints.

(** C15. The smoke test tells no secret of any length. Whatever the environment holds and the listener answers, dry run
    or not, and however the run ends, no line it prints contains the value of a secret input; a line of one that has
    eight characters or more once stripped of white space; the private member, if it has sixteen characters or more,
    of a value that is a JSON object; or the last of exactly three dotted segments, if it has sixteen or more, of a value
    that is not - provided that part has no angle bracket and is not itself a stretch of the placeholders. Shorter
    lines, members and signatures are not looked for ([short_line_told], [short_signature_told]). *)
Theorem smoke_tells_no_secret `{Ed25519, Host} e apply_ p o s' :
  secret e p → tellable p → main e apply_ start = (o, s') → Forall (λ line, ¬ occurs p line) (printed s').
Proof.
  intros Hs Hp Hm. apply (keeps_step (redacted e)) in Hm as [ls ->]; [|by apply main_redacted].
  cbn [start printed app]. apply Forall_fmap, Forall_true. intros line. cbn. by apply redact_hides.
Qed.

(** ** What an exit code says *)

Section verdicts.
Context `{Ed25519, Host} (e : env).

Definition quiet (s s' : State) : Prop := called s' = called s ∧ failed s' = failed s.
Global Instance quiet_preorder : PreOrder quiet.
Proof. split; [by split|]. intros s1 s2 s3 [E1 F1] [E2 F2]. split; congruence. Qed.

Lemma say_quiet line : keeps quiet (say e line).
Proof. by intros s. Qed.
Lemma refuse_quiet {A} why : keeps quiet (refuse e why : P A).
Proof. unfold refuse. keep; apply say_quiet. Qed.
Lemma passed_quiet name detail : keeps quiet (check e name true detail).
Proof. intros s. unfold check, say, modify, mbind, script_bind, quiet. cbn [snd called failed negb]. by rewrite orb_false_r. Qed.
Lemma preconditions_quiet : keeps quiet (preconditions e).
Proof. unfold preconditions. keep; first [apply refuse_quiet|apply passed_quiet]. Qed.

(** A dry run makes no call, and never exits 1. *)
Lemma dry_run_no_call o s' : main e false start = (o, s') → called s' = [] ∧ (∀ c, o = Done c → c = 0 ∨ c = 2).
Proof.
  intros Hm. split.
  - assert (Hk : keeps quiet (main e false)) by (unfold main; cbn [negb]; keep; first [apply preconditions_quiet|apply say_quiet]).
    by apply (keeps_step quiet) in Hm as [-> _].
  - intros c ->. unfold main in Hm. apply handling_Done in Hm as [Hm|(x & s1 & _ & Hm)]; [|right; by inv_done].
    left. apply bind_Done in Hm as ([key ca] & s1 & _ & Hm). cbn [negb] in Hm. by inv_done.
Qed.

(** What a check leaves behind. *)
Lemma check_Done name ok detail s u s' : check e name ok detail s = (Done u, s') →
  called s' = called s ∧ failed s' = failed s || negb ok.
Proof. unfold check, say, modify. intros H1. inv_done. done. Qed.

Lemma expect_Done name token s u s' : _expect_refused e name token s = (Done u, s') → failed s' = false →
  failed s = false ∧ called s' = called s ++ [BearerCall token] ∧ ∃ d, list_bearer (called s) token = Refused UNAUTHENTICATED d.
Proof.
  unfold _expect_refused. intros (a & s1 & Ha & Hr)%bind_Done Hf. unfold ask in Ha. injection Ha as <- <-.
  destruct (list_bearer (called s) token) as [|c d|x]; [| |by inv_done]; apply check_Done in Hr as [Hc Hf']; cbn [called failed] in *;
    rewrite Hf in Hf'; destruct (failed s); try done.
  cbn in Hf'. case_bool_decide; [|done]. subst c. by eauto.
Qed.

Lemma preconditions_Done s key ca s' : preconditions e s = (Done (key, ca), s') →
  from_jwk (PStr (env_get e JWK)) = Ok key ∧ ∃ it, _management_auth (Some (env_get e TOKEN)) (TheKey key) None None = Ok it.
Proof.
  unfold preconditions. intros (u1 & s1 & _ & Hm)%bind_Done. apply bind_Done in Hm as (ca1 & s2 & _ & Hm).
  apply bind_Done in Hm as (u2 & s3 & _ & Hm). apply bind_Done in Hm as (u3 & s4 & _ & Hm).
  apply bind_Done in Hm as (k & s5 & Hk & Hm). apply bind_Done in Hm as (u4 & s6 & _ & Hm). apply ret_Done in Hm as [[= <- <-] _].
  destruct (from_jwk _) as [key'|x]; cbn [mbind res_bind] in Hk.
  - destruct (_management_auth _ _ _ _) as [it|x] eqn:Em; cbn [mbind res_bind] in Hk.
    + apply ret_Done in Hk as [-> _]. rewrite Em. eauto.
    + destruct (isa x CDpopError); [unfold refuse in Hk|]; by inv_done.
  - destruct (isa x CDpopError); [unfold refuse in Hk|]; by inv_done.
Qed.

Lemma bound_Done key s u s' : bound_check e key s = (Done u, s') → failed s' = false →
  called s' = called s ++ [BoundCall (env_get e TOKEN) key] ∧ failed s = false ∧ ∃ n, list_bound (called s) (env_get e TOKEN) key = Ok n.
Proof.
  unfold bound_check. intros (a & s1 & Ha & Hr)%bind_Done Hf. unfold ask in Ha. injection Ha as <- <-.
  destruct (list_bound (called s) (env_get e TOKEN) key) as [n|x].
  - apply check_Done in Hr as [Hc Hf']. cbn [called failed] in *. rewrite Hf in Hf'. destruct (failed s); [done|]. eauto.
  - destruct (isa x CException); [|by inv_done]. apply check_Done in Hr as [_ Hf']. cbn [failed] in Hf'. rewrite Hf in Hf'.
    by destruct (failed s).
Qed.

(** An exit code 0 of a live run is evidence. The token and the key are a pair, the listener answered the bound
    call, refused the same token as Bearer as UNAUTHENTICATED, and refused the unbound token so too when one
    was given; those calls, in that order, are the only ones made. *)
Theorem smoke_green s' : main e true start = (Done 0, s') →
  ∃ key, from_jwk (PStr (env_get e JWK)) = Ok key ∧
    (∃ it, _management_auth (Some (env_get e TOKEN)) (TheKey key) None None = Ok it) ∧
    let bound := BoundCall (env_get e TOKEN) key in
    let bearer := BearerCall (env_get e TOKEN) in
    (∃ n, list_bound [] (env_get e TOKEN) key = Ok n) ∧
    (∃ d, list_bearer [bound] (env_get e TOKEN) = Refused UNAUTHENTICATED d) ∧
    match env_get e UNBOUND with
    | [] => called s' = [bound; bearer]
    | unbound => called s' = [bound; bearer; BearerCall unbound] ∧ ∃ d, list_bearer [bound; bearer] unbound = Refused UNAUTHENTICATED d
    end.
Proof.
  unfold main. intros [Hm|(x & s1 & _ & Hm)]%handling_Done; [|by inv_done].
  apply bind_Done in Hm as ([key ca] & s1 & Hp & Hm). pose proof (keeps_step quiet _ _ _ _ preconditions_quiet Hp) as [C1 F1].
  cbn [negb] in Hm. apply bind_Done in Hm as ([] & s2 & Hr & Hv). unfold verdict in Hv. injection Hv as Hv <-.
  destruct (failed s2) eqn:F2; [done|]. apply preconditions_Done in Hp as [Hkey Hit]. exists key. split; [done|]. split; [done|].
  cbn zeta. unfold run in Hr. apply bind_Done in Hr as ([] & s3 & H1 & Hr). apply bind_Done in Hr as ([] & s4 & H2 & H3).
  cbn [start called] in C1.
  assert (H4 : failed s4 = false ∧ match env_get e UNBOUND with
    | [] => called s2 = called s4
    | unbound => called s2 = called s4 ++ [BearerCall unbound] ∧ ∃ d, list_bearer (called s4) unbound = Refused UNAUTHENTICATED d
    end).
  { destruct (env_get e UNBOUND) as [|c u]; [|by apply expect_Done in H3 as (? & ? & ?)].
    apply (keeps_step quiet) in H3 as [? <-]; [done|apply say_quiet]. }
  destruct H4 as [F4 H4]. apply expect_Done in H2 as (F3 & C3 & Hb); [|done].
  apply bound_Done in H1 as (C2 & _ & Hn); [|done]. rewrite C1 in C2, Hn. rewrite C2 in C3, Hb. rewrite C3 in H4. cbn [app] in *.
  split; [done|]. split; [done|]. by destruct (env_get e UNBOUND).
Qed.
End verdicts.

(** ** A host to run it on *)

Definition toy_key : OperatorDpopKey := match @new_OperatorDpopKey toy_ed25519 (repeat 7 32) with Ok k => k | Raise _ => Build_OperatorDpopKey [] [] [] end.
Definition toy_jwk : pystr :=
  quoted "{'kty':'OKP','crv':'Ed25519','d':'" ++ _b64url (repeat 7 32) ++ quoted "','x':'" ++ _x toy_key ++ quoted "'}".
Definition toy_token : pystr :=
  _b64url (quoted "{'alg':'EdDSA'}") ++ 46 :: _b64url (quoted "{'cnf':{'jkt':'" ++ _jkt toy_key ++ quoted "'}}") ++ 46 :: _b64url (repeat 9 64).
Definition toy_env : env :=
  <[TOKEN := toy_token]> (<[JWK := toy_jwk]> (<[TARGET := lit "localhost:9100"]> (<[CA_FILE := lit "ca.pem"]> ∅))).
(** A listener that serves the bound token to its key alone; [echo] quotes the token in its refusal. *)
Definition toy_host (required : bool) : Host := {|
  ca_bundle := λ _, Ok (lit "-----BEGIN CERTIFICATE-----");
  missing_sdk := None;
  os_reason := λ _, [];
  err_text := λ _, lit "error";
  code_name := λ _, lit "UNAUTHENTICATED";
  list_bound := λ _ _ _, Ok 2%nat;
  list_bearer := λ _ token, if required then Refused UNAUTHENTICATED (lit "no proof for " ++ token) else Served
|}.
Definition toy_run (required apply_ : bool) : outcome () Z * State := @main toy_ed25519 (toy_host required) toy_env apply_ start.

Example live_lines : printed (toy_run true true).2 =
  [lit "[ok] local preconditions: key jkt " ++ _jkt toy_key ++ lit ", target localhost:9100";
   lit "[ok] bound token + DPoP proof: SeamAdmin/ListTenants: 2 tenant view(s)";
   lit "[ok] bound token as Bearer is refused (scheme_mismatch; proves the binding only): UNAUTHENTICATED: no proof for <redacted operator token>";
   lit "[skip] required posture: not exercised (set SEAM_UNBOUND_OPERATOR_TOKEN to exercise it)"].
Proof. vm_compute. reflexivity. Qed.
Example exit_codes : ((toy_run true true).1, (toy_run false true).1, (toy_run false false).1) = (Done 0, Done 1, Done 0).
Proof. vm_compute. reflexivity. Qed.

(** A line of seven characters, and a signature of fifteen, pass the redactor as they are. *)
Example short_line_told : redact (<[JWK := lit "opaque1" ++ 10 :: lit "opaque12"]> ∅) (lit "opaque1, opaque12") = lit "opaque1, <redacted DPoP JWK>".
Proof. vm_compute. reflexivity. Qed.
Example short_signature_told : redact (<[TOKEN := lit "head.body.fifteen-letters"]> ∅) (lit "fifteen-letters") = lit "fifteen-letters".
Proof. vm_compute. reflexivity. Qed.

Lemma smoke_tells_no_secret_witness :
  secret toy_env (_b64url (repeat 9 64)) ∧ tellable (_b64url (repeat 9 64)) ∧
  Forall (λ line, ¬ occurs (_b64url (repeat 9 64)) line) (printed (toy_run true true).2).
Proof.
  assert (secret toy_env (_b64url (repeat 9 64))) as Hs.
  { exists TOKEN, toy_token. split_and!; [by left|by vm_compute|by vm_compute|].
    apply (sp_signature _ (_b64url (quoted "{'alg':'EdDSA'}")) (_b64url (quoted "{'cnf':{'jkt':'" ++ _jkt toy_key ++ quoted "'}}"))).
    - intros o. vm_compute. discriminate.
    - vm_compute. reflexivity.
    - apply (bool_decide_unpack _). vm_compute. exact I.
    - apply (bool_decide_unpack _). vm_compute. exact I.
    - apply (bool_decide_unpack _). vm_compute. exact I.
    - vm_compute. discriminate. }
  assert (tellable (_b64url (repeat 9 64))) as Ht by (apply (bool_decide_unpack _); vm_compute; exact I).
  split_and!; [exact Hs|exact Ht|].
  destruct (toy_run true true) as [o s'] eqn:E. exact (@smoke_tells_no_secret toy_ed25519 (toy_host true) toy_env true _ o s' Hs Ht E).
Defined.

Lemma smoke_green_witness : toy_run true true = (Done 0, (toy_run true true).2) ∧
  ∃ key, @from_jwk toy_ed25519 (PStr (env_get toy_env JWK)) = Ok key ∧
    called (toy_run true true).2 = [BoundCall toy_token key; BearerCall toy_token].
Proof.
  assert (E : toy_run true true = (Done 0, (toy_run true true).2)) by (rewrite (surjective_pairing (toy_run true true)) at 1; f_equal; by vm_compute).
  split; [exact E|]. destruct (@smoke_green toy_ed25519 (toy_host true) toy_env _ E) as (key & Hk & _ & _ & _ & Hc).
  exists key. split; [exact Hk|exact Hc].
Defined.
