(* ===== verification/Ids.v ===== *)
(** * Ids: session and decision identifiers

    [ids.py]: the P4 rule for a session id ([_session_refusal]), and building and parsing
    [dec:{tenant}:{session}] (P5). *)

From stdpp Require Import base list numbers option strings sets.
From S2P Require Import Prelude Text Keys.

Definition DECISION_ID_PREFIX : pystr := lit "dec:".
Definition SESSION_ID_MAX_BYTES : Z := 128.
Definition SESSION_ID_TOKEN_MIN_LEN : Z := 22.

(** ** Patterns *)

Definition in_range_char (lo hi c : Z) : bool := (lo <=? c) && (c <=? hi).
(** [[A-Za-z0-9_-]] *)
Definition is_token_char (c : Z) : bool :=
  in_range_char 65 90 c || in_range_char 97 122 c || in_range_char 48 57 c || (c =? 95) || (c =? 45).
(** [[0-9A-Fa-f]] and [[0-9a-f]] *)
Definition is_hex (c : Z) : bool := in_range_char 48 57 c || in_range_char 65 70 c || in_range_char 97 102 c.
Definition is_lower_hex (c : Z) : bool := in_range_char 48 57 c || in_range_char 97 102 c.
Definition is_dash (c : Z) : bool := c =? 45.

(** [re.fullmatch] of a sequence of character classes. *)
Fixpoint fullmatch (classes : list (Z → bool)) (s : pystr) : bool :=
  match classes, s with
  | [], [] => true
  | p :: ps, c :: s => p c && fullmatch ps s
  | _, _ => false
  end.

Definition _TOKEN (s : pystr) : bool := negb (zlen s =? 0) && forallb is_token_char s.
Definition _TENANT (s : pystr) : bool :=
  (1 <=? zlen s) && (zlen s <=? 128) && forallb is_token_char s.
Definition _UUID_SHAPE : list (Z → bool) :=
  repeat is_hex 8 ++ [is_dash] ++ repeat is_hex 4 ++ [is_dash] ++ repeat is_hex 4 ++ [is_dash]
  ++ repeat is_hex 4 ++ [is_dash] ++ repeat is_hex 12.
Definition is_4_or_7 (c : Z) : bool := (c =? 52) || (c =? 55).
Definition _CANONICAL_UUID_V4_V7 : list (Z → bool) :=
  repeat is_lower_hex 8 ++ [is_dash] ++ repeat is_lower_hex 4 ++ [is_dash] ++ [is_4_or_7]
  ++ repeat is_lower_hex 3 ++ [is_dash] ++ repeat is_lower_hex 4 ++ [is_dash] ++ repeat is_lower_hex 12.

(** ** Session ids *)

(** [type(v).__name__] *)
Definition type_name (v : pyval) : pystr :=
  match v with
  | PNone => lit "NoneType" | PBool _ => lit "bool" | PInt _ => lit "int" | PFloat _ => lit "float"
  | PStr _ => lit "str" | PBytes _ => lit "bytes" | PBuf _ _ _ => lit "memoryview"
  | PList _ => lit "list" | PTuple _ => lit "tuple" | PDict _ => lit "dict" | PObj t => t
  end.

(** Why a session id is refused, or [None] when it is accepted. *)
Definition _session_refusal (session_id : pyval) : option pystr :=
  match session_id with
  | PStr s =>
    match utf8_encode s with
    | Raise _ => Some (lit "is not valid UTF-8")
    | Ok b =>
      if SESSION_ID_MAX_BYTES <? zlen b then Some (lit "is over the 128-byte cap")
      else if fullmatch _UUID_SHAPE s then
        if fullmatch _CANONICAL_UUID_V4_V7 s then None
        else Some (lit "a UUID-form id must be a canonical lowercase UUID of version 4 or 7")
      else if negb (_TOKEN s) then Some (lit "uses characters outside [A-Za-z0-9_-]")
      else if zlen s <? SESSION_ID_TOKEN_MIN_LEN then
        Some (lit "a token id must be at least 22 characters")
      else None
    end
  | v => Some (lit "must be a str, not " ++ type_name v)
  end.

Definition validate_session_id (session_id : pyval) : res pyval :=
  match _session_refusal session_id with
  | Some reason => Raise (InvalidSessionIdError reason)
  | None => Ok session_id
  end.

Definition is_valid_session_id (session_id : pyval) : bool :=
  match _session_refusal session_id with None => true | Some _ => false end.

(** ** Decision ids *)

Definition _check_tenant (tenant : pyval) : res pystr :=
  match tenant with
  | PStr t => if _TENANT t then Ok t
              else Raise (InvalidDecisionIdError (lit "tenant must match ^[A-Za-z0-9_-]{1,128}$"))
  | _ => Raise (InvalidDecisionIdError (lit "tenant must match ^[A-Za-z0-9_-]{1,128}$"))
  end.

(** [DecisionId]; its [str] is [decision_id_str]. *)
Record DecisionId := { di_tenant : pystr; di_session_id : pystr }.
Definition decision_id_str (d : DecisionId) : pystr :=
  DECISION_ID_PREFIX ++ di_tenant d ++ lit ":" ++ di_session_id d.

(** The session half, which is a [str] once [_session_refusal] has accepted it. *)
Definition check_session_half (session_id : pyval) : res pystr :=
  match _session_refusal session_id with
  | Some reason => Raise (InvalidDecisionIdError (lit "session half: " ++ reason))
  | None => match session_id with PStr s => Ok s | _ => Raise TypeError end
  end.

Definition decision_id_for_session (tenant session_id : pyval) : res pystr :=
  t ← _check_tenant tenant;
  s ← check_session_half session_id;
  Ok (DECISION_ID_PREFIX ++ t ++ lit ":" ++ s).

(** [s.partition(":")] *)
Fixpoint partition_colon (s : pystr) : pystr * bool * pystr :=
  match s with
  | [] => ([], false, [])
  | c :: r => if c =? 58 then ([], true, r)
              else let '(h, found, t) := partition_colon r in (c :: h, found, t)
  end.

Definition parse_decision_id (decision_id : pyval) : res DecisionId :=
  match decision_id with
  | PStr s =>
    match strip_prefix DECISION_ID_PREFIX s with
    | None => Raise (InvalidDecisionIdError (lit "must start with 'dec:'"))
    | Some rest =>
      let '(tenant, sep, session_id) := partition_colon rest in
      if negb sep then Raise (InvalidDecisionIdError (lit "must be dec:{tenant}:{session}"))
      else
        t ← _check_tenant (PStr tenant);
        s ← check_session_half (PStr session_id);
        Ok {| di_tenant := t; di_session_id := s |}
    end
  | _ => Raise (InvalidDecisionIdError (lit "must start with 'dec:'"))
  end.

(** ** Helper lemmas *)

Lemma fullmatch_length ps s : fullmatch ps s = true → length s = length ps.
Proof.
  revert s. induction ps as [|p ps IH]; intros [|c s]; try done. simpl. intros [_ H]%andb_true_iff.
  by rewrite (IH s).
Qed.

Lemma fullmatch_impl ps qs s :
  Forall2 (λ p q : Z → bool, ∀ c, p c = true → q c = true) ps qs → fullmatch ps s = true → fullmatch qs s = true.
Proof.
  intros Hpq. revert s. induction Hpq as [|p q ps qs Hp _ IH]; intros [|c s]; try done. simpl.
  intros [Hc Hs]%andb_true_iff. by rewrite Hp, IH.
Qed.

Lemma fullmatch_forallb (p : Z → bool) ps s :
  Forall (λ q : Z → bool, ∀ c, q c = true → p c = true) ps → fullmatch ps s = true → forallb p s = true.
Proof.
  intros Hps. revert s. induction Hps as [|q ps Hq _ IH]; intros [|c s]; try done. simpl.
  intros [Hc Hs]%andb_true_iff. by rewrite Hq, IH.
Qed.

Lemma is_lower_hex_hex c : is_lower_hex c = true → is_hex c = true.
Proof. unfold is_lower_hex, is_hex. destruct (in_range_char 48 57 c), (in_range_char 97 102 c), (in_range_char 65 70 c); done. Qed.

Lemma is_4_or_7_hex c : is_4_or_7 c = true → is_hex c = true.
Proof.
  unfold is_4_or_7. intros [->%Z.eqb_eq| ->%Z.eqb_eq]%orb_true_iff; done.
Qed.

Lemma is_hex_token c : is_hex c = true → is_token_char c = true.
Proof. unfold is_hex, is_token_char, in_range_char. intros H. cmp; done. Qed.

Lemma is_dash_token c : is_dash c = true → is_token_char c = true.
Proof. unfold is_dash. by intros ->%Z.eqb_eq. Qed.

Lemma canonical_uuid_shape s : fullmatch _CANONICAL_UUID_V4_V7 s = true → fullmatch _UUID_SHAPE s = true.
Proof.
  apply fullmatch_impl. unfold _CANONICAL_UUID_V4_V7, _UUID_SHAPE.
  repeat first [constructor|apply is_lower_hex_hex|apply is_4_or_7_hex|done].
Qed.

Lemma uuid_shape_token s : fullmatch _UUID_SHAPE s = true → forallb is_token_char s = true ∧ length s = 36%nat.
Proof.
  intros Hs. split; [|by rewrite (fullmatch_length _ _ Hs)]. revert Hs. apply fullmatch_forallb.
  unfold _UUID_SHAPE. repeat first [constructor|apply is_hex_token|apply is_dash_token].
Qed.

Lemma token_ascii s : forallb is_token_char s = true → utf8_encode s = Ok s ∧ 58 ∉ s.
Proof.
  intros Hs. rewrite forallb_forall in Hs. split.
  - apply utf8_encode_ascii. apply forallb_forall. intros c Hc. specialize (Hs c Hc).
    unfold is_token_char, in_range_char in Hs. cmp; done.
  - intros Hin%list_elem_of_In. by specialize (Hs _ Hin).
Qed.

Lemma session_accepted s :
  _session_refusal (PStr s) = None ↔
  fullmatch _CANONICAL_UUID_V4_V7 s = true ∨
  fullmatch _UUID_SHAPE s = false ∧ forallb is_token_char s = true ∧
    SESSION_ID_TOKEN_MIN_LEN ≤ zlen s ≤ SESSION_ID_MAX_BYTES.
Proof.
  unfold _session_refusal, SESSION_ID_MAX_BYTES, SESSION_ID_TOKEN_MIN_LEN. split.
  - destruct (utf8_encode s) as [b|] eqn:Eb; [|done]. destruct (Z.ltb_spec 128 (zlen b)) as [|Hlen]; [done|].
    destruct (fullmatch _UUID_SHAPE s).
    { destruct (fullmatch _CANONICAL_UUID_V4_V7 s); [by left|done]. }
    unfold _TOKEN. destruct (Z.eqb_spec (zlen s) 0); [done|]. cbn [negb andb].
    destruct (forallb is_token_char s) eqn:Et; [|done]. cbn [negb].
    destruct (Z.ltb_spec (zlen s) 22); [done|]. intros _. right.
    destruct (token_ascii s Et) as [Ha _]. rewrite Ha in Eb. apply Ok_inj in Eb as <-. auto.
  - intros [Hc|(Hu & Ht & Hlen)].
    + pose proof (canonical_uuid_shape s Hc) as Hu. destruct (uuid_shape_token s Hu) as [Ht Hl].
      destruct (token_ascii s Ht) as [-> _]. rewrite Hu, Hc, Hl. done.
    + destruct (token_ascii s Ht) as [-> _]. rewrite Hu. unfold _TOKEN. rewrite Ht.
      destruct (Z.ltb_spec 128 (zlen s)); [lia|]. destruct (Z.eqb_spec (zlen s) 0); [lia|]. cbn [negb andb].
      by destruct (Z.ltb_spec (zlen s) 22); [lia|].
Qed.

Lemma session_no_colon s : _session_refusal (PStr s) = None → 58 ∉ s.
Proof.
  intros [Hc|(_ & Ht & _)]%session_accepted; apply token_ascii; [|done].
  by apply uuid_shape_token, canonical_uuid_shape.
Qed.

Lemma partition_colon_app h t : 58 ∉ h → partition_colon (h ++ 58 :: t) = (h, true, t).
Proof.
  induction h as [|c h IH]; [done|]. rewrite not_elem_of_cons. intros [Hc Hh]. simpl.
  destruct (Z.eqb_spec c 58); [done|]. by rewrite IH.
Qed.

Lemma partition_colon_Some s h t : partition_colon s = (h, true, t) → s = h ++ 58 :: t.
Proof.
  revert h. induction s as [|c s IH]; intros h; simpl; [done|].
  destruct (Z.eqb_spec c 58) as [->|]; [by intros [= <- <-]|].
  destruct (partition_colon s) as [[h' f] t'] eqn:E. intros [= <- -> ->]. simpl. f_equal. by apply IH.
Qed.

Lemma check_tenant_Ok v t : _check_tenant v = Ok t ↔ v = PStr t ∧ _TENANT t = true.
Proof. unfold _check_tenant. destruct v; try (split; [done|by intros [? _]]).
  destruct (_TENANT s) eqn:E; split; [by intros [= <-]|by intros [[= <-] _]|done|intros [[= <-] ?]; congruence].
Qed.

Lemma tenant_no_colon t : _TENANT t = true → 58 ∉ t.
Proof. unfold _TENANT. intros [_ H]%andb_true_iff. by apply token_ascii. Qed.

Lemma check_session_half_Ok v s : check_session_half v = Ok s ↔ v = PStr s ∧ _session_refusal v = None.
Proof.
  unfold check_session_half. destruct (_session_refusal v) eqn:E; [by split; [|intros [_ ?]]|].
  destruct v; try done. split; [by intros [= <-]|by intros [[= <-] _]].
Qed.

(** ** Properties *)

(** A decision id is [dec:{tenant}:{session}] and nothing else, in both directions: what
    [decision_id_for_session] builds parses back to the same tenant and session, and what
    [parse_decision_id] accepts is rebuilt exactly from its two halves. So no id has two readings, and an
    extra colon is refused. *)
Theorem decision_id_roundtrip :
  (∀ tenant session s, decision_id_for_session tenant session = Ok s →
     ∃ d, parse_decision_id (PStr s) = Ok d ∧ tenant = PStr (di_tenant d) ∧ session = PStr (di_session_id d)) ∧
  (∀ s d, parse_decision_id (PStr s) = Ok d →
     decision_id_str d = s ∧ decision_id_for_session (PStr (di_tenant d)) (PStr (di_session_id d)) = Ok s).
Proof.
  split.
  - intros tenant session s. unfold decision_id_for_session.
    intros (t & [-> Ht]%check_tenant_Ok & (u & [-> Hu]%check_session_half_Ok & <-%Ok_inj)%bind_Ok)%bind_Ok.
    exists {| di_tenant := t; di_session_id := u |}. split; [|done].
    unfold parse_decision_id. rewrite strip_prefix_app. change (lit ":" ++ u) with (58 :: u).
    rewrite partition_colon_app by by apply tenant_no_colon. cbn [negb].
    rewrite (proj2 (check_tenant_Ok _ t)) by done. cbn [mbind res_bind].
    by rewrite (proj2 (check_session_half_Ok _ u)).
  - intros s d. unfold parse_decision_id.
    destruct (strip_prefix DECISION_ID_PREFIX s) as [r|] eqn:Er; [|done]. apply strip_prefix_Some in Er as ->.
    destruct (partition_colon r) as [[t []] u] eqn:Ep; [|done]. apply partition_colon_Some in Ep as ->.
    cbn [negb]. intros (t' & [[= <-] Ht]%check_tenant_Ok & (u' & [[= <-] Hu]%check_session_half_Ok & <-%Ok_inj)%bind_Ok)%bind_Ok.
    split; [done|]. unfold decision_id_for_session. cbn [di_tenant di_session_id].
    rewrite (proj2 (check_tenant_Ok _ t)) by done. cbn [mbind res_bind].
    by rewrite (proj2 (check_session_half_Ok _ u)).
Qed.

(** The P4 rule, exactly: a session id is accepted iff it is a [str] that is a canonical lowercase
    UUID of version 4 or 7, or that is not of UUID form and consists of 22 to 128 characters of
    [[A-Za-z0-9_-]]. An id of UUID form is judged only as a UUID, although its characters and length
    would always pass as a token. *)
Theorem session_id_rule v :
  (is_valid_session_id v = true ↔
   ∃ s, v = PStr s ∧
     (fullmatch _CANONICAL_UUID_V4_V7 s = true ∨
      fullmatch _UUID_SHAPE s = false ∧ forallb is_token_char s = true ∧ 22 ≤ zlen s ≤ 128)) ∧
  (∀ s, v = PStr s → fullmatch _UUID_SHAPE s = true →
     is_valid_session_id v = fullmatch _CANONICAL_UUID_V4_V7 s ∧
     _TOKEN s = true ∧ SESSION_ID_TOKEN_MIN_LEN ≤ zlen s).
Proof.
  split.
  - unfold is_valid_session_id. split.
    + destruct v; try done. destruct (_session_refusal (PStr s)) eqn:E; [done|]. intros _.
      exists s. split; [done|]. by apply session_accepted.
    + intros (s & -> & Hs). by rewrite (proj2 (session_accepted s)).
  - intros s -> Hu. destruct (uuid_shape_token s Hu) as [Ht Hl]. unfold is_valid_session_id. split.
    + unfold _session_refusal. destruct (token_ascii s Ht) as [-> _]. rewrite Hu, Hl.
      change (SESSION_ID_MAX_BYTES <? Z.of_nat 36) with false. cbn iota.
      by destruct (fullmatch _CANONICAL_UUID_V4_V7 s).
    + unfold _TOKEN. by rewrite Hl, Ht.
Qed.

Lemma hex_char_lower d : 0 ≤ d < 16 → is_lower_hex (hex_char d) = true.
Proof. intros. unfold is_lower_hex, hex_char, in_range_char. cmp; done. Qed.

Lemma byte_hex_lower b :
  is_byte b → is_lower_hex (hex_char (b / 16)) = true ∧ is_lower_hex (hex_char (b mod 16)) = true.
Proof. unfold is_byte. intros Hb. split; apply hex_char_lower; split; dlia. Qed.

(** [str(uuid.uuid4())] always passes, and so does the id of a derived UUID: the text of any 16 bytes
    whose version nibble is 4 or 7 is an accepted session id. *)
Theorem uuid_is_session_id u :
  Forall is_byte u → length u = 16%nat → (nth 6 u 0 / 16 = 4 ∨ nth 6 u 0 / 16 = 7) →
  is_valid_session_id (PStr (uuid_str u)) = true.
Proof.
  intros Hb Hl Hv. unfold is_valid_session_id. rewrite (proj2 (session_accepted _)); [done|]. left.
  do 16 (destruct u as [|? u]; [done|]). destruct u; [|done]. clear Hl. simpl in Hv.
  repeat match goal with H : Forall is_byte (_ :: _) |- _ =>
    let H1 := fresh in let H2 := fresh in let H3 := fresh in let H4 := fresh in
    apply Forall_cons in H as [H1 H2]; destruct (byte_hex_lower _ H1) as [H3 H4] end.
  assert (∀ b, b / 16 = 4 ∨ b / 16 = 7 → is_4_or_7 (hex_char (b / 16)) = true) as Hver
    by by intros b [-> | ->].
  specialize (Hver _ Hv). unfold uuid_str. cbn -[is_lower_hex is_4_or_7 hex_char Z.div Z.modulo].
  repeat match goal with H : _ = true |- _ => rewrite H; clear H end. done.
Qed.

Lemma decision_id_roundtrip_witness :
  ∃ d, parse_decision_id (PStr (lit "dec:acme:AAECAwQFBgcICQoLDA0ODw")) = Ok d ∧
       PStr (lit "acme") = PStr (di_tenant d) ∧ PStr (lit "AAECAwQFBgcICQoLDA0ODw") = PStr (di_session_id d).
Proof. apply decision_id_roundtrip. vm_compute. reflexivity. Defined.

Lemma session_id_rule_witness :
  is_valid_session_id (PStr (lit "0193F2A4-7C1E-7B3A-9F21-5D8E2C4A6B70")) = false.
Proof.
  destruct (session_id_rule (PStr (lit "0193F2A4-7C1E-7B3A-9F21-5D8E2C4A6B70"))) as [_ H].
  destruct (H _ eq_refl) as [-> _]; vm_compute; reflexivity.
Defined.

Lemma uuid_is_session_id_witness : is_valid_session_id (PStr (uuid_str (seqZ 58 16))) = true.
Proof.
  apply uuid_is_session_id; [|reflexivity|left; reflexivity].
  repeat (constructor; [split; [discriminate|reflexivity]|]). constructor.
Defined.
