(* ===== verification/Errors.v ===== *)
(** * Errors: typed gRPC errors and their [google.rpc.Status] details

    [errors.py]: the hand-written protobuf reader ([_varint], [_fields], [_status_details],
    [_decode_error_info], [_decode_retry_delay]), the properties of [SeamRpcError] that read it,
    [map_rpc_error] and the retry classification. *)

From stdpp Require Import base list numbers option strings.
From Stdlib Require Import SpecFloat.
From S2P Require Import Prelude Text Floats.

(** ** The protobuf reader *)

(** [_varint(buf, i)] on the bytes from [i] on; [None] is [_Truncated]. *)
Fixpoint _varint (shift out : Z) (b : bytes) : option (Z * bytes) :=
  match b with
  | [] => None
  | x :: r =>
    if 63 <? shift then None
    else
      let out := Z.lor out (Z.shiftl (Z.land x 0x7F) shift) in
      if Z.land x 0x80 =? 0 then Some (out, r) else _varint (shift + 7) out r
  end.

Inductive field_value := VInt (v : Z) | VBytes (b : bytes) | VSkipped.
Record field := Field { f_num : Z; f_wt : Z; f_value : field_value }.

(** One step of [_fields]: the field at the front and the rest, or [None] ([_Truncated]). *)
Definition next_field (b : bytes) : option (field * bytes) :=
  '(key, r) ← _varint 0 0 b;
  let num := Z.shiftr key 3 in
  let wt := Z.land key 7 in
  if wt =? 0 then '(v, r) ← _varint 0 0 r; Some (Field num wt (VInt v), r)
  else if wt =? 2 then
    '(n, r) ← _varint 0 0 r;
    if zlen r <? n then None
    else Some (Field num wt (VBytes (take (Z.to_nat n) r)), drop (Z.to_nat n) r)
  else if wt =? 1 then if zlen r <? 8 then None else Some (Field num wt VSkipped, drop 8 r)
  else if wt =? 5 then if zlen r <? 4 then None else Some (Field num wt VSkipped, drop 4 r)
  else None.

(** [_fields]: the fields the generator yields, and whether it then reached the end of the buffer
    ([true]) or raised ([false]). Every field takes at least one byte, so the length is fuel enough. *)
Fixpoint fields_from (fuel : nat) (b : bytes) : list field * bool :=
  match b with
  | [] => ([], true)
  | _ =>
    match fuel, next_field b with
    | S fuel, Some (f, r) => let '(fs, ok) := fields_from fuel r in (f :: fs, ok)
    | _, _ => ([], false)
    end
  end.
Definition _fields (b : bytes) : list field * bool := fields_from (length b) b.

(** A loop over [_fields] that never stops early: the folded state, or [ValueError] ([_Truncated]). *)
Definition fold_fields {A} (step : A → field → res A) (a : A) (b : bytes) : res A :=
  let '(fs, ok) := _fields b in
  a ← foldl (λ m f, a ← m; step a f) (Ok a) fs;
  if ok then Ok a else Raise ValueError.

(** ** Status details *)

Definition _STATUS_DETAILS_KEY : pystr := lit "grpc-status-details-bin".
Definition _ERROR_INFO_TYPE : pystr := lit "type.googleapis.com/google.rpc.ErrorInfo".
Definition _RETRY_INFO_TYPE : pystr := lit "type.googleapis.com/google.rpc.RetryInfo".
Definition SEAM_ERROR_DOMAIN : pystr := lit "seam.zer07labs.com".
Definition PROTOCOL_REASON : pystr := lit "PROTOCOL".
Definition SESSION_UNAVAILABLE_REASON : pystr := lit "SESSION_UNAVAILABLE".
Definition WRONG_CELL_REASON : pystr := lit "WRONG_CELL".
Definition TENANT_MOVING_REASON : pystr := lit "TENANT_MOVING".

Definition ascii_lower (s : pystr) : pystr := (λ c, if (65 <=? c) && (c <=? 90) then c + 32 else c) <$> s.

(** The last value under the details key; no character outside ASCII lowers to one of its letters. *)
Definition details_value (trailing : metadata) : pyval :=
  foldl (λ raw kv, match kv.1 with
                   | PStr k => if decide (ascii_lower k = _STATUS_DETAILS_KEY) then kv.2 else raw
                   | _ => raw
                   end) PNone trailing.

(** [isinstance(raw, (bytes, bytearray))]; a [bytearray] is a contiguous buffer of bytes. *)
Definition bytes_or_bytearray (v : pyval) : option bytes :=
  match v with PBytes b => Some b | PBuf 1 true b => Some b | _ => None end.

(** One [Any]: its type url and value. *)
Definition any_step (tv : pystr * bytes) (f : field) : res (pystr * bytes) :=
  match f_value f with
  | VBytes b =>
    if f_num f =? 1 then u ← utf8_decode b; Ok (u, tv.2)
    else if f_num f =? 2 then Ok (tv.1, b)
    else Ok tv
  | _ => Ok tv
  end.

Definition status_step (out : list (pystr * bytes)) (f : field) : res (list (pystr * bytes)) :=
  match f_value f with
  | VBytes v => if f_num f =? 3 then tv ← fold_fields any_step ([], []) v; Ok (out ++ [tv]) else Ok out
  | _ => Ok out
  end.

Definition _status_details (trailing : option metadata) : list (pystr * bytes) :=
  match trailing with
  | None | Some [] => []
  | Some t =>
    match bytes_or_bytearray (details_value t) with
    | None => []
    | Some raw => match fold_fields status_step [] raw with Ok out => out | Raise _ => [] end
    end
  end.

(** [metadata[mk] = mv] on a [dict], which keeps the place of an existing key. *)
Fixpoint dict_set (k v : pystr) (d : list (pystr * pystr)) : list (pystr * pystr) :=
  match d with
  | [] => [(k, v)]
  | (k', v') :: d => if decide (k' = k) then (k', v) :: d else (k', v') :: dict_set k v d
  end.
Fixpoint str_get (k : pystr) (d : list (pystr * pystr)) : option pystr :=
  match d with
  | [] => None
  | (k', v) :: d => if decide (k' = k) then Some v else str_get k d
  end.

Definition map_entry_step (kv : pystr * pystr) (f : field) : res (pystr * pystr) :=
  match f_value f with
  | VBytes b =>
    if f_num f =? 1 then k ← utf8_decode b; Ok (k, kv.2)
    else if f_num f =? 2 then v ← utf8_decode b; Ok (kv.1, v)
    else Ok kv
  | _ => Ok kv
  end.

Record error_info := { ei_reason : pystr; ei_domain : pystr; ei_metadata : list (pystr * pystr) }.

Definition error_info_step (i : error_info) (f : field) : res error_info :=
  match f_value f with
  | VBytes b =>
    if f_num f =? 1 then
      r ← utf8_decode b; Ok {| ei_reason := r; ei_domain := ei_domain i; ei_metadata := ei_metadata i |}
    else if f_num f =? 2 then
      d ← utf8_decode b; Ok {| ei_reason := ei_reason i; ei_domain := d; ei_metadata := ei_metadata i |}
    else if f_num f =? 3 then
      kv ← fold_fields map_entry_step ([], []) b;
      Ok {| ei_reason := ei_reason i; ei_domain := ei_domain i;
            ei_metadata := dict_set kv.1 kv.2 (ei_metadata i) |}
    else Ok i
  | _ => Ok i
  end.

Definition _decode_error_info (value : bytes) : res error_info :=
  fold_fields error_info_step {| ei_reason := []; ei_domain := []; ei_metadata := [] |} value.

(** Two's complement of a 64-bit varint. *)
Definition signed64 (v : Z) : Z := if 2 ^ 63 <=? v then v - 2 ^ 64 else v.

Definition duration_step (d : Z * Z) (f : field) : res (Z * Z) :=
  match f_value f with
  | VInt v => if f_num f =? 1 then Ok (signed64 v, d.2)
              else if f_num f =? 2 then Ok (d.1, signed64 v) else Ok d
  | _ => Ok d
  end.

(** [seconds + nanos / 1e9] *)
Definition duration_seconds (seconds nanos : Z) : spec_float :=
  f64_add (f64_round_int seconds) (f64_div (f64_round_int nanos) (f64_round_int (10 ^ 9))).

(** The loop returns at the first [retry_delay], so a buffer that is malformed after it is not noticed. *)
Definition _decode_retry_delay (value : bytes) : res (option spec_float) :=
  let '(fs, ok) := _fields value in
  match find (λ f, (f_num f =? 1) && (f_wt f =? 2)) fs with
  | Some f =>
    match f_value f with
    | VBytes v => '(s, n) ← fold_fields duration_step (0, 0) v; Ok (Some (duration_seconds s n))
    | _ => Raise TypeError
    end
  | None => if ok then Ok None else Raise ValueError
  end.

(** ** Properties of a typed error *)

(** [_seam_error_info] over the details of the error. *)
Fixpoint seam_error_info (details : list (pystr * bytes)) : option (pystr * list (pystr * pystr)) :=
  match details with
  | [] => None
  | (type_url, value) :: ds =>
    if decide (type_url = _ERROR_INFO_TYPE) then
      match _decode_error_info value with
      | Raise _ => None
      | Ok i => if decide (ei_domain i = SEAM_ERROR_DOMAIN) then Some (ei_reason i, ei_metadata i)
                else seam_error_info ds
      end
    else seam_error_info ds
  end.
Definition _seam_error_info (trailing : option metadata) : option (pystr * list (pystr * pystr)) :=
  seam_error_info (_status_details trailing).

Definition reason (trailing : option metadata) : option pystr := fst <$> _seam_error_info trailing.
Definition error_metadata (trailing : option metadata) : option (list (pystr * pystr)) :=
  snd <$> _seam_error_info trailing.
Definition macp_code (trailing : option metadata) : option pystr :=
  match _seam_error_info trailing with
  | Some (r, m) => if decide (r = PROTOCOL_REASON) then str_get (lit "macp_code") m else None
  | None => None
  end.

Fixpoint first_retry_info (details : list (pystr * bytes)) : option spec_float :=
  match details with
  | [] => None
  | (type_url, value) :: ds =>
    if decide (type_url = _RETRY_INFO_TYPE)
    then match _decode_retry_delay value with Ok d => d | Raise _ => None end
    else first_retry_info ds
  end.
Definition retry_after (trailing : option metadata) : option spec_float :=
  first_retry_info (_status_details trailing).

(** ** Classification *)

(** The class and trailing metadata of a [SeamRpcError]. *)
Definition typed (e : exn) : option (rpc_class * option metadata) :=
  match e with SeamRpcError cls _ _ t => Some (cls, t) | _ => None end.

Definition is_refusal (cls : rpc_class) (r : pystr) (e : exn) : bool :=
  match typed e with
  | Some (c, t) => bool_decide (c = cls) && bool_decide (reason t = Some r)
  | None => false
  end.
Definition is_session_unavailable : exn → bool := is_refusal UnavailableError SESSION_UNAVAILABLE_REASON.
Definition is_wrong_cell : exn → bool := is_refusal FailedPreconditionError WRONG_CELL_REASON.
Definition is_tenant_moving : exn → bool := is_refusal FailedPreconditionError TENANT_MOVING_REASON.
Definition is_retryable (e : exn) : bool := is_session_unavailable e || is_tenant_moving e.

(** ** Mapping raw errors *)

Definition _BY_CODE (c : StatusCode) : option rpc_class :=
  match c with
  | INVALID_ARGUMENT => Some InvalidArgumentError | FAILED_PRECONDITION => Some FailedPreconditionError
  | PERMISSION_DENIED => Some PermissionDeniedError | UNAUTHENTICATED => Some UnauthenticatedError
  | NOT_FOUND => Some NotFoundError | ALREADY_EXISTS => Some AlreadyExistsError
  | RESOURCE_EXHAUSTED => Some ResourceExhaustedError | UNAVAILABLE => Some UnavailableError
  | DEADLINE_EXCEEDED => Some DeadlineExceededError | UNIMPLEMENTED => Some UnimplementedError
  | INTERNAL => Some InternalError
  | _ => None
  end.

(** [tuple((k, v) for k, v in raw)], or [None] when there is nothing to read or it is not pairs. *)
Definition _normalized_trailing_metadata (raw : pyval) : option metadata :=
  match raw with
  | PNone => None
  | _ =>
    match (items ← py_iter raw;
           mapM (λ it, kv ← py_iter it;
                       match kv with [k; v] => Ok (k, v) | _ => Raise ValueError end) items) with
    | Ok t => Some t
    | Raise _ => None
    end
  end.

(** [SeamRpcError.__init__], and the arguments [__reduce__] rebuilds it from. *)
Definition seam_rpc_error (cls : rpc_class) (code : StatusCode) (details : pystr) (trailing : pyval) : exn :=
  SeamRpcError cls code details (_normalized_trailing_metadata trailing).
Definition metadata_val (t : option metadata) : pyval :=
  match t with None => PNone | Some t => PTuple ((λ kv, PTuple [kv.1; kv.2]) <$> t) end.
Definition reduce (e : exn) : exn :=
  match e with
  | SeamRpcError cls code details t => seam_rpc_error cls code details (metadata_val t)
  | e => e
  end.

Definition map_rpc_error (e : exn) : exn :=
  match e with
  | RawRpcError r =>
    let code := match raw_code r with Some (Some c) => c | _ => UNKNOWN end in
    let details := match raw_details r with Some (Some d) => d | _ => [] end in
    let trailing := match raw_trailing r with Some (Some v) => v | _ => PNone end in
    seam_rpc_error (default InternalError (_BY_CODE code)) code details trailing
  | e => e
  end.

(** [isinstance(e, grpc.RpcError)] *)
Definition is_rpc_error (e : exn) : bool :=
  match e with RawRpcError _ | SeamRpcError _ _ _ _ => true | _ => false end.

(** [_MappedStub]: a unary call through it. *)
Definition mapped_call {A} (m : res A) : res A :=
  match m with
  | Ok a => Ok a
  | Raise e => if is_rpc_error e then Raise (map_rpc_error e) else Raise e
  end.

(** ** The protobuf encoding the reader is meant for *)

Fixpoint enc_varint (fuel : nat) (n : Z) : bytes :=
  match fuel with
  | O => []
  | S fuel => if n <? 128 then [n] else (n mod 128 + 128) :: enc_varint fuel (n / 128)
  end.
(** Ten groups of seven bits hold 64 bits. *)
Definition varint (n : Z) : bytes := enc_varint 10 n.

Inductive wire_field := WInt (num v : Z) | WBytes (num : Z) (b : bytes).
Definition enc_field (f : wire_field) : bytes :=
  match f with
  | WInt num v => varint (num * 8) ++ varint v
  | WBytes num b => varint (num * 8 + 2) ++ varint (zlen b) ++ b
  end.
Definition enc_message (fs : list wire_field) : bytes := bjoin (enc_field <$> fs).
Definition field_of (f : wire_field) : field :=
  match f with WInt num v => Field num 0 (VInt v) | WBytes num b => Field num 2 (VBytes b) end.
Definition wire_ok (f : wire_field) : Prop :=
  match f with
  | WInt num v => 0 ≤ num < 2 ^ 29 ∧ 0 ≤ v < 2 ^ 64
  | WBytes num b => 0 ≤ num < 2 ^ 29 ∧ zlen b < 2 ^ 64
  end.

Lemma lor_shift a b k : 0 ≤ k → 0 ≤ a < 2 ^ k → 0 ≤ b → Z.lor a (Z.shiftl b k) = a + b * 2 ^ k.
Proof.
  intros Hk Ha Hb. rewrite <-Z.add_lor_land, Z.shiftl_mul_pow2 by done.
  assert (Z.land a (b * 2 ^ k) = 0) as ->; [|lia].
  rewrite <-Z.shiftl_mul_pow2 by done. apply Z.bits_inj_0. intros n. rewrite Z.land_spec.
  destruct (Z.ltb_spec n 0); [by rewrite Z.testbit_neg_r|].
  destruct (Z.ltb_spec n k) as [Hn|Hn].
  - rewrite (Z.shiftl_spec_low _ _ _ Hn). apply andb_false_r.
  - rewrite <-(Z.mod_small a (2 ^ k)), Z.mod_pow2_bits_high by lia. done.
Qed.

Lemma varint_byte_low x : 0 ≤ x < 128 → Z.land x 0x7F = x ∧ Z.land x 0x80 = 0.
Proof.
  intros Hx. change 0x7F with (Z.ones 7). rewrite Z.land_ones by lia. split; [by apply Z.mod_small|].
  rewrite <-(Z.mod_small x (2 ^ 7)) by done. apply Z.bits_inj_0. intros n. rewrite Z.land_spec.
  destruct (Z.ltb_spec n 0); [by rewrite Z.testbit_neg_r|].
  destruct (Z.ltb_spec n 7) as [Hn|Hn].
  - change 0x80 with (2 ^ 7). rewrite (Z.pow2_bits_false 7 n) by lia. apply andb_false_r.
  - by rewrite Z.mod_pow2_bits_high by lia.
Qed.

Lemma varint_byte_high x : 0 ≤ x < 128 → Z.land (x + 128) 0x7F = x ∧ Z.land (x + 128) 0x80 = 128.
Proof.
  intros Hx. split.
  - change 0x7F with (Z.ones 7). rewrite Z.land_ones by lia. change 128 with (1 * 2 ^ 7).
    rewrite Z.mod_add by lia. by apply Z.mod_small.
  - assert (x + 128 = Z.lor x 128) as ->.
    { change 128 with (Z.shiftl 1 7) at 2. rewrite lor_shift by lia. lia. }
    rewrite Z.land_lor_distr_l. destruct (varint_byte_low x Hx) as [_ ->]. done.
Qed.

Lemma varint_read fuel n shift out r :
  0 ≤ n < 2 ^ (7 * Z.of_nat fuel) → 0 ≤ shift → shift + 7 * (Z.of_nat fuel - 1) ≤ 63 → 0 ≤ out < 2 ^ shift →
  (fuel > 0)%nat → _varint shift out (enc_varint fuel n ++ r) = Some (out + n * 2 ^ shift, r).
Proof.
  revert n shift out. induction fuel as [|fuel IH]; intros n shift out Hn Hs Hmax Ho Hf; [lia|].
  cbn [enc_varint]. destruct (Z.ltb_spec n 128) as [Hlt|Hge]; cbn [app _varint].
  - destruct (Z.ltb_spec 63 shift); [lia|]. destruct (varint_byte_low n) as [-> ->]; [lia|].
    change (0 =? 0) with true. cbn iota. by rewrite lor_shift by lia.
  - destruct (Z.ltb_spec 63 shift); [lia|].
    destruct (varint_byte_high (n mod 128)) as [-> ->]; [by apply Z.mod_pos_bound|].
    change (128 =? 0) with false. cbn iota. pose proof (Z.mod_pos_bound n 128 eq_refl) as Hm.
    rewrite lor_shift by lia. pose proof (Z.div_mod n 128 ltac:(lia)) as Hd.
    assert (2 ^ (shift + 7) = 128 * 2 ^ shift) as Hp by (rewrite Z.pow_add_r by lia; lia).
    destruct fuel as [|fuel]; [change (2 ^ (7 * Z.of_nat 1)) with 128 in Hn; lia|].
    assert (0 ≤ n / 128 < 2 ^ (7 * Z.of_nat (S fuel))).
    { split; [apply Z.div_pos; lia|]. apply Z.div_lt_upper_bound; [lia|].
      replace (7 * Z.of_nat (S (S fuel))) with (7 * Z.of_nat (S fuel) + 7) in Hn by lia.
      rewrite Z.pow_add_r in Hn by lia. lia. }
    rewrite IH; [|done|lia|lia|nia|lia].
    do 2 f_equal. rewrite Hp. nia.
Qed.

Lemma varint_reads n r : 0 ≤ n < 2 ^ 64 → _varint 0 0 (varint n ++ r) = Some (n, r).
Proof.
  intros Hn. unfold varint. rewrite varint_read; [do 2 f_equal; lia| |lia|lia|lia|lia].
  change (7 * Z.of_nat 10) with 70. split; [lia|]. etrans; [apply Hn|reflexivity].
Qed.

Lemma next_field_reads f r : wire_ok f → next_field (enc_field f ++ r) = Some (field_of f, r).
Proof.
  assert (∀ num wt, 0 ≤ num → 0 ≤ wt < 8 → Z.shiftr (num * 8 + wt) 3 = num ∧ Z.land (num * 8 + wt) 7 = wt)
    as Hkey.
  { intros num wt Hn Hw. rewrite Z.shiftr_div_pow2 by lia. change (2 ^ 3) with 8.
    change 7 with (Z.ones 3). rewrite Z.land_ones by lia. change (2 ^ 3) with 8. split; dlia. }
  destruct f as [num v|num b]; intros [Hnum Hv]; unfold next_field; cbn [enc_field field_of];
    rewrite <-!(assoc_L (++)).
  - rewrite varint_reads by lia. cbn [mbind option_bind].
    destruct (Hkey num 0) as [E1 E2]; [lia..|]. rewrite Z.add_0_r in E1, E2. rewrite E1, E2.
    change (0 =? 0) with true. cbn iota. by rewrite varint_reads.
  - rewrite varint_reads by lia. cbn [mbind option_bind].
    destruct (Hkey num 2) as [-> ->]; [lia..|]. change (2 =? 0) with false. change (2 =? 2) with true. cbn iota.
    rewrite varint_reads by lia. cbn [mbind option_bind].
    rewrite length_app. destruct (Z.ltb_spec (Z.of_nat (length b + length r)) (zlen b)); [lia|].
    by rewrite Nat2Z.id, take_app_length, drop_app_length.
Qed.

Lemma varint_nonempty n : (0 < length (varint n))%nat.
Proof. unfold varint. cbn [enc_varint]. case_match; simpl; lia. Qed.

Lemma enc_field_nonempty f : (0 < length (enc_field f))%nat.
Proof. destruct f; simpl; rewrite length_app; [pose proof (varint_nonempty (num * 8))|pose proof (varint_nonempty (num * 8 + 2))]; lia. Qed.

(** The reader recovers the fields of an encoded message. *)
Lemma fields_read fs : Forall wire_ok fs → _fields (enc_message fs) = (field_of <$> fs, true).
Proof.
  unfold _fields. intros Hok. remember (length (enc_message fs)) as fuel eqn:E.
  assert (length (enc_message fs) ≤ fuel)%nat as Hle by lia. clear E. revert fuel Hle.
  induction Hok as [|f fs Hf _ IH]; intros fuel Hle; [by destruct fuel|].
  change (enc_message (f :: fs)) with (enc_field f ++ enc_message fs) in *.
  rewrite length_app in Hle. pose proof (enc_field_nonempty f). destruct fuel as [|fuel]; [lia|].
  destruct (enc_field f ++ enc_message fs) as [|x r] eqn:E.
  { apply (f_equal length) in E. rewrite length_app in E. simpl in E. lia. }
  cbn [fields_from]. rewrite <-E, next_field_reads by done. rewrite IH by lia. done.
Qed.

Lemma fold_fields_read {A} (step : A → field → res A) a fs :
  Forall wire_ok fs →
  fold_fields step a (enc_message fs) = foldl (λ m f, x ← m; step x f) (Ok a) (field_of <$> fs).
Proof.
  intros H. unfold fold_fields. rewrite fields_read by done. by destruct (foldl _ _ _).
Qed.

(** ** The messages of a refusal *)

Definition any_message (tv : bytes * bytes) : bytes := enc_message [WBytes 1 tv.1; WBytes 2 tv.2].
Definition status_message (code : Z) (msg : bytes) (details : list (bytes * bytes)) : bytes :=
  enc_message ([WInt 1 code; WBytes 2 msg] ++ ((λ tv, WBytes 3 (any_message tv)) <$> details)).
Definition error_info_message (reason domain : bytes) (m : list (bytes * bytes)) : bytes :=
  enc_message ([WBytes 1 reason; WBytes 2 domain]
               ++ ((λ kv, WBytes 3 (enc_message [WBytes 1 kv.1; WBytes 2 kv.2])) <$> m)).
Definition retry_info_message (seconds nanos : Z) : bytes :=
  enc_message [WBytes 1 (enc_message [WInt 1 (seconds mod 2 ^ 64); WInt 2 (nanos mod 2 ^ 64)])].

(** [wire_ok] but for the sizes, which follow from the size of the whole message. *)
Definition nums_ok (f : wire_field) : Prop :=
  match f with WInt num v => 0 ≤ num < 2 ^ 29 ∧ 0 ≤ v < 2 ^ 64 | WBytes num b => 0 ≤ num < 2 ^ 29 end.

Lemma payload_length num b fs : WBytes num b ∈ fs → (length b ≤ length (enc_message fs))%nat.
Proof.
  induction fs as [|f fs IH]; [by intros ?%not_elem_of_nil|].
  change (enc_message (f :: fs)) with (enc_field f ++ enc_message fs). rewrite length_app.
  intros [<-|Hin]%elem_of_cons; [|specialize (IH Hin); lia]. simpl. rewrite !length_app. lia.
Qed.

Lemma wire_ok_sized fs : Forall nums_ok fs → zlen (enc_message fs) < 2 ^ 64 → Forall wire_ok fs.
Proof.
  rewrite !Forall_forall. intros Hn Hl f Hf. specialize (Hn f Hf). destruct f as [num v|num b]; [done|].
  split; [done|]. pose proof (payload_length _ _ _ Hf). lia.
Qed.

(** Every field of a text is below the size of the message around it. *)
Ltac sized := first [lia | repeat constructor; simpl; lia].

Lemma any_reads u url v :
  utf8_encode url = Ok u → zlen (any_message (u, v)) < 2 ^ 64 →
  fold_fields any_step ([], []) (any_message (u, v)) = Ok (url, v).
Proof.
  intros Hu Hl. unfold any_message in *. rewrite fold_fields_read.
  - cbn. by rewrite (utf8_decode_encode _ _ Hu).
  - apply wire_ok_sized; [sized|done].
Qed.

Lemma details_read out (ds : list (bytes * bytes)) (ts : list (pystr * bytes)) :
  Forall2 (λ d t, utf8_encode t.1 = Ok d.1 ∧ d.2 = t.2 ∧ zlen (any_message d) < 2 ^ 64) ds ts →
  foldl (λ m f, x ← m; status_step x f) (Ok out) (field_of <$> ((λ tv, WBytes 3 (any_message tv)) <$> ds))
  = Ok (out ++ ts).
Proof.
  intros H. revert out. induction H as [|[u v] [url v'] ds ts (Hu & Hv & Hl) _ IH]; intros out.
  { simpl. by rewrite app_nil_r. }
  cbn [fst snd] in Hu, Hv. subst v'.
  rewrite !fmap_cons. cbn [foldl]. unfold status_step at 2. cbn [field_of f_value f_num mbind res_bind].
  change (3 =? 3) with true. cbn iota. rewrite (any_reads u url v) by done. cbn [mbind res_bind].
  rewrite IH. by rewrite <-(assoc_L (++)).
Qed.

Lemma status_details_read t code msg ds ts :
  0 ≤ code < 2 ^ 64 → zlen (status_message code msg ds) < 2 ^ 64 →
  details_value t = PBytes (status_message code msg ds) →
  Forall2 (λ d t, utf8_encode t.1 = Ok d.1 ∧ d.2 = t.2) ds ts →
  _status_details (Some t) = ts.
Proof.
  intros Hc Hl Ht Hds. unfold _status_details. destruct t as [|kv t]; [done|]. rewrite Ht. cbn [bytes_or_bytearray].
  unfold status_message in *. rewrite fold_fields_read.
  2: { apply wire_ok_sized; [|done]. apply Forall_app. split; [sized|].
       apply Forall_fmap, Forall_forall. intros ? _. simpl. lia. }
  rewrite fmap_app, foldl_app.
  change (foldl _ _ (field_of <$> [WInt 1 code; WBytes 2 msg])) with (Ok [] : res (list (pystr * bytes))).
  rewrite (details_read [] ds ts); [done|].
  assert (∀ d, d ∈ ds → zlen (any_message d) < 2 ^ 64) as Hs.
  { intros d Hd. assert (WBytes 3 (any_message d) ∈ [WInt 1 code; WBytes 2 msg] ++ ((λ tv, WBytes 3 (any_message tv)) <$> ds))
      as Hin%payload_length; [|lia]. apply elem_of_app. right. apply list_elem_of_fmap. eauto. }
  clear -Hds Hs. induction Hds as [|d t ds ts [? ?] _ IH]; constructor.
  - split_and!; [done..|]. apply Hs. left.
  - apply IH. intros d' Hd'. apply Hs. by right.
Qed.

Lemma dict_set_fresh k v d : k ∉ d.*1 → dict_set k v d = d ++ [(k, v)].
Proof.
  induction d as [|[k' v'] d IH]; [done|]. rewrite fmap_cons, not_elem_of_cons. intros [Hk Hd]. simpl.
  rewrite decide_False by (simpl in Hk; congruence). by rewrite IH.
Qed.

Lemma entry_reads k v kb vb :
  utf8_encode k = Ok kb → utf8_encode v = Ok vb → zlen (enc_message [WBytes 1 kb; WBytes 2 vb]) < 2 ^ 64 →
  fold_fields map_entry_step ([], []) (enc_message [WBytes 1 kb; WBytes 2 vb]) = Ok (k, v).
Proof.
  intros Hk Hv Hl. rewrite fold_fields_read by (apply wire_ok_sized; [sized|done]).
  cbn. rewrite (utf8_decode_encode _ _ Hk). cbn. by rewrite (utf8_decode_encode _ _ Hv).
Qed.

Definition encodes (d : bytes * bytes) (t : pystr * pystr) : Prop :=
  utf8_encode t.1 = Ok d.1 ∧ utf8_encode t.2 = Ok d.2.

Lemma metadata_read i ds ts :
  Forall2 encodes ds ts → NoDup (ei_metadata i ++ ts).*1 →
  Forall (λ d, zlen (enc_message [WBytes 1 d.1; WBytes 2 d.2]) < 2 ^ 64) ds →
  foldl (λ m f, x ← m; error_info_step x f) (Ok i)
    (field_of <$> ((λ kv, WBytes 3 (enc_message [WBytes 1 kv.1; WBytes 2 kv.2])) <$> ds))
  = Ok {| ei_reason := ei_reason i; ei_domain := ei_domain i; ei_metadata := ei_metadata i ++ ts |}.
Proof.
  intros H. revert i. induction H as [|[kb vb] [k v] ds ts [Hk Hv] _ IH]; intros i Hn Hl.
  { simpl. rewrite app_nil_r. by destruct i. }
  apply Forall_cons in Hl as [Hl Hls].
  rewrite !fmap_cons. cbn [foldl]. unfold error_info_step at 2. cbn [field_of f_value f_num mbind res_bind].
  change (3 =? 1) with false. change (3 =? 2) with false. change (3 =? 3) with true. cbn iota.
  cbn [fst snd] in *. rewrite (entry_reads k v) by done. cbn [mbind res_bind fst snd].
  rewrite fmap_app, fmap_cons in Hn. cbn [fst] in Hn.
  rewrite dict_set_fresh by (apply NoDup_app in Hn as (_ & Hn & _); intros ?; by apply (Hn k); [|left]).
  rewrite IH; cbn [ei_reason ei_domain ei_metadata]; [by rewrite <-(assoc_L (++))| |done].
  rewrite !fmap_app. cbn. by rewrite <-(assoc_L (++)).
Qed.

Lemma error_info_read r rb d db m mb :
  utf8_encode r = Ok rb → utf8_encode d = Ok db → Forall2 encodes mb m → NoDup m.*1 →
  zlen (error_info_message rb db mb) < 2 ^ 64 →
  _decode_error_info (error_info_message rb db mb) =
  Ok {| ei_reason := r; ei_domain := d; ei_metadata := m |}.
Proof.
  intros Hr Hd Hm Hn Hl. unfold _decode_error_info, error_info_message in *. rewrite fold_fields_read.
  2: { apply wire_ok_sized; [|done]. apply Forall_app. split; [sized|].
       apply Forall_fmap, Forall_forall. intros ? _. simpl. lia. }
  rewrite fmap_app, foldl_app.
  assert (foldl (λ m f, x ← m; error_info_step x f)
            (Ok {| ei_reason := []; ei_domain := []; ei_metadata := [] |})
            (field_of <$> [WBytes 1 rb; WBytes 2 db])
          = Ok {| ei_reason := r; ei_domain := d; ei_metadata := [] |}) as ->.
  { cbn. rewrite (utf8_decode_encode _ _ Hr). cbn. by rewrite (utf8_decode_encode _ _ Hd). }
  rewrite (metadata_read _ mb m); [done|done|done|].
  apply Forall_forall. intros x Hx.
  assert (WBytes 3 (enc_message [WBytes 1 x.1; WBytes 2 x.2]) ∈
          [WBytes 1 rb; WBytes 2 db] ++ ((λ kv, WBytes 3 (enc_message [WBytes 1 kv.1; WBytes 2 kv.2])) <$> mb))
    as Hin%payload_length; [|lia]. apply elem_of_app. right. apply list_elem_of_fmap. eauto.
Qed.

Lemma signed64_mod z : - 2 ^ 63 ≤ z < 2 ^ 63 → signed64 (z mod 2 ^ 64) = z.
Proof. intros Hz. unfold signed64. destruct (Z.leb_spec (2 ^ 63) (z mod 2 ^ 64)); dlia. Qed.

Lemma retry_info_read s n :
  - 2 ^ 63 ≤ s < 2 ^ 63 → - 2 ^ 63 ≤ n < 2 ^ 63 →
  _decode_retry_delay (retry_info_message s n) = Ok (Some (duration_seconds s n)).
Proof.
  intros Hs Hn. unfold _decode_retry_delay, retry_info_message.
  set (inner := enc_message [WInt 1 (s mod 2 ^ 64); WInt 2 (n mod 2 ^ 64)]).
  pose proof (Z.mod_pos_bound s (2 ^ 64) eq_refl). pose proof (Z.mod_pos_bound n (2 ^ 64) eq_refl).
  assert (length inner ≤ 40)%nat as Hi.
  { assert (∀ x, length (varint x) ≤ 10)%nat as Hv.
    { intros x. unfold varint. generalize 10%nat. intros f. revert x.
      induction f as [|f IH]; intros x; simpl; [done|]. case_match; simpl; [lia|]. specialize (IH (x / 128)). lia. }
    unfold inner, enc_message. cbn [fmap list_fmap enc_field concat]. rewrite !length_app.
    pose proof (Hv (1 * 8)). pose proof (Hv (2 * 8)). pose proof (Hv (s mod 2 ^ 64)). pose proof (Hv (n mod 2 ^ 64)).
    simpl (length []). lia. }
  rewrite fields_read by (apply Forall_singleton; cbn [wire_ok]; lia). cbn [fmap list_fmap field_of].
  cbn [find f_num f_wt Z.eqb andb Pos.eqb f_value].
  unfold inner. rewrite fold_fields_read by (apply Forall_cons; split; [|apply Forall_singleton]; cbn [wire_ok]; lia).
  cbn -[duration_seconds Z.pow signed64]. by rewrite !signed64_mod.
Qed.

(** ** Properties *)

(** C34. A refusal's details survive the wire: from trailing metadata whose last [grpc-status-details-bin]
    value is an encoded [google.rpc.Status] with a Seam-domain [ErrorInfo] and a [RetryInfo], the typed
    error reads back exactly the reason, the metadata (in order) and the delay. *)
Theorem refusal_details_roundtrip t code msg r rb m mb seconds nanos :
  utf8_encode r = Ok rb → Forall2 encodes mb m → NoDup m.*1 → 0 ≤ code < 2 ^ 64 →
  - 2 ^ 63 ≤ seconds < 2 ^ 63 → - 2 ^ 63 ≤ nanos < 2 ^ 63 →
  let info := error_info_message rb SEAM_ERROR_DOMAIN mb in
  let raw := status_message code msg
               [(_ERROR_INFO_TYPE, info); (_RETRY_INFO_TYPE, retry_info_message seconds nanos)] in
  zlen raw < 2 ^ 64 → details_value t = PBytes raw →
  reason (Some t) = Some r ∧ error_metadata (Some t) = Some m ∧
  macp_code (Some t) = (if decide (r = PROTOCOL_REASON) then str_get (lit "macp_code") m else None) ∧
  retry_after (Some t) = Some (duration_seconds seconds nanos).
Proof.
  intros Hr Hm Hn Hc Hs Hnn info raw Hl Ht.
  assert (zlen info < 2 ^ 64) as Hi.
  { assert (length info ≤ length (any_message (_ERROR_INFO_TYPE, info)))%nat.
    { eapply (payload_length 2). right. left. }
    assert (length (any_message (_ERROR_INFO_TYPE, info)) ≤ length raw)%nat; [|lia].
    eapply (payload_length 3). do 2 right. left. }
  assert (_status_details (Some t) =
          [(_ERROR_INFO_TYPE, info); (_RETRY_INFO_TYPE, retry_info_message seconds nanos)]) as E.
  { eapply status_details_read; [done|done|done|].
    constructor; [done|]. constructor; [done|constructor]. }
  assert (_seam_error_info (Some t) = Some (r, m)) as Einfo.
  { unfold _seam_error_info. rewrite E. cbn [seam_error_info]. rewrite decide_True by done.
    unfold info. rewrite (error_info_read r rb SEAM_ERROR_DOMAIN SEAM_ERROR_DOMAIN m mb) by done.
    cbn [ei_domain ei_reason ei_metadata]. by rewrite decide_True. }
  unfold reason, error_metadata, macp_code, retry_after. rewrite Einfo, E.
  split; [done|]. split; [done|]. split; [done|]. cbn [first_retry_info].
  rewrite decide_False by (vm_compute; discriminate). rewrite decide_True by done.
  by rewrite retry_info_read.
Qed.

Lemma normalized_metadata_val t : _normalized_trailing_metadata (metadata_val t) = t.
Proof.
  destruct t as [t|]; [|done]. unfold metadata_val, _normalized_trailing_metadata.
  cbn [py_iter mbind res_bind].
  assert (mapM (λ it, kv ← py_iter it; match kv with [k; v] => Ok (k, v) | _ => Raise ValueError end)
            ((λ kv : pyval * pyval, PTuple [kv.1; kv.2]) <$> t) = Ok t) as ->; [|done].
  induction t as [|[k v] t IH]; [done|]. rewrite fmap_cons. apply mapM_res_cons. eauto.
Qed.

(** [map_rpc_error] always yields a typed error for an RPC error: its class is the one [_BY_CODE] gives
    the status code ([InternalError] for every other code, a missing accessor or a [None] code being
    [UNKNOWN]); mapping twice changes nothing; and the typed error survives pickling unchanged, trailing
    metadata included, with "never observed" and "observed empty" kept apart. *)
Theorem map_rpc_error_typed e :
  is_rpc_error e = true →
  (∃ cls code details t, map_rpc_error e = SeamRpcError cls code details t) ∧
  (∀ r, e = RawRpcError r → ∃ code details t,
     code = match raw_code r with Some (Some c) => c | _ => UNKNOWN end ∧
     map_rpc_error e = SeamRpcError (default InternalError (_BY_CODE code)) code details t ∧
     (raw_trailing r = None ∨ raw_trailing r = Some None → t = None) ∧
     (raw_trailing r = Some (Some (PTuple [])) → t = Some [])) ∧
  map_rpc_error (map_rpc_error e) = map_rpc_error e ∧
  reduce (map_rpc_error e) = map_rpc_error e.
Proof.
  assert (∀ cls code details t, reduce (SeamRpcError cls code details t) = SeamRpcError cls code details t) as Hred.
  { intros. unfold reduce, seam_rpc_error. by rewrite normalized_metadata_val. }
  destruct e; try done; intros _.
  - split; [by eauto|]. split; [done|]. split; [done|apply Hred].
  - split; [unfold map_rpc_error, seam_rpc_error; by eauto|]. split.
    + intros r [= <-]. do 3 eexists. split; [done|]. split; [done|].
      split; [by intros [-> | ->]|by intros ->].
    + split; [done|apply Hred].
Qed.

(** The retry classification: an error is retryable exactly when it is the [UNAVAILABLE] class with
    reason [SESSION_UNAVAILABLE] or the [FAILED_PRECONDITION] class with reason [TENANT_MOVING]; in
    particular [WRONG_CELL] is never retryable, nor is any error without a Seam [ErrorInfo]. *)
Theorem is_retryable_iff e :
  (is_retryable e = true ↔
   ∃ cls code details t, e = SeamRpcError cls code details t ∧
     (cls = UnavailableError ∧ reason t = Some SESSION_UNAVAILABLE_REASON ∨
      cls = FailedPreconditionError ∧ reason t = Some TENANT_MOVING_REASON)) ∧
  (is_wrong_cell e = true → is_retryable e = false).
Proof.
  unfold is_retryable, is_session_unavailable, is_tenant_moving, is_wrong_cell, is_refusal.
  destruct e; cbn [typed orb]; try (split; [split; [done|by intros (? & ? & ? & ? & [=] & _)]|done]).
  split.
  - rewrite orb_true_iff, !andb_true_iff, !bool_decide_eq_true. split.
    + intros H. do 4 eexists. split; [reflexivity|]. naive_solver.
    + intros (? & ? & ? & ? & [= <- <- <- <-] & H). done.
  - intros [->%bool_decide_eq_true Hr%bool_decide_eq_true]%andb_true_iff.
    rewrite Hr. apply orb_false_iff. split; vm_compute; reflexivity.
Qed.

(** ** Witnesses *)

Definition moving_metadata : list (pystr * pystr) :=
  [(lit "move_id", lit "mv-1"); (lit "target_cell", lit "eu-2")].
Definition moving_raw : bytes :=
  status_message 9 (lit "moving")
    [(_ERROR_INFO_TYPE, error_info_message TENANT_MOVING_REASON SEAM_ERROR_DOMAIN moving_metadata);
     (_RETRY_INFO_TYPE, retry_info_message 5 0)].
Definition moving_trailing : metadata :=
  [(PStr (lit "x-other"), PStr (lit "1")); (PStr (lit "Grpc-Status-Details-Bin"), PBytes moving_raw)].

Lemma refusal_details_roundtrip_witness :
  reason (Some moving_trailing) = Some TENANT_MOVING_REASON ∧
  error_metadata (Some moving_trailing) = Some moving_metadata ∧
  macp_code (Some moving_trailing) = None ∧
  retry_after (Some moving_trailing) = Some (duration_seconds 5 0).
Proof.
  apply (refusal_details_roundtrip moving_trailing 9 (lit "moving") TENANT_MOVING_REASON TENANT_MOVING_REASON
           moving_metadata moving_metadata 5 0); try reflexivity; try lia.
  - constructor; [split; reflexivity|]. constructor; [split; reflexivity|constructor].
  - apply (bool_decide_unpack _). vm_compute. exact I.
Defined.

Lemma map_rpc_error_typed_witness :
  map_rpc_error (map_rpc_error (RawRpcError (RawRpc (Some None) None (Some (Some (PTuple []))))))
  = map_rpc_error (RawRpcError (RawRpc (Some None) None (Some (Some (PTuple []))))).
Proof. apply map_rpc_error_typed. reflexivity. Defined.

Lemma is_retryable_iff_witness :
  is_retryable (SeamRpcError FailedPreconditionError FAILED_PRECONDITION []
    (Some [(PStr _STATUS_DETAILS_KEY,
            PBytes (status_message 9 [] [(_ERROR_INFO_TYPE, error_info_message WRONG_CELL_REASON SEAM_ERROR_DOMAIN [])]))]))
  = false.
Proof. apply is_retryable_iff. vm_compute. reflexivity. Defined.
