(* ===== verification/StubProxy.v ===== *)
(** * StubProxy: the proxies the clients call their stubs through ([errors.py] and [aio.py])

    [_MappedStub] and [_AioMappedStub] stand in front of a generated stub and map the failures of its calls to the typed
    errors; the asynchronous one also wraps a streaming response in a [_MappedStream]. A stub is what it has for each
    attribute name; what a call does and what a stream answers at each read are the channel's, parameters here. *)

From stdpp Require Import base list numbers option strings.
From S2P Require Import Prelude Errors.

Section proxy.
Context {Q A : Type}.

(** ** Streams *)

(** One read of a [grpc.aio] call: a message, the end, or what it raises. *)
Inductive reading := Item (a : A) | Ended | Failing (e : exn).
(** A streaming call: what each of its reads gives, how many were made, and what [cancel] answers. *)
Record call := MkCall { read : nat → reading; reads : nat; cancelling : bool }.

(** A [_MappedStream] that is iterated: the call, and whether its generator has finished. *)
Record _MappedStream := MkStream { _call : call; finished : bool }.

(** What [__anext__] of the generator gives. *)
Inductive next := Yields (a : A) | Stops | Raises (e : exn).

Definition mapped (e : exn) : exn := if is_rpc_error e then map_rpc_error e else e.

Definition _aiter (s : _MappedStream) : next * _MappedStream :=
  if finished s then (Stops, s)
  else
    let c := _call s in
    let c' := MkCall (read c) (S (reads c)) (cancelling c) in
    match read c (reads c) with
    | Item a => (Yields a, MkStream c' false)
    | Ended => (Stops, MkStream c' true)
    | Failing e => (Raises (mapped e), MkStream c' true)
    end.
Definition cancel (s : _MappedStream) : bool := cancelling (_call s).

(** [n] reads in a row. *)
Fixpoint anexts (n : nat) (s : _MappedStream) : list next * _MappedStream :=
  match n with
  | O => ([], s)
  | S n => let '(r, s) := _aiter s in let '(rs, s) := anexts n s in (r :: rs, s)
  end.

(** ** Stubs *)

(** An attribute of a raw stub. *)
Inductive attribute :=
| Value (v : pyval)                  (** not callable *)
| Unary (f : Q → res A)
| Streaming (f : Q → res call).      (** a multicallable whose response streams *)
Definition stub : Type := string → option attribute.

(** What a proxy hands out for it, and the failure of a missing one. *)
Inductive proxied :=
| Plain (v : pyval)
| Calls (f : Q → res A)
| Streams (f : Q → res call)
| MappedStreams (f : Q → res _MappedStream).

(** [_MappedStub.__getattr__]: a streaming call is mapped when it is made, not when it is read. *)
Definition _MappedStub (s : stub) (name : string) : res proxied :=
  match s name with
  | None => Raise AttributeError
  | Some (Value v) => Ok (Plain v)
  | Some (Unary f) => Ok (Calls (λ q, mapped_call (f q)))
  | Some (Streaming f) => Ok (Streams (λ q, mapped_call (f q)))
  end.

(** [_AioMappedStub.__getattr__]: it is mapped when it is read, not when it is made. *)
Definition _AioMappedStub (s : stub) (name : string) : res proxied :=
  match s name with
  | None => Raise AttributeError
  | Some (Streaming f) => Ok (MappedStreams (λ q, c ← f q; Ok (MkStream c false)))
  | Some (Value v) => Ok (Plain v)
  | Some (Unary f) => Ok (Calls (λ q, mapped_call (f q)))
  end.

(** ** What a consumer sees *)

(** An error a caller of the SDK may see: an RPC's failure is the typed one. *)
Definition typed_failure (e : exn) : Prop := is_rpc_error e = true → ∃ cls c d t, e = SeamRpcError cls c d t.

Lemma mapped_typed e : typed_failure (mapped e).
Proof.
  unfold typed_failure, mapped. destruct (is_rpc_error e) eqn:E; [intros _|congruence].
  destruct e; try discriminate E; cbn [map_rpc_error]; unfold seam_rpc_error; by do 4 eexists.
Qed.
Lemma mapped_other e : is_rpc_error e = false → mapped e = e.
Proof. unfold mapped. by intros ->. Qed.

Lemma mapped_call_spec {B} (r : res B) :
  (∀ b, mapped_call r = Ok b ↔ r = Ok b) ∧ ∀ e, mapped_call r = Raise e → typed_failure e ∧ ∃ e0, r = Raise e0 ∧ e = mapped e0.
Proof.
  split; [intros b|intros e]; destruct r as [b0|e0]; cbn [mapped_call]; try (by destruct (is_rpc_error e0)); try done.
  intros E. assert (e = mapped e0) as -> by (unfold mapped; destruct (is_rpc_error e0); congruence). split; [apply mapped_typed|by exists e0].
Qed.

Lemma anexts_finished n s : finished s = true → anexts n s = (replicate n Stops, s).
Proof. intros H. induction n as [|n IH]; cbn [anexts replicate]; [done|]. unfold _aiter. by rewrite H, IH. Qed.

(** The messages of a call, in order, and then how it ended, once. *)
Definition closing (r : reading) : next := match r with Item a => Yields a | Ended => Stops | Failing e => Raises (mapped e) end.

Lemma anexts_read c items n last : (∀ i a, items !! i = Some a → read c (reads c + i) = Item a) →
  read c (reads c + length items) = last → (∀ a, last ≠ Item a) →
  (anexts (length items + S n) (MkStream c false)).1 = (Yields <$> items) ++ closing last :: replicate n Stops.
Proof.
  revert c. induction items as [|a items IH]; intros c Hi Hl Hn; cbn [length anexts Nat.add fmap list_fmap app].
  - rewrite Nat.add_0_r in Hl. unfold _aiter. cbn [finished _call]. rewrite Hl.
    destruct last as [a| |e]; [by destruct (Hn a)|..]; by rewrite anexts_finished.
  - unfold _aiter. cbn [finished _call]. specialize (Hi 0%nat a eq_refl) as Ha. rewrite Nat.add_0_r in Ha. rewrite Ha.
    specialize (IH (MkCall (read c) (S (reads c)) (cancelling c))). cbn [read reads] in IH.
    destruct (anexts _ _) as [rs s']. cbn [fst] in IH |- *. f_equal. apply IH; [|by rewrite <- Hl; f_equal; cbn [length]; lia|done].
    intros i b Hb. rewrite <- (Hi (S i) b Hb). f_equal. lia.
Qed.

(** Through either proxy a name gives what the stub has under it. A unary call gives what the stub's call gives, its RPC
    failures typed and its other failures as they are; the asynchronous stream gives the same messages in the same
    order, then how the call ended, a failure typed, and after that nothing but its end. *)
Theorem proxies_transparent (s : stub) name :
  match s name with
  | None => _MappedStub s name = Raise AttributeError ∧ _AioMappedStub s name = Raise AttributeError
  | Some (Value v) => _MappedStub s name = Ok (Plain v) ∧ _AioMappedStub s name = Ok (Plain v)
  | Some (Unary f) => ∃ g, _MappedStub s name = Ok (Calls g) ∧ _AioMappedStub s name = Ok (Calls g) ∧
      ∀ q, (∀ a, g q = Ok a ↔ f q = Ok a) ∧ ∀ e, g q = Raise e → typed_failure e ∧ ∃ e0, f q = Raise e0 ∧ e = mapped e0
  | Some (Streaming f) => ∃ g h, _MappedStub s name = Ok (Streams g) ∧ _AioMappedStub s name = Ok (MappedStreams h) ∧
      ∀ q, (∀ c, g q = Ok c ↔ f q = Ok c) ∧ (∀ e, g q = Raise e → typed_failure e) ∧
        ∀ m, h q = Ok m → ∃ c, f q = Ok c ∧ cancel m = cancelling c ∧
          ∀ items n last, (∀ i a, items !! i = Some a → read c (reads c + i) = Item a) →
            read c (reads c + length items) = last → (∀ a, last ≠ Item a) →
            (anexts (length items + S n) m).1 = (Yields <$> items) ++ closing last :: replicate n Stops
  end.
Proof.
  unfold _MappedStub, _AioMappedStub. destruct (s name) as [[v|f|f]|]; [done| | |done].
  - eexists. split_and!; [done..|]. intros q. apply mapped_call_spec.
  - do 2 eexists. split_and!; [done..|]. intros q. destruct (mapped_call_spec (f q)) as [H1 H2]. split_and!; [done|by intros e [? _]%H2|].
    intros m E. cbn beta in E. destruct (f q) as [c|]; [|discriminate E]. cbn [mbind res_bind] in E. injection E as <-. exists c. split_and!; [done..|].
    intros items n last. apply anexts_read.
Qed.
End proxy.
