(* ===== verification/Retry.v ===== *)
(** * Retry: [with_session_retry]

    [retry.py]. The callable, the sleeper and the jitter source are arguments, as in the code: [call n]
    is what the [n]-th invocation does, [rng n] the [n]-th draw, [sleep d] what sleeping [d] does (the
    default [time.sleep] raises [ValueError] on a negative delay). In the async variant [call n] and [sleep d] are
    what awaiting them gives, a cancellation included. *)

From stdpp Require Import base list numbers option strings.
From Stdlib Require Import SpecFloat.
From S2P Require Import Prelude Text Floats Errors.

Record retry_config := {
  budget_s : spec_float; base_delay_s : spec_float; max_delay_s : spec_float; max_attempts : Z;
}.

Definition DEFAULT_RETRY : retry_config := {|
  budget_s := f64_round_int 40; base_delay_s := float_of_decimal false 25 (-2);
  max_delay_s := f64_round_int 8; max_attempts := 10;
|}.

(** [min(a, b)] on floats keeps the first unless the second is less. *)
Definition py_min (a b : spec_float) : spec_float := if SFltb b a then b else a.

(** [exc.retry_after if isinstance(exc, SeamRpcError) else None], then [or 0.0]. *)
Definition retry_after_of (e : exn) : spec_float :=
  match typed e with
  | Some (_, t) =>
    match retry_after t with
    | Some (S754_zero _) | None => S754_zero false
    | Some d => d
    end
  | None => S754_zero false
  end.

Definition _next_delay (cfg : retry_config) (e : exn) (attempt : Z) (waited draw : spec_float)
    : res (option spec_float) :=
  if negb (is_retryable e) || (max_attempts cfg <=? attempt) then Ok None
  else
    scale ← float_of_int (2 ^ (attempt - 1));
    let delay := f64_add (retry_after_of e)
                   (f64_mul draw (py_min (max_delay_s cfg) (f64_mul (base_delay_s cfg) scale))) in
    if SFltb (budget_s cfg) (f64_add waited delay) then Ok None else Ok (Some delay).

Section retry.
Context {A : Type} (call : nat → res A) (sleep : spec_float → res ()) (rng : nat → spec_float).
Context (cfg : retry_config).

(** How a run ended: the outcome, the calls made, and the delays slept, in order. *)
Record run := { outcome : res A; calls : nat; sleeps : list spec_float }.

Definition add_sleep (d : spec_float) (r : run) : run :=
  {| outcome := outcome r; calls := calls r; sleeps := d :: sleeps r |}.

(** The [while True] loop from attempt [n] (counted from 1); [None] only when the fuel runs out. *)
Fixpoint retry_loop (fuel n : nat) (waited : spec_float) : option run :=
  match fuel with
  | O => None
  | S fuel =>
    match call n with
    | Ok a => Some {| outcome := Ok a; calls := n; sleeps := [] |}
    | Raise e =>
      match _next_delay cfg e (Z.of_nat n) waited (rng n) with
      | Raise e' => Some {| outcome := Raise e'; calls := n; sleeps := [] |}
      | Ok None => Some {| outcome := Raise e; calls := n; sleeps := [] |}
      | Ok (Some delay) =>
        match sleep delay with
        | Raise e' => Some {| outcome := Raise e'; calls := n; sleeps := [] |}
        | Ok _ => add_sleep delay <$> retry_loop fuel (S n) (f64_add waited delay)
        end
      end
    end
  end.

Definition with_session_retry (fuel : nat) : option run := retry_loop fuel 1 (S754_zero false).

(** The loop of [with_session_retry_async]: [except Exception] lets a cancellation through untouched. *)
Fixpoint retry_loop_async (fuel n : nat) (waited : spec_float) : option run :=
  match fuel with
  | O => None
  | S fuel =>
    match call n with
    | Ok a => Some {| outcome := Ok a; calls := n; sleeps := [] |}
    | Raise e =>
      if negb (isa e CException) then Some {| outcome := Raise e; calls := n; sleeps := [] |}
      else
        match _next_delay cfg e (Z.of_nat n) waited (rng n) with
        | Raise e' => Some {| outcome := Raise e'; calls := n; sleeps := [] |}
        | Ok None => Some {| outcome := Raise e; calls := n; sleeps := [] |}
        | Ok (Some delay) =>
          match sleep delay with
          | Raise e' => Some {| outcome := Raise e'; calls := n; sleeps := [] |}
          | Ok _ => add_sleep delay <$> retry_loop_async fuel (S n) (f64_add waited delay)
          end
        end
    end
  end.

Definition with_session_retry_async (fuel : nat) : option run := retry_loop_async fuel 1 (S754_zero false).

(** ** Lemmas *)

(** A cancellation is no refusal to retry, so the two loops run alike. *)
Lemma retry_async_same fuel : with_session_retry_async fuel = with_session_retry fuel.
Proof.
  unfold with_session_retry_async, with_session_retry. generalize (S754_zero false) as w. generalize 1%nat as n.
  induction fuel as [|fuel IH]; intros n w; [done|]. cbn [retry_loop retry_loop_async].
  destruct (call n) as [a|e]; [done|]. destruct (isa e CException) eqn:Ex; cbn [negb].
  - destruct (_next_delay cfg e (Z.of_nat n) w (rng n)) as [[d|]|e']; [|done..].
    destruct (sleep d) as [[]|]; [|done]. by rewrite IH.
  - assert (e = CancelledError) as -> by (by destruct e). done.
Qed.

Lemma next_delay_Some e n w d x :
  _next_delay cfg e n w d = Ok (Some x) →
  is_retryable e = true ∧ n < max_attempts cfg ∧ SFltb (budget_s cfg) (f64_add w x) = false.
Proof.
  unfold _next_delay. destruct (is_retryable e); [|done]. cbn [negb orb].
  destruct (Z.leb_spec (max_attempts cfg) n); [done|].
  intros (s & _ & Hd)%bind_Ok. revert Hd. set (dl := f64_add (retry_after_of e) _).
  destruct (SFltb _ _) eqn:E; [done|]. by intros [= <-].
Qed.

(** Every delay that is slept keeps the running total within the budget. *)
Fixpoint within_budget (waited : spec_float) (ds : list spec_float) : Prop :=
  match ds with
  | [] => True
  | d :: ds => SFltb (budget_s cfg) (f64_add waited d) = false ∧ within_budget (f64_add waited d) ds
  end.

Lemma loop_returns fuel n w :
  (1 ≤ n)%nat → Z.of_nat n + Z.of_nat fuel > Z.max 1 (max_attempts cfg) → (fuel > 0)%nat →
  Z.of_nat n ≤ Z.max 1 (max_attempts cfg) →
  ∃ r, retry_loop fuel n w = Some r ∧ (n ≤ calls r)%nat ∧ Z.of_nat (calls r) ≤ Z.max 1 (max_attempts cfg).
Proof.
  revert n w. induction fuel as [|fuel IH]; intros n w Hn Hf Hpos Hle; [lia|]. cbn [retry_loop].
  destruct (call n) as [a|e]; [eexists; split; [done|]; simpl; lia|].
  destruct (_next_delay cfg e (Z.of_nat n) w (rng n)) as [[d|]|e'] eqn:Ed;
    [|eexists; split; [done|]; simpl; lia..].
  apply next_delay_Some in Ed as (_ & Hmax & _).
  destruct (sleep d) as [[]|e'']; [|eexists; split; [done|]; simpl; lia].
  destruct (IH (S n) (f64_add w d)) as (r & -> & H1 & H2); [lia..|].
  eexists. split; [done|]. simpl. lia.
Qed.

Lemma loop_budget fuel n w r : retry_loop fuel n w = Some r → within_budget w (sleeps r).
Proof.
  revert n w r. induction fuel as [|fuel IH]; intros n w r; [done|]. cbn [retry_loop].
  destruct (call n) as [a|e]; [by intros [= <-]|].
  destruct (_next_delay cfg e (Z.of_nat n) w (rng n)) as [[d|]|e'] eqn:Ed; [|by intros [= <-]..].
  apply next_delay_Some in Ed as (_ & _ & Hb).
  destruct (sleep d) as [[]|e'']; [|by intros [= <-]].
  intros (r' & Hr' & ->)%fmap_Some. simpl. split; [done|]. by eapply IH.
Qed.

Lemma loop_trace fuel n w r :
  retry_loop fuel n w = Some r →
  length (sleeps r) = (calls r - n)%nat ∧ (n ≤ calls r)%nat ∧
  (∀ k, (n ≤ k < calls r)%nat → ∃ e, call k = Raise e ∧ is_retryable e = true) ∧
  (outcome r = call (calls r) ∨
   ∃ e e', call (calls r) = Raise e ∧ is_retryable e = true ∧ outcome r = Raise e').
Proof.
  revert n w r. induction fuel as [|fuel IH]; intros n w r; [done|]. cbn [retry_loop].
  destruct (call n) as [a|e] eqn:Ec.
  { intros [= <-]. simpl. split_and!; [lia|lia|intros; lia|by left]. }
  destruct (_next_delay cfg e (Z.of_nat n) w (rng n)) as [[d|]|e'] eqn:Ed.
  - apply next_delay_Some in Ed as (Hr & _ & _). destruct (sleep d) as [[]|e''].
    + intros (r' & Hr' & ->)%fmap_Some. apply IH in Hr' as (H1 & H2 & H3 & H4). simpl.
      split_and!; [lia|lia| |done]. intros k Hk. destruct (decide (k = n)) as [->|]; [by eauto|].
      apply H3. lia.
    + intros [= <-]. simpl. split_and!; [lia|lia|intros; lia|right; by eauto].
  - intros [= <-]. simpl. split_and!; [lia|lia|intros; lia|by left].
  - intros [= <-]. simpl. split_and!; [lia|lia|intros; lia|right].
    exists e, e'. split_and!; [done| |done]. unfold _next_delay in Ed. by destruct (is_retryable e).
Qed.
End retry.

Arguments outcome {A} _.
Arguments calls {A} _.
Arguments sleeps {A} _.

Lemma scale_in_range n : 0 ≤ n ≤ 1023 → ∃ f, float_of_int (2 ^ n) = Ok f.
Proof.
  intros Hn. assert (match float_of_int (2 ^ n) with Ok _ => true | Raise _ => false end = true) as E.
  { assert (forallb (λ k, match float_of_int (2 ^ k) with Ok _ => true | Raise _ => false end) (seqZ 0 1024) = true)
      as Hall by (vm_compute; reflexivity).
    rewrite forallb_forall in Hall. apply Hall, list_elem_of_In, elem_of_seqZ. lia. }
  destruct (float_of_int (2 ^ n)); [by eauto|done].
Qed.

(** Up to 1025 attempts the delay is always computed. *)
Lemma next_delay_total cfg e n w d :
  1 ≤ n → max_attempts cfg ≤ 1025 → ∃ o, _next_delay cfg e n w d = Ok o.
Proof.
  intros Hn Hmax. unfold _next_delay. destruct (is_retryable e); cbn [negb orb]; [|by eauto].
  destruct (Z.leb_spec (max_attempts cfg) n); [by eauto|].
  destruct (scale_in_range (n - 1)) as (f & ->); [lia|]. cbn [mbind res_bind].
  set (dl := f64_add (retry_after_of e) _). destruct (SFltb _ _); by eauto.
Qed.

(** ** Properties *)

(** C36. The retry loop terminates within its bounds, whatever the calls do: with fuel for
    [max_attempts] it returns after at least one and at most [max_attempts] calls, having slept once
    between consecutive calls, and the waiting time never passes [budget_s] at any sleep. *)
Theorem retry_bounded {A} (call : nat → res A) sleep rng cfg fuel :
  Z.max 1 (max_attempts cfg) ≤ Z.of_nat fuel →
  ∃ r, with_session_retry call sleep rng cfg fuel = Some r ∧
    1 ≤ Z.of_nat (calls r) ≤ Z.max 1 (max_attempts cfg) ∧
    length (sleeps r) = (calls r - 1)%nat ∧ within_budget cfg (S754_zero false) (sleeps r).
Proof.
  intros Hf. unfold with_session_retry.
  destruct (loop_returns call sleep rng cfg fuel 1 (S754_zero false)) as (r & Hr & H1 & H2); [lia..|].
  exists r. split; [done|]. split; [lia|]. split; [|by eapply loop_budget].
  by destruct (loop_trace _ _ _ _ _ _ _ _ Hr) as [-> _].
Qed.

(** Only retryable refusals are retried, and nothing is swallowed: every call but the last raised a
    retryable error, and the run ends with exactly what the last call did (its value or its own
    exception), provided the sleeper does not raise and [max_attempts] is at most 1025. *)
Theorem retry_faithful {A} (call : nat → res A) sleep rng cfg fuel r :
  (∀ d, sleep d = Ok ()) → max_attempts cfg ≤ 1025 →
  with_session_retry call sleep rng cfg fuel = Some r →
  outcome r = call (calls r) ∧
  ∀ k, (1 ≤ k < calls r)%nat → ∃ e, call k = Raise e ∧ is_retryable e = true.
Proof.
  intros Hsleep Hmax Hr. split.
  - unfold with_session_retry in Hr. assert (1 ≤ 1)%nat as Hn by lia. revert Hn Hr.
    generalize 1%nat at 2 3. generalize (S754_zero false). revert r.
    induction fuel as [|fuel IH]; intros r w n Hn; [done|]. cbn [retry_loop].
    destruct (call n) as [a|e] eqn:Ec; [by intros [= <-]|].
    destruct (next_delay_total cfg e (Z.of_nat n) w (rng n)) as ([d|] & ->); [lia|done| |by intros [= <-]].
    rewrite Hsleep. intros (r' & Hr' & ->)%fmap_Some. simpl. eapply IH, Hr'. lia.
  - by destruct (loop_trace _ _ _ _ _ _ _ _ Hr) as (_ & _ & H & _).
Qed.

(** From the 1026th permitted attempt on the backoff itself fails: after 1025 retryable failures
    [2 ** (attempt - 1)] no longer converts to a float, and [OverflowError] escapes the loop in place
    of the error of the last call. *)
Theorem retry_scale_overflows cfg e w d :
  is_retryable e = true → 1025 < max_attempts cfg → _next_delay cfg e 1025 w d = Raise OverflowError.
Proof.
  intros Hr Hm. unfold _next_delay. rewrite Hr. cbn [negb orb].
  destruct (Z.leb_spec (max_attempts cfg) 1025); [lia|].
  assert (float_of_int (2 ^ (1025 - 1)) = Raise OverflowError) as -> by (vm_compute; reflexivity). done.
Qed.

(** ** Witnesses *)

Definition moving_error (seconds : Z) : exn :=
  SeamRpcError FailedPreconditionError FAILED_PRECONDITION (lit "moving")
    (Some [(PStr _STATUS_DETAILS_KEY, PBytes (status_message 9 (lit "moving")
      [(_ERROR_INFO_TYPE, error_info_message TENANT_MOVING_REASON SEAM_ERROR_DOMAIN []);
       (_RETRY_INFO_TYPE, retry_info_message seconds 0)]))]).

(** [time.sleep] *)
Definition time_sleep (d : spec_float) : res () :=
  if SFltb d (S754_zero false) then Raise ValueError else Ok ().
Definition half : spec_float := float_of_decimal false 5 (-1).

(** Two refusals, then a value: three calls, slept 5.125s and 5.25s. *)
Example retry_twice :
  with_session_retry (λ n, if (n <? 3)%nat then Raise (moving_error 5) else Ok 42) time_sleep (λ _, half)
    DEFAULT_RETRY 10
  = Some {| outcome := Ok 42; calls := 3;
            sleeps := [float_of_decimal false 5125 (-3); float_of_decimal false 525 (-2)] |}.
Proof. vm_compute. reflexivity. Qed.

(** A server that sends a negative delay makes the default sleeper raise: the caller sees its
    [ValueError] and not the refusal. *)
Example retry_negative_delay :
  with_session_retry (λ _, Raise (moving_error (-5)) : res Z) time_sleep (λ _, half) DEFAULT_RETRY 10
  = Some {| outcome := Raise ValueError; calls := 1; sleeps := [] |}.
Proof. vm_compute. reflexivity. Qed.

Lemma retry_bounded_witness :
  ∃ r, with_session_retry (λ _, Raise (moving_error 5) : res Z) time_sleep (λ _, half) DEFAULT_RETRY 10 = Some r ∧
    1 ≤ Z.of_nat (calls r) ≤ Z.max 1 (max_attempts DEFAULT_RETRY) ∧
    length (sleeps r) = (calls r - 1)%nat ∧ within_budget DEFAULT_RETRY (S754_zero false) (sleeps r).
Proof. apply retry_bounded. vm_compute. discriminate. Defined.

Lemma retry_faithful_witness :
  ∃ r, with_session_retry (λ _, Raise (moving_error 5) : res Z) (λ _, Ok ()) (λ _, half) DEFAULT_RETRY 10 = Some r ∧
       outcome r = Raise (moving_error 5).
Proof.
  destruct (with_session_retry (λ _, Raise (moving_error 5) : res Z) (λ _, Ok ()) (λ _, half) DEFAULT_RETRY 10)
    as [r|] eqn:E; [|vm_compute in E; discriminate E].
  exists r. split; [done|].
  apply (retry_faithful (λ _, Raise (moving_error 5) : res Z) (λ _, Ok ()) (λ _, half) DEFAULT_RETRY 10 r);
    [done|vm_compute; discriminate|exact E].
Defined.

Lemma retry_scale_overflows_witness :
  _next_delay {| budget_s := f64_round_int 40; base_delay_s := half; max_delay_s := half; max_attempts := 2000 |}
    (moving_error 0) 1025 (S754_zero false) (S754_zero false) = Raise OverflowError.
Proof. apply retry_scale_overflows; vm_compute; reflexivity. Defined.
