(* ===== verification/Authorize.v ===== *)
(** * Authorize: the transport-agnostic core of [Authorize] and the per-request credential

    [_authorize.py]: verdict decoding ([result_of]), the admission-ticket cache ([TicketCache]), input
    canonicalization with typed errors, request assembly and signing, and credential metadata. The
    enum numbers come from the generated protobuf module, which is not part of the repository: they
    are the fields of [AuthorizeVerdictEnum], and [AuthorizeVerdictLaws] what protobuf guarantees. *)

From stdpp Require Import base list numbers option strings relations.
From S2P Require Import Prelude Text Sha256 Base64 Keys Framing Jcs.

(** ** Verdicts *)

Class AuthorizeVerdictEnum := { pb_ALLOW : Z; pb_DENY : Z; pb_TRANSFORM : Z; pb_ESCALATE : Z }.
(** Enum numbers are distinct, and 0 is [AUTHORIZE_VERDICT_UNSPECIFIED]. *)
Class AuthorizeVerdictLaws `{AuthorizeVerdictEnum} : Prop :=
  verdicts_distinct : NoDup [0; pb_ALLOW; pb_DENY; pb_TRANSFORM; pb_ESCALATE].

Inductive Verdict := ALLOW | DENY | TRANSFORM | ESCALATE.
Global Instance Verdict_eq_dec : EqDecision Verdict.
Proof. solve_decision. Defined.

Record AuthorizeResponse := {
  resp_verdict : Z; resp_reason : pystr; resp_transformed_input : bytes; resp_authorize_id : pystr;
  resp_policy_version : pystr;
}.
Record AuthorizeResult := {
  verdict : Verdict; ar_reason : pystr; transformed_input : option bytes; authorize_id : pystr;
  policy_version : pystr;
}.
Definition allowed (r : AuthorizeResult) : bool := bool_decide (verdict r = ALLOW).

(** [d.get(k)] on a [dict] with integer keys. *)
Fixpoint int_get {V} (k : Z) (d : list (Z * V)) : option V :=
  match d with [] => None | (k', v) :: d => if k =? k' then Some v else int_get k d end.

Section verdicts.
Context `{AuthorizeVerdictEnum}.

Definition _VERDICT_NAMES : list (Z * Verdict) :=
  [(pb_ALLOW, ALLOW); (pb_DENY, DENY); (pb_TRANSFORM, TRANSFORM); (pb_ESCALATE, ESCALATE)].

Definition result_of (resp : AuthorizeResponse) : res AuthorizeResult :=
  match int_get (resp_verdict resp) _VERDICT_NAMES with
  | None => Raise (UnknownVerdictError (resp_verdict resp) (resp_authorize_id resp))
  | Some name =>
    if bool_decide (name = TRANSFORM) && (zlen (resp_transformed_input resp) =? 0)
    then Raise (ProtocolViolationError (resp_authorize_id resp))
    else Ok {| verdict := name; ar_reason := resp_reason resp;
               transformed_input := if decide (name = TRANSFORM) then Some (resp_transformed_input resp) else None;
               authorize_id := resp_authorize_id resp; policy_version := resp_policy_version resp |}
  end.
End verdicts.

(** ** The ticket cache *)

Record TicketCache := { tc_ticket : option bytes; tc_refresh_at_ms : Z }.

Definition tc_init : TicketCache := {| tc_ticket := None; tc_refresh_at_ms := 0 |}.
Definition tc_get (c : TicketCache) (now_ms : Z) : option bytes :=
  match tc_ticket c with
  | Some t => if now_ms <? tc_refresh_at_ms c then Some t else None
  | None => None
  end.
Definition tc_invalidate (c : TicketCache) : TicketCache := {| tc_ticket := None; tc_refresh_at_ms := 0 |}.
Definition tc_store (c : TicketCache) (ticket : bytes) (expires_at_ms now_ms : Z) : TicketCache :=
  let ttl_ms := expires_at_ms - now_ms in
  if (ttl_ms <=? 0) || (zlen ticket =? 0) then tc_invalidate c
  else {| tc_ticket := Some ticket; tc_refresh_at_ms := now_ms + (ttl_ms * 8) / 10 |}.

(** ** Canonical input *)

(** [tool_input if tool_input is not None else {}] *)
Definition canonicalize_tool_input (tool_input : pyval) : res bytes :=
  match jcs_canonicalize (if is_none tool_input then PDict [] else tool_input) with
  | Ok b => Ok b
  | Raise _ => Raise CanonicalizationError
  end.

Definition _resolve_canonical (tool_input canonical : pyval) : res bytes :=
  match canonical with
  | PNone => canonicalize_tool_input tool_input
  | _ =>
    if negb (is_none tool_input) then Raise CanonicalizationError
    else match canonical with
    | PBytes [] => Raise CanonicalizationError
    | PBytes b => Ok b
    | _ => Raise CanonicalizationError
    end
  end.

(** ** Requests *)

Record AuthorizeRequest := {
  q_ticket : bytes; q_tool_name : pystr; q_tool_input_digest : pystr; q_call_sig : bytes;
  q_session_id : pystr; q_subject : pystr; q_subjects : list pystr; q_agent_id : pystr;
  q_client_request_id : pystr; q_tool_input : option bytes; q_features : str_dict;
}.

(** The keyword arguments of an [authorize] call that shape the request. *)
Record authorize_args := {
  ar_tool_name : pystr; ar_tool_input : pyval; ar_canonical : pyval; ar_digest_only : bool;
  ar_features : option str_dict; ar_session_id : pystr; ar_subject : pystr; ar_subjects : list pystr;
  ar_agent_id : pystr; ar_client_request_id : pystr;
}.

Section requests.
Context `{Ed25519}.

Definition build_authorize_request (ticket agent_seed : bytes) (a : authorize_args) : res AuthorizeRequest :=
  canonical ← _resolve_canonical (ar_tool_input a) (ar_canonical a);
  let digest := tool_input_digest canonical in
  sig ← call_sig_v3 agent_seed ticket digest (ar_tool_name a) (ar_agent_id a) (ar_subject a) (ar_subjects a)
          (ar_client_request_id a) (ar_session_id a) (ar_features a);
  Ok {| q_ticket := ticket; q_tool_name := ar_tool_name a; q_tool_input_digest := digest; q_call_sig := sig;
        q_session_id := ar_session_id a; q_subject := ar_subject a; q_subjects := ar_subjects a;
        q_agent_id := ar_agent_id a; q_client_request_id := ar_client_request_id a;
        q_tool_input := if ar_digest_only a then None else Some canonical;
        q_features := default [] (ar_features a) |}.

(** [body] is the serialized request message. *)
Definition credential_metadata (agent_seed ticket : bytes) (rpc_full_name resource_id : pystr)
    (body : option bytes) : res (list (pystr * bytes)) :=
  let body_digest := match body with None => [] | Some b => tool_input_digest b end in
  sig ← request_sig agent_seed ticket rpc_full_name resource_id body_digest;
  Ok [(lit "x-seam-ticket-bin", ticket); (lit "x-seam-call-sig-bin", sig)].
End requests.

(** ** Properties of verdict decoding *)

Lemma int_get_in {V} k (d : list (Z * V)) v : int_get k d = Some v → (k, v) ∈ d.
Proof.
  induction d as [|[k' v'] d IH]; [done|]. simpl. destruct (Z.eqb_spec k k') as [<-|].
  - intros [= ->]. left.
  - right. by apply IH.
Qed.

(** C32. Verdict decoding fails closed: a result is returned only for one of the four known verdicts and
    under its own name, so a call is [allowed] exactly when the server sent ALLOW; 0 and every unknown
    number raise [UnknownVerdictError]; a TRANSFORM without a rewrite raises [ProtocolViolationError]; and
    [transformed_input] is the server's non-empty rewrite exactly for TRANSFORM. *)
Theorem result_of_fail_closed `{AuthorizeVerdictLaws} resp :
  (∀ r, result_of resp = Ok r →
     (resp_verdict resp, verdict r) ∈ _VERDICT_NAMES ∧
     (allowed r = true ↔ resp_verdict resp = pb_ALLOW) ∧
     (verdict r = TRANSFORM ↔ is_Some (transformed_input r)) ∧
     (∀ b, transformed_input r = Some b → b = resp_transformed_input resp ∧ b ≠ [])) ∧
  (resp_verdict resp ∉ [pb_ALLOW; pb_DENY; pb_TRANSFORM; pb_ESCALATE] ∨ resp_verdict resp = 0 →
     result_of resp = Raise (UnknownVerdictError (resp_verdict resp) (resp_authorize_id resp))) ∧
  (resp_verdict resp = pb_TRANSFORM → resp_transformed_input resp = [] →
     result_of resp = Raise (ProtocolViolationError (resp_authorize_id resp))).
Proof.
  pose proof verdicts_distinct as Hd. repeat setoid_rewrite NoDup_cons in Hd.
  repeat setoid_rewrite not_elem_of_cons in Hd. unfold result_of. split; [|split].
  - intros r. destruct (int_get (resp_verdict resp) _VERDICT_NAMES) as [name|] eqn:E; [|done].
    apply int_get_in in E. destruct (bool_decide (name = TRANSFORM) && _) eqn:Et; [done|].
    intros <-%Ok_inj. cbn [verdict transformed_input]. unfold allowed. cbn [verdict]. split; [done|].
    split; [|split].
    + rewrite bool_decide_eq_true. unfold _VERDICT_NAMES in E. repeat setoid_rewrite elem_of_cons in E.
      rewrite elem_of_nil in E. split; [intros ->; naive_solver|intros Hv]. rewrite Hv in E. naive_solver.
    + destruct (decide (name = TRANSFORM)) as [->|]; split; [by eauto|done|done|by intros [? [=]]].
    + intros b. case_decide as Hn; [|done]. intros [= <-]. split; [done|]. intros Hb.
      apply andb_false_iff in Et as [?%bool_decide_eq_false|Et]; [done|]. by rewrite Hb in Et.
  - intros Hv. assert (int_get (resp_verdict resp) _VERDICT_NAMES = None) as ->; [|done].
    repeat setoid_rewrite not_elem_of_cons in Hv. unfold _VERDICT_NAMES. cbn [int_get].
    rewrite !(proj2 (Z.eqb_neq (resp_verdict resp) _)) by (destruct Hv as [Hv|Hv]; [|rewrite Hv]; naive_solver).
    done.
  - intros Hv Hb. rewrite Hv, Hb. unfold _VERDICT_NAMES. cbn [int_get].
    rewrite (proj2 (Z.eqb_neq pb_TRANSFORM pb_ALLOW)), (proj2 (Z.eqb_neq pb_TRANSFORM pb_DENY)) by naive_solver.
    by rewrite Z.eqb_refl.
Qed.

(** ** Properties of the ticket cache *)

Inductive cache_op := Store (ticket : bytes) (expires_at_ms now_ms : Z) | Invalidate.
Definition cache_apply (c : TicketCache) (o : cache_op) : TicketCache :=
  match o with Store t e n => tc_store c t e n | Invalidate => tc_invalidate c end.
Definition cache_run (ops : list cache_op) : TicketCache := foldl cache_apply tc_init ops.

Lemma tc_store_get c t e n now x :
  tc_get (tc_store c t e n) now = Some x ↔
  x = t ∧ t ≠ [] ∧ n < e ∧ now < n + (e - n) * 8 / 10.
Proof.
  unfold tc_store, tc_get. destruct (Z.leb_spec (e - n) 0) as [|He]; cbn [orb tc_ticket tc_invalidate].
  { split; [done|lia]. }
  destruct t as [|b t]; cbn -[Z.ltb Z.mul Z.div Z.add Z.of_nat length]; [split; naive_solver|].
  destruct (Z.eqb_spec (zlen (b :: t)) 0) as [E|_]; [simpl in E; lia|].
  cbn [tc_ticket tc_refresh_at_ms]. destruct (Z.ltb_spec now (n + (e - n) * 8 / 10)); split; naive_solver lia.
Qed.

(** The cache never serves a stale ticket: whatever stores and invalidations came before, a ticket
    that [get] returns at [now] is the one the last operation stored, it is not empty, and [now] is
    before 80% of its lifetime, hence before its expiry; and until then that ticket is served. *)
Theorem ticket_cache_fresh ops now t :
  tc_get (cache_run ops) now = Some t ↔
  ∃ pre expires stored, ops = pre ++ [Store t expires stored] ∧ t ≠ [] ∧ stored < expires ∧
    now < stored + (expires - stored) * 8 / 10 ∧ now < expires.
Proof.
  unfold cache_run. destruct ops as [|o ops _] using rev_ind.
  { split; [done|]. by intros ([|] & ? & ? & ? & _). }
  rewrite foldl_app. cbn [foldl]. generalize (foldl cache_apply tc_init ops). intros c.
  destruct o as [t' e n|]; cbn [cache_apply].
  - rewrite tc_store_get. split.
    + intros (-> & Ht & Hn & Hnow). exists ops, e, n. split_and!; [done..|]. dlia.
    + by intros (pre & e' & n' & [-> [= -> -> ->]]%app_inj_tail & Ht & Hn & Hnow & _).
  - split; [done|]. by intros (pre & e' & n' & [_ ?]%app_inj_tail & _).
Qed.

(** ** Properties of canonical input and of the request *)

(** Exactly one derivation of the input, and every failure is typed: passing both [tool_input] and
    [canonical] is refused; a given [canonical] is used verbatim and must be non-empty [bytes] (no
    mutable buffer, no [str]); without it the input is canonicalized, [None] as the empty object; and
    whatever fails, the error is [CanonicalizationError], a [SeamError], [ValueError] and [TypeError]
    alike. *)
Theorem resolve_canonical_spec tool_input canonical :
  (tool_input ≠ PNone → canonical ≠ PNone →
     _resolve_canonical tool_input canonical = Raise CanonicalizationError) ∧
  (canonical ≠ PNone → ∀ b, _resolve_canonical tool_input canonical = Ok b ↔
     tool_input = PNone ∧ canonical = PBytes b ∧ b ≠ []) ∧
  (canonical = PNone → ∀ b, _resolve_canonical tool_input canonical = Ok b ↔
     jcs_canonicalize (if is_none tool_input then PDict [] else tool_input) = Ok b) ∧
  (∀ e, _resolve_canonical tool_input canonical = Raise e →
     e = CanonicalizationError ∧ isa e CSeamError = true ∧ isa e CValueError = true ∧ isa e CTypeError = true).
Proof.
  unfold _resolve_canonical, canonicalize_tool_input. split; [|split; [|split]].
  - intros Hi Hc. destruct tool_input; try done; by destruct canonical.
  - intros Hc b. destruct tool_input; cbn [is_none negb]; destruct canonical as [| | | | |[|x r]| | | | |];
      naive_solver.
  - intros -> b. by destruct (jcs_canonicalize _); split.
  - intros e He. assert (e = CanonicalizationError) as ->; [|done].
    destruct (is_none tool_input) eqn:Hn, canonical as [| | | | |[|x r]| | | | |]; cbn [negb] in He;
      try destruct (jcs_canonicalize _); congruence.
Qed.

Lemma sign_with_verifies `{Ed25519Laws} seed payload sig :
  sign_with seed payload = Ok sig →
  length seed = 32%nat ∧ ∃ p, payload = Ok p ∧ ed_verify (ed_public seed) sig p = true.
Proof.
  unfold sign_with, private_from_bytes. case_decide; [|done]. cbn [mbind res_bind].
  intros (p & -> & <-%Ok_inj)%bind_Ok. split; [done|]. exists p. split; [done|]. by apply ed_verify_sign.
Qed.

(** The request signs what it sends: whatever [build_authorize_request] assembles, its digest is that
    of the resolved canonical input, which it carries unless [digest_only], and its [call_sig] verifies
    under the agent's key over the v3 payload rebuilt from the request's own wire fields, the way the
    server rebuilds it. *)
Theorem authorize_request_self_consistent `{Ed25519Laws} ticket seed a q :
  build_authorize_request ticket seed a = Ok q →
  ∃ canonical payload,
    _resolve_canonical (ar_tool_input a) (ar_canonical a) = Ok canonical ∧
    q_ticket q = ticket ∧ q_tool_input_digest q = tool_input_digest canonical ∧
    q_tool_input q = (if ar_digest_only a then None else Some canonical) ∧
    call_sig_v3_payload (q_ticket q) (q_tool_input_digest q) (q_tool_name q) (q_agent_id q) (q_subject q)
      (q_subjects q) (q_client_request_id q) (q_session_id q) (Some (q_features q)) = Ok payload ∧
    ed_verify (ed_public seed) (q_call_sig q) payload = true.
Proof.
  unfold build_authorize_request. intros (c & Hc & (sig & Hs & <-%Ok_inj)%bind_Ok)%bind_Ok.
  apply sign_with_verifies in Hs as (_ & p & Hp & Hv). exists c, p.
  cbn [q_ticket q_tool_input_digest q_tool_input q_tool_name q_agent_id q_subject q_subjects
       q_client_request_id q_session_id q_features q_call_sig].
  by split_and!.
Qed.

(** A request credential is bound to its call: the metadata carries the ticket and a signature that
    verifies under the agent's key over this ticket, this RPC, this resource and the digest of exactly
    these body bytes (the empty digest for a bodyless read). *)
Theorem credential_metadata_verifies `{Ed25519Laws} seed ticket rpc resource body m :
  credential_metadata seed ticket rpc resource body = Ok m →
  ∃ sig payload,
    m = [(lit "x-seam-ticket-bin", ticket); (lit "x-seam-call-sig-bin", sig)] ∧
    request_sig_payload ticket rpc resource
      (match body with None => [] | Some b => tool_input_digest b end) = Ok payload ∧
    ed_verify (ed_public seed) sig payload = true.
Proof.
  unfold credential_metadata. intros (sig & Hs & <-%Ok_inj)%bind_Ok.
  apply sign_with_verifies in Hs as (_ & p & Hp & Hv). by eauto 10.
Qed.

(** ** Witnesses *)

Definition sample_enum : AuthorizeVerdictEnum :=
  {| pb_ALLOW := 1; pb_DENY := 2; pb_TRANSFORM := 3; pb_ESCALATE := 4 |}.
Lemma sample_enum_laws : @AuthorizeVerdictLaws sample_enum.
Proof. unfold AuthorizeVerdictLaws. apply (bool_decide_unpack _). vm_compute. exact I. Qed.

Lemma result_of_fail_closed_witness :
  @result_of sample_enum {| resp_verdict := 5; resp_reason := []; resp_transformed_input := [];
                            resp_authorize_id := lit "az-1"; resp_policy_version := [] |}
  = Raise (UnknownVerdictError 5 (lit "az-1")).
Proof.
  apply (@result_of_fail_closed sample_enum sample_enum_laws). left. cbn.
  rewrite !not_elem_of_cons. split_and!; [discriminate..|apply not_elem_of_nil].
Defined.

Lemma ticket_cache_fresh_witness :
  tc_get (cache_run [Store [1; 2] 500 0; Invalidate; Store [7] 2000 1000]) 1799 = Some [7].
Proof.
  apply ticket_cache_fresh. exists [Store [1; 2] 500 0; Invalidate], 2000, 1000.
  split_and!; [reflexivity|discriminate|lia|reflexivity|lia].
Defined.

Lemma resolve_canonical_spec_witness :
  _resolve_canonical (PDict []) (PBytes [123; 125]) = Raise CanonicalizationError.
Proof. apply resolve_canonical_spec; discriminate. Defined.

Definition sample_authorize : authorize_args := {|
  ar_tool_name := lit "wire_transfer"; ar_tool_input := PDict [(PStr (lit "amount"), PInt 100)];
  ar_canonical := PNone; ar_digest_only := false; ar_features := Some [(lit "region", lit "eu")];
  ar_session_id := []; ar_subject := lit "user-1"; ar_subjects := []; ar_agent_id := lit "agent";
  ar_client_request_id := lit "r-1" |}.

Lemma authorize_request_self_consistent_witness :
  ∃ q payload, @build_authorize_request toy_ed25519 (seqZ 1 16) (repeat 7 32) sample_authorize = Ok q ∧
    @ed_verify toy_ed25519 (@ed_public toy_ed25519 (repeat 7 32)) (q_call_sig q) payload = true.
Proof.
  destruct (@build_authorize_request toy_ed25519 (seqZ 1 16) (repeat 7 32) sample_authorize) as [q|e] eqn:E;
    [|vm_compute in E; discriminate E].
  destruct (@authorize_request_self_consistent toy_ed25519 toy_ed25519_laws _ _ _ _ E)
    as (c & p & _ & _ & _ & _ & _ & Hv).
  exists q, p. split; [reflexivity|exact Hv].
Defined.

Lemma credential_metadata_verifies_witness :
  ∃ sig payload,
    @credential_metadata toy_ed25519 (repeat 7 32) (seqZ 1 16) (lit "/s/GetDecision") (lit "dec:1") None
      = Ok [(lit "x-seam-ticket-bin", seqZ 1 16); (lit "x-seam-call-sig-bin", sig)] ∧
    @ed_verify toy_ed25519 (@ed_public toy_ed25519 (repeat 7 32)) sig payload = true.
Proof.
  destruct (@credential_metadata toy_ed25519 (repeat 7 32) (seqZ 1 16) (lit "/s/GetDecision") (lit "dec:1") None)
    as [m|e] eqn:E; [|vm_compute in E; discriminate E].
  destruct (@credential_metadata_verifies toy_ed25519 toy_ed25519_laws _ _ _ _ _ _ E) as (sig & p & -> & _ & Hv).
  exists sig, p. split; [reflexivity|exact Hv].
Defined.
