(* ===== verification/Decoders.v ===== *)
(** * Decoders: fail-closed reading of collective outcomes, seal attestations and policy enforcement

    [_collective.py], [_seal.py], [_policy.py]. A message field with explicit presence is an [option];
    enum numbers come from the generated protobuf module and are class fields, as in [Authorize]. *)

From stdpp Require Import base list numbers option strings.
From S2P Require Import Prelude Authorize.

Class CollectiveVerdictEnum := {
  CV_APPROVED : Z; CV_DECLINED : Z; CV_SPLIT : Z; CV_ESCALATED : Z; CV_NO_VOTES : Z;
}.
(** Distinct numbers, 0 being UNSPECIFIED. *)
Class CollectiveVerdictLaws `{CollectiveVerdictEnum} : Prop :=
  collective_distinct : NoDup [0; CV_APPROVED; CV_DECLINED; CV_SPLIT; CV_ESCALATED; CV_NO_VOTES].

Class SealEnum := {
  SA_RECORDED : Z; SA_NOT_RECORDED : Z; SA_KEY_UNAVAILABLE : Z; SA_ARCHIVED : Z; SA_CLEARANCE_DENIED : Z;
  SA_UNAVAILABLE : Z; SR_COMMIT : Z; SR_CANCEL : Z; SR_EXPIRE_TTL : Z; SR_EXPIRE_SUSPEND_CAP : Z;
}.
Class SealLaws `{SealEnum} : Prop := {
  availability_distinct :
    NoDup [0; SA_RECORDED; SA_NOT_RECORDED; SA_KEY_UNAVAILABLE; SA_ARCHIVED; SA_CLEARANCE_DENIED; SA_UNAVAILABLE];
  seal_reason_distinct : NoDup [0; SR_COMMIT; SR_CANCEL; SR_EXPIRE_TTL; SR_EXPIRE_SUSPEND_CAP];
}.

Inductive CollectiveVerdict := APPROVED | DECLINED | SPLIT | ESCALATED | NO_VOTES.
Inductive Availability :=
| RECORDED | NOT_RECORDED | KEY_UNAVAILABLE | ARCHIVED | CLEARANCE_DENIED | UNAVAILABLE_ATT | UNRECOGNIZED_AVAILABILITY.
Inductive SealReason := COMMIT | CANCEL | EXPIRE_TTL | EXPIRE_SUSPEND_CAP | UNRECOGNIZED_REASON.
Global Instance CollectiveVerdict_eq_dec : EqDecision CollectiveVerdict.
Proof. solve_decision. Defined.
Global Instance Availability_eq_dec : EqDecision Availability.
Proof. solve_decision. Defined.
Global Instance SealReason_eq_dec : EqDecision SealReason.
Proof. solve_decision. Defined.

(** ** Messages and results *)

Record pb_CollectiveOutcome := {
  pc_verdict : Z; pc_approve : Z; pc_reject : Z; pc_abstain : Z; pc_declared : Z; pc_contradicted : bool;
  pc_threshold : option Z;
}.
Record CollectiveOutcome := {
  co_verdict : CollectiveVerdict; approve_count : Z; reject_count : Z; abstain_count : Z;
  declared_participant_count : Z; stated_value_contradicted_tally : bool; effective_threshold : option Z;
}.
Definition approved (o : CollectiveOutcome) : bool := bool_decide (co_verdict o = APPROVED).

Record pb_SealAttestation := {
  ps_availability : Z; ps_seal_reason : Z; ps_collective : option pb_CollectiveOutcome;
}.
Record SealAttestation := {
  sa_availability : Availability; sa_seal_reason : option SealReason; sa_collective : option CollectiveOutcome;
}.

Record pb_PolicyEnforcement := { pp_enforced : bool; pp_policy_id : option pystr }.
Record PolicyEnforcement := { enforced : bool; policy_id : option pystr }.

(** What the carriers ([DecisionResponse], [SessionStep], [DecisionRecordView]) have in common here. *)
Record carrier := {
  cr_decision_id : pystr; cr_collective : option pb_CollectiveOutcome;
  cr_seal : option pb_SealAttestation; cr_policy : option pb_PolicyEnforcement;
}.

Section decoders.
Context `{CollectiveVerdictEnum} `{SealEnum}.

Definition _COLLECTIVE_NAMES : list (Z * CollectiveVerdict) :=
  [(CV_APPROVED, APPROVED); (CV_DECLINED, DECLINED); (CV_SPLIT, SPLIT); (CV_ESCALATED, ESCALATED);
   (CV_NO_VOTES, NO_VOTES)].

Definition _decode_collective (o : pb_CollectiveOutcome) (decision_id : pystr) : res CollectiveOutcome :=
  match int_get (pc_verdict o) _COLLECTIVE_NAMES with
  | None => Raise (UnknownCollectiveVerdictError (pc_verdict o) decision_id)
  | Some name =>
    Ok {| co_verdict := name; approve_count := pc_approve o; reject_count := pc_reject o;
          abstain_count := pc_abstain o; declared_participant_count := pc_declared o;
          stated_value_contradicted_tally := pc_contradicted o; effective_threshold := pc_threshold o |}
  end.

Definition collective_outcome_of (resp : carrier) : res (option CollectiveOutcome) :=
  match cr_collective resp with
  | None => Ok None
  | Some o => Some <$> _decode_collective o (cr_decision_id resp)
  end.

Definition _AVAILABILITY_NAMES : list (Z * Availability) :=
  [(SA_RECORDED, RECORDED); (SA_NOT_RECORDED, NOT_RECORDED); (SA_KEY_UNAVAILABLE, KEY_UNAVAILABLE);
   (SA_ARCHIVED, ARCHIVED); (SA_CLEARANCE_DENIED, CLEARANCE_DENIED); (SA_UNAVAILABLE, UNAVAILABLE_ATT)].
Definition _REASON_NAMES : list (Z * SealReason) :=
  [(SR_COMMIT, COMMIT); (SR_CANCEL, CANCEL); (SR_EXPIRE_TTL, EXPIRE_TTL);
   (SR_EXPIRE_SUSPEND_CAP, EXPIRE_SUSPEND_CAP)].

Definition seal_attestation_of (view : carrier) : res (option SealAttestation) :=
  match cr_seal view with
  | None => Ok None
  | Some att =>
    let availability := default UNRECOGNIZED_AVAILABILITY (int_get (ps_availability att) _AVAILABILITY_NAMES) in
    if negb (bool_decide (availability = RECORDED)) then
      Ok (Some {| sa_availability := availability; sa_seal_reason := None; sa_collective := None |})
    else
      let seal_reason := default UNRECOGNIZED_REASON (int_get (ps_seal_reason att) _REASON_NAMES) in
      collective ← match ps_collective att with
                   | Some o => if bool_decide (seal_reason = COMMIT)
                               then Some <$> _decode_collective o (cr_decision_id view) else Ok None
                   | None => Ok None
                   end;
      Ok (Some {| sa_availability := availability; sa_seal_reason := Some seal_reason;
                  sa_collective := collective |})
  end.

Definition policy_enforcement_of (resp : carrier) : option PolicyEnforcement :=
  match cr_policy resp with
  | None => None
  | Some e => Some {| enforced := pp_enforced e; policy_id := pp_policy_id e |}
  end.
End decoders.

(** ** Properties *)

Lemma int_get_name {V} (names : list (Z * V)) n v :
  NoDup names.*1 → (n, v) ∈ names → int_get n names = Some v.
Proof.
  induction names as [|[k w] names IH]; [by intros _ ?%not_elem_of_nil|].
  rewrite fmap_cons, NoDup_cons. cbn [fst int_get]. intros [Hk Hn] [[= -> ->]|Hin]%elem_of_cons.
  - by rewrite Z.eqb_refl.
  - destruct (Z.eqb_spec n k) as [->|]; [|by apply IH]. exfalso. apply Hk, list_elem_of_fmap. by exists (k, v).
Qed.

Lemma int_get_None {V} (names : list (Z * V)) n : n ∉ names.*1 → int_get n names = None.
Proof.
  induction names as [|[k w] names IH]; [done|]. rewrite fmap_cons, not_elem_of_cons. cbn [fst int_get].
  intros [Hk Hn]. destruct (Z.eqb_spec n k); [done|by apply IH].
Qed.

Section properties.
Context `{CollectiveVerdictLaws}.

Lemma collective_names_NoDup : NoDup _COLLECTIVE_NAMES.*1 ∧ 0 ∉ _COLLECTIVE_NAMES.*1.
Proof. pose proof collective_distinct as Hd. apply NoDup_cons in Hd as [? ?]. done. Qed.

Lemma decode_approved o d c :
  _decode_collective o d = Ok c → approved c = true ↔ pc_verdict o = CV_APPROVED.
Proof.
  destruct collective_names_NoDup as [Hn _]. unfold _decode_collective.
  destruct (int_get (pc_verdict o) _COLLECTIVE_NAMES) as [name|] eqn:E; [|done].
  intros <-%Ok_inj. unfold approved. cbn [co_verdict]. rewrite bool_decide_eq_true.
  split.
  - intros ->. apply int_get_in in E. unfold _COLLECTIVE_NAMES in E.
    repeat setoid_rewrite elem_of_cons in E. rewrite elem_of_nil in E. naive_solver.
  - intros Hv. rewrite Hv in E.
    rewrite (int_get_name _COLLECTIVE_NAMES CV_APPROVED APPROVED Hn) in E by left. congruence.
Qed.
End properties.

(** Reading a collective outcome fails closed: [None] exactly when the field is absent; 0 and every
    unknown verdict raise; a decoded outcome is [approved] exactly when the runtime said APPROVED,
    whatever the counters say; the counters and the threshold are carried through, an absent threshold
    never as zero. *)
Theorem collective_outcome_fail_closed `{CollectiveVerdictLaws} resp :
  (collective_outcome_of resp = Ok None ↔ cr_collective resp = None) ∧
  (∀ o, cr_collective resp = Some o →
     (pc_verdict o ∉ [CV_APPROVED; CV_DECLINED; CV_SPLIT; CV_ESCALATED; CV_NO_VOTES] ∨ pc_verdict o = 0 →
        collective_outcome_of resp = Raise (UnknownCollectiveVerdictError (pc_verdict o) (cr_decision_id resp))) ∧
     (∀ c, collective_outcome_of resp = Ok (Some c) →
        (approved c = true ↔ pc_verdict o = CV_APPROVED) ∧
        (approve_count c, reject_count c, abstain_count c) = (pc_approve o, pc_reject o, pc_abstain o) ∧
        effective_threshold c = pc_threshold o)).
Proof.
  unfold collective_outcome_of. split.
  - destruct (cr_collective resp); [|done]. split; [|done]. by intros (? & _ & ?)%fmap_Ok.
  - intros o ->. split.
    + intros Hv. unfold _decode_collective. destruct collective_names_NoDup as [_ Hz].
      rewrite int_get_None; [done|]. destruct Hv as [Hv|Hv]; [exact Hv|by rewrite Hv].
    + intros c (c' & Hc & [= <-])%fmap_Ok. split; [by eapply decode_approved|].
      revert Hc. unfold _decode_collective. case_match; [|done]. by intros <-%Ok_inj.
Qed.

(** A seal attestation is read only when it means something: absent is [None]; under any availability
    other than RECORDED, unknown numbers included, reason and outcome are withheld whatever the wire
    carries; and the read raises only for a RECORDED commit whose collective verdict is unknown. *)
Theorem seal_attestation_withheld `{CollectiveVerdictLaws} `{SealLaws} view :
  (seal_attestation_of view = Ok None ↔ cr_seal view = None) ∧
  (∀ att, cr_seal view = Some att → ps_availability att ≠ SA_RECORDED →
     ∃ av, av ≠ RECORDED ∧
       seal_attestation_of view = Ok (Some {| sa_availability := av; sa_seal_reason := None; sa_collective := None |})) ∧
  (∀ e, seal_attestation_of view = Raise e →
     ∃ att o, cr_seal view = Some att ∧ ps_availability att = SA_RECORDED ∧ ps_seal_reason att = SR_COMMIT ∧
       ps_collective att = Some o ∧ e = UnknownCollectiveVerdictError (pc_verdict o) (cr_decision_id view)).
Proof.
  unfold seal_attestation_of.
  assert (∀ n, int_get n _AVAILABILITY_NAMES = Some RECORDED → n = SA_RECORDED) as Hrec.
  { intros n E%int_get_in. unfold _AVAILABILITY_NAMES in E. repeat setoid_rewrite elem_of_cons in E.
    rewrite elem_of_nil in E. naive_solver. }
  assert (∀ n, int_get n _REASON_NAMES = Some COMMIT → n = SR_COMMIT) as Hcom.
  { intros n E%int_get_in. unfold _REASON_NAMES in E. repeat setoid_rewrite elem_of_cons in E.
    rewrite elem_of_nil in E. naive_solver. }
  split; [|split].
  - destruct (cr_seal view) as [att|]; [|done]. split; [|done]. case_match; [done|].
    by intros (? & _ & ?)%bind_Ok.
  - intros att -> Hav. set (av := default _ _). exists av.
    assert (av ≠ RECORDED) as Hne.
    { unfold av. destruct (int_get (ps_availability att) _AVAILABILITY_NAMES) as [a|] eqn:E; [|done].
      simpl. intros ->. by apply Hav, Hrec. }
    split; [done|]. by rewrite bool_decide_eq_false_2.
  - intros e. destruct (cr_seal view) as [att|]; [|done]. set (av := default _ _).
    destruct (bool_decide (av = RECORDED)) eqn:Ea; [|done]. apply bool_decide_eq_true in Ea. cbn [negb].
    set (rs := default UNRECOGNIZED_REASON _). intros [Hr|(? & _ & Hr)]%bind_Raise; [|done].
    destruct (ps_collective att) as [o|] eqn:Eo; [|done].
    destruct (bool_decide (rs = COMMIT)) eqn:Er; [|done]. apply bool_decide_eq_true in Er.
    apply fmap_Raise in Hr. exists att, o. split_and!; [done| | |done|].
    + apply Hrec. unfold av in Ea.
      destruct (int_get (ps_availability att) _AVAILABILITY_NAMES); simpl in Ea; congruence.
    + apply Hcom. unfold rs in Er.
      destruct (int_get (ps_seal_reason att) _REASON_NAMES); simpl in Er; congruence.
    + unfold _decode_collective in Hr. case_match; congruence.
Qed.

(** Absence is not "unenforced": [policy_enforcement_of] is [None] exactly when the field is absent,
    so a present [enforced = False] and an absent field, value-identical on the wire, are kept apart, as
    are an absent policy id and an empty one. *)
Theorem policy_enforcement_presence r1 r2 :
  (policy_enforcement_of r1 = None ↔ cr_policy r1 = None) ∧
  (policy_enforcement_of r1 = policy_enforcement_of r2 ↔ cr_policy r1 = cr_policy r2).
Proof.
  unfold policy_enforcement_of. split; [by destruct (cr_policy r1)|].
  destruct (cr_policy r1) as [[e1 p1]|], (cr_policy r2) as [[e2 p2]|]; naive_solver.
Qed.

(** ** Witnesses *)

Definition sample_collective : CollectiveVerdictEnum :=
  {| CV_APPROVED := 1; CV_DECLINED := 2; CV_SPLIT := 3; CV_ESCALATED := 4; CV_NO_VOTES := 5 |}.
Lemma sample_collective_laws : @CollectiveVerdictLaws sample_collective.
Proof. unfold CollectiveVerdictLaws. apply (bool_decide_unpack _). vm_compute. exact I. Qed.
Definition sample_seal : SealEnum := {|
  SA_RECORDED := 1; SA_NOT_RECORDED := 2; SA_KEY_UNAVAILABLE := 3; SA_ARCHIVED := 4; SA_CLEARANCE_DENIED := 5;
  SA_UNAVAILABLE := 6; SR_COMMIT := 1; SR_CANCEL := 2; SR_EXPIRE_TTL := 3; SR_EXPIRE_SUSPEND_CAP := 4 |}.
Lemma sample_seal_laws : @SealLaws sample_seal.
Proof. split; apply (bool_decide_unpack _); vm_compute; exact I. Qed.

Definition unspecified_outcome : pb_CollectiveOutcome := {|
  pc_verdict := 0; pc_approve := 3; pc_reject := 0; pc_abstain := 0; pc_declared := 3;
  pc_contradicted := false; pc_threshold := None |}.
Definition sample_carrier (availability : Z) : carrier := {|
  cr_decision_id := lit "dec:1"; cr_collective := Some unspecified_outcome;
  cr_seal := Some {| ps_availability := availability; ps_seal_reason := 1; ps_collective := Some unspecified_outcome |};
  cr_policy := None |}.

Lemma collective_outcome_fail_closed_witness :
  @collective_outcome_of sample_collective (sample_carrier 9)
  = Raise (UnknownCollectiveVerdictError 0 (lit "dec:1")).
Proof.
  destruct (@collective_outcome_fail_closed sample_collective sample_collective_laws (sample_carrier 9)) as [_ H].
  apply (H unspecified_outcome); [reflexivity|right; reflexivity].
Defined.

Lemma seal_attestation_withheld_witness :
  ∃ av, av ≠ RECORDED ∧ @seal_attestation_of sample_collective sample_seal (sample_carrier 9)
    = Ok (Some {| sa_availability := av; sa_seal_reason := None; sa_collective := None |}).
Proof.
  eapply (@seal_attestation_withheld sample_collective sample_collective_laws sample_seal sample_seal_laws
           (sample_carrier 9)); [reflexivity|discriminate].
Defined.
