(* ===== verification/Outcome.v ===== *)
(** * Outcome: the optional fields of [ReportOutcome], and the tenant routing header

    [_outcome.py]: [_finite], [_observed_at_millis], [check_outcome_fields], which refuse a malformed
    report before any RPC. [tenant.py]: [_require_tenant] and [_with_tenant], the metadata the tenant
    interceptors put on every call. *)

From stdpp Require Import base list numbers option strings.
From Stdlib Require Import SpecFloat.
From S2P Require Import Prelude Text Floats Ids.

(** ** Numbers and instants *)

Definition OUTCOME_METRICS_MAX : Z := 16.
Definition _U64_MAX : Z := 2 ^ 64 - 1.

(** [_finite]: a [bool] is not a number here; an [int] past the range of a double is not finite. *)
Definition _finite (v : pyval) : res spec_float :=
  f ← match v with
      | PInt z => match float_of_int z with Ok f => Ok f | Raise _ => Ok (S754_infinity false) end
      | PFloat f => Ok f
      | _ => Raise TypeError
      end;
  if is_finite f then Ok f else Raise ValueError.

(** A [datetime] is whether it is timezone-aware and its instant in microseconds since the epoch; its
    distance from the epoch as a normalised [timedelta] is what the code computes with. *)
Inductive ObservedAt := ObsDatetime (aware : bool) (instant_us : Z) | ObsValue (v : pyval).
Definition td_days (us : Z) : Z := us / (86400 * 10 ^ 6).
Definition td_seconds (us : Z) : Z := us mod (86400 * 10 ^ 6) / 10 ^ 6.
Definition td_microseconds (us : Z) : Z := us mod (86400 * 10 ^ 6) mod 10 ^ 6.

Definition _observed_at_millis (observed_at : ObservedAt) : res Z :=
  ms ← match observed_at with
       | ObsDatetime aware us =>
         if negb aware then Raise ValueError
         else Ok ((td_days us * 86400 + td_seconds us) * 1000 + td_microseconds us / 1000)
       | ObsValue (PInt z) => Ok z
       | ObsValue _ => Raise TypeError
       end;
  if negb ((0 <=? ms) && (ms <=? _U64_MAX)) then Raise ValueError else Ok ms.

(** ** The checks *)

(** [[a-z][a-z0-9_]{0,62}] *)
Definition _METRIC_KEY (k : pystr) : bool :=
  match k with
  | c :: r => in_range_char 97 122 c && (zlen r <=? 62) &&
              forallb (λ c, in_range_char 97 122 c || in_range_char 48 57 c || (c =? 95)) r
  | [] => false
  end.

Definition check_metric (kv : pyval * pyval) : res (pystr * spec_float) :=
  match kv.1 with
  | PStr k => if _METRIC_KEY k then f ← _finite kv.2; Ok (k, f) else Raise ValueError
  | _ => Raise ValueError
  end.

Definition check_metrics (metrics : pyval) : res (list (pystr * spec_float)) :=
  match metrics with
  | PNone => Ok []
  | PDict kv => if OUTCOME_METRICS_MAX <? zlen kv then Raise ValueError else mapM check_metric kv
  | _ => Raise TypeError
  end.

Definition check_outcome_fields (reward metrics : pyval) (observed_at : option ObservedAt)
    : res (option spec_float * list (pystr * spec_float) * option Z) :=
  r ← (if is_none reward then Ok None else Some <$> _finite reward);
  m ← check_metrics metrics;
  t ← match observed_at with None => Ok None | Some o => Some <$> _observed_at_millis o end;
  Ok (r, m, t).

(** ** The tenant header *)

Definition TENANT_HEADER : pystr := lit "x-seam-tenant".

Definition _require_tenant (tenant : pyval) : res pystr :=
  match tenant with
  | PStr [] => Raise ValueError
  | PStr t => Ok t
  | _ => Raise ValueError
  end.

(** Metadata pairs of a call; [None] is no metadata. *)
Definition _with_tenant (m : option (list (pystr * pyval))) (tenant : pystr) : list (pystr * pyval) :=
  let pairs := default [] m in
  if existsb (λ kv, bool_decide (kv.1 = TENANT_HEADER)) pairs then pairs
  else pairs ++ [(TENANT_HEADER, PStr tenant)].

(** [grpc.ClientCallDetails] as the interceptor rebuilds it: everything but the metadata is kept. *)
Record call_details := {
  cd_method : pystr; cd_timeout : pyval; cd_metadata : option (list (pystr * pyval)); cd_credentials : pyval;
  cd_wait_for_ready : pyval; cd_compression : pyval;
}.
Definition interceptor_details (tenant : pystr) (d : call_details) : call_details := {|
  cd_method := cd_method d; cd_timeout := cd_timeout d; cd_metadata := Some (_with_tenant (cd_metadata d) tenant);
  cd_credentials := cd_credentials d; cd_wait_for_ready := cd_wait_for_ready d; cd_compression := cd_compression d;
|}.

(** The [grpc.aio] twin: [details._replace(metadata=...)]. *)
Definition aio_interceptor_details (tenant : pystr) (d : call_details) : call_details :=
  let metadata := Some (_with_tenant (cd_metadata d) tenant) in
  match d with
  | {| cd_method := method; cd_timeout := timeout; cd_credentials := credentials; cd_wait_for_ready := wait; cd_compression := comp |} =>
    {| cd_method := method; cd_timeout := timeout; cd_metadata := metadata; cd_credentials := credentials;
       cd_wait_for_ready := wait; cd_compression := comp |}
  end.

(** ** Properties *)

Lemma aio_interceptor_same tenant d : aio_interceptor_details tenant d = interceptor_details tenant d.
Proof. by destruct d. Qed.

Lemma finite_Ok v f : _finite v = Ok f → is_finite f = true ∧ ∀ b, v ≠ PBool b.
Proof.
  unfold _finite. intros (g & Hg & H)%bind_Ok. destruct (is_finite g) eqn:E; [|done].
  apply Ok_inj in H as <-. split; [done|]. intros b ->. done.
Qed.

Lemma observed_at_exact us : (td_days us * 86400 + td_seconds us) * 1000 + td_microseconds us / 1000 = us / 1000.
Proof. unfold td_days, td_seconds, td_microseconds. change (86400 * 10 ^ 6) with 86400000000. change (10 ^ 6) with 1000000. dlia. Qed.

Lemma metrics_Ok kv m :
  mapM check_metric kv = Ok m →
  Forall (λ p, _METRIC_KEY p.1 = true ∧ is_finite p.2 = true) m ∧ (PStr <$> m.*1) = kv.*1.
Proof.
  revert m. induction kv as [|[k v] kv IH]; intros m Hm; [apply Ok_inj in Hm as <-; by split|].
  apply mapM_res_cons in Hm as (p & m' & Hp & Hm' & ->). apply IH in Hm' as [H1 H2]. unfold check_metric in Hp.
  destruct k as [| | | |k| | | | | |]; try done. cbn [fst snd] in Hp.
  destruct (_METRIC_KEY k) eqn:Ek; [|done]. apply bind_Ok in Hp as (f & [Hf _]%finite_Ok & <-%Ok_inj).
  split; [by constructor|]. rewrite !fmap_cons, H2. done.
Qed.

(** Only a well-formed outcome reaches the wire: whenever [check_outcome_fields] returns, the reward
    is finite, there are at most 16 metrics, each under its own key matching [[a-z][a-z0-9_]{0,62}] with a
    finite value, in the order given, and the time is a u64 number of milliseconds; an omitted reward or
    time stays omitted, and omitted metrics and no metrics are the same. *)
Theorem outcome_fields_checked reward metrics observed r m t :
  check_outcome_fields reward metrics observed = Ok (r, m, t) →
  (r = None ↔ reward = PNone) ∧ (∀ f, r = Some f → is_finite f = true) ∧
  zlen m ≤ 16 ∧ Forall (λ p, _METRIC_KEY p.1 = true ∧ is_finite p.2 = true) m ∧
  (metrics = PNone ∧ m = [] ∨ ∃ kv, metrics = PDict kv ∧ (PStr <$> m.*1) = kv.*1) ∧
  (t = None ↔ observed = None) ∧ (∀ ms, t = Some ms → 0 ≤ ms < 2 ^ 64).
Proof.
  unfold check_outcome_fields. intros (r' & Hr & (m' & Hm & (t' & Ht & [= -> -> ->]%Ok_inj)%bind_Ok)%bind_Ok)%bind_Ok.
  split_and!.
  - destruct reward; cbn [is_none] in Hr; try (apply fmap_Ok in Hr as (? & _ & ->); done). by apply Ok_inj in Hr as <-.
  - intros f ->. destruct (is_none reward); [done|]. by apply fmap_Ok in Hr as (? & [? _]%finite_Ok & [= ->]).
  - destruct metrics; try done; cbn [check_metrics] in Hm; [by apply Ok_inj in Hm as <-|].
    destruct (Z.ltb_spec OUTCOME_METRICS_MAX (zlen kv)) as [|Hle]; [done|]. unfold OUTCOME_METRICS_MAX in Hle.
    rewrite (mapM_res_length _ _ _ Hm). lia.
  - destruct metrics; try done; cbn [check_metrics] in Hm; [by apply Ok_inj in Hm as <-|].
    destruct (_ <? _); [done|]. by apply metrics_Ok in Hm as [? _].
  - destruct metrics; try done; cbn [check_metrics] in Hm; [apply Ok_inj in Hm as <-; by left|].
    right. exists kv. split; [done|]. destruct (_ <? _); [done|]. by apply metrics_Ok in Hm as [_ ?].
  - destruct observed; [|by apply Ok_inj in Ht as <-]. by apply fmap_Ok in Ht as (? & _ & ->).
  - intros ms ->. destruct observed; [|done]. apply fmap_Ok in Ht as (ms' & Ho & [= <-]).
    unfold _observed_at_millis in Ho. apply bind_Ok in Ho as (x & _ & Hx). unfold _U64_MAX in Hx.
    destruct ((0 <=? x) && (x <=? 2 ^ 64 - 1)) eqn:E; [|done]. apply Ok_inj in Hx as <-.
    apply andb_true_iff in E as [?%Z.leb_le ?%Z.leb_le]. lia.
Qed.

(** The time of an outcome is exact: a timezone-aware instant at or after the epoch is reported as its
    whole milliseconds, rounded down, with no floating-point error, and an instant before the epoch or a
    naive [datetime] is refused. *)
Theorem observed_at_exact_millis us :
  (0 ≤ us < 2 ^ 64 * 1000 → _observed_at_millis (ObsDatetime true us) = Ok (us / 1000)) ∧
  (us < 0 → _observed_at_millis (ObsDatetime true us) = Raise ValueError) ∧
  _observed_at_millis (ObsDatetime false us) = Raise ValueError.
Proof.
  unfold _observed_at_millis. cbn [negb mbind res_bind]. rewrite observed_at_exact. unfold _U64_MAX.
  split; [|split; [|done]].
  - intros Hus. assert (0 ≤ us / 1000 ≤ 2 ^ 64 - 1) as [? ?] by dlia.
    by rewrite (proj2 (Z.leb_le _ _)), (proj2 (Z.leb_le _ _)).
  - intros Hus. destruct (Z.leb_spec 0 (us / 1000)); [dlia|done].
Qed.

(** The tenant interceptor fills a gap and never rewrites: after it the call carries the header, the
    caller's own metadata is a prefix of what is sent, a value the caller set is kept, nothing but the
    metadata changes, and passing through it twice (with any tenant) is passing once. *)
Theorem tenant_header_filled tenant other d :
  let sent := default [] (cd_metadata (interceptor_details tenant d)) in
  (∃ v, (TENANT_HEADER, v) ∈ sent) ∧
  (∃ extra, sent = default [] (cd_metadata d) ++ extra ∧
     (extra = [] ∨ extra = [(TENANT_HEADER, PStr tenant)])) ∧
  (∀ v, (TENANT_HEADER, v) ∈ default [] (cd_metadata d) → sent = default [] (cd_metadata d)) ∧
  interceptor_details other (interceptor_details tenant d) = interceptor_details tenant d.
Proof.
  assert (∀ ps : list (pystr * pyval),
    existsb (λ kv, bool_decide (kv.1 = TENANT_HEADER)) ps = true ↔ ∃ v, (TENANT_HEADER, v) ∈ ps) as Hex.
  { intros ps. rewrite existsb_exists. split.
    - intros ([k v] & Hin & Hk%bool_decide_eq_true). simpl in Hk. subst. exists v. by apply list_elem_of_In.
    - intros (v & Hin). exists (TENANT_HEADER, v). split; [by apply list_elem_of_In|by apply bool_decide_eq_true]. }
  assert (∀ ps t, (∃ v, (TENANT_HEADER, v) ∈ ps) → _with_tenant (Some ps) t = ps) as Hkeep.
  { intros ps t Hps. unfold _with_tenant. change (default [] (Some ps)) with ps. cbn zeta. by rewrite (proj2 (Hex ps)). }
  cbn zeta. unfold interceptor_details. cbn [cd_metadata default].
  set (ps := default [] (cd_metadata d)).
  destruct (existsb (λ kv, bool_decide (kv.1 = TENANT_HEADER)) ps) eqn:E.
  - assert (_with_tenant (cd_metadata d) tenant = ps) as -> by (unfold _with_tenant; change (default [] (cd_metadata d)) with ps; cbn zeta; by rewrite E).
    apply Hex in E. split; [done|]. split; [exists []; rewrite app_nil_r; by auto|]. split; [done|].
    cbn. by rewrite Hkeep.
  - assert (_with_tenant (cd_metadata d) tenant = ps ++ [(TENANT_HEADER, PStr tenant)]) as ->
      by (unfold _with_tenant; change (default [] (cd_metadata d)) with ps; cbn zeta; by rewrite E).
    assert (∃ v, (TENANT_HEADER, v) ∈ ps ++ [(TENANT_HEADER, PStr tenant)]) as Hin.
    { exists (PStr tenant). apply elem_of_app. right. left. }
    split; [done|]. split; [by eauto|]. split.
    + intros v Hv. exfalso. by rewrite (proj2 (Hex ps)) in E by eauto.
    + cbn -[app]. by rewrite Hkeep.
Qed.

(** ** Witnesses *)

Lemma outcome_fields_checked_witness :
  ∃ f m, check_outcome_fields (PInt 1) (PDict [(PStr (lit "latency_ms"), PInt 12)]) (Some (ObsDatetime true 1500))
      = Ok (Some f, m, Some 1) ∧ zlen m ≤ 16.
Proof.
  destruct (check_outcome_fields (PInt 1) (PDict [(PStr (lit "latency_ms"), PInt 12)]) (Some (ObsDatetime true 1500)))
    as [[[[f|] m] [t|]]|e] eqn:E; try (vm_compute in E; discriminate E).
  exists f, m. split; [vm_compute in E |- *; congruence|].
  apply (outcome_fields_checked _ _ _ _ _ _ E).
Defined.

Lemma observed_at_exact_millis_witness :
  _observed_at_millis (ObsDatetime true 1760000000123999) = Ok 1760000000123.
Proof. apply (observed_at_exact_millis 1760000000123999). lia. Defined.
