(* ===== verification/Connect.v ===== *)
(** * Connect: opening, using and closing a client's channel

    The [connect], [close] and [with] of the three clients ([client.py], [aio.py], [admin.py]) and what their
    interceptors do to a call. A channel is what it was opened with and the interceptor in front of it; the
    network is the channels opened so far and the closed ones. *)

From stdpp Require Import base list numbers option strings sets gmap.
From S2P Require Import Prelude Text Keys Outcome Dpop AdminAuth.

(** ** Calls through an interceptor *)

(** The shapes of a gRPC call, and those an interceptor class is called for. *)
Inductive shape := UnaryUnary | UnaryStream | StreamUnary | StreamStream.

(** [TenantInterceptor.intercept_*] and [AioTenantInterceptor.intercept_*]: the same for the four shapes. *)
Definition tenant_intercept {R A} (s : shape) (tenant : pystr) (continuation : call_details → R → A) (d : call_details) (request : R) : A :=
  match s with
  | UnaryUnary | UnaryStream => continuation (interceptor_details tenant d) request
  | StreamUnary | StreamStream => continuation (interceptor_details tenant d) request
  end.
Definition aio_tenant_intercept {R A} (s : shape) (tenant : pystr) (continuation : call_details → R → A) (d : call_details) (request : R) : A :=
  match s with
  | UnaryUnary | UnaryStream => continuation (aio_interceptor_details tenant d) request
  | StreamUnary | StreamStream => continuation (aio_interceptor_details tenant d) request
  end.

(** ** Channels *)

Inductive hook := TenantHook (tenant : pystr) | AioTenantHook (tenant : pystr) | AuthHook (auth : interceptor).
(** [credentials] is a token for the caller's channel credentials; [None] is a plaintext channel. *)
Record channel := Channel { ch_id : nat; ch_target : pystr; ch_credentials : option nat; ch_hook : option hook }.

Record net := Net { opened : list (pystr * option nat); closed : gset nat }.
Definition N (A : Type) : Type := net → res A * net.
Global Instance N_ret : MRet N := λ A a n, (Ok a, n).
Global Instance N_bind : MBind N := λ A B k m n, match m n with (Ok a, n') => k a n' | (Raise e, n') => (Raise e, n') end.
Definition of_result {A} (r : res A) : N A := λ n, (r, n).

(** [grpc.secure_channel] or [grpc.insecure_channel]: nothing is sent before the first call. *)
Definition open_channel (target : pystr) (credentials : option nat) (h : option hook) : N channel := λ n,
  (Ok (Channel (length (opened n)) target credentials h), Net (opened n ++ [(target, credentials)]) (closed n)).
(** [channel.close()], which tolerates a repeated close. *)
Definition close_channel (c : channel) : N () := λ n, (Ok (), Net (opened n) ({[ch_id c]} ∪ closed n)).

(** ** The clients *)

(** The interceptor of [tenant], an argument that may be anything; [None] is no header. *)
Definition tenant_hook (mk : pystr → hook) (tenant : pyval) : res (option hook) :=
  if is_none tenant then Ok None else Some ∘ mk <$> _require_tenant tenant.

(** [SeamClient.connect]; the client is its channel and the agent it is bound to. *)
Definition client_connect {Agent} (target : pystr) (credentials : option nat) (agent : option Agent) (tenant : pyval) : N (channel * option Agent) :=
  interceptor ← of_result (tenant_hook TenantHook tenant);
  channel ← open_channel target credentials None;
  let channel := match interceptor with Some i => Channel (ch_id channel) target credentials (Some i) | None => channel end in
  mret (channel, agent).

(** The async client's: the interceptors are the channel's own. *)
Definition aio_connect {Agent} (target : pystr) (credentials : option nat) (agent : option Agent) (tenant : pyval) : N (channel * option Agent) :=
  interceptors ← of_result (tenant_hook AioTenantHook tenant);
  channel ← open_channel target credentials interceptors;
  mret (channel, agent).

(** [SeamAdminClient.connect] *)
Definition admin_connect (target : pystr) (token : option pystr) (credentials : option nat) (dpop_key : key_arg) (aud : option pystr)
    (clock : option clock_arg) : N channel :=
  auth ← of_result (_management_auth token dpop_key aud clock);
  channel ← open_channel target credentials None;
  mret (match auth with Some a => Channel (ch_id channel) target credentials (Some (AuthHook a)) | None => channel end).

Definition close (c : channel) : N () := close_channel c.
(** [with client: body]: [__exit__] closes whatever the body ends in, and lets its exception through. *)
Definition with_client {A} (c : channel) (body : N A) : N A := λ n,
  let (r, n1) := body n in let (_, n2) := close c n1 in (r, n2).

(** ** What a call carries *)

(** The details a call of a data-plane client reaches the wire with. *)
Definition carried (c : channel) (s : shape) (d : call_details) : call_details :=
  match ch_hook c with
  | Some (TenantHook t) => tenant_intercept s t (λ d (_ : ()), d) d ()
  | Some (AioTenantHook t) => aio_tenant_intercept s t (λ d (_ : ()), d) d ()
  | _ => d
  end.

(** ** Properties *)

Lemma require_tenant_spec v t : _require_tenant v = Ok t ↔ v = PStr t ∧ t ≠ [].
Proof. unfold _require_tenant. destruct v; try naive_solver. case_match; naive_solver. Qed.
Lemma require_tenant_error v e : _require_tenant v = Raise e → e = ValueError.
Proof. unfold _require_tenant. destruct v; try congruence. case_match; congruence. Qed.

(** What the header of a call is after a tenant interceptor. *)
Lemma with_tenant_cases m t : let pairs := default [] m in
  ((∃ v, (TENANT_HEADER, v) ∈ pairs) ∧ _with_tenant m t = pairs) ∨
  ((∀ v, (TENANT_HEADER, v) ∉ pairs) ∧ _with_tenant m t = pairs ++ [(TENANT_HEADER, PStr t)]).
Proof.
  cbn zeta. unfold _with_tenant. cbn zeta. destruct (existsb _ _) eqn:E; [left|right]; (split; [|done]).
  - apply existsb_exists in E as ([k v] & Hin & Hk%bool_decide_eq_true). cbn in Hk. subst k. exists v. by apply list_elem_of_In.
  - intros v Hin%list_elem_of_In. assert (existsb (λ kv : pystr * pyval, bool_decide (kv.1 = TENANT_HEADER)) (default [] m) = true) as E'; [|congruence].
    apply existsb_exists. exists (TENANT_HEADER, v). split; [done|]. by apply bool_decide_eq_true.
Qed.

(** The channel a data-plane client ends up with. *)
Definition data_channel (n : net) (target : pystr) (credentials : option nat) (h : option hook) : channel :=
  Channel (length (opened n)) target credentials h.

(** C23. Connecting opens one channel or none. A refused tenant raises [ValueError] with nothing opened; otherwise
    exactly one channel is opened, to the target and under the credentials given (plaintext only when none were),
    and every call over it, whatever its shape, carries the caller's own metadata and credentials unchanged and,
    when a tenant was given, the tenant header exactly where the caller set none. The async client's channel
    carries the same for every call. *)
Theorem connect_one_channel {Agent} target credentials (agent : option Agent) tenant n :
  match client_connect target credentials agent tenant n with
  | (Raise e, n') => e = ValueError ∧ n' = n ∧ tenant ≠ PNone ∧ ∀ t, tenant = PStr t → t = []
  | (Ok (c, a), n') =>
    a = agent ∧ opened n' = opened n ++ [(target, credentials)] ∧ closed n' = closed n ∧
    ch_id c = length (opened n) ∧ ch_target c = target ∧ ch_credentials c = credentials ∧
    ∀ s d, let own := default [] (cd_metadata d) in
      cd_credentials (carried c s d) = cd_credentials d ∧ cd_method (carried c s d) = cd_method d ∧ cd_timeout (carried c s d) = cd_timeout d ∧
      match tenant with
      | PStr t => cd_metadata (carried c s d) = Some own ∧ (∃ v, (TENANT_HEADER, v) ∈ own) ∨
                  cd_metadata (carried c s d) = Some (own ++ [(TENANT_HEADER, PStr t)]) ∧ ∀ v, (TENANT_HEADER, v) ∉ own
      | _ => carried c s d = d
      end
  end ∧
  match client_connect target credentials agent tenant n, aio_connect target credentials agent tenant n with
  | (Ok (c, _), n1), (Ok (c', _), n2) => n1 = n2 ∧ ch_target c' = ch_target c ∧ ch_credentials c' = ch_credentials c ∧ ∀ s d, carried c' s d = carried c s d
  | (Raise e, n1), (Raise e', n2) => e = e' ∧ n1 = n2
  | _, _ => False
  end.
Proof.
  unfold client_connect, aio_connect, tenant_hook, of_result, mbind, N_bind. destruct (is_none tenant) eqn:Hn.
  { destruct tenant; try discriminate Hn. cbn. by split_and!. }
  destruct (_require_tenant tenant) as [t|e] eqn:Et; cbn [fmap res_fmap compose].
  - apply require_tenant_spec in Et as [-> Ht]. cbn. split; [split_and!; try done|split_and!; try done].
    + intros s d. destruct (with_tenant_cases (cd_metadata d) t) as [[Hv E]|[Hv E]]; destruct s; cbn; rewrite E; split_and!; auto.
    + intros s d. unfold carried. cbn. by destruct s; cbn; rewrite ?aio_interceptor_same.
  - pose proof (require_tenant_error _ _ Et) as ->. split_and!; try done; [by intros ->|].
    intros t ->. destruct t; [done|discriminate Et].
Qed.

(** The operator client pairs its token and key before it opens anything. *)
Theorem admin_connect_one_channel target token credentials key aud clock n :
  match admin_connect target token credentials key aud clock n with
  | (Raise e, n') => n' = n ∧ _management_auth token key aud clock = Raise e
  | (Ok c, n') =>
    opened n' = opened n ++ [(target, credentials)] ∧ closed n' = closed n ∧
    ∃ auth, _management_auth token key aud clock = Ok auth ∧ c = data_channel n target credentials (AuthHook <$> auth)
  end.
Proof.
  unfold admin_connect, of_result, mbind, N_bind. destruct (_management_auth token key aud clock) as [[a|]|e]; cbn; [| |done];
    (split_and!; [done..|]; eexists; split; [done|]); done.
Qed.

(** [with] closes the channel whatever its body ends in, and gives that ending back; closing again changes nothing. *)
Theorem with_closes {A} c (body : N A) n :
  (with_client c body n).1 = (body n).1 ∧ ch_id c ∈ closed (with_client c body n).2 ∧
  close c (with_client c body n).2 = (Ok (), (with_client c body n).2).
Proof.
  unfold with_client, close, close_channel. destruct (body n) as [r n1]. cbn. split_and!; [done|set_solver|].
  f_equal. f_equal. set_solver.
Qed.

(** ** One connection *)

Definition toy_details : call_details := {|
  cd_method := lit "/seam.api.v1.SeamCoordination/Admit"; cd_timeout := PNone; cd_metadata := None; cd_credentials := PNone;
  cd_wait_for_ready := PNone; cd_compression := PNone |}.
Example tenant_sent : match client_connect (lit "cell:9000") (Some 0%nat) (None : option ()) (PStr (lit "acme")) (Net [] ∅) with
  | (Ok (c, _), n) => (cd_metadata (carried c UnaryStream toy_details), opened n)
  | (Raise _, n) => (None, opened n)
  end = (Some [(TENANT_HEADER, PStr (lit "acme"))], [(lit "cell:9000", Some 0%nat)]).
Proof. vm_compute. reflexivity. Qed.
Example empty_tenant_opens_nothing :
  client_connect (lit "cell:9000") None (None : option ()) (PStr []) (Net [] ∅) = (Raise ValueError, Net [] ∅).
Proof. reflexivity. Qed.
