(* ===== verification/Client.v ===== *)
(** * Client: the ticket lifecycle and the credentialed call of [SeamClient]

    [client.py], the part every verb shares: agents, the admission handshake, the per-AID ticket caches,
    [authorize], and the two ways a subject-scoped verb is sent ([_signed_once], [_credentialed_call]).

    A client method runs in the monad [M]: it threads the client's ticket caches, the number of clock
    readings taken, and the log of the calls put on the wire, and ends in a value or an exception. The
    server and the clock are the class [World]: [serve m q md t log] is what the server (or the gRPC
    runtime: deadline, broken channel) answers a call, and may depend on every call before it; [clock n]
    is the [n]-th reading of [_now_ms]. Protobuf's serializer is a field of [World] as well, since the
    generated modules are not part of the repository. Arguments have the types they are annotated with;
    the refusals of protobuf's own constructors (an out-of-range integer, unencodable text) are left out.
    The locks are the subject of [Refresh]: in this file one thread runs a method to its end. *)

From stdpp Require Import base list numbers option strings gmap.
From Stdlib Require Import SpecFloat.
From S2P Require Import Prelude Text Sha256 Base64 Keys Framing Json Dumps Jcs RecordDigest Commitment Errors Authorize.

(** ** [json.dumps] on the presentation *)

Definition presentation_json (p : presentation) : bytes := dumps spaced 0 (JObj [
  (lit "sender_aid", JStr (sender_aid p));
  (lit "descriptor", JObj [
     (lit "type", JStr (descriptor_type p)); (lit "subject", JStr (descriptor_subject p));
     (lit "proof", JStr (descriptor_proof p)); (lit "public_key", JStr (descriptor_public_key p))]);
  (lit "message_id", JStr (message_id p)); (lit "timestamp", JInt (timestamp p));
  (lit "pop_nonce", JStr (pres_pop_nonce p))]).

(** ** Messages *)

Record Vote := { v_agent : pystr; v_value : pystr; v_reason : pystr }.

Record BudgetLimits := {
  messages : option Z; tokens : option Z; cost_micros : option Z; wall_ms : option Z; soft_pct : option Z;
}.
(** The fields set on the message, by name: a dimension left at [None] stays unset. *)
Abbreviation pb_BudgetLimits := (list (string * Z)).
Definition BudgetLimits_to_pb (l : BudgetLimits) : pb_BudgetLimits :=
  omap (λ kv : string * option Z, pair kv.1 <$> kv.2)
    [("messages"%string, messages l); ("tokens"%string, tokens l); ("cost_micros"%string, cost_micros l);
     ("wall_ms"%string, wall_ms l); ("soft_pct"%string, soft_pct l)].

Record StepUsage := { su_tokens : Z; su_cost_micros : Z }.

Record ExplanationEntry := {
  ee_kind : Z; ee_participant : pystr; ee_proposal_id : pystr; ee_value : pystr; ee_reason : pystr;
  ee_confidence : option spec_float; ee_rationale_ref : option pystr;
}.
Record pb_Commitment := {
  cm_id : pystr; cm_action : pystr; cm_authority : pystr; cm_auth_method : pystr; cm_trust_basis : pystr;
  cm_supersedes : option pystr; cm_committer : pystr; cm_explanation_digest : bytes;
  cm_explanation : list ExplanationEntry; cm_signed_artifact : bytes;
}.

(** The request messages, with explicit presence ([option]) where the contract has it; a message the client only
    hands on ([Anchor], [ChainHeadAttestation]) is its serialized bytes. *)
Inductive request :=
| IssueChallengeRequest
| PinnedPresentation (presentation_json : bytes)
| AuthorizeMessage (q : AuthorizeRequest)
| EscalationRef (authorize_id : pystr)
| RunDecisionRequest (session_id : pystr) (participants : list pystr) (votes : list Vote)
    (presentation : bytes) (on_behalf_of : list pystr) (features : str_dict)
| OpenSessionRequest (session_id : pystr) (participants : list pystr) (budget : Z) (mode : pystr)
    (presentation : bytes) (on_behalf_of : list pystr) (limits : option pb_BudgetLimits)
| ProposalRequest (session_id proposer proposal_id choice : pystr) (usage : option StepUsage)
| VoteRequest (session_id voter proposal_id value reason : pystr) (usage : option StepUsage)
| EvaluationRequest (session_id evaluator proposal_id recommendation reason : pystr)
    (confidence : option spec_float) (rationale_ref : option pystr) (usage : option StepUsage)
| ObjectionRequest (session_id objector proposal_id reason severity : pystr) (usage : option StepUsage)
| CommitRequest (session_id commitment_id action : pystr) (supersedes : option pystr) (usage : option StepUsage)
| ApprovalRequestRequest (session_id requester request_id action : pystr) (required_approvals : Z)
    (usage : option StepUsage)
| BallotRequest (session_id voter request_id : pystr) (choice : Z) (reason : pystr) (usage : option StepUsage)
| ResumeRequest (session_id : pystr) (budget : Z) (raise_ : option pb_BudgetLimits)
| SessionRef (session_id : pystr)
| DecisionRef (decision_id : pystr)
| ReportOutcomeRequest (decision_id : pystr) (correct : bool) (idempotency_key : pystr)
    (reward : option spec_float) (metrics : list (pystr * spec_float)) (observed_at_millis : option Z)
    (verified_by : option pystr)
| RegisterContextRequest (content : bytes) (fidelity : pystr) (derived_from : list pystr)
| ResolveContextRequest (refs : list pystr)
| VerifyCommitmentRequest (commitment : pb_Commitment) (signed_artifact : bytes)
| VerifyAnchorRequest (party_id : pystr) (anchor : bytes) (tenant : pystr)
| VerifyAttestationRequest (party_id : pystr) (attestation : bytes)
| Empty.

Record Challenge := { ch_receiver_aid : pystr; ch_nonce : pystr }.
Record AdmissionTicket := { at_ticket : bytes; at_expires_at_ms : Z }.
Record CommitmentProof := { cp_issuer_aid : pystr; cp_commitment : pb_Commitment }.
Record ServerInfoResponse := { runtime_version : pystr; wire_features : list pystr }.

(** ** The methods of the five stubs, what they answer, and their gRPC paths *)

Inductive method :=
| IssueChallenge | Admit
| Authorize | GetEscalation
| RunDecision | OpenSession | SubmitProposal | SubmitVote | SubmitEvaluation | SubmitObjection | SubmitCommit
| SubmitApprovalRequest | SubmitBallot | ResumeSession | CancelSession | ExpireSession | SessionStatus
| GetDecision | ReplayDecision | ReportOutcome | GetCommitmentProof
| RegisterContext | ResolveContext
| IssuerAid | ServerInfo | WhoAmI | VerifyCommitment | VerifyPartyAnchor | VerifyPartyAttestation.
Global Instance method_eq_dec : EqDecision method.
Proof. solve_decision. Defined.

(** [Message] stands for the messages the client hands on without reading them; a response of which the
    client reads one field ([ReportOutcome], [RegisterContext], [ResolveContext], [IssuerAid], the three
    verifications) is that field. *)
Definition reply (Message : Type) (m : method) : Type :=
  match m with
  | IssueChallenge => Challenge
  | Admit => AdmissionTicket
  | Authorize => AuthorizeResponse
  | ReportOutcome | VerifyCommitment | VerifyPartyAnchor | VerifyPartyAttestation => bool
  | RegisterContext => pystr
  | ResolveContext => list Message
  | IssuerAid => pystr
  | ServerInfo => ServerInfoResponse
  | GetCommitmentProof => CommitmentProof
  | _ => Message
  end.

Definition coordination (verb : string) : pystr := lit "/seam.api.v1.SeamCoordination/" ++ lit verb.
Definition path (m : method) : pystr :=
  match m with
  | IssueChallenge => lit "/seam.api.v1.SeamAdmission/IssueChallenge"
  | Admit => lit "/seam.api.v1.SeamAdmission/Admit"
  | Authorize => lit "/seam.api.v1.SeamAuthorization/Authorize"
  | GetEscalation => lit "/seam.api.v1.SeamAuthorization/GetEscalation"
  | RunDecision => coordination "RunDecision" | OpenSession => coordination "OpenSession"
  | SubmitProposal => coordination "SubmitProposal" | SubmitVote => coordination "SubmitVote"
  | SubmitEvaluation => coordination "SubmitEvaluation" | SubmitObjection => coordination "SubmitObjection"
  | SubmitCommit => coordination "SubmitCommit"
  | SubmitApprovalRequest => coordination "SubmitApprovalRequest"
  | SubmitBallot => coordination "SubmitBallot" | ResumeSession => coordination "ResumeSession"
  | CancelSession => coordination "CancelSession" | ExpireSession => coordination "ExpireSession"
  | SessionStatus => coordination "SessionStatus" | GetDecision => coordination "GetDecision"
  | ReplayDecision => coordination "ReplayDecision" | ReportOutcome => coordination "ReportOutcome"
  | GetCommitmentProof => coordination "GetCommitmentProof"
  | RegisterContext => lit "/seam.api.v1.SeamContext/RegisterContext"
  | ResolveContext => lit "/seam.api.v1.SeamContext/ResolveContext"
  | IssuerAid => lit "/seam.api.v1.SeamTrust/IssuerAid"
  | ServerInfo => lit "/seam.api.v1.SeamTrust/ServerInfo"
  | WhoAmI => lit "/seam.api.v1.SeamTrust/WhoAmI"
  | VerifyCommitment => lit "/seam.api.v1.SeamTrust/VerifyCommitment"
  | VerifyPartyAnchor => lit "/seam.api.v1.SeamTrust/VerifyPartyAnchor"
  | VerifyPartyAttestation => lit "/seam.api.v1.SeamTrust/VerifyPartyAttestation"
  end.

(** ** The world and the monad *)

(** gRPC call metadata. *)
Abbreviation call_md := (list (pystr * bytes)).
(** A deadline in seconds. *)
Abbreviation seconds := spec_float.

Record sent := Sent { s_method : method; s_request : request; s_md : option call_md; s_timeout : seconds }.

Class World := {
  Message : Type;
  SerializeToString : request → bytes;
  clock : nat → Z;
  serve (m : method) : request → option call_md → seconds → list sent → res (reply Message m);
}.

(** [self._tickets], the clock readings taken, the calls made. *)
Record client := { c_tickets : gmap pystr TicketCache; c_readings : nat; c_log : list sent }.
Definition new_client : client := {| c_tickets := ∅; c_readings := 0; c_log := [] |}.
Definition set_tickets (t : gmap pystr TicketCache) (st : client) : client :=
  {| c_tickets := t; c_readings := c_readings st; c_log := c_log st |}.

Definition M (A : Type) : Type := client → res A * client.
Global Instance M_ret : MRet M := λ A a st, (Ok a, st).
Global Instance M_bind : MBind M := λ A B k m st,
  match m st with (Ok a, st') => k a st' | (Raise e, st') => (Raise e, st') end.
Global Instance M_fmap : FMap M := λ A B f m st,
  match m st with (Ok a, st') => (Ok (f a), st') | (Raise e, st') => (Raise e, st') end.
(** A computation that touches neither the client nor the wire. *)
Definition lift {A} (r : res A) : M A := λ st, (r, st).
(** [try: m except ...: h e], where [h] is [None] on an exception no clause names. *)
Definition catch {A} (m : M A) (h : exn → option (M A)) : M A := λ st,
  match m st with
  | (Ok a, st') => (Ok a, st')
  | (Raise e, st') => match h e with Some k => k st' | None => (Raise e, st') end
  end.
Definition raise {A} (e : exn) : M A := lift (Raise e).
(** [isinstance(e, cls)] for a typed RPC error. *)
Definition is_class (cls : rpc_class) (e : exn) : bool :=
  match typed e with Some (c, _) => bool_decide (c = cls) | None => false end.

(** ** Agents *)

Record Agent := { seed : bytes }.
Global Instance Agent_eq_dec : EqDecision Agent.
Proof. solve_decision. Defined.

Definition new_Agent (s : bytes) : res Agent := if zlen s =? 32 then Ok {| seed := s |} else Raise ValueError.
(** [Agent.generate]: [token] is [secrets.token_bytes(32)]. *)
Definition generate (token : bytes) : res Agent := new_Agent token.
(** Memoised in the code; [seed] never changes. *)
Definition aid `{Ed25519} (a : Agent) : pystr := aid_from_pubkey (ed_public (seed a)).

(** ** Replay-guarded writes *)

Definition _REPLAY_GUARDED : list pystr :=
  (coordination <$> ["OpenSession"; "SubmitProposal"; "SubmitEvaluation"; "SubmitObjection"; "SubmitVote";
                     "SubmitCommit"; "SubmitApprovalRequest"; "SubmitBallot"; "CancelSession";
                     "ExpireSession"]%string)
  ++ [lit "/seam.api.v1.SeamContext/RegisterContext"].

(** ** The client *)

Section client.
Context `{Ed25519} `{AuthorizeVerdictEnum} `{World}.
(** The agent the client is bound to, if any. *)
Context (_agent : option Agent).

Definition _now_ms : M Z := λ st,
  (Ok (clock (c_readings st)),
   {| c_tickets := c_tickets st; c_readings := S (c_readings st); c_log := c_log st |}).

(** An argument left at [None] is the clock, and the nonce of 16 fresh random bytes [token]. *)
Definition enrolment_proof (a : Agent) (tenant namespace : pystr) (issued_at_ms nonce : pyval) (token : bytes)
    : M EnrollProof :=
  issued ← (if is_none issued_at_ms then PInt <$> _now_ms else mret issued_at_ms);
  let n := if is_none nonce then PStr (new_enroll_pop_nonce token) else nonce in
  lift (enroll_pop (seed a) tenant namespace issued n).

(** [self.<stub>.<m>(q, timeout=timeout, metadata=md)] on a [_MappedStub]. *)
Definition rpc (m : method) (q : request) (md : option call_md) (timeout : seconds) : M (reply Message m) :=
  λ st, (mapped_call (serve m q md timeout (c_log st)),
         {| c_tickets := c_tickets st; c_readings := c_readings st;
            c_log := c_log st ++ [Sent m q md timeout] |}).

Definition _presentation (agent : Agent) (timeout : seconds) : M bytes :=
  ch ← rpc IssueChallenge IssueChallengeRequest None timeout;
  now ← _now_ms;
  body ← lift (build_presentation (seed agent) (ch_receiver_aid ch) (ch_nonce ch) now);
  mret (presentation_json body).

(** The cache of one AID, created on first use. *)
Definition _cache_and_lock (a : pystr) : M TicketCache := λ st,
  let c := default tc_init (c_tickets st !! a) in (Ok c, set_tickets (<[a := c]> (c_tickets st)) st).
(** Mutation of the cache object [self._tickets] holds for an AID. *)
Definition update_cache (a : pystr) (f : TicketCache → TicketCache) : M () := λ st,
  (Ok (), set_tickets (<[a := f (default tc_init (c_tickets st !! a))]> (c_tickets st)) st).

Definition _admit_locked (agent : Agent) (timeout : seconds) : M bytes :=
  p ← _presentation agent timeout;
  ticket ← rpc Admit (PinnedPresentation p) None timeout;
  now ← _now_ms;
  _ ← update_cache (aid agent) (λ c, tc_store c (at_ticket ticket) (at_expires_at_ms ticket) now);
  mret (at_ticket ticket).

Definition client_admit (agent : Agent) (timeout : seconds) : M bytes :=
  _ ← _cache_and_lock (aid agent);
  _admit_locked agent timeout.

Definition _ticket_for (agent : Agent) (timeout : seconds) : M bytes :=
  cache ← _cache_and_lock (aid agent);
  now ← _now_ms;
  match tc_get cache now with
  | None => _admit_locked agent timeout
  | Some ticket => mret ticket
  end.

Definition _refresh_ticket (agent : Agent) (failed : bytes) (timeout : seconds) : M bytes :=
  cache ← _cache_and_lock (aid agent);
  now ← _now_ms;
  let readmit := _ ← update_cache (aid agent) tc_invalidate; _admit_locked agent timeout in
  match tc_get cache now with
  | Some current => if decide (current ≠ failed) then mret current else readmit
  | None => readmit
  end.

Definition _invalidate_ticket (agent : Agent) (failed : bytes) : M () :=
  cache ← _cache_and_lock (aid agent);
  now ← _now_ms;
  if decide (tc_get cache now = Some failed) then update_cache (aid agent) tc_invalidate else mret ().

Definition _forget_burned_ticket (signer : Agent) (ticket : bytes) (rpc_full_name : pystr) (e : exn) : M () :=
  if bool_decide (rpc_full_name ∈ _REPLAY_GUARDED) && (is_session_unavailable e || is_tenant_moving e)
  then _invalidate_ticket signer ticket else mret ().

Definition _signer (credential : option Agent) : option Agent :=
  match credential with Some c => Some c | None => _agent end.

(** [send(credential_metadata(...))] with the [except (UnavailableError, FailedPreconditionError)]
    clause the three call sites share; it re-raises, and the [except UnauthenticatedError] clause of
    [_credentialed_call] does not apply to what it re-raises. *)
Definition send_signed {A} (signer : Agent) (ticket : bytes) (rpc_full_name resource_id : pystr)
    (body : option request) (send : option call_md → M A) : M A :=
  catch
    (md ← lift (credential_metadata (seed signer) ticket rpc_full_name resource_id (SerializeToString <$> body));
     send (Some md))
    (λ e, if is_class UnavailableError e || is_class FailedPreconditionError e
          then Some (_ ← _forget_burned_ticket signer ticket rpc_full_name e; raise e)
          else None).

Definition _signed_once {A} (credential : option Agent) (rpc_full_name resource_id : pystr)
    (body : option request) (send : option call_md → M A) (timeout : seconds) : M A :=
  match _signer credential with
  | None => send None
  | Some signer =>
    ticket ← _ticket_for signer timeout;
    send_signed signer ticket rpc_full_name resource_id body send
  end.

Definition _credentialed_call {A} (credential : option Agent) (rpc_full_name resource_id : pystr)
    (body : option request) (send : option call_md → M A) (timeout : seconds) (retry : bool) : M A :=
  match _signer credential with
  | None => send None
  | Some signer =>
    ticket ← _ticket_for signer timeout;
    (* [inl] a response, [inr] the refreshed ticket to resend under *)
    first ← catch (inl <$> send_signed signer ticket rpc_full_name resource_id body send)
      (λ e, if is_class UnauthenticatedError e
            then Some (if negb retry then _ ← _invalidate_ticket signer ticket; raise e
                       else inr <$> _refresh_ticket signer ticket timeout)
            else None);
    match first with
    | inl response => mret response
    | inr ticket => send_signed signer ticket rpc_full_name resource_id body send
    end
  end.

(** One [self._authz.Authorize(build(t), timeout=timeout)]. *)
Definition authorize_attempt (agent : Agent) (args : authorize_args) (timeout : seconds) (t : bytes)
    : M AuthorizeResponse :=
  q ← lift (build_authorize_request t (seed agent) args);
  rpc Authorize (AuthorizeMessage q) None timeout.

(** The arguments of [build]: the resolved bytes in place of [tool_input] and [canonical]. *)
Definition with_canonical (a : authorize_args) (canonical : bytes) : authorize_args := {|
  ar_tool_name := ar_tool_name a; ar_tool_input := PNone; ar_canonical := PBytes canonical;
  ar_digest_only := ar_digest_only a; ar_features := ar_features a; ar_session_id := ar_session_id a;
  ar_subject := ar_subject a; ar_subjects := ar_subjects a; ar_agent_id := ar_agent_id a;
  ar_client_request_id := ar_client_request_id a |}.

Definition authorize (agent : Agent) (a : authorize_args) (timeout : seconds) : M AuthorizeResult :=
  canonical ← lift (_resolve_canonical (ar_tool_input a) (ar_canonical a));
  ticket ← _ticket_for agent timeout;
  resp ← catch (authorize_attempt agent (with_canonical a canonical) timeout ticket)
    (λ e, if is_class UnauthenticatedError e
          then Some (ticket ← _refresh_ticket agent ticket timeout;
                     authorize_attempt agent (with_canonical a canonical) timeout ticket)
          else None);
  lift (result_of resp).
End client.

(** ** Specification

    What a credentialed call may put on the wire, as a relation between the calls before it, its own
    calls and its outcome. *)

Definition cache_of (st : client) (a : pystr) : TicketCache := default tc_init (c_tickets st !! a).

Section specification.
Context `{Ed25519} `{World}.

(** The challenge, then [Admit] with a presentation for that challenge. *)
Inductive handshake (agent : Agent) (t : seconds) (pre : list sent) : list sent → res bytes → Prop :=
| hs_not_presented e : handshake agent t pre [Sent IssueChallenge IssueChallengeRequest None t] (Raise e)
| hs_presented ch now p r :
    mapped_call (serve IssueChallenge IssueChallengeRequest None t pre) = Ok ch →
    build_presentation (seed agent) (ch_receiver_aid ch) (ch_nonce ch) now = Ok p →
    let calls := [Sent IssueChallenge IssueChallengeRequest None t] in
    let q := PinnedPresentation (presentation_json p) in
    mapped_call (serve Admit q None t (pre ++ calls)) = r →
    handshake agent t pre (calls ++ [Sent Admit q None t]) (at_ticket <$> r).

(** A ticket from the cache, or from a handshake. *)
Inductive acquired (agent : Agent) (t : seconds) (pre : list sent) : list sent → res bytes → Prop :=
| acq_cached tk : acquired agent t pre [] (Ok tk)
| acq_admitted h r : handshake agent t pre h r → acquired agent t pre h r.

Context (signer : Agent) (m : method) (q : request) (resource : pystr) (body : option request) (t : seconds).

Definition signs (ticket : bytes) : res call_md :=
  credential_metadata (seed signer) ticket (path m) resource (SerializeToString <$> body).

(** One attempt under a ticket: the call, unless it cannot be signed. *)
Inductive attempt (pre : list sent) (ticket : bytes) : list sent → res (reply Message m) → Prop :=
| at_unsigned e : signs ticket = Raise e → attempt pre ticket [] (Raise e)
| at_sent md :
    signs ticket = Ok md →
    attempt pre ticket [Sent m q (Some md) t] (mapped_call (serve m q (Some md) t pre)).

Definition unauthenticated (r : res (reply Message m)) : bool :=
  match r with Raise e => is_class UnauthenticatedError e | Ok _ => false end.

(** Refresh once and resend once, only after a rejection of the first attempt, and only with [retry]. *)
Inductive exchange (retry : bool) (pre : list sent) : list sent → res (reply Message m) → Prop :=
| ex_no_ticket h e : acquired signer t pre h (Raise e) → exchange retry pre h (Raise e)
| ex_once h tk c r :
    acquired signer t pre h (Ok tk) → attempt (pre ++ h) tk c r →
    retry && unauthenticated r = false → exchange retry pre (h ++ c) r
| ex_not_refreshed h tk c r h2 e :
    acquired signer t pre h (Ok tk) → attempt (pre ++ h) tk c r →
    retry && unauthenticated r = true → handshake signer t (pre ++ h ++ c) h2 (Raise e) →
    exchange retry pre (h ++ c ++ h2) (Raise e)
| ex_resent h tk c r h2 tk2 c2 r2 :
    acquired signer t pre h (Ok tk) → attempt (pre ++ h) tk c r →
    retry && unauthenticated r = true → handshake signer t (pre ++ h ++ c) h2 (Ok tk2) →
    attempt (pre ++ h ++ c ++ h2) tk2 c2 r2 → exchange retry pre (h ++ c ++ h2 ++ c2) r2.
End specification.

(** ** Lemmas on the ticket lifecycle *)

Section lemmas.
Context `{Ed25519} `{AuthorizeVerdictEnum} `{World}.

Lemma M_bind_run {A B} (mm : M A) (k : A → M B) st r st' :
  (mm ≫= k) st = (r, st') →
  (∃ a st1, mm st = (Ok a, st1) ∧ k a st1 = (r, st')) ∨ (∃ e, mm st = (Raise e, st') ∧ r = Raise e).
Proof. unfold mbind, M_bind. destruct (mm st) as [[a|e] st1]; [by eauto|]. intros [= <- <-]. eauto. Qed.

(** [c] serves no ticket but [tk]. *)
Definition only_serves (c : TicketCache) (tk : bytes) : Prop := ∀ now x, tc_get c now = Some x → x = tk.

Lemma only_serves_store c tk e n : only_serves (tc_store c tk e n) tk.
Proof. intros now x. rewrite tc_store_get. by intros [-> _]. Qed.

Lemma only_serves_get c tk now : tc_get c now = Some tk → only_serves c tk.
Proof.
  intros Hg now' x. revert Hg. unfold tc_get. destruct (tc_ticket c) as [y|]; [|done].
  destruct (now <? _), (now' <? _); congruence.
Qed.

Lemma only_serves_init tk : only_serves tc_init tk.
Proof. done. Qed.

Lemma cache_of_insert t a c st : cache_of (set_tickets (<[a := c]> t) st) a = c.
Proof. unfold cache_of. simpl. by rewrite lookup_insert_eq. Qed.

(** What every operation of the lifecycle leaves alone: the caches of the other AIDs. *)
Definition others_kept (a : pystr) (st st' : client) : Prop :=
  ∀ b, b ≠ a → c_tickets st' !! b = c_tickets st !! b.

Lemma admit_locked_spec agent t st r st' :
  _admit_locked agent t st = (r, st') →
  ∃ h, c_log st' = c_log st ++ h ∧ handshake agent t (c_log st) h r ∧
    others_kept (aid agent) st st' ∧ (c_readings st ≤ c_readings st')%nat ∧
    match r with
    | Ok tk => ∃ e n, cache_of st' (aid agent) = tc_store (cache_of st (aid agent)) tk e n
    | Raise _ => c_tickets st' = c_tickets st
    end.
Proof.
  unfold _admit_locked. intros [(p & st1 & Hp & Hrest)|(e & Hp & ->)]%M_bind_run.
  - unfold _presentation in Hp. apply M_bind_run in Hp as [(ch & st2 & Hc & Hp)|(? & ? & ?)]; [|done].
    unfold rpc in Hc. injection Hc as Hc <-.
    apply M_bind_run in Hp as [(now & st3 & [= <- <-] & Hp)|(? & ? & ?)]; [|done].
    apply M_bind_run in Hp as [(b & st4 & Hb & [= <- <-])|(? & ? & ?)]; [|done].
    unfold lift in Hb. injection Hb as Hb <-. cbn [c_tickets c_readings c_log] in *.
    eexists ([_] ++ [_]). rewrite (assoc_L (++)).
    apply M_bind_run in Hrest as [(tk & st5 & Hr & Hrest)|(e & Hr & ->)]; unfold rpc in Hr; injection Hr as Hr <-;
      pose proof (hs_presented agent t (c_log st) ch _ b _ Hc Hb Hr) as Hhs.
    + apply M_bind_run in Hrest as [(now2 & st6 & [= <- <-] & Hrest)|(? & ? & ?)]; [|done].
      injection Hrest as <- <-. cbn [c_log c_readings c_tickets set_tickets].
      split_and!; [done|done| |lia|].
      * intros b' Hb'. simpl. by rewrite lookup_insert_ne by done.
      * unfold cache_of. simpl. rewrite lookup_insert_eq. by eauto.
    + cbn [c_log c_readings c_tickets]. by split_and!; [|done|..|lia|].
  - unfold _presentation in Hp. exists [Sent IssueChallenge IssueChallengeRequest None t].
    assert (c_log st' = c_log st ++ [Sent IssueChallenge IssueChallengeRequest None t] ∧
            c_tickets st' = c_tickets st ∧ (c_readings st ≤ c_readings st')%nat) as (Hl & Ht & Hn).
    { apply M_bind_run in Hp as [(ch & st2 & [= _ <-] & Hp)|(? & [= _ <-] & _)]; [|done].
      apply M_bind_run in Hp as [(now & st3 & [= _ <-] & Hp)|(? & ? & ?)]; [|done].
      apply M_bind_run in Hp as [(b & st4 & _ & [=])|(? & [= _ <-] & _)]. simpl. by split_and!; [..|lia]. }
    split_and!; [done|constructor|by intros b _; rewrite Ht|lia|done].
Qed.

(** Looking up one's cache and reading the clock. *)
Definition touch (a : pystr) (st : client) : client := {|
  c_tickets := <[a := cache_of st a]> (c_tickets st); c_readings := S (c_readings st); c_log := c_log st |}.

Lemma touch_cache a st : cache_of (touch a st) a = cache_of st a.
Proof. unfold cache_of at 1, touch. simpl. by rewrite lookup_insert_eq. Qed.
Lemma touch_others a st : others_kept a st (touch a st).
Proof. intros b Hb. simpl. by rewrite lookup_insert_ne by done. Qed.
Lemma others_kept_trans a st1 st2 st3 : others_kept a st1 st2 → others_kept a st2 st3 → others_kept a st1 st3.
Proof. intros H12 H23 b Hb. by rewrite (H23 b Hb), (H12 b Hb). Qed.

Definition dropped (a : pystr) (st : client) : client :=
  set_tickets (<[a := tc_invalidate (cache_of st a)]> (c_tickets st)) st.
Lemma dropped_others a st : others_kept a st (dropped a st).
Proof. intros b Hb. simpl. by rewrite lookup_insert_ne by done. Qed.

#[local] Hint Resolve touch_others dropped_others : seam.

Lemma ticket_for_run agent t st :
  _ticket_for agent t st =
  match tc_get (cache_of st (aid agent)) (clock (c_readings st)) with
  | None => _admit_locked agent t (touch (aid agent) st)
  | Some tk => (Ok tk, touch (aid agent) st)
  end.
Proof. unfold _ticket_for, mbind, M_bind, _cache_and_lock, _now_ms. by destruct (tc_get _ _). Qed.

Lemma refresh_ticket_run agent failed t st :
  _refresh_ticket agent failed t st =
  match tc_get (cache_of st (aid agent)) (clock (c_readings st)) with
  | Some current => if decide (current ≠ failed) then (Ok current, touch (aid agent) st)
                    else _admit_locked agent t (dropped (aid agent) (touch (aid agent) st))
  | None => _admit_locked agent t (dropped (aid agent) (touch (aid agent) st))
  end.
Proof.
  unfold _refresh_ticket, mbind, M_bind, _cache_and_lock, _now_ms.
  destruct (tc_get _ _); [by case_decide|done].
Qed.

Lemma invalidate_ticket_run agent failed st :
  _invalidate_ticket agent failed st =
  (Ok (), if decide (tc_get (cache_of st (aid agent)) (clock (c_readings st)) = Some failed)
          then dropped (aid agent) (touch (aid agent) st) else touch (aid agent) st).
Proof.
  unfold _invalidate_ticket, mbind, M_bind, _cache_and_lock, _now_ms.
  repeat fold (cache_of st (aid agent)). cbn [c_readings set_tickets]. by destruct (decide _).
Qed.

Lemma ticket_for_spec agent t st r st' :
  _ticket_for agent t st = (r, st') →
  ∃ h, c_log st' = c_log st ++ h ∧ acquired agent t (c_log st) h r ∧
    others_kept (aid agent) st st' ∧ (c_readings st ≤ c_readings st')%nat ∧
    (h = [] → ∃ tk, r = Ok tk ∧ tc_get (cache_of st (aid agent)) (clock (c_readings st)) = Some tk) ∧
    (∀ tk, r = Ok tk → only_serves (cache_of st' (aid agent)) tk).
Proof.
  rewrite ticket_for_run. destruct (tc_get _ _) as [tk|] eqn:Hg; intros Hr.
  - injection Hr as <- <-. exists []. rewrite app_nil_r.
    split_and!; [done|constructor|auto with seam|simpl; lia|by eauto|].
    intros ? [= ->]. rewrite touch_cache. by eapply only_serves_get.
  - apply admit_locked_spec in Hr as (h & Hl & Hh & Ho & Hn & Hc). simpl in Hn.
    exists h. split_and!; [done|by constructor| |lia| |].
    + eauto using others_kept_trans with seam.
    + intros ->. inversion Hh.
    + intros tk ->. destruct Hc as (e & n & ->). apply only_serves_store.
Qed.

Lemma refresh_ticket_spec agent failed t st r st' :
  only_serves (cache_of st (aid agent)) failed →
  _refresh_ticket agent failed t st = (r, st') →
  ∃ h, c_log st' = c_log st ++ h ∧ handshake agent t (c_log st) h r ∧
    others_kept (aid agent) st st' ∧ (c_readings st ≤ c_readings st')%nat ∧
    (∀ tk, r = Ok tk → only_serves (cache_of st' (aid agent)) tk).
Proof.
  intros Hs. rewrite refresh_ticket_run. intros Hr.
  assert (_admit_locked agent t (dropped (aid agent) (touch (aid agent) st)) = (r, st')) as Ha.
  { destruct (tc_get _ _) as [x|] eqn:Hg; [|done]. apply Hs in Hg as ->. rewrite decide_False in Hr; naive_solver. }
  apply admit_locked_spec in Ha as (h & Hl & Hh & Ho & Hn & Hc). simpl in Hn. exists h.
  split_and!; [done|done| |lia|].
  - eauto 6 using others_kept_trans with seam.
  - intros tk ->. destruct Hc as (e & n & ->). apply only_serves_store.
Qed.

(** Compare-and-invalidate: the failed ticket is not served after it (for a clock that does not run
    backwards), and a different ticket stays. *)
Lemma invalidate_ticket_spec agent failed st r st' :
  _invalidate_ticket agent failed st = (r, st') →
  r = Ok () ∧ c_log st' = c_log st ∧ others_kept (aid agent) st st' ∧ c_readings st' = S (c_readings st) ∧
  (∀ now, clock (c_readings st) ≤ now → tc_get (cache_of st' (aid agent)) now ≠ Some failed) ∧
  (tc_get (cache_of st (aid agent)) (clock (c_readings st)) ≠ Some failed →
   cache_of st' (aid agent) = cache_of st (aid agent)).
Proof.
  rewrite invalidate_ticket_run. intros [= <- <-]. case_decide as Hd; split_and!; try done.
  - eauto using others_kept_trans with seam.
  - intros now _. unfold dropped. by rewrite cache_of_insert.
  - auto with seam.
  - intros now Hnow. rewrite touch_cache. intros Hg. apply Hd. revert Hg. unfold tc_get.
    destruct (tc_ticket _) as [x|]; [|done].
    destruct (Z.ltb_spec now (tc_refresh_at_ms (cache_of st (aid agent)))); [|done].
    by destruct (Z.ltb_spec (clock (c_readings st)) (tc_refresh_at_ms (cache_of st (aid agent)))); [|lia].
  - intros _. apply touch_cache.
Qed.

Lemma refusal_class cls w e : is_refusal cls w e = true → is_class cls e = true.
Proof.
  unfold is_refusal, is_class. destruct (typed e) as [[c tr]|]; [|done].
  by intros [? _]%andb_true_iff.
Qed.

Definition burns (m : method) (r : res (reply Message m)) : bool :=
  match r with Raise e => bool_decide (path m ∈ _REPLAY_GUARDED) && is_retryable e | Ok _ => false end.

(** From the clock reading [n] on, the cache of [a] does not serve [tk]. *)
Definition not_served (st : client) (a : pystr) (tk : bytes) : Prop :=
  ∀ n, (c_readings st ≤ n)%nat → tc_get (cache_of st a) (clock n) ≠ Some tk.

Definition monotone_clock : Prop := ∀ i j, (i ≤ j)%nat → clock i ≤ clock j.

Lemma forget_burned_run signer tk m e st :
  ∃ st', _forget_burned_ticket signer tk (path m) e st = (Ok (), st') ∧
    c_log st' = c_log st ∧ others_kept (aid signer) st st' ∧ (c_readings st ≤ c_readings st')%nat ∧
    (∀ x, only_serves (cache_of st (aid signer)) x → only_serves (cache_of st' (aid signer)) x) ∧
    (bool_decide (path m ∈ _REPLAY_GUARDED) && is_retryable e = true → monotone_clock →
     not_served st' (aid signer) tk) ∧
    (bool_decide (path m ∈ _REPLAY_GUARDED) && is_retryable e = false → st' = st).
Proof.
  unfold _forget_burned_ticket. fold (is_retryable e). destruct (bool_decide _ && is_retryable e).
  - destruct (_invalidate_ticket signer tk st) as [r st'] eqn:Hi.
    pose proof Hi as Hi'. apply invalidate_ticket_spec in Hi as (-> & Hl & Ho & Hn & Hg & _).
    exists st'. split_and!; [done|done|done|lia| | |done].
    + intros x Hx. rewrite invalidate_ticket_run in Hi'. injection Hi' as <-. case_decide.
      * unfold dropped. rewrite cache_of_insert. done.
      * by rewrite touch_cache.
    + intros _ Hm n Hr. apply Hg, Hm. lia.
  - exists st. by split_and!.
Qed.

Context (signer : Agent) (m : method) (q : request) (resource : pystr) (body : option request) (t : seconds).

Lemma send_signed_spec tk st r st' :
  send_signed signer tk (path m) resource body (λ md, rpc m q md t) st = (r, st') →
  ∃ c, c_log st' = c_log st ++ c ∧ attempt signer m q resource body t (c_log st) tk c r ∧
    others_kept (aid signer) st st' ∧ (c_readings st ≤ c_readings st')%nat ∧
    (∀ x, only_serves (cache_of st (aid signer)) x → only_serves (cache_of st' (aid signer)) x) ∧
    (burns m r = true → monotone_clock → not_served st' (aid signer) tk) ∧
    (burns m r = false → c_tickets st' = c_tickets st ∧ c_readings st' = c_readings st).
Proof.
  unfold send_signed, catch. fold (signs signer m resource body tk).
  assert (∃ c r1 st1, (md ← lift (signs signer m resource body tk); rpc m q (Some md) t) st = (r1, st1) ∧
      attempt signer m q resource body t (c_log st) tk c r1 ∧ c_log st1 = c_log st ++ c ∧
      c_tickets st1 = c_tickets st ∧ c_readings st1 = c_readings st) as (c & r1 & st1 & -> & Ha & Hl & Ht & Hn).
  { destruct (signs signer m resource body tk) as [md|e] eqn:Es.
    - do 3 eexists. split; [done|]. by split; [by constructor|].
    - do 3 eexists. split; [done|]. split; [by constructor|]. by rewrite app_nil_r. }
  assert (∀ a, cache_of st1 a = cache_of st a) as Hc by (intros a; unfold cache_of; by rewrite Ht).
  destruct r1 as [x|e].
  { intros [= <- <-]. exists c. split_and!; try done; [by intros b _; rewrite Ht|lia|by rewrite Hc]. }
  destruct (is_class UnavailableError e || is_class FailedPreconditionError e) eqn:Ecl.
  - destruct (forget_burned_run signer tk m e st1) as (st2 & Hf & Hl2 & Ho2 & Hn2 & Hs2 & Hb2 & Hk2).
    unfold mbind, M_bind. rewrite Hf. intros [= <- <-]. exists c. split_and!; [by rewrite Hl2|done| |lia| |by apply Hb2|].
    + intros b Hb. by rewrite (Ho2 b Hb), Ht.
    + intros x Hx. apply Hs2. by rewrite Hc.
    + by intros ->%Hk2.
  - intros [= <- <-]. exists c. split_and!; [done|done|by intros b _; rewrite Ht|lia|by intros x; rewrite Hc| |done].
    intros [_ Hr]%andb_true_iff. unfold is_retryable in Hr.
    apply orb_true_iff in Hr as [Hr|Hr]; apply refusal_class in Hr; rewrite Hr in Ecl; [done|].
    by rewrite orb_true_r in Ecl.
Qed.

(** The ticket a call's metadata carries. *)
Definition carries (s : sent) (tk : bytes) : Prop := ∃ md, s_md s = Some md ∧ md !! 0%nat = Some (lit "x-seam-ticket-bin", tk).

Lemma signs_carries tk md : signs signer m resource body tk = Ok md → md !! 0%nat = Some (lit "x-seam-ticket-bin", tk).
Proof. unfold signs, credential_metadata. by intros (sig & _ & <-%Ok_inj)%bind_Ok. Qed.

Lemma attempt_last pre tk c r l s tk' :
  attempt signer m q resource body t pre tk c r → c = l ++ [s] → carries s tk' → tk' = tk.
Proof.
  intros [e _|md Hs] Hc (md' & Hmd & Hl).
  - by destruct l.
  - apply (app_inj_tail [] l) in Hc as [_ <-]. injection Hmd as <-. apply signs_carries in Hs. congruence.
Qed.

Lemma handshake_uncredentialed agent t' pre h r : handshake agent t' pre h r → h ≠ [] ∧ Forall (λ s, s_md s = None) h.
Proof. intros []; split; try done; repeat constructor. Qed.

Lemma last_of_app (h c l : list sent) s :
  Forall (λ s, s_md s = None) h → h ++ c = l ++ [s] → s_md s ≠ None → ∃ l', c = l' ++ [s].
Proof.
  intros Hh Heq Hs. destruct c as [|x c _] using rev_ind.
  - rewrite app_nil_r in Heq. subst h. apply Forall_app in Hh as [_ Hh]. by inversion Hh.
  - rewrite (assoc_L (++)) in Heq. apply app_inj_tail in Heq as [_ ->]. by eexists.
Qed.

Lemma carries_md s tk : carries s tk → s_md s ≠ None.
Proof. intros (md & -> & _). done. Qed.

(** The cache of the signer after a call that ended in a replay-guarded, retryable refusal. *)
Definition forgotten (calls : list sent) (r : res (reply Message m)) (st' : client) : Prop :=
  burns m r = true → monotone_clock →
  ∀ l s tk, calls = l ++ [s] → carries s tk → not_served st' (aid signer) tk.

Lemma forgotten_attempt h pre tk c r st' :
  Forall (λ s, s_md s = None) h → attempt signer m q resource body t pre tk c r →
  (burns m r = true → monotone_clock → not_served st' (aid signer) tk) → forgotten (h ++ c) r st'.
Proof.
  intros Hh Ha Hb Hr Hm l s tk' Heq Hc.
  destruct (last_of_app h c l s Hh Heq (carries_md _ _ Hc)) as (l' & Hc').
  rewrite (attempt_last _ _ _ _ _ _ _ Ha Hc' Hc). by apply Hb.
Qed.

Lemma forgotten_handshake l h r st' : h ≠ [] → Forall (λ s, s_md s = None) h → forgotten (l ++ h) r st'.
Proof.
  intros Hne Hh _ _ l' s tk Heq Hc%carries_md.
  destruct h as [|x h _] using rev_ind; [done|]. rewrite (assoc_L (++)) in Heq.
  apply app_inj_tail in Heq as [_ ->]. apply Forall_app in Hh as [_ Hh]. by inversion Hh.
Qed.

Lemma acquired_uncredentialed agent t' pre h r : acquired agent t' pre h r → Forall (λ s, s_md s = None) h.
Proof. intros [tk|h' r' Hh]; [constructor|]. by apply handshake_uncredentialed in Hh as [_ ?]. Qed.

Lemma credentialed_call_spec bound cred retry st r st' :
  _signer bound cred = Some signer →
  _credentialed_call bound cred (path m) resource body (λ md, rpc m q md t) t retry st = (r, st') →
  ∃ calls, c_log st' = c_log st ++ calls ∧ exchange signer m q resource body t retry (c_log st) calls r ∧
    others_kept (aid signer) st st' ∧ forgotten calls r st'.
Proof.
  intros Hsig. unfold _credentialed_call. rewrite Hsig.
  intros [(tk & st1 & Ht & Hrun)|(e & Ht & ->)]%M_bind_run;
    apply ticket_for_spec in Ht as (h & Hl1 & Hacq & Ho1 & Hn1 & _ & Hserve).
  2:{ exists h. split_and!; [done|by constructor|done|]. inversion Hacq as [|? ? Hh]; subst.
      apply handshake_uncredentialed in Hh as [? ?]. by apply (forgotten_handshake []). }
  pose proof (acquired_uncredentialed _ _ _ _ _ Hacq) as Hu. specialize (Hserve tk eq_refl).
  unfold mbind, M_bind, catch, fmap, M_fmap in Hrun.
  destruct (send_signed _ _ _ _ _ _ st1) as [r1 st2] eqn:Hsend.
  apply send_signed_spec in Hsend as (c & Hl2 & Hatt & Ho2 & Hn2 & Hs2 & Hb2 & Hk2).
  rewrite Hl1 in Hatt, Hl2. rewrite <-(assoc_L (++)) in Hl2.
  pose proof (others_kept_trans _ _ _ _ Ho1 Ho2) as Ho12.
  destruct r1 as [a|e].
  { injection Hrun as <- <-. exists (h ++ c). split_and!; [done| |done|by eapply forgotten_attempt].
    eapply ex_once; [done..|]. by rewrite andb_false_r. }
  destruct (is_class UnauthenticatedError e) eqn:Eu.
  2:{ injection Hrun as <- <-. exists (h ++ c). split_and!; [done| |done|by eapply forgotten_attempt].
      eapply ex_once; [done..|]. simpl. by rewrite Eu, andb_false_r. }
  destruct retry; cbn [negb] in Hrun.
  - destruct (_refresh_ticket signer tk t st2) as [r2 st3] eqn:Href.
    apply refresh_ticket_spec in Href as (h2 & Hl3 & Hh2 & Ho3 & Hn3 & Hserve2); [|by apply Hs2].
    rewrite Hl2 in Hh2, Hl3. rewrite <-!(assoc_L (++)) in Hl3. pose proof (others_kept_trans _ _ _ _ Ho12 Ho3) as Ho13.
    pose proof (handshake_uncredentialed _ _ _ _ _ Hh2) as [Hne Hu2].
    destruct r2 as [tk2|e2].
    + apply send_signed_spec in Hrun as (c2 & Hl4 & Hatt2 & Ho4 & Hn4 & _ & Hb4 & _).
      rewrite Hl3 in Hatt2, Hl4. rewrite <-!(assoc_L (++)) in Hl4.
      exists (h ++ c ++ h2 ++ c2). split_and!; [done| |by eapply others_kept_trans|].
      * eapply ex_resent; [done|done|by simpl|done|]. done.
      * intros Hr Hm l s tk' Heq Hc. rewrite (assoc_L (++) h), (assoc_L (++) (h ++ c)) in Heq.
        destruct c2 as [|x c2 _] using rev_ind.
        { rewrite app_nil_r in Heq. by eapply (forgotten_handshake (h ++ c) h2 r). }
        rewrite (assoc_L (++)) in Heq. apply app_inj_tail in Heq as [_ ->].
        by eapply (forgotten_attempt [] _ tk2 (c2 ++ [s])).
    + injection Hrun as <- <-. exists (h ++ c ++ h2). split_and!; [done| |done|].
      * by eapply ex_not_refreshed.
      * rewrite (assoc_L (++)). by apply forgotten_handshake.
  - destruct (_invalidate_ticket signer tk st2) as [ri st3] eqn:Hi.
    apply invalidate_ticket_spec in Hi as (-> & Hl3 & Ho3 & Hn3 & Hg3 & _).
    injection Hrun as <- <-. exists (h ++ c). split_and!; [by rewrite Hl3|by eapply ex_once|by eapply others_kept_trans|].
    eapply forgotten_attempt; [done|done|]. intros _ Hm n Hrd. apply Hg3, Hm. lia.
Qed.
End lemmas.

(** ** Properties of the credentialed call *)

Section properties.
Context `{Ed25519} `{AuthorizeVerdictEnum} `{World}.

Lemma handshake_calls agent t pre h r :
  handshake agent t pre h r →
  (length h ≤ 2)%nat ∧ Forall (λ s, s_timeout s = t ∧ s_md s = None ∧ s_method s ∈ [IssueChallenge; Admit]) h.
Proof. intros []; simpl; (split; [lia|]); repeat constructor. Qed.

Lemma acquired_calls agent t pre h r :
  acquired agent t pre h r →
  (length h ≤ 2)%nat ∧ Forall (λ s, s_timeout s = t ∧ s_md s = None ∧ s_method s ∈ [IssueChallenge; Admit]) h.
Proof. intros [|h' r' Hh]; [split; [simpl; lia|constructor]|by eapply handshake_calls]. Qed.

(** A call of [m] as the credentialed path sends it: the request, and a credential of the signer over
    this RPC, this resource id and the digest of exactly this body. *)
Definition credentialed (signer : Agent) (m : method) (q : request) (resource : pystr) (body : option request)
    (s : sent) : Prop :=
  s_method s = m ∧ s_request s = q ∧ ∃ ticket sig payload,
    s_md s = Some [(lit "x-seam-ticket-bin", ticket); (lit "x-seam-call-sig-bin", sig)] ∧
    request_sig_payload ticket (path m) resource
      (match body with None => [] | Some b => tool_input_digest (SerializeToString b) end) = Ok payload ∧
    ed_verify (ed_public (seed signer)) sig payload = true.

Lemma signs_credentialed `{!Ed25519Laws} signer m q resource body t tk md :
  signs signer m resource body tk = Ok md → credentialed signer m q resource body (Sent m q (Some md) t).
Proof.
  unfold signs, credential_metadata. intros (sig & Hs & <-%Ok_inj)%bind_Ok.
  apply sign_with_verifies in Hs as (_ & p & Hp & Hv). split; [done|]. split; [done|].
  exists tk, sig, p. split; [done|]. by destruct body.
Qed.

Lemma attempt_calls `{!Ed25519Laws} signer m q resource body t pre tk c r :
  attempt signer m q resource body t pre tk c r →
  (length c ≤ 1)%nat ∧ Forall (λ s, s_timeout s = t ∧ credentialed signer m q resource body s) c.
Proof.
  intros [e _|md Hs]; simpl; (split; [lia|]); repeat constructor. by eapply signs_credentialed.
Qed.

(** At most [k] calls, all with this deadline, at most [n] of them [verb] calls; each of them part of a
    handshake or as [Q] says. *)
Definition wire_shape (verb Q : sent → Prop) `{!∀ s, Decision (verb s)} (t : seconds) (k n : nat)
    (calls : list sent) : Prop :=
  (length calls ≤ k)%nat ∧ (length (filter verb calls) ≤ n)%nat ∧
  Forall (λ s, s_timeout s = t) calls ∧
  Forall (λ s, s_md s = None ∧ s_method s ∈ [IssueChallenge; Admit] ∨ Q s) calls.

Section shape.
Context (verb Q : sent → Prop) `{!∀ s, Decision (verb s)} (t : seconds).
Context (no_verb : ∀ s, s_md s = None → s_method s ∈ [IssueChallenge; Admit] → ¬ verb s).

Lemma shape_app k n k' n' l l' :
  wire_shape verb Q t k n l → wire_shape verb Q t k' n' l' → wire_shape verb Q t (k + k') (n + n') (l ++ l').
Proof.
  intros (? & ? & ? & ?) (? & ? & ? & ?). unfold wire_shape.
  rewrite filter_app, !length_app, !Forall_app. split_and!; try done; lia.
Qed.

Lemma shape_weaken k n k' n' l :
  (k ≤ k')%nat → (n ≤ n')%nat → wire_shape verb Q t k n l → wire_shape verb Q t k' n' l.
Proof. intros Hk Hn (? & ? & ? & ?). split_and!; try done; lia. Qed.

Lemma shape_acquired agent pre h r : acquired agent t pre h r → wire_shape verb Q t 2 0 h.
Proof.
  intros [Hl Hf]%acquired_calls. split_and!; [done| | |].
  - clear Hl. induction Hf as [|s h (_ & Hmd & Hme) _ IH]; [done|]. rewrite filter_cons_False; [done|by apply no_verb].
  - eapply Forall_impl; [done|]. naive_solver.
  - eapply Forall_impl; [done|]. naive_solver.
Qed.

Lemma shape_one c : (length c ≤ 1)%nat → Forall (λ s, s_timeout s = t ∧ Q s) c → wire_shape verb Q t 1 1 c.
Proof.
  intros Hl Hf. split_and!; [done| | |].
  - etrans; [apply length_filter|done].
  - eapply Forall_impl; [done|]. naive_solver.
  - eapply Forall_impl; [done|]. naive_solver.
Qed.

Lemma shape_twice agent pre pre2 h c h2 c2 r r2 :
  acquired agent t pre h r → wire_shape verb Q t 1 1 c → handshake agent t pre2 h2 r2 →
  wire_shape verb Q t 1 1 c2 → wire_shape verb Q t 6 2 (h ++ c ++ h2 ++ c2).
Proof.
  intros Ha%shape_acquired Hc Hh%acq_admitted%shape_acquired Hc2.
  by apply (shape_app 2 0 4 2), (shape_app 1 1 3 1), (shape_app 2 0 1 1).
Qed.

Lemma shape_nil : wire_shape verb Q t 1 1 [].
Proof. split_and!; simpl; try lia; constructor. Qed.

Lemma shape_once agent pre h c r :
  acquired agent t pre h r → wire_shape verb Q t 1 1 c → wire_shape verb Q t 6 2 (h ++ c).
Proof.
  intros Ha%shape_acquired Hc. apply (shape_weaken (2 + 1) (0 + 1)); [lia..|]. by apply shape_app.
Qed.
End shape.

Lemma shape_attempt `{!Ed25519Laws} signer m q resource body t pre tk c r :
  attempt signer m q resource body t pre tk c r →
  wire_shape (λ s, s_md s ≠ None) (credentialed signer m q resource body) t 1 1 c.
Proof. intros [Hl Hf]%attempt_calls. by apply shape_one. Qed.

(** Whoever signs, the verb's own calls carry the one request. *)
Lemma credentialed_call_requests bound cred m q resource body t retry st :
  let st' := (_credentialed_call bound cred (path m) resource body (λ md, rpc m q md t) t retry st).2 in
  ∃ calls, c_log st' = c_log st ++ calls ∧
    Forall (λ s, s_method s ∈ [IssueChallenge; Admit] ∨ s_method s = m ∧ s_request s = q) calls.
Proof.
  destruct (_credentialed_call _ _ _ _ _ _ _ _ st) as [r st'] eqn:Hrun. cbn [snd].
  destruct (_signer bound cred) as [signer|] eqn:Es.
  2:{ unfold _credentialed_call in Hrun. rewrite Es in Hrun. injection Hrun as _ <-. eexists. split; [done|].
      apply Forall_singleton. by right. }
  destruct (credentialed_call_spec signer m q resource body t bound cred retry st r st' Es Hrun)
    as (calls & Hl & Hex & _). exists calls. split; [done|].
  assert (∀ pre tk c r, attempt signer m q resource body t pre tk c r →
    Forall (λ s, s_method s ∈ [IssueChallenge; Admit] ∨ s_method s = m ∧ s_request s = q) c) as Hatt.
  { intros ? ? ? ? [|]; [constructor|]. apply Forall_singleton. by right. }
  assert (∀ pre h r, acquired signer t pre h r →
    Forall (λ s, s_method s ∈ [IssueChallenge; Admit] ∨ s_method s = m ∧ s_request s = q) h) as Hacq.
  { intros ? ? ? [_ Hf]%acquired_calls. eapply Forall_impl; [done|]. naive_solver. }
  inversion Hex; subst; rewrite ?Forall_app; try split_and!; eauto using acq_admitted.
Qed.

(** C7. The credentialed call refines its specification: without a signer it is the bare call, with no
    metadata, no ticket and no retry; with one (the explicit [credential], else the bound agent), what
    it puts on the wire and how it ends are an [exchange] - a ticket from the cache or one handshake,
    one signed attempt, and only when that attempt was refused [UNAUTHENTICATED] (and [retry]) one
    handshake and one re-signed attempt of the same request, whose answer is final. *)
Theorem credentialed_call_refines bound cred m q resource body t retry st :
  match _signer bound cred with
  | None =>
    _credentialed_call bound cred (path m) resource body (λ md, rpc m q md t) t retry st = rpc m q None t st
  | Some signer => ∃ calls r st',
    _credentialed_call bound cred (path m) resource body (λ md, rpc m q md t) t retry st = (r, st') ∧
    c_log st' = c_log st ++ calls ∧ exchange signer m q resource body t retry (c_log st) calls r
  end.
Proof.
  destruct (_signer bound cred) as [signer|] eqn:Es.
  - destruct (_credentialed_call _ _ _ _ _ _ _ _ st) as [r st'] eqn:Hr.
    pose proof Hr as Hr'. apply (credentialed_call_spec signer) in Hr' as (calls & ? & ? & _); [|done]. by eauto 10.
  - unfold _credentialed_call. by rewrite Es.
Qed.

Lemma credentialed_call_shape `{!Ed25519Laws} bound cred signer m q resource body t retry st r st' :
  _signer bound cred = Some signer →
  _credentialed_call bound cred (path m) resource body (λ md, rpc m q md t) t retry st = (r, st') →
  ∃ calls, c_log st' = c_log st ++ calls ∧
    wire_shape (λ s, s_md s ≠ None) (credentialed signer m q resource body) t 6 2 calls.
Proof.
  intros Hs (calls & Hl & Hex & _)%(credentialed_call_spec signer); [|done].
  exists calls. split; [done|].
  inversion Hex as [h e Ha|h tk c r1 Ha Hc|h tk c r1 h2 e Ha Hc _ Hh|h tk c r1 h2 tk2 c2 r2 Ha Hc _ Hh Hc2]; subst.
  - rewrite <-(app_nil_r calls). eapply shape_once; [naive_solver|done|apply shape_nil].
  - eapply shape_once; [naive_solver|done|by eapply shape_attempt].
  - rewrite <-(app_nil_r h2). eapply shape_twice; [naive_solver|done|by eapply shape_attempt|done|apply shape_nil].
  - eapply shape_twice; [naive_solver|done|by eapply shape_attempt|done|by eapply shape_attempt].
Qed.

(** The wire cost of a credentialed call: at most six calls, each with the caller's [timeout] as its
    deadline; at most two of them call the verb, and every one of those carries this very request with
    a credential of the signer that verifies over this RPC, this resource id and the digest of exactly
    this body; all other calls are the uncredentialed challenge and [Admit]. *)
Theorem credentialed_call_bounded `{!Ed25519Laws} bound cred signer m q resource body t retry st r st' :
  _signer bound cred = Some signer →
  _credentialed_call bound cred (path m) resource body (λ md, rpc m q md t) t retry st = (r, st') →
  ∃ calls, c_log st' = c_log st ++ calls ∧ (length calls ≤ 6)%nat ∧
    (length (filter (λ s, s_md s ≠ None) calls) ≤ 2)%nat ∧ Forall (λ s, s_timeout s = t) calls ∧
    Forall (λ s, s_md s = None ∧ s_method s ∈ [IssueChallenge; Admit] ∨
                 credentialed signer m q resource body s) calls.
Proof.
  intros Hs (calls & Hl & ? & ? & ? & ?)%(credentialed_call_shape bound cred signer); [|done]. by exists calls.
Qed.

(** C28. A burned proof is never re-sent: when a replay-guarded write ends in [SESSION_UNAVAILABLE] or
    [TENANT_MOVING], the ticket its last attempt was signed under is no longer served by the signer's
    cache, so (as long as the clock does not run backwards) the next call re-admits and signs new
    bytes. *)
Theorem burned_ticket_forgotten bound cred signer m q resource body t retry st e st' :
  monotone_clock → _signer bound cred = Some signer → path m ∈ _REPLAY_GUARDED →
  _credentialed_call bound cred (path m) resource body (λ md, rpc m q md t) t retry st = (Raise e, st') →
  is_session_unavailable e = true ∨ is_tenant_moving e = true →
  ∀ earlier s ticket, c_log st' = c_log st ++ earlier ++ [s] → carries s ticket →
    tc_get (cache_of st' (aid signer)) (clock (c_readings st')) ≠ Some ticket.
Proof.
  intros Hm Hs Hp (calls & Hl & _ & _ & Hf)%(credentialed_call_spec signer) He earlier s tk Heq Hc; [|done].
  rewrite Hl in Heq. apply app_inv_head in Heq as ->.
  eapply Hf; [|done|done|done|lia]. simpl. apply andb_true_iff. split; [by apply bool_decide_eq_true|].
  unfold is_retryable. destruct He as [->| ->]; [done|apply orb_true_r].
Qed.

(** The ticket lifecycle is keyed to the signer: a credentialed call, whatever happens in it, leaves
    the cached ticket of every other identity as it was - so an explicit [credential] on a bound client
    never touches the bound agent's ticket. *)
Theorem other_identities_untouched bound cred signer m q resource body t retry st r st' other :
  _signer bound cred = Some signer → aid other ≠ aid signer →
  _credentialed_call bound cred (path m) resource body (λ md, rpc m q md t) t retry st = (r, st') →
  ∀ now, tc_get (cache_of st' (aid other)) now = tc_get (cache_of st (aid other)) now.
Proof.
  intros Hs Ho (calls & _ & _ & Hk & _)%(credentialed_call_spec signer) now; [|done].
  unfold cache_of. by rewrite (Hk _ Ho).
Qed.

Lemma signed_once_spec bound cred signer m q resource body t st r st' :
  _signer bound cred = Some signer →
  _signed_once bound cred (path m) resource body (λ md, rpc m q md t) t st = (r, st') →
  ∃ h c ro, c_log st' = c_log st ++ h ++ c ∧ acquired signer t (c_log st) h ro ∧
    match ro with
    | Ok tk => attempt signer m q resource body t (c_log st ++ h) tk c r
    | Raise e => c = [] ∧ r = Raise e
    end.
Proof.
  intros Hs. unfold _signed_once. rewrite Hs.
  intros [(tk & st1 & Ht & Hrun)|(e & Ht & ->)]%M_bind_run;
    apply ticket_for_spec in Ht as (h & Hl1 & Hacq & _).
  - apply send_signed_spec in Hrun as (c & Hl & Hatt & _). rewrite Hl1 in Hatt, Hl.
    exists h, c, (Ok tk). by rewrite Hl, (assoc_L (++)).
  - exists h, [], (Raise e). by rewrite app_nil_r.
Qed.

Lemma signed_once_shape `{!Ed25519Laws} bound cred signer m q resource body t st r st' :
  _signer bound cred = Some signer →
  _signed_once bound cred (path m) resource body (λ md, rpc m q md t) t st = (r, st') →
  ∃ calls, c_log st' = c_log st ++ calls ∧
    wire_shape (λ s, s_md s ≠ None) (credentialed signer m q resource body) t 3 1 calls.
Proof.
  intros Hs (h & c & ro & Hl & Hacq & Hc)%(signed_once_spec bound cred signer); [|done].
  exists (h ++ c). split; [done|]. apply (shape_app _ _ _ 2 0 1 1).
  - eapply shape_acquired; [naive_solver|done].
  - destruct ro as [tk|e]; [by eapply shape_attempt|]. destruct Hc as [-> ->]. apply shape_nil.
Qed.

(** The non-retrying verbs send once: [_signed_once] puts at most one handshake and one signed
    attempt on the wire, with the caller's deadline, and its outcome is the server's answer to that
    attempt - an [UNAUTHENTICATED] refusal included, which no refresh follows. *)
Theorem signed_once_single `{!Ed25519Laws} bound cred signer m q resource body t st r st' :
  _signer bound cred = Some signer →
  _signed_once bound cred (path m) resource body (λ md, rpc m q md t) t st = (r, st') →
  ∃ h c, c_log st' = c_log st ++ h ++ c ∧ (length h ≤ 2)%nat ∧ (length c ≤ 1)%nat ∧
    Forall (λ s, s_timeout s = t) (h ++ c) ∧ Forall (credentialed signer m q resource body) c ∧
    (∀ s, c = [s] → r = mapped_call (serve m q (s_md s) t (c_log st ++ h))) ∧
    (c = [] → ∃ e, r = Raise e).
Proof.
  intros Hs (h & c & ro & Hl & Hacq & Hc)%(signed_once_spec bound cred signer); [|done]. exists h, c.
  apply acquired_calls in Hacq as [Hlen Hall]. eapply Forall_impl in Hall; [|intros s Hx; exact (proj1 Hx)].
  destruct ro as [tk|e].
  - pose proof (attempt_calls _ _ _ _ _ _ _ _ _ _ Hc) as [Hc1 Hcs]. split_and!; [done|done|done| | | |].
    + apply Forall_app. split; [done|]. eapply Forall_impl; [done|]. naive_solver.
    + eapply Forall_impl; [done|]. naive_solver.
    + intros s ->. by inversion Hc.
    + intros ->. inversion Hc. by eauto.
  - destruct Hc as [-> ->]. rewrite app_nil_r. split_and!; [by rewrite app_nil_r in Hl|done|simpl; lia|done|done|done|by eauto].
Qed.
(** An [Authorize] call that asks about the canonical input [canonical], under the ticket it carries. *)
Definition asks (agent : Agent) (a : authorize_args) (canonical : bytes) (s : sent) : Prop :=
  s_method s = Authorize ∧ s_md s = None ∧ ∃ q, s_request s = AuthorizeMessage q ∧
    build_authorize_request (q_ticket q) (seed agent) (with_canonical a canonical) = Ok q.

Lemma request_ticket ticket sd a q : build_authorize_request ticket sd a = Ok q → q_ticket q = ticket.
Proof. unfold build_authorize_request. by intros (c & _ & (sig & _ & <-%Ok_inj)%bind_Ok)%bind_Ok. Qed.

Lemma authorize_attempt_spec agent a canonical t tk st r st' :
  authorize_attempt agent (with_canonical a canonical) t tk st = (r, st') →
  ∃ c, c_log st' = c_log st ++ c ∧ c_tickets st' = c_tickets st ∧ (length c ≤ 1)%nat ∧
    Forall (λ s, s_timeout s = t ∧ asks agent a canonical s) c ∧
    (∀ resp, r = Ok resp → ∃ s, c = [s] ∧
       mapped_call (serve Authorize (s_request s) (s_md s) t (c_log st)) = Ok resp).
Proof.
  unfold authorize_attempt, lift. intros [(q & st1 & [= Hq <-] & [= <- <-])|(e & [= _ <-] & ->)]%M_bind_run.
  - eexists. split; [done|]. cbn [c_tickets length]. split_and!; [done|lia| |].
    + repeat constructor. exists q. split; [done|]. by rewrite (request_ticket _ _ _ _ Hq).
    + intros resp Hr. by eexists.
  - exists []. rewrite app_nil_r. split_and!; [done|done|simpl; lia|constructor|done].
Qed.

Lemma not_authorize s : s_md s = None → s_method s ∈ [IssueChallenge; Admit] → s_method s ≠ Authorize.
Proof. intros _ Hin E. rewrite E in Hin. repeat (apply elem_of_cons in Hin as [Hin|Hin]; [done|]). by inversion Hin. Qed.

Lemma asks_shape agent a canonical t calls (P : Prop) :
  wire_shape (λ s, s_method s = Authorize) (asks agent a canonical) t 6 2 calls → P →
  (length calls ≤ 6)%nat ∧ (length (filter (λ s, s_method s = Authorize) calls) ≤ 2)%nat ∧
  Forall (λ s, s_timeout s = t) calls ∧
  Forall (λ s, s_method s ∈ [IssueChallenge; Admit] ∨ asks agent a canonical s) calls ∧ P.
Proof. intros (? & ? & ? & Hf) HP. split_and!; try done. eapply Forall_impl; [done|]. naive_solver. Qed.

(** C29. One question, asked at most twice: [authorize] makes at most six calls, each with the caller's
    deadline, at most two of them [Authorize], and every [Authorize] asks about the same canonical
    bytes - those of the one derivation made before any call (an input that has none costs no call
    and raises [CanonicalizationError]) - with a signature over the ticket it carries; a result is
    [result_of] of what the server answered the last call. *)
Theorem authorize_asks_once agent a t st r st' :
  authorize agent a t st = (r, st') →
  (∀ e, _resolve_canonical (ar_tool_input a) (ar_canonical a) = Raise e → r = Raise e ∧ st' = st) ∧
  (∀ canonical, _resolve_canonical (ar_tool_input a) (ar_canonical a) = Ok canonical →
   ∃ calls, c_log st' = c_log st ++ calls ∧ (length calls ≤ 6)%nat ∧
     (length (filter (λ s, s_method s = Authorize) calls) ≤ 2)%nat ∧
     Forall (λ s, s_timeout s = t) calls ∧
     Forall (λ s, s_method s ∈ [IssueChallenge; Admit] ∨ asks agent a canonical s) calls ∧
     (∀ v, r = Ok v → ∃ earlier s resp, calls = earlier ++ [s] ∧ asks agent a canonical s ∧
        mapped_call (serve Authorize (s_request s) (s_md s) t (c_log st ++ earlier)) = Ok resp ∧
        result_of resp = Ok v)).
Proof.
  unfold authorize, lift. intros Hrun. split.
  { intros e He. unfold mbind, M_bind in Hrun. rewrite He in Hrun. by injection Hrun as <- <-. }
  intros canonical Hcan. unfold mbind at 1, M_bind at 1 in Hrun. rewrite Hcan in Hrun.
  apply M_bind_run in Hrun as [(tk & st1 & Ht & Hrun)|(e & Ht & ->)];
    apply ticket_for_spec in Ht as (h & Hl1 & Hacq & _ & _ & _ & Hserve).
  2:{ exists h. split; [done|]. apply (asks_shape agent a canonical); [|done]. rewrite <-(app_nil_r h).
      eapply shape_once; [exact not_authorize|done|apply shape_nil]. }
  unfold mbind, M_bind, catch in Hrun.
  destruct (authorize_attempt agent _ t tk st1) as [r1 st2] eqn:Hatt.
  apply authorize_attempt_spec in Hatt as (c & Hl2 & Ht2 & Hc1 & Hc & Hans).
  rewrite Hl1 in Hl2, Hans. rewrite <-(assoc_L (++)) in Hl2.
  assert (wire_shape (λ s, s_method s = Authorize) (asks agent a canonical) t 1 1 c) as Hsh by by apply shape_one.
  destruct r1 as [resp|e].
  { injection Hrun as <- <-. exists (h ++ c). split; [done|]. apply (asks_shape agent a canonical).
    - eapply shape_once; [exact not_authorize|done|done].
    - destruct (Hans resp eq_refl) as (s & -> & Hs). intros v Hv. exists h, s, resp. split; [done|].
      inversion Hc; naive_solver. }
  destruct (is_class UnauthenticatedError e).
  2:{ injection Hrun as <- <-. exists (h ++ c). split; [done|]. apply (asks_shape agent a canonical); [|done].
      eapply shape_once; [exact not_authorize|done|done]. }
  destruct (_refresh_ticket agent tk t st2) as [r2 st3] eqn:Href.
  apply refresh_ticket_spec in Href as (h2 & Hl3 & Hh2 & _).
  2:{ unfold cache_of. rewrite Ht2. by apply Hserve. }
  rewrite Hl2 in Hl3. rewrite <-!(assoc_L (++)) in Hl3. destruct r2 as [tk2|e2].
  2:{ injection Hrun as <- <-. exists (h ++ c ++ h2). split; [done|]. apply (asks_shape agent a canonical); [|done].
      rewrite <-(app_nil_r h2). eapply shape_twice; [exact not_authorize|done|done|done|apply shape_nil]. }
  destruct (authorize_attempt agent _ t tk2 st3) as [r4 st4] eqn:Hatt2.
  apply authorize_attempt_spec in Hatt2 as (c2 & Hl4 & _ & Hc2 & Hc2f & Hans2).
  rewrite Hl3 in Hl4, Hans2. rewrite <-!(assoc_L (++)) in Hl4.
  exists (h ++ c ++ h2 ++ c2). destruct r4 as [resp|e4]; injection Hrun as <- <-; (split; [done|]).
  all: apply (asks_shape agent a canonical); [by eapply shape_twice; [exact not_authorize|..|apply shape_one]|].
  - destruct (Hans2 resp eq_refl) as (s & -> & Hs). intros v Hv. exists (h ++ c ++ h2), s, resp.
    rewrite <-!(assoc_L (++)). split; [done|]. inversion Hc2f; naive_solver.
  - done.
Qed.
End properties.

(** ** Witnesses: a server that rejects the first ticket and is moving the tenant at the second attempt *)

Definition refused (c : StatusCode) (trailing : option metadata) : exn :=
  RawRpcError (RawRpc (Some (Some c)) (Some (Some (lit "refused"))) (Some (Some (metadata_val trailing)))).

Definition sample_serve (m : method) (log : list sent) : res (reply Z m) :=
  match m return res (reply Z m) with
  | IssueChallenge => Ok {| ch_receiver_aid := lit "aid:pubkey:x"; ch_nonce := lit "c2VhbS1jb25mb3JtLTAwMQ" |}
  | Admit => Ok {| at_ticket := [7; Z.of_nat (length log)]; at_expires_at_ms := 600000 |}
  | Authorize => if Nat.eqb (length log) 2 then Raise (refused UNAUTHENTICATED None)
                 else Ok {| resp_verdict := 1; resp_reason := []; resp_transformed_input := [];
                            resp_authorize_id := lit "az-1"; resp_policy_version := [] |}
  | SubmitVote => if Nat.eqb (length log) 2 then Raise (refused UNAUTHENTICATED None)
                  else if Nat.eqb (length log) 5 then Raise (refused FAILED_PRECONDITION (Some moving_trailing))
                  else Ok 1
  | CancelSession => Ok 2
  | _ => Raise (refused UNIMPLEMENTED None)
  end.
Definition sample_serialize (q : request) : bytes :=
  match q with
  | VoteRequest s v p x r _ => s ++ [0] ++ v ++ [0] ++ p ++ [0] ++ x ++ [0] ++ r
  | SessionRef s => s
  | _ => []
  end.
Definition sample_world : World := {|
  Message := Z; SerializeToString := sample_serialize; clock n := 1000 + Z.of_nat n;
  serve m _ _ _ log := sample_serve m log |}.

Definition voter : Agent := {| seed := repeat 7 32 |}.
Definition bystander : Agent := {| seed := repeat 9 32 |}.
Definition sample_timeout : seconds := S754_finite false 1 1.
Definition sample_vote : request := VoteRequest (lit "s-1") (lit "v") (lit "p") (lit "yes") [] None.
Definition vote_run : res Z * client :=
  @_credentialed_call toy_ed25519 sample_world (Some bystander) Z (Some voter) (path SubmitVote) []
    (Some sample_vote) (λ md, @rpc sample_world SubmitVote sample_vote md sample_timeout) sample_timeout true new_client.

Example vote_run_six_calls : s_method <$> c_log vote_run.2 = [IssueChallenge; Admit; SubmitVote; IssueChallenge; Admit; SubmitVote].
Proof. vm_compute. reflexivity. Qed.

Lemma credentialed_call_bounded_witness : (length (c_log vote_run.2) ≤ 6)%nat.
Proof.
  destruct (@credentialed_call_bounded toy_ed25519 sample_world toy_ed25519_laws (Some bystander) (Some voter) voter
    SubmitVote sample_vote [] (Some sample_vote) sample_timeout true new_client vote_run.1 vote_run.2)
    as (calls & Hl & Hlen & _); [reflexivity|apply surjective_pairing|].
  rewrite Hl. exact Hlen.
Defined.

Lemma burned_ticket_forgotten_witness :
  tc_get (cache_of vote_run.2 (@aid toy_ed25519 voter)) (@clock sample_world (c_readings vote_run.2)) ≠ Some [7; 4].
Proof.
  apply (@burned_ticket_forgotten toy_ed25519 sample_world (Some bystander) (Some voter) voter
    SubmitVote sample_vote [] (Some sample_vote) sample_timeout true new_client
    (SeamRpcError FailedPreconditionError FAILED_PRECONDITION (lit "refused") (Some moving_trailing)) vote_run.2)
    with (earlier := take 5 (c_log vote_run.2)) (s := nth 5 (c_log vote_run.2) (Sent Admit Empty None sample_timeout)).
  - intros i j Hij. cbn [clock sample_world]. lia.
  - reflexivity.
  - apply (bool_decide_unpack _). vm_compute. exact I.
  - refine (eq_trans (surjective_pairing vote_run) (f_equal (λ r, (r, vote_run.2)) _)). vm_compute. reflexivity.
  - right. vm_compute. reflexivity.
  - vm_compute. reflexivity.
  - eexists. split; vm_compute; reflexivity.
Defined.

Lemma other_identities_untouched_witness :
  tc_get (cache_of vote_run.2 (@aid toy_ed25519 bystander)) 2000 = tc_get (cache_of new_client (@aid toy_ed25519 bystander)) 2000.
Proof.
  apply (@other_identities_untouched toy_ed25519 sample_world (Some bystander) (Some voter) voter
    SubmitVote sample_vote [] (Some sample_vote) sample_timeout true new_client vote_run.1 vote_run.2 bystander).
  - reflexivity.
  - vm_compute. discriminate.
  - apply surjective_pairing.
Defined.

Definition cancel_run : res Z * client :=
  @_signed_once toy_ed25519 sample_world (Some voter) Z None (path CancelSession) [] (Some (SessionRef (lit "s-1")))
    (λ md, @rpc sample_world CancelSession (SessionRef (lit "s-1")) md sample_timeout) sample_timeout new_client.

Lemma signed_once_single_witness : (length (c_log cancel_run.2) ≤ 3)%nat.
Proof.
  destruct (@signed_once_single toy_ed25519 sample_world toy_ed25519_laws (Some voter) None voter CancelSession
    (SessionRef (lit "s-1")) [] (Some (SessionRef (lit "s-1"))) sample_timeout new_client cancel_run.1 cancel_run.2)
    as (h & c & Hl & Hh & Hc & _); [reflexivity|apply surjective_pairing|].
  rewrite Hl. cbn [c_log new_client app]. rewrite length_app. lia.
Defined.

Definition authorize_run : res AuthorizeResult * client :=
  @authorize toy_ed25519 sample_enum sample_world voter sample_authorize sample_timeout new_client.

Example authorize_run_allowed : allowed <$> authorize_run.1 = Ok true.
Proof. vm_compute. reflexivity. Qed.

Lemma authorize_asks_once_witness : (length (c_log authorize_run.2) ≤ 6)%nat.
Proof.
  destruct (@authorize_asks_once toy_ed25519 sample_enum sample_world voter sample_authorize sample_timeout new_client
    authorize_run.1 authorize_run.2 (surjective_pairing _)) as [_ Hok].
  destruct (_resolve_canonical (ar_tool_input sample_authorize) (ar_canonical sample_authorize)) as [c|e] eqn:E;
    [|vm_compute in E; discriminate E].
  destruct (Hok c eq_refl) as (calls & Hl & Hlen & _). rewrite Hl. exact Hlen.
Defined.
