(* ===== verification/Verbs.v ===== *)
(** * Verbs: the public methods of [SeamClient]

    [client.py], the decision, session, context and trust verbs on top of [Client]: each builds its
    request from its arguments (the checks that run before the wire included), names its RPC and its
    resource id, and goes out through [_credentialed_call] or [_signed_once]. *)

From stdpp Require Import base list numbers option strings gmap.
From Stdlib Require Import SpecFloat.
From S2P Require Import Prelude Text Sha256 Base64 Keys Framing Jcs Errors Authorize Outcome Client.

(** ** Argument checks *)

Definition _u32 (value : pyval) : res Z :=
  match value with
  | PInt z => if (0 <=? z) && (z <=? 0xFFFFFFFF) then Ok z else Raise ValueError
  | _ => Raise TypeError
  end.

Definition _check_idempotency_key (key : pyval) : res pystr :=
  match key with
  | PStr k =>
    if negb ((1 <=? zlen k) && (zlen k <=? 128)) || negb (forallb (λ ch, (32 <=? ch) && (ch <=? 126)) k)
    then Raise ValueError else Ok k
  | _ => Raise TypeError
  end.

(** The fields of the request [_set_outcome_fields] sets: reward, metrics, observed_at_millis. *)
Definition _set_outcome_fields (reward metrics : pyval) (observed_at : option ObservedAt)
    : res (option spec_float * list (pystr * spec_float) * option Z) :=
  check_outcome_fields reward metrics observed_at.

(** The elements of a non-string [Sequence]. A buffer ([bytearray], [memoryview]) is one too, but of
    numbers, which protobuf refuses for a [string] field: [TypeError] either way. *)
Definition sequence_items (v : pyval) : option (list pyval) :=
  match v with PList l | PTuple l => Some l | _ => None end.

Section votes.
(** What protobuf makes of a constructor argument for a [string] field. *)
Context (pb_string : pyval → res pystr).

Definition vote_message (vote : pyval) : res Vote :=
  match sequence_items vote with
  | Some [agent; value] =>
    a ← pb_string agent; v ← pb_string value; Ok {| v_agent := a; v_value := v; v_reason := [] |}
  | Some [agent; value; reason] =>
    a ← pb_string agent; v ← pb_string value; r ← pb_string reason;
    Ok {| v_agent := a; v_value := v; v_reason := r |}
  | _ => Raise TypeError
  end.

Definition _vote_messages (votes : pyval) : res (list Vote) :=
  l ← py_iter votes;
  mapM vote_message l.
End votes.

(** [list(x or [])] *)
Definition or_empty (x : option (list pystr)) : list pystr := default [] x.

Section verbs.
Context `{Ed25519} `{World} (_agent : option Agent).

(** ** Decisions *)

Definition run_decision (pb_string : pyval → res pystr) (agent : Agent) (session_id : pystr)
    (participants : list pystr) (votes : pyval) (features : option str_dict) (on_behalf_of : list pystr)
    (timeout : seconds) : M Message :=
  vs ← lift (_vote_messages pb_string votes);
  p ← _presentation agent timeout;
  let req := RunDecisionRequest session_id participants vs p on_behalf_of (default [] features) in
  rpc RunDecision req None timeout.

Definition get_escalation (authorize_id : pystr) (credential : option Agent) (timeout : seconds) : M Message :=
  _credentialed_call _agent credential (lit "/seam.api.v1.SeamAuthorization/GetEscalation") authorize_id None
    (λ md, rpc GetEscalation (EscalationRef authorize_id) md timeout) timeout true.

(** ** Sessions *)

Definition open_session (agent : Agent) (session_id : pystr) (participants : list pystr) (budget : Z)
    (limits : option BudgetLimits) (mode : pystr) (on_behalf_of : list pystr) (credential : option Agent)
    (timeout : seconds) : M Message :=
  p ← _presentation agent timeout;
  let req := OpenSessionRequest session_id participants budget mode p on_behalf_of (BudgetLimits_to_pb <$> limits) in
  _signed_once _agent credential (lit "/seam.api.v1.SeamCoordination/OpenSession") [] (Some req)
    (λ md, rpc OpenSession req md timeout) timeout.

Definition submit_proposal (session_id proposer proposal_id choice : pystr) (usage : option StepUsage)
    (credential : option Agent) (timeout : seconds) : M Message :=
  let req := ProposalRequest session_id proposer proposal_id choice usage in
  _credentialed_call _agent credential (lit "/seam.api.v1.SeamCoordination/SubmitProposal") [] (Some req)
    (λ md, rpc SubmitProposal req md timeout) timeout true.

Definition submit_vote (session_id voter proposal_id value reason : pystr) (usage : option StepUsage)
    (credential : option Agent) (timeout : seconds) : M Message :=
  let req := VoteRequest session_id voter proposal_id value reason usage in
  _credentialed_call _agent credential (lit "/seam.api.v1.SeamCoordination/SubmitVote") [] (Some req)
    (λ md, rpc SubmitVote req md timeout) timeout true.

Definition submit_evaluation (session_id evaluator proposal_id recommendation : pystr)
    (confidence : option spec_float) (reason : pystr) (rationale_ref : option pystr) (usage : option StepUsage)
    (credential : option Agent) (timeout : seconds) : M Message :=
  let req := EvaluationRequest session_id evaluator proposal_id recommendation reason confidence rationale_ref usage in
  _credentialed_call _agent credential (lit "/seam.api.v1.SeamCoordination/SubmitEvaluation") [] (Some req)
    (λ md, rpc SubmitEvaluation req md timeout) timeout true.

Definition submit_objection (session_id objector proposal_id reason severity : pystr) (usage : option StepUsage)
    (credential : option Agent) (timeout : seconds) : M Message :=
  let req := ObjectionRequest session_id objector proposal_id reason severity usage in
  _credentialed_call _agent credential (lit "/seam.api.v1.SeamCoordination/SubmitObjection") [] (Some req)
    (λ md, rpc SubmitObjection req md timeout) timeout true.

Definition submit_commit (session_id commitment_id action : pystr) (supersedes : option pystr)
    (usage : option StepUsage) (credential : option Agent) (timeout : seconds) : M Message :=
  let req := CommitRequest session_id commitment_id action supersedes usage in
  _credentialed_call _agent credential (lit "/seam.api.v1.SeamCoordination/SubmitCommit") [] (Some req)
    (λ md, rpc SubmitCommit req md timeout) timeout true.

Definition submit_approval_request (session_id requester request_id action : pystr) (required_approvals : pyval)
    (usage : option StepUsage) (credential : option Agent) (timeout : seconds) : M Message :=
  n ← lift (_u32 required_approvals);
  let req := ApprovalRequestRequest session_id requester request_id action n usage in
  _credentialed_call _agent credential (lit "/seam.api.v1.SeamCoordination/SubmitApprovalRequest") [] (Some req)
    (λ md, rpc SubmitApprovalRequest req md timeout) timeout true.

Definition submit_ballot (session_id voter request_id : pystr) (choice : Z) (reason : pystr)
    (usage : option StepUsage) (credential : option Agent) (timeout : seconds) : M Message :=
  let req := BallotRequest session_id voter request_id choice reason usage in
  _credentialed_call _agent credential (lit "/seam.api.v1.SeamCoordination/SubmitBallot") [] (Some req)
    (λ md, rpc SubmitBallot req md timeout) timeout true.

(** The tombstone: one uncredentialed call. (The deprecation warning is not modelled.) *)
Definition resume_session (session_id : pystr) (budget : Z) (raise_ : option BudgetLimits) (timeout : seconds)
    : M Message :=
  rpc ResumeSession (ResumeRequest session_id budget (BudgetLimits_to_pb <$> raise_)) None timeout.

Definition cancel_session (session_id : pystr) (credential : option Agent) (timeout : seconds) : M Message :=
  let req := SessionRef session_id in
  _signed_once _agent credential (lit "/seam.api.v1.SeamCoordination/CancelSession") [] (Some req)
    (λ md, rpc CancelSession req md timeout) timeout.

Definition expire_session (session_id : pystr) (credential : option Agent) (timeout : seconds) : M Message :=
  let req := SessionRef session_id in
  _signed_once _agent credential (lit "/seam.api.v1.SeamCoordination/ExpireSession") [] (Some req)
    (λ md, rpc ExpireSession req md timeout) timeout.

(** ** Reads *)

Definition session_status (session_id : pystr) (credential : option Agent) (timeout : seconds) : M Message :=
  _credentialed_call _agent credential (lit "/seam.api.v1.SeamCoordination/SessionStatus") session_id None
    (λ md, rpc SessionStatus (SessionRef session_id) md timeout) timeout true.

Definition get_decision (decision_id : pystr) (credential : option Agent) (timeout : seconds) : M Message :=
  _credentialed_call _agent credential (lit "/seam.api.v1.SeamCoordination/GetDecision") decision_id None
    (λ md, rpc GetDecision (DecisionRef decision_id) md timeout) timeout true.

Definition replay_decision (decision_id : pystr) (credential : option Agent) (timeout : seconds) : M Message :=
  _credentialed_call _agent credential (lit "/seam.api.v1.SeamCoordination/ReplayDecision") decision_id None
    (λ md, rpc ReplayDecision (DecisionRef decision_id) md timeout) timeout true.

Definition get_commitment_proof (decision_id : pystr) (credential : option Agent) (timeout : seconds)
    : M CommitmentProof :=
  _credentialed_call _agent credential (lit "/seam.api.v1.SeamCoordination/GetCommitmentProof") decision_id None
    (λ md, rpc GetCommitmentProof (DecisionRef decision_id) md timeout) timeout true.

Definition who_am_i (credential : option Agent) (timeout : seconds) : M Message :=
  _credentialed_call _agent credential (lit "/seam.api.v1.SeamTrust/WhoAmI") [] None
    (λ md, rpc WhoAmI Empty md timeout) timeout true.

(** ** Outcomes and context *)

Definition report_outcome (decision_id : pystr) (correct : bool) (verified_by : option pystr)
    (idempotency_key reward metrics : pyval) (observed_at : option ObservedAt) (credential : option Agent)
    (timeout : seconds) : M bool :=
  key ← lift (_check_idempotency_key idempotency_key);
  fields ← lift (_set_outcome_fields reward metrics observed_at);
  let '(r, m, t) := fields in
  let req := ReportOutcomeRequest decision_id correct key r m t verified_by in
  _credentialed_call _agent credential (lit "/seam.api.v1.SeamCoordination/ReportOutcome") [] (Some req)
    (λ md, rpc ReportOutcome req md timeout) timeout true.

Definition register_context (content : bytes) (fidelity : pystr) (derived_from : option (list pystr))
    (credential : option Agent) (timeout : seconds) : M pystr :=
  let req := RegisterContextRequest content fidelity (or_empty derived_from) in
  _credentialed_call _agent credential (lit "/seam.api.v1.SeamContext/RegisterContext") [] (Some req)
    (λ md, rpc RegisterContext req md timeout) timeout true.

Definition resolve_context (refs : list pystr) (credential : option Agent) (timeout : seconds) : M (list Message) :=
  let req := ResolveContextRequest refs in
  _credentialed_call _agent credential (lit "/seam.api.v1.SeamContext/ResolveContext") [] (Some req)
    (λ md, rpc ResolveContext req md timeout) timeout true.

(** ** Uncredentialed trust reads *)

Definition issuer_aid (timeout : seconds) : M pystr := rpc IssuerAid Empty None timeout.
Definition server_info (timeout : seconds) : M pystr := runtime_version <$> rpc ServerInfo Empty None timeout.
Definition server_wire_features (timeout : seconds) : M (list pystr) :=
  wire_features <$> rpc ServerInfo Empty None timeout.

Definition verify_commitment (commitment : pb_Commitment) (signed_artifact : bytes) (timeout : seconds) : M bool :=
  rpc VerifyCommitment (VerifyCommitmentRequest commitment signed_artifact) None timeout.
Definition verify_party_anchor (party_id : pystr) (anchor : bytes) (tenant : pystr) (timeout : seconds) : M bool :=
  rpc VerifyPartyAnchor (VerifyAnchorRequest party_id anchor tenant) None timeout.
Definition verify_party_attestation (party_id : pystr) (attestation : bytes) (timeout : seconds) : M bool :=
  rpc VerifyPartyAttestation (VerifyAttestationRequest party_id attestation) None timeout.

(** ** Every credentialed verb, with its arguments *)

Inductive verb :=
| VGetEscalation (authorize_id : pystr)
| VOpenSession (agent : Agent) (session_id : pystr) (participants : list pystr) (budget : Z)
    (limits : option BudgetLimits) (mode : pystr) (on_behalf_of : list pystr)
| VSubmitProposal (session_id proposer proposal_id choice : pystr) (usage : option StepUsage)
| VSubmitVote (session_id voter proposal_id value reason : pystr) (usage : option StepUsage)
| VSubmitEvaluation (session_id evaluator proposal_id recommendation : pystr) (confidence : option spec_float)
    (reason : pystr) (rationale_ref : option pystr) (usage : option StepUsage)
| VSubmitObjection (session_id objector proposal_id reason severity : pystr) (usage : option StepUsage)
| VSubmitCommit (session_id commitment_id action : pystr) (supersedes : option pystr) (usage : option StepUsage)
| VSubmitApprovalRequest (session_id requester request_id action : pystr) (required_approvals : pyval)
    (usage : option StepUsage)
| VSubmitBallot (session_id voter request_id : pystr) (choice : Z) (reason : pystr) (usage : option StepUsage)
| VCancelSession (session_id : pystr)
| VExpireSession (session_id : pystr)
| VSessionStatus (session_id : pystr)
| VGetDecision (decision_id : pystr)
| VReplayDecision (decision_id : pystr)
| VGetCommitmentProof (decision_id : pystr)
| VWhoAmI
| VReportOutcome (decision_id : pystr) (correct : bool) (verified_by : option pystr)
    (idempotency_key reward metrics : pyval) (observed_at : option ObservedAt)
| VRegisterContext (content : bytes) (fidelity : pystr) (derived_from : option (list pystr))
| VResolveContext (refs : list pystr).

Definition method_of (v : verb) : method :=
  match v with
  | VGetEscalation _ => GetEscalation | VOpenSession _ _ _ _ _ _ _ => OpenSession
  | VSubmitProposal _ _ _ _ _ => SubmitProposal | VSubmitVote _ _ _ _ _ _ => SubmitVote
  | VSubmitEvaluation _ _ _ _ _ _ _ _ => SubmitEvaluation | VSubmitObjection _ _ _ _ _ _ => SubmitObjection
  | VSubmitCommit _ _ _ _ _ => SubmitCommit | VSubmitApprovalRequest _ _ _ _ _ _ => SubmitApprovalRequest
  | VSubmitBallot _ _ _ _ _ _ => SubmitBallot | VCancelSession _ => CancelSession
  | VExpireSession _ => ExpireSession | VSessionStatus _ => SessionStatus | VGetDecision _ => GetDecision
  | VReplayDecision _ => ReplayDecision | VGetCommitmentProof _ => GetCommitmentProof | VWhoAmI => WhoAmI
  | VReportOutcome _ _ _ _ _ _ _ => ReportOutcome | VRegisterContext _ _ _ => RegisterContext
  | VResolveContext _ => ResolveContext
  end.

Definition run_verb (v : verb) (cred : option Agent) (t : seconds) : M (reply Message (method_of v)) :=
  match v return M (reply Message (method_of v)) with
  | VGetEscalation a => get_escalation a cred t
  | VOpenSession a s ps b l m o => open_session a s ps b l m o cred t
  | VSubmitProposal s p i c u => submit_proposal s p i c u cred t
  | VSubmitVote s v i x r u => submit_vote s v i x r u cred t
  | VSubmitEvaluation s e i rec c r ref u => submit_evaluation s e i rec c r ref u cred t
  | VSubmitObjection s o i r sev u => submit_objection s o i r sev u cred t
  | VSubmitCommit s c a sup u => submit_commit s c a sup u cred t
  | VSubmitApprovalRequest s r i a n u => submit_approval_request s r i a n u cred t
  | VSubmitBallot s v i c r u => submit_ballot s v i c r u cred t
  | VCancelSession s => cancel_session s cred t
  | VExpireSession s => expire_session s cred t
  | VSessionStatus s => session_status s cred t
  | VGetDecision d => get_decision d cred t
  | VReplayDecision d => replay_decision d cred t
  | VGetCommitmentProof d => get_commitment_proof d cred t
  | VWhoAmI => who_am_i cred t
  | VReportOutcome d c v k r m o => report_outcome d c v k r m o cred t
  | VRegisterContext c f d => register_context c f d cred t
  | VResolveContext r => resolve_context r cred t
  end.
End verbs.

(** ** Properties *)

(** The runtime's rule for what a credential covers: a bodyless read binds its id, [WhoAmI] the verb
    alone, every other verb its whole request. *)
Definition framing (m : method) (q : request) : pystr * option request :=
  match m, q with
  | SessionStatus, SessionRef id => (id, None)
  | (GetDecision | ReplayDecision | GetCommitmentProof), DecisionRef id => (id, None)
  | GetEscalation, EscalationRef id => (id, None)
  | WhoAmI, _ => ([], None)
  | _, q => ([], Some q)
  end.

Section properties.
Context `{Ed25519} `{World} (_agent : option Agent).

(** [st1] is [st] after at most a challenge. *)
Definition challenged (t : seconds) (st st1 : client) (pre : list sent) : Prop :=
  c_log st1 = c_log st ++ pre ∧ c_tickets st1 = c_tickets st ∧
  (pre = [] ∨ pre = [Sent IssueChallenge IssueChallengeRequest None t]).

Lemma challenged_refl t st : challenged t st st [].
Proof. split; [by rewrite app_nil_r|by split; [|left]]. Qed.

Lemma presentation_run agent t st r st' :
  _presentation agent t st = (r, st') →
  challenged t st st' [Sent IssueChallenge IssueChallengeRequest None t].
Proof.
  unfold _presentation. intros [(ch & st2 & [= _ <-] & Hp)|(? & [= _ <-] & _)]%M_bind_run;
    [|by split; [|split; [|right]]].
  apply M_bind_run in Hp as [(now & st3 & [= _ <-] & Hp)|(? & [=] & _)].
  apply M_bind_run in Hp as [(b & st4 & [= _ <-] & [= _ <-])|(? & [= _ <-] & _)].
  all: split; [done|]; split; [done|by right].
Qed.

(** What a verb comes down to: an argument check or the challenge for its presentation failed, or one
    of the two credentialed paths runs, under the verb's own path and with the prescribed framing. *)
Lemma verb_dispatch v cred t st r st' :
  run_verb _agent v cred t st = (r, st') →
  let m := method_of v in
  (∃ e pre, r = Raise e ∧ challenged t st st' pre) ∨
  (∃ q, _credentialed_call _agent cred (path m) (framing m q).1 (framing m q).2 (λ md, rpc m q md t) t true st = (r, st')) ∨
  (∃ q st1 pre, challenged t st st1 pre ∧
     _signed_once _agent cred (path m) (framing m q).1 (framing m q).2 (λ md, rpc m q md t) t st1 = (r, st')).
Proof.
  destruct v; cbn [run_verb method_of]; intros Hrun.
  all: try (right; left; eexists; exact Hrun).
  all: try (right; right; do 3 eexists; split; [apply challenged_refl|exact Hrun]).
  - apply M_bind_run in Hrun as [(p & st1 & Hp%presentation_run & Hrun)|(e & Hp%presentation_run & ->)].
    + right; right. do 3 eexists. split; [exact Hp|exact Hrun].
    + left. by eauto.
  - apply M_bind_run in Hrun as [(n & st1 & [= _ <-] & Hrun)|(e & [= _ <-] & ->)].
    + right; left. eexists; exact Hrun.
    + left. eauto using challenged_refl.
  - apply M_bind_run in Hrun as [(k & st1 & [= _ <-] & Hrun)|(e & [= _ <-] & ->)]; [|left; eauto using challenged_refl].
    apply M_bind_run in Hrun as [([[x y] z] & st1 & [= _ <-] & Hrun)|(e & [= _ <-] & ->)]; [|left; eauto using challenged_refl].
    right; left. eexists; exact Hrun.
Qed.

(** C6. Every credentialed verb signs what it sends: whichever of the nineteen verbs is called and
    whatever the server answers, with a signer it makes at most six calls, each with the caller's
    deadline; every call is an uncredentialed challenge or [Admit], or a call of the verb's own RPC
    whose credential verifies under the signer's key over that RPC's path and what the runtime
    requires it to cover - the id of a bodyless read, the whole request of any other verb. *)
Theorem verb_signs_what_it_sends `{!Ed25519Laws} v cred signer t st r st' :
  _signer _agent cred = Some signer → run_verb _agent v cred t st = (r, st') →
  ∃ calls, c_log st' = c_log st ++ calls ∧ (length calls ≤ 6)%nat ∧ Forall (λ s, s_timeout s = t) calls ∧
    Forall (λ s, s_md s = None ∧ s_method s ∈ [IssueChallenge; Admit] ∨
                 ∃ q, credentialed signer (method_of v) q (framing (method_of v) q).1 (framing (method_of v) q).2 s)
      calls.
Proof.
  intros Hs Hrun. apply verb_dispatch in Hrun as
    [(e & pre & -> & Hl & _ & Hpre)|[(q & (calls & Hl & ? & _ & ? & Hf)%(credentialed_call_shape _ _ signer))|
     (q & st1 & pre & (Hl1 & _ & Hpre) & (calls & Hl & ? & _ & ? & Hf)%(signed_once_shape _ _ signer))]]; try done.
  - exists pre. split; [done|]. destruct Hpre as [-> | ->]; (split; [simpl; lia|]); split; repeat constructor.
  - exists calls. split_and!; [done|lia|done|]. eapply Forall_impl; [done|]. naive_solver.
  - exists (pre ++ calls). rewrite Hl, Hl1, (assoc_L (++)), length_app, !Forall_app.
    assert (∃ q, Forall (λ s, s_md s = None ∧ s_method s ∈ [IssueChallenge; Admit] ∨
      credentialed signer (method_of v) q (framing (method_of v) q).1 (framing (method_of v) q).2 s) calls)
      as (q' & Hq) by by exists q.
    destruct Hpre as [-> | ->]; split_and!; simpl; try lia; try done; try (repeat constructor; fail);
      (eapply Forall_impl; [done|]; naive_solver).
Qed.

End properties.

(** Without a signer a verb carries no identity: on an unbound client and without [credential], no call
    has metadata, no ticket is acquired or dropped, and at most one challenge (that of [open_session])
    precedes the one call of the verb; nothing is retried. *)
Theorem verb_unsigned `{Ed25519} `{World} v t st :
  let st' := (run_verb None v None t st).2 in
  c_tickets st' = c_tickets st ∧ ∃ calls, c_log st' = c_log st ++ calls ∧ (length calls ≤ 2)%nat ∧
    Forall (λ s, s_md s = None ∧ s_timeout s = t) calls ∧
    (s_method <$> calls) ∈ [[]; [IssueChallenge]; [method_of v]; [IssueChallenge; method_of v]].
Proof.
  destruct (run_verb None v None t st) as [r st'] eqn:Hrun. cbn [snd].
  apply verb_dispatch in Hrun as [(e & pre & -> & Hl & Ht & Hpre)|[(q & [= _ <-])|
    (q & st1 & pre & (Hl & Ht & Hpre) & [= _ <-])]].
  - split; [done|]. exists pre. split; [done|]. destruct Hpre as [-> | ->]; (split; [simpl; lia|]);
      (split; [by repeat constructor|]); set_solver.
  - split; [done|]. eexists. split; [done|]. split; [simpl; lia|]. split; [by repeat constructor|]. set_solver.
  - split; [done|]. cbn [c_log]. rewrite Hl, <-(assoc_L (++)). eexists. split; [done|].
    destruct Hpre as [-> | ->]; (split; [simpl; lia|]); (split; [by repeat constructor|]); set_solver.
Qed.

(** An outcome is checked before it is sent, and only the checked values are sent: a key that is not
    1-128 printable ASCII characters, or fields [check_outcome_fields] refuses, raise before any call,
    with the client unchanged; otherwise every [ReportOutcome] call carries exactly the checked key and
    fields, and the key is the caller's. *)
Theorem outcome_checked_before_wire `{Ed25519} `{World} bound d correct by_ key reward metrics observed cred t st :
  let '(r, st') := report_outcome bound d correct by_ key reward metrics observed cred t st in
  (∀ k, _check_idempotency_key key = Ok k ↔
     key = PStr k ∧ 1 ≤ zlen k ≤ 128 ∧ Forall (λ ch, 32 ≤ ch ≤ 126) k) ∧
  (∀ e, _check_idempotency_key key = Raise e → r = Raise e ∧ st' = st) ∧
  (∀ k e, _check_idempotency_key key = Ok k → check_outcome_fields reward metrics observed = Raise e →
     r = Raise e ∧ st' = st) ∧
  (∀ k rw ms ts, _check_idempotency_key key = Ok k → check_outcome_fields reward metrics observed = Ok (rw, ms, ts) →
     ∃ calls, c_log st' = c_log st ++ calls ∧
       Forall (λ s, s_method s ∈ [IssueChallenge; Admit] ∨
                    s_method s = ReportOutcome ∧ s_request s = ReportOutcomeRequest d correct k rw ms ts by_) calls).
Proof.
  destruct (report_outcome _ _ _ _ _ _ _ _ _ _ st) as [r st'] eqn:Hrun. split_and!.
  - intros k. unfold _check_idempotency_key. destruct key as [| | | |s| | | | | |]; try (split; [done|by intros [[=] _]]).
    destruct (negb _ || negb _) eqn:E.
    + split; [done|]. intros ([= ->] & [H1 H2] & Hf). exfalso.
      rewrite (proj2 (Z.leb_le _ _) H1), (proj2 (Z.leb_le _ _) H2) in E. cbn [andb negb orb] in E.
      rewrite (proj2 (forallb_forall _ _)) in E; [done|]. intros c Hc. rewrite Forall_forall in Hf.
      apply andb_true_iff. rewrite !Z.leb_le. apply Hf. by apply list_elem_of_In.
    + apply orb_false_iff in E as [Hlen%negb_false_iff Hf%negb_false_iff].
      apply andb_true_iff in Hlen as [H1%Z.leb_le H2%Z.leb_le].
      split; [intros <-%Ok_inj|by intros ([= ->] & _)]. split_and!; try done. apply Forall_forall. intros c Hc%list_elem_of_In.
      rewrite forallb_forall in Hf. apply Hf, andb_true_iff in Hc as [?%Z.leb_le ?%Z.leb_le]. done.
  - intros e He. unfold report_outcome, lift, mbind, M_bind in Hrun. rewrite He in Hrun. by injection Hrun as <- <-.
  - intros k e Hk He. unfold report_outcome, lift, mbind, M_bind, _set_outcome_fields in Hrun. rewrite Hk, He in Hrun.
    by injection Hrun as <- <-.
  - intros k rw ms ts Hk Hf. unfold report_outcome, lift, mbind, M_bind, _set_outcome_fields in Hrun.
    rewrite Hk, Hf in Hrun.
    destruct (credentialed_call_requests bound cred ReportOutcome
      (ReportOutcomeRequest d correct k rw ms ts by_) [] (Some (ReportOutcomeRequest d correct k rw ms ts by_)) t true st)
      as (calls & Hl & Hc).
    exists calls. split; [|done]. rewrite <-Hl. f_equal. exact (f_equal snd (eq_sym Hrun)).
Qed.

(** ** Witness *)

Definition vote_verb : verb := VSubmitVote (lit "s-1") (lit "v") (lit "p") (lit "yes") [] None.

Lemma verb_signs_what_it_sends_witness :
  (length (c_log (@run_verb toy_ed25519 sample_world (Some bystander) vote_verb (Some voter) sample_timeout new_client).2)
   ≤ 6)%nat.
Proof.
  destruct (@verb_signs_what_it_sends toy_ed25519 sample_world (Some bystander) toy_ed25519_laws vote_verb (Some voter)
    voter sample_timeout new_client _ _ eq_refl
    (surjective_pairing (@run_verb toy_ed25519 sample_world (Some bystander) vote_verb (Some voter) sample_timeout new_client)))
    as (calls & Hl & Hlen & _).
  rewrite Hl. exact Hlen.
Defined.
