(* ===== verification/Verify.v ===== *)
(** * Verify: [verify_decision]

    [client.py]: fetching a sealed decision's proof and verifying its rooted TCT against a pinned issuer.
    [commitment_view] turns the served [Commitment] message into the mapping [verify_tct] takes. The enum
    numbers of [ExplanationKind] are generated code, hence the class. *)

From stdpp Require Import base list numbers option strings gmap.
From Stdlib Require Import SpecFloat.
From S2P Require Import Prelude Text Sha256 Base64 Keys Framing Floats Json Jcs RecordDigest Commitment Errors Authorize.
From S2P Require Import Client Verbs.

Class ExplanationKindEnum := {
  pb_KIND_VOTE : Z; pb_KIND_EVALUATION : Z; pb_KIND_OBJECTION : Z; pb_KIND_BALLOT : Z;
}.

Section view.
Context `{ExplanationKindEnum}.

Definition _EXPLANATION_KIND_WORDS : list (Z * pystr) :=
  [(pb_KIND_VOTE, lit "vote"); (pb_KIND_EVALUATION, lit "evaluation"); (pb_KIND_OBJECTION, lit "objection");
   (pb_KIND_BALLOT, lit "ballot")].

Definition kind_word (kind : Z) : pystr :=
  default (lit "<unknown kind " ++ str_of_int kind ++ lit ">") (int_get kind _EXPLANATION_KIND_WORDS).

Definition opt_str (o : option pystr) : pyval := from_option PStr PNone o.

Definition entry_dict (e : ExplanationEntry) : pyval := PDict (str_items
  [("kind", PStr (kind_word (ee_kind e))); ("participant", PStr (ee_participant e));
   ("proposal_id", PStr (ee_proposal_id e)); ("value", PStr (ee_value e)); ("reason", PStr (ee_reason e));
   ("confidence", from_option PFloat PNone (ee_confidence e));
   ("rationale_ref", opt_str (ee_rationale_ref e))]%string).

Definition commitment_view (c : pb_Commitment) : pyval := PDict (str_items
  [("id", PStr (cm_id c)); ("action", PStr (cm_action c)); ("authority", PStr (cm_authority c));
   ("auth_method", PStr (cm_auth_method c)); ("trust_basis", PStr (cm_trust_basis c));
   ("supersedes", opt_str (cm_supersedes c)); ("committer", PStr (cm_committer c));
   ("explanation_digest", match cm_explanation_digest c with [] => PNone | b => PBytes b end);
   ("explanation", PList (entry_dict <$> cm_explanation c))]%string).
End view.

(** [now] is the second [verify_tct] reads off the clock. *)
Definition verify_decision `{Ed25519} `{World} `{ExplanationKindEnum} (_agent : option Agent)
    (decision_id expected_issuer : pystr) (credential : option Agent) (timeout : seconds) (now : Z) : M bool :=
  proof ← get_commitment_proof _agent decision_id credential timeout;
  if decide (cp_issuer_aid proof ≠ expected_issuer)
  then raise (IssuerMismatchError (cp_issuer_aid proof) expected_issuer)
  else
    let c := cp_commitment proof in
    artifact ← lift (utf8_decode (cm_signed_artifact c));
    mret (verify_tct expected_issuer artifact (commitment_view c) now).

(** ** Properties *)

Section properties.
Context `{ExplanationKindEnum}.

(** The content of an entry and of a commitment that a TCT attests. *)
Record attested_entry := {
  a_kind : Z; a_participant : pystr; a_proposal_id : pystr; a_value : pystr; a_reason : pystr;
  a_confidence : option Z;    (** the bit pattern of the double *)
  a_rationale_ref : option pystr;
}.
Definition attested (e : ExplanationEntry) : attested_entry := {|
  a_kind := ee_kind e; a_participant := ee_participant e; a_proposal_id := ee_proposal_id e;
  a_value := ee_value e; a_reason := ee_reason e;
  a_confidence := (λ f, float_bits f mod 2 ^ 64) <$> ee_confidence e; a_rationale_ref := ee_rationale_ref e |}.
Definition same_content (c c' : pb_Commitment) : Prop :=
  cm_id c = cm_id c' ∧ cm_action c = cm_action c' ∧ cm_authority c = cm_authority c' ∧
  cm_auth_method c = cm_auth_method c' ∧ cm_trust_basis c = cm_trust_basis c' ∧
  cm_supersedes c = cm_supersedes c' ∧ cm_committer c = cm_committer c' ∧
  (attested <$> cm_explanation c) = (attested <$> cm_explanation c').

Lemma unknown_word s : (lit "<unknown kind " ++ s) ∉ EXPLANATION_KINDS.
Proof. unfold EXPLANATION_KINDS. rewrite !not_elem_of_cons. split_and!; [vm_compute; discriminate..|apply not_elem_of_nil]. Qed.

Lemma kind_word_inj k k' :
  kind_word k ∈ EXPLANATION_KINDS → kind_word k = kind_word k' → k = k'.
Proof.
  assert (∀ k w, w ∈ EXPLANATION_KINDS → kind_word k = w → (k, w) ∈ _EXPLANATION_KIND_WORDS) as Hin.
  { intros j w Hw. unfold kind_word. destruct (int_get j _EXPLANATION_KIND_WORDS) as [v|] eqn:E; cbn [default].
    - intros <-. by apply int_get_in.
    - intros <-. by apply unknown_word in Hw. }
  intros Hk Heq. pose proof (Hin k _ Hk eq_refl) as H1. pose proof (Hin k' _ Hk (eq_sym Heq)) as H2.
  revert H1 H2. generalize (kind_word k). intros w. unfold _EXPLANATION_KIND_WORDS.
  rewrite !elem_of_cons, !elem_of_nil. intros [[= -> ->]|[[= -> ->]|[[= -> ->]|[[= -> ->]|[]]]]];
    intros [[= ->]|[[= ->]|[[= ->]|[[= ->]|[]]]]]; done.
Qed.

(** What an entry of the view binds. *)
Definition bound_entry (e : ExplanationEntry) : expl_entry := {|
  x_kind := kind_word (ee_kind e); x_participant := ee_participant e; x_proposal_id := ee_proposal_id e;
  x_value := ee_value e; x_reason := ee_reason e;
  x_confidence := (λ f, float_bits f mod 2 ^ 64) <$> ee_confidence e; x_rationale_ref := ee_rationale_ref e |}.

Lemma bound_entry_inj e e' :
  kind_word (ee_kind e) ∈ EXPLANATION_KINDS → bound_entry e = bound_entry e' → attested e = attested e'.
Proof.
  intros Hk Heq. unfold bound_entry in Heq. injection Heq as Hkind Hp Hi Hv Hr Hc Hf. unfold attested.
  by rewrite (kind_word_inj _ _ Hk Hkind), Hp, Hi, Hv, Hr, Hc, Hf.
Qed.

Lemma entry_dict_bound e b :
  entry_bytes (entry_dict e) = Ok b →
  kind_word (ee_kind e) ∈ EXPLANATION_KINDS ∧ entry_view (entry_dict e) = Some (bound_entry e).
Proof.
  unfold entry_bytes. change (py_item (entry_dict e) (lit "kind")) with (Ok (PStr (kind_word (ee_kind e)))).
  cbn [mbind res_bind]. intros (? & Hk%guard_raise_Ok & Hrest)%bind_Ok. split.
  { apply existsb_exists in Hk as (w & Hw & Heq%py_eq_str_true). injection Heq as ->. by apply list_elem_of_In. }
  change (py_get (entry_dict e) (lit "confidence")) with (Ok (from_option PFloat PNone (ee_confidence e))) in Hrest.
  assert (confidence_at (entry_dict e) = Some ((λ f, float_bits f mod 2 ^ 64) <$> ee_confidence e)) as Hc.
  { unfold confidence_at. change (py_get (entry_dict e) (lit "confidence"))
      with (Ok (from_option PFloat PNone (ee_confidence e))).
    destruct (ee_confidence e) as [f|]; [|done]. cbn [from_option] in Hrest |- *.
    do 6 apply bind_Ok in Hrest as (? & _ & Hrest). cbn [mbind res_bind] in Hrest.
    apply bind_Ok in Hrest as (fb & Hfb & _). unfold confidence_bytes in Hfb. cbn [is_none] in Hfb.
    apply bind_Ok in Hfb as (g & Hg & _). rewrite Hg. unfold canonical_confidence in Hg. cbn [mbind res_bind] in Hg.
    destruct (_ || _); [done|]. by apply Ok_inj in Hg as ->. }
  unfold entry_view. rewrite Hc.
  change (text_at (entry_dict e) (lit "kind")) with (Some (kind_word (ee_kind e))).
  change (text_at (entry_dict e) (lit "participant")) with (Some (ee_participant e)).
  change (text_at (entry_dict e) (lit "proposal_id")) with (Some (ee_proposal_id e)).
  change (text_at (entry_dict e) (lit "value")) with (Some (ee_value e)).
  change (text_at (entry_dict e) (lit "reason")) with (Some (ee_reason e)).
  assert (optional_at (entry_dict e) (lit "rationale_ref") = Some (ee_rationale_ref e)) as ->; [|done].
  unfold optional_at. change (py_get (entry_dict e) (lit "rationale_ref")) with (Ok (opt_str (ee_rationale_ref e))).
  by destruct (ee_rationale_ref e).
Qed.

Lemma entries_bound l bs :
  mapM entry_bytes (entry_dict <$> l) = Ok bs →
  Forall (λ e, kind_word (ee_kind e) ∈ EXPLANATION_KINDS) l ∧
  mapM entry_view (entry_dict <$> l) = Some (bound_entry <$> l).
Proof.
  revert bs. induction l as [|e l IH]; intros bs Hl; [done|]. rewrite fmap_cons in Hl |- *.
  apply mapM_res_cons in Hl as (b & bs' & [Hk Hv]%entry_dict_bound & [Hks Hvs]%IH & _).
  split; [by constructor|]. cbn [mapM]. rewrite Hv. cbn [mbind option_bind]. by rewrite Hvs.
Qed.

Lemma bound_entries_inj l l' :
  Forall (λ e, kind_word (ee_kind e) ∈ EXPLANATION_KINDS) l → (bound_entry <$> l) = (bound_entry <$> l') →
  (attested <$> l) = (attested <$> l').
Proof.
  intros Hl. revert l'. induction Hl as [|e l Hk _ IH]; intros [|e' l']; try done.
  rewrite !fmap_cons. intros [Hb Hbs]%cons_eq_inj. f_equal; [by apply bound_entry_inj|by apply IH].
Qed.

Lemma view_slots c s :
  commitment_slots_of (commitment_view c) = Some s →
  s = {| c_id := cm_id c; c_action := cm_action c; c_authority := cm_authority c; c_supersedes := cm_supersedes c;
         c_auth_method := cm_auth_method c; c_trust_basis := cm_trust_basis c; c_committer := cm_committer c;
         c_explanation_digest := c_explanation_digest s |} ∧
  explanation_digest (PList (entry_dict <$> cm_explanation c)) = Ok (c_explanation_digest s).
Proof.
  unfold commitment_slots_of.
  change (text_at (commitment_view c) (lit "id")) with (Some (cm_id c)).
  change (text_at (commitment_view c) (lit "action")) with (Some (cm_action c)).
  change (text_at (commitment_view c) (lit "authority")) with (Some (cm_authority c)).
  change (text_at (commitment_view c) (lit "auth_method")) with (Some (cm_auth_method c)).
  change (text_at (commitment_view c) (lit "trust_basis")) with (Some (cm_trust_basis c)).
  change (committer_at (commitment_view c)) with (Some (cm_committer c)).
  assert (optional_at (commitment_view c) (lit "supersedes") = Some (cm_supersedes c)) as ->.
  { unfold optional_at. change (py_get (commitment_view c) (lit "supersedes")) with (Ok (opt_str (cm_supersedes c))).
    by destruct (cm_supersedes c). }
  cbn [mbind option_bind].
  destruct (_commitment_explanation_digest (commitment_view c)) as [d|] eqn:E; [|done].
  intros [= <-]. split; [done|]. cbn [c_explanation_digest]. revert E. unfold _commitment_explanation_digest.
  intros (p & _ & (pub & _ & E)%bind_Ok)%bind_Ok.
  change (py_get (commitment_view c) (lit "explanation")) with (Ok (PList (entry_dict <$> cm_explanation c))) in E.
  cbn [mbind res_bind is_none] in E. apply bind_Ok in E as (computed & -> & E).
  destruct pub as [b|]; [|by apply Ok_inj in E as ->]. case_decide; [|done]. by apply Ok_inj in E as ->.
Qed.

(** The views of two served commitments that hash alike. *)
Definition view_collision (c c' : pb_Commitment) : Prop :=
  (∃ p q, commitment_preimage (commitment_view c) = Ok p ∧ commitment_preimage (commitment_view c') = Ok q ∧
          sha256_collision p q) ∨
  (∃ p q, explanation_preimage (entry_dict <$> cm_explanation c) = Ok p ∧
          explanation_preimage (entry_dict <$> cm_explanation c') = Ok q ∧ sha256_collision p q).

Lemma explanation_entries_bound l d :
  explanation_digest (PList (entry_dict <$> l)) = Ok d → ∃ bs, mapM entry_bytes (entry_dict <$> l) = Ok bs.
Proof.
  unfold explanation_digest, explanation_preimage. cbn [py_iter].
  intros (? & <-%Ok_inj & (? & (? & _ & (? & _ & (bs & Hbs & _)%bind_Ok)%bind_Ok)%bind_Ok & _)%bind_Ok)%bind_Ok. by eauto.
Qed.

Lemma same_slots_same_content c c' s :
  commitment_slots_of (commitment_view c) = Some s → commitment_slots_of (commitment_view c') = Some s →
  same_content c c' ∨ view_collision c c'.
Proof.
  intros [Hs Hd]%view_slots [Hs' Hd']%view_slots. rewrite Hs in Hs'. injection Hs' as ? ? ? ? ? ? ?.
  destruct (explanation_entries_bound _ _ Hd) as (bs & [Hk Hv]%entries_bound).
  destruct (explanation_entries_bound _ _ Hd') as (bs' & [_ Hv']%entries_bound).
  destruct (explanation_digest_binding _ _ _ Hd Hd') as (l1 & l2 & x1 & x2 & [= <-] & [= <-] & Hx1 & Hx2 & Hx).
  rewrite Hv in Hx1. rewrite Hv' in Hx2. injection Hx1 as <-. injection Hx2 as <-.
  destruct Hx as [Hx|Hx]; [left|by right; right]. split_and!; try done. by apply bound_entries_inj.
Qed.
End properties.

Lemma verified_kinds `{Ed25519} `{ExplanationKindEnum} aid jws c now :
  verify_tct aid jws (commitment_view c) now = true →
  Forall (λ e, ee_kind e ∈ _EXPLANATION_KIND_WORDS.*1) (cm_explanation c).
Proof.
  intros Hv. destruct (verify_tct_binding aid jws _ _ now now Hv Hv) as (_ & s & _ & [_ Hd]%view_slots & _).
  destruct (explanation_entries_bound _ _ Hd) as (bs & [Hk _]%entries_bound). eapply Forall_impl; [done|].
  intros e Hw. unfold kind_word in Hw. destruct (int_get (ee_kind e) _EXPLANATION_KIND_WORDS) as [w|] eqn:E.
  - apply int_get_in in E. by apply (list_elem_of_fmap_2 fst) in E.
  - by apply unknown_word in Hw.
Qed.

(** C2. [verify_decision] trusts the pinned issuer only: it answers [True] exactly when the fetched proof
    names the pinned issuer and its token verifies under the key of that pinned AID for the served
    commitment, whose explanation kinds are then all known ones; a proof that names any other issuer
    raises [IssuerMismatchError] whatever else it holds; a failed fetch raises its own error. The third
    outcome is a defect: an artifact that is not UTF-8 raises [UnicodeDecodeError] out of
    [verify_decision], where the documentation promises [False] for an invalid decision. *)
Theorem verify_decision_pinned `{Ed25519} `{World} `{ExplanationKindEnum} bound d expected cred t now st :
  let '(r, st') := verify_decision bound d expected cred t now st in
  let '(fetched, st1) := get_commitment_proof bound d cred t st in
  st' = st1 ∧
  (r = Ok true ↔ ∃ proof jws, fetched = Ok proof ∧ cp_issuer_aid proof = expected ∧
     utf8_decode (cm_signed_artifact (cp_commitment proof)) = Ok jws ∧
     verify_tct expected jws (commitment_view (cp_commitment proof)) now = true ∧
     Forall (λ e, ee_kind e ∈ _EXPLANATION_KIND_WORDS.*1) (cm_explanation (cp_commitment proof))) ∧
  (∀ proof, fetched = Ok proof → cp_issuer_aid proof ≠ expected →
     r = Raise (IssuerMismatchError (cp_issuer_aid proof) expected)) ∧
  (∀ e, fetched = Raise e → r = Raise e) ∧
  (∀ proof e, fetched = Ok proof → cp_issuer_aid proof = expected →
     utf8_decode (cm_signed_artifact (cp_commitment proof)) = Raise e → r = Raise e).
Proof.
  unfold verify_decision, mbind, M_bind. destruct (get_commitment_proof bound d cred t st) as [[proof|e] st1].
  2:{ split_and!; try done; [|by intros e' [= ->]]. by split; [|intros (? & ? & ? & _)]. }
  case_decide as Hi.
  { split_and!; [done| |by intros ? [= <-]|done|]; [|by intros ? ? [= <-]]. split; [done|].
    by intros (? & ? & [= <-] & ? & _). }
  unfold lift.
  destruct (utf8_decode (cm_signed_artifact (cp_commitment proof))) as [jws|e] eqn:Ej.
  - split_and!; [done| |by intros ? [= <-]|done|intros ? ? [= <-] _; congruence]. split.
    + intros [= Hv]. exists proof, jws. split_and!; try done. by eapply verified_kinds.
    + intros (? & ? & [= <-] & _ & Hj & Hv & _). rewrite Ej in Hj. apply Ok_inj in Hj as <-. unfold mret, M_ret. by rewrite Hv.
  - split_and!; [done| |by intros ? [= <-]|done|intros ? ? [= <-] _; congruence]. split; [done|].
    intros (? & ? & [= <-] & _ & Hj & _). congruence.
Qed.

(** C3. One artifact attests one commitment, end to end: if two calls of [verify_decision] - to any two
    servers, on any two clients, at any two times - both answer [True] for the pinned issuer and the
    proofs carry the same signed artifact, the served commitments agree on id, action, authority, auth
    method, trust basis, committer, supersedes (absent and empty kept apart) and on every explanation
    entry in order (kind, participant, proposal, value, reason, confidence bit for bit and rationale,
    with their presence), or a SHA-256 collision is exhibited. *)
Theorem verify_decision_binding `{Ed25519} `{ExplanationKindEnum} (w w' : World) bound bound' d d' expected cred cred'
    t t' now now' st st' st1 st1' proof proof' :
  (@verify_decision _ w _ bound d expected cred t now st).1 = Ok true →
  (@verify_decision _ w' _ bound' d' expected cred' t' now' st').1 = Ok true →
  @get_commitment_proof _ w bound d cred t st = (Ok proof, st1) →
  @get_commitment_proof _ w' bound' d' cred' t' st' = (Ok proof', st1') →
  cm_signed_artifact (cp_commitment proof) = cm_signed_artifact (cp_commitment proof') →
  same_content (cp_commitment proof) (cp_commitment proof') ∨ view_collision (cp_commitment proof) (cp_commitment proof').
Proof.
  assert (∀ (w : World) bound d cred t now st proof st1,
    (@verify_decision _ w _ bound d expected cred t now st).1 = Ok true →
    @get_commitment_proof _ w bound d cred t st = (Ok proof, st1) →
    ∃ jws, utf8_decode (cm_signed_artifact (cp_commitment proof)) = Ok jws ∧
      verify_tct expected jws (commitment_view (cp_commitment proof)) now = true) as Hrun.
  { intros w0 b0 d0 c0 t0 n0 s0 p0 s1 Hv Hg. unfold verify_decision, mbind, M_bind in Hv. rewrite Hg in Hv.
    case_decide; [done|]. unfold lift in Hv. destruct (utf8_decode _) as [jws|]; [|done].
    exists jws. split; [done|]. by apply Ok_inj in Hv. }
  intros Hv Hv' Hg Hg' Hart.
  destruct (Hrun _ _ _ _ _ _ _ _ _ Hv Hg) as (jws & Hj & Ht). destruct (Hrun _ _ _ _ _ _ _ _ _ Hv' Hg') as (jws' & Hj' & Ht').
  rewrite <-Hart, Hj in Hj'. apply Ok_inj in Hj' as <-.
  destruct (verify_tct_binding _ _ _ _ _ _ Ht Ht') as (_ & s & s' & Hs & Hs' & [<-|Hc]).
  - by eapply same_slots_same_content.
  - by right; left.
Qed.

(** ** Witness: a server that serves a decision with its token *)

Definition sample_kinds : ExplanationKindEnum :=
  {| pb_KIND_VOTE := 1; pb_KIND_EVALUATION := 2; pb_KIND_OBJECTION := 3; pb_KIND_BALLOT := 4 |}.

Definition loan_entry : ExplanationEntry := {|
  ee_kind := 2; ee_participant := lit "risk"; ee_proposal_id := lit "p1"; ee_value := lit "APPROVE";
  ee_reason := lit "ok"; ee_confidence := Some (S754_finite false 4503599627370496 (-53)); ee_rationale_ref := None |}.
Definition loan_unsigned : pb_Commitment := {|
  cm_id := lit "c-1"; cm_action := lit "approve_loan"; cm_authority := lit "credit"; cm_auth_method := lit "aitp";
  cm_trust_basis := lit "pinned"; cm_supersedes := None; cm_committer := lit "agent-1";
  cm_explanation_digest := []; cm_explanation := [loan_entry]; cm_signed_artifact := [] |}.
Definition sign_loan (c : pb_Commitment) : pb_Commitment := {|
  cm_id := cm_id c; cm_action := cm_action c; cm_authority := cm_authority c; cm_auth_method := cm_auth_method c;
  cm_trust_basis := cm_trust_basis c; cm_supersedes := cm_supersedes c; cm_committer := cm_committer c;
  cm_explanation_digest := cm_explanation_digest c; cm_explanation := cm_explanation c;
  cm_signed_artifact := match honest_jws toy_seed (PInt 1800000000) (@commitment_view sample_kinds c) with
                        | Ok s => s | Raise _ => [] end |}.
Definition loan_proof : CommitmentProof := {| cp_issuer_aid := toy_aid; cp_commitment := sign_loan loan_unsigned |}.

Definition proof_world (p : CommitmentProof) : World := {|
  Message := Z; SerializeToString := sample_serialize; clock n := 1000 + Z.of_nat n;
  serve m _ _ _ log := match m return res (reply Z m) with
                       | GetCommitmentProof => Ok p
                       | m => sample_serve m log
                       end |}.

Definition verify_run (p : CommitmentProof) (now : Z) : res bool :=
  (@verify_decision toy_ed25519 (proof_world p) sample_kinds None (lit "dec:t:s-1") toy_aid None sample_timeout now new_client).1.

(** It verifies until the token expires; a proof under another issuer, or with an artifact that is not
    UTF-8, raises. *)
Example verify_decision_runs :
  (verify_run loan_proof 1799999999, verify_run loan_proof 1800000000,
   verify_run {| cp_issuer_aid := lit "aid:other"; cp_commitment := cp_commitment loan_proof |} 0) =
  (Ok true, Ok false, Raise (IssuerMismatchError (lit "aid:other") toy_aid)).
Proof. vm_compute. reflexivity. Qed.

Lemma verify_decision_binding_witness :
  same_content (cp_commitment loan_proof) (cp_commitment loan_proof) ∨
  @view_collision sample_kinds (cp_commitment loan_proof) (cp_commitment loan_proof).
Proof.
  eapply (@verify_decision_binding toy_ed25519 sample_kinds (proof_world loan_proof) (proof_world loan_proof)
    None None (lit "dec:t:s-1") (lit "dec:t:s-1") toy_aid None None sample_timeout sample_timeout 0 1 new_client new_client).
  - vm_compute. reflexivity.
  - vm_compute. reflexivity.
  - reflexivity.
  - reflexivity.
  - reflexivity.
Defined.
