(* ===== verification/Refresh.v ===== *)
(** * Refresh: concurrent callers of one identity

    [client.py]: [_ticket_for], [_refresh_ticket] and [_invalidate_ticket] of many threads interleave on
    the one cache and the one lock of an AID. Each method is a critical section: acquire the lock, look
    at the cache ([check]), and either return or run the admission handshake, still under the lock, which
    mints a ticket or raises. Threads of different AIDs share neither cache nor lock. The steps use the
    cache operations of [Authorize]; the server enters as [mints now ticket expires_at_ms], what an
    [Admit] may answer at a time. *)

From stdpp Require Import base list numbers option strings relations gmap.
From S2P Require Import Prelude Keys Framing Authorize Client.

(** ** Threads *)

Inductive op := Refresh (failed : bytes) | TicketFor | Drop (failed : bytes).

Inductive pc :=
| Start (o : op)
| Check (o : op)       (** holds the lock *)
| Admitting (o : op)   (** holds the lock, the handshake in flight *)
| Returned (o : op) (ticket : option bytes)
| Raised (o : op).

Definition pc_op (p : pc) : op :=
  match p with Start o | Check o | Admitting o | Raised o | Returned o _ => o end.
Definition critical (p : pc) : bool := match p with Check _ | Admitting _ => true | _ => false end.
Definition is_admitting (p : pc) : bool := match p with Admitting _ => true | _ => false end.
Definition is_raised (p : pc) : bool := match p with Raised _ => true | _ => false end.
Definition finished (p : pc) : bool := match p with Returned _ _ | Raised _ => true | _ => false end.

Record shared := {
  sh_cache : TicketCache; sh_lock : option nat; sh_now : Z; sh_threads : list pc;
  sh_attempts : nat; sh_admitted : nat;
}.

(** Under the lock: the cache afterwards, and what to return, if not to admit. *)
Definition check (o : op) (c : TicketCache) (now : Z) : TicketCache * option (option bytes) :=
  match o with
  | Refresh failed =>
    match tc_get c now with
    | Some current => if decide (current ≠ failed) then (c, Some (Some current)) else (tc_invalidate c, None)
    | None => (tc_invalidate c, None)
    end
  | TicketFor => match tc_get c now with Some t => (c, Some (Some t)) | None => (c, None) end
  | Drop failed => (if decide (tc_get c now = Some failed) then tc_invalidate c else c, Some None)
  end.

Section steps.
Context (mints : Z → bytes → Z → Prop).

Inductive thread_step (s : shared) : shared → Prop :=
| st_acquire i o :
    sh_threads s !! i = Some (Start o) → sh_lock s = None →
    thread_step s {| sh_cache := sh_cache s; sh_lock := Some i; sh_now := sh_now s;
                     sh_threads := <[i := Check o]> (sh_threads s);
                     sh_attempts := sh_attempts s; sh_admitted := sh_admitted s |}
| st_return i o c r :
    sh_threads s !! i = Some (Check o) → check o (sh_cache s) (sh_now s) = (c, Some r) →
    thread_step s {| sh_cache := c; sh_lock := None; sh_now := sh_now s;
                     sh_threads := <[i := Returned o r]> (sh_threads s);
                     sh_attempts := sh_attempts s; sh_admitted := sh_admitted s |}
| st_admit i o c :
    sh_threads s !! i = Some (Check o) → check o (sh_cache s) (sh_now s) = (c, None) →
    thread_step s {| sh_cache := c; sh_lock := sh_lock s; sh_now := sh_now s;
                     sh_threads := <[i := Admitting o]> (sh_threads s);
                     sh_attempts := S (sh_attempts s); sh_admitted := sh_admitted s |}
| st_admitted i o ticket expires :
    sh_threads s !! i = Some (Admitting o) → mints (sh_now s) ticket expires →
    thread_step s {| sh_cache := tc_store (sh_cache s) ticket expires (sh_now s); sh_lock := None;
                     sh_now := sh_now s; sh_threads := <[i := Returned o (Some ticket)]> (sh_threads s);
                     sh_attempts := sh_attempts s; sh_admitted := S (sh_admitted s) |}
| st_refused i o :
    sh_threads s !! i = Some (Admitting o) →
    thread_step s {| sh_cache := sh_cache s; sh_lock := None; sh_now := sh_now s;
                     sh_threads := <[i := Raised o]> (sh_threads s);
                     sh_attempts := sh_attempts s; sh_admitted := sh_admitted s |}.

Inductive step (s : shared) : shared → Prop :=
| st_thread s' : thread_step s s' → step s s'
| st_tick now :
    sh_now s ≤ now →
    step s {| sh_cache := sh_cache s; sh_lock := sh_lock s; sh_now := now; sh_threads := sh_threads s;
              sh_attempts := sh_attempts s; sh_admitted := sh_admitted s |}.

(** Every caller about to enter its method, the lock free. *)
Definition start (ops : list op) (c : TicketCache) (now : Z) : shared := {|
  sh_cache := c; sh_lock := None; sh_now := now; sh_threads := Start <$> ops; sh_attempts := 0; sh_admitted := 0 |}.

Definition reachable (ops : list op) (c : TicketCache) (now : Z) (s : shared) : Prop := rtc step (start ops c now) s.

(** ** Mutual exclusion *)

Definition exclusive (s : shared) : Prop :=
  ∀ i p, sh_threads s !! i = Some p → (critical p = true ↔ sh_lock s = Some i).
(** While a handshake is in flight the cache serves nothing. *)
Definition quiet (s : shared) : Prop :=
  ∀ i o now, sh_threads s !! i = Some (Admitting o) → sh_now s ≤ now → tc_get (sh_cache s) now = None.
(** The lock is held by a thread that exists. *)
Definition held (s : shared) : Prop := ∀ i, sh_lock s = Some i → is_Some (sh_threads s !! i).

Lemma start_inv ops c now : exclusive (start ops c now) ∧ quiet (start ops c now) ∧ held (start ops c now).
Proof.
  split_and!.
  - intros i p. simpl. rewrite list_lookup_fmap, fmap_Some. by intros (o & _ & ->).
  - intros i o n. simpl. rewrite list_lookup_fmap, fmap_Some. by intros (o' & _ & ?).
  - intros i [=].
Qed.

Lemma stale_later c now now' : tc_get c now = None → now ≤ now' → tc_get c now' = None.
Proof.
  unfold tc_get. destruct (tc_ticket c); [|done].
  destruct (Z.ltb_spec now (tc_refresh_at_ms c)), (Z.ltb_spec now' (tc_refresh_at_ms c)); try done. lia.
Qed.

Lemma check_admits o c now c' : check o c now = (c', None) → ∀ now', now ≤ now' → tc_get c' now' = None.
Proof.
  unfold check. destruct o as [f| |f].
  - destruct (tc_get c now); [case_decide|]; intros [= <-]; done.
  - destruct (tc_get c now) eqn:E; intros [= <-]. intros now'. by eapply stale_later.
  - done.
Qed.

Lemma lookup_updated (l : list pc) i j p q : <[i := p]> l !! j = Some q → i = j ∧ p = q ∨ i ≠ j ∧ l !! j = Some q.
Proof.
  destruct (decide (i = j)) as [->|Hne].
  - intros Hq. left. split; [done|]. destruct (decide (j < length l)%nat).
    + rewrite list_lookup_insert_eq in Hq by done. congruence.
    + rewrite list_insert_ge in Hq by lia. apply lookup_lt_Some in Hq. lia.
  - rewrite list_lookup_insert_ne by done. by right.
Qed.

Lemma step_inv s s' : step s s' → exclusive s ∧ quiet s ∧ held s → exclusive s' ∧ quiet s' ∧ held s'.
Proof.
  intros Hstep (Hex & Hq & Hh).
  assert (∀ i j p q, sh_threads s !! i = Some p → critical p = true → sh_threads s !! j = Some q →
            critical q = true → i = j) as Huniq.
  { intros i j p q Hi Hp Hj Hqq. apply (Hex i p Hi) in Hp. apply (Hex j q Hj) in Hqq. congruence. }
  assert (∀ i p q, sh_threads s !! i = Some p → is_Some (<[i := q]> (sh_threads s) !! i)) as Hsome.
  { intros i p q Hi. rewrite list_lookup_insert_eq by (by eapply lookup_lt_Some). by eexists. }
  destruct Hstep as [s' [i o Hi Hl|i o c r Hi Hc|i o c Hi Hc|i o tk e Hi Hm|i o Hi]|now Hnow];
    cbn [sh_cache sh_lock sh_now sh_threads] in *.
  - split_and!.
    + intros j p [[-> <-]|[Hne Hj]]%lookup_updated; [done|]. rewrite (Hex j p Hj), Hl. naive_solver.
    + intros j o' n [[-> [=]]|[_ Hj]]%lookup_updated. by eapply Hq.
    + intros j [= <-]. simpl. by eapply Hsome.
  - split_and!; [|intros j o' n [[-> [=]]|[Hne Hj]]%lookup_updated; exfalso; eauto|done].
    intros j p [[-> <-]|[Hne Hj]]%lookup_updated; [done|]. split; [|done]. intros Hp. exfalso. eauto.
  - pose proof (proj1 (Hex i _ Hi) eq_refl) as Hl. split_and!.
    + intros j p [[-> <-]|[Hne Hj]]%lookup_updated; [done|]. by apply Hex.
    + intros j o' n _ Hn. by eapply check_admits.
    + intros j Hj. simpl in Hj. rewrite Hl in Hj. injection Hj as <-. by eapply Hsome.
  - split_and!; [|intros j o' n [[-> [=]]|[Hne Hj]]%lookup_updated; exfalso; eauto|done].
    intros j p [[-> <-]|[Hne Hj]]%lookup_updated; [done|]. split; [|done]. intros Hp. exfalso. eauto.
  - split_and!; [|intros j o' n [[-> [=]]|[Hne Hj]]%lookup_updated; exfalso; eauto|done].
    intros j p [[-> <-]|[Hne Hj]]%lookup_updated; [done|]. split; [|done]. intros Hp. exfalso. eauto.
  - split_and!; [exact Hex| |exact Hh]. intros j o' n Hj Hn. eapply Hq; [done|]. simpl in Hn. lia.
Qed.

(** Rule induction on reachability. *)
Lemma reachable_ind (P : shared → Prop) ops c now s :
  P (start ops c now) → (∀ s1 s2, reachable ops c now s1 → step s1 s2 → P s1 → P s2) → reachable ops c now s → P s.
Proof.
  intros H0 Hs. apply (rtc_ind_r P); [done|]. intros s1 s2 Hr Hst HP. by eapply Hs.
Qed.

Lemma reachable_inv ops c now s : reachable ops c now s → exclusive s ∧ quiet s ∧ held s.
Proof. apply (reachable_ind (λ s, exclusive s ∧ quiet s ∧ held s)); [apply start_inv|]. intros s1 s2 _ Hs. by apply step_inv. Qed.

(** ** Nobody's live ticket is thrown away *)

Lemma check_keeps o c now c' r t :
  check o c now = (c', r) → tc_get c now = Some t → tc_get c' now ≠ Some t → o = Refresh t ∨ o = Drop t.
Proof.
  unfold check. intros Hc Hg Hd. destruct o as [f| |f]; rewrite Hg in Hc.
  - case_decide as Hf; injection Hc as <- <-; [done|]. left. f_equal. by destruct (decide (f = t)); [|naive_solver].
  - by injection Hc as <- <-.
  - right. case_decide as Hf; injection Hc as <- <-; [by injection Hf as ->|done].
Qed.

(** ** Coalescing *)

Definition count (f : pc → bool) (l : list pc) : nat := length (List.filter f l).

Lemma count_insert f l i p q :
  l !! i = Some p → (count f (<[i := q]> l) + Nat.b2n (f p) = count f l + Nat.b2n (f q))%nat.
Proof.
  revert i. induction l as [|x l IH]; intros [|i]; try done; cbn [lookup list_lookup insert list_insert].
  - intros [= ->]. unfold count. simpl. destruct (f p), (f q); simpl; lia.
  - intros Hi. specialize (IH i Hi). unfold count in *. simpl.
    destruct (f x); simpl; [exact (f_equal S IH)|exact IH].
Qed.

Lemma count_zero f l : (∀ i p, l !! i = Some p → f p = false) → count f l = 0%nat.
Proof.
  intros Hl. induction l as [|x l IH]; [done|]. unfold count in *. simpl.
  rewrite (Hl 0%nat x eq_refl). apply IH. intros i p Hi. by apply (Hl (S i)).
Qed.

Lemma attempts_counted ops c now s :
  reachable ops c now s →
  sh_attempts s = (sh_admitted s + count is_raised (sh_threads s) + count is_admitting (sh_threads s))%nat.
Proof.
  apply (reachable_ind (λ s, sh_attempts s =
    (sh_admitted s + count is_raised (sh_threads s) + count is_admitting (sh_threads s))%nat)).
  - simpl. rewrite !count_zero; [done|..]; intros i p; rewrite list_lookup_fmap, fmap_Some; by intros (o & _ & ->).
  - intros s1 s2 _ [s' Hs|n _] IH; [|done].
    destruct Hs as [i o Hi _|i o c' r Hi _|i o c' Hi _|i o t e Hi _|i o Hi]; simpl;
      match goal with |- context [<[_ := ?q]> _] =>
        pose proof (count_insert is_raised _ i _ q Hi); pose proof (count_insert is_admitting _ i _ q Hi) end;
      simpl in *; lia.
Qed.

Context (dead : bytes) (horizon : Z).
(** A freshly minted ticket is another one, and outlives the horizon. *)
Context (mints_fresh : ∀ now t e, mints now t e → t ≠ dead ∧ t ≠ [] ∧ now < e ∧ horizon < now + (e - now) * 8 / 10).

Definition fails_on_dead (o : op) : Prop := match o with Refresh f | Drop f => f = dead | TicketFor => True end.

(** Before the one admission the cache serves at most the dead ticket; after it, the new one. *)
Definition coalesced (s : shared) : Prop :=
  Forall (λ p, fails_on_dead (pc_op p)) (sh_threads s) ∧
  ((sh_admitted s = 0%nat ∧ only_serves (sh_cache s) dead ∧
    ∀ i f r, sh_threads s !! i = Some (Returned (Refresh f) r) → False) ∨
   (sh_admitted s = 1%nat ∧ ∃ t, t ≠ dead ∧ (∀ n, n ≤ horizon → tc_get (sh_cache s) n = Some t) ∧
    ∀ i f r, sh_threads s !! i = Some (Returned (Refresh f) r) → r = Some t)).

Lemma check_only_serves o c now c' r :
  check o c now = (c', r) → only_serves c dead → only_serves c' dead.
Proof.
  unfold check. intros Hc Hs. destruct o as [f| |f].
  - destruct (tc_get c now); [case_decide|]; injection Hc as <- <-; done.
  - destruct (tc_get c now); by injection Hc as <- <-.
  - injection Hc as <- <-. by case_decide.
Qed.

Lemma check_new o c now c' r t :
  fails_on_dead o → t ≠ dead → tc_get c now = Some t → check o c now = (c', r) →
  c' = c ∧ ∃ x, r = Some x ∧ ((∃ f, o = Refresh f) → x = Some t).
Proof.
  unfold check. intros Ho Ht Hg Hc. destruct o as [f| |f]; simpl in Ho; subst; rewrite Hg in Hc.
  - rewrite decide_True in Hc by done. injection Hc as <- <-. by eauto.
  - injection Hc as <- <-. by eauto.
  - rewrite decide_False in Hc by naive_solver. injection Hc as <- <-. split; [done|]. eexists. split; [done|]. by intros [? ?].
Qed.

Lemma step_coalesced s s' :
  step s s' → sh_now s' ≤ horizon → quiet s → coalesced s → coalesced s'.
Proof.
  intros Hstep Hhor Hq [Hops Hc].
  destruct Hstep as [s' Hth|now Hnow]; [|by split].
  assert (∃ i p q, sh_threads s !! i = Some p ∧ pc_op q = pc_op p ∧ sh_threads s' = <[i := q]> (sh_threads s) ∧
                   fails_on_dead (pc_op p)) as (i & p & q & Hi & Hpq & Ht & Hop).
  { destruct Hth as [i o Hi _|i o c' r Hi _|i o c' Hi _|i o t e Hi _|i o Hi];
      do 3 eexists; (split; [exact Hi|]); (split; [|split; [reflexivity|]]; [done|]);
      exact (Forall_lookup_1 _ _ _ _ Hops Hi). }
  split; [rewrite Ht; apply Forall_insert; [done|by rewrite Hpq]|]. clear Hi Hpq Ht Hop p q i.
  destruct Hth as [i o Hi Hl|i o c r Hi Hk|i o c Hi Hk|i o t e Hi Hm|i o Hi]; cbn [sh_now] in Hhor;
    pose proof (Forall_lookup_1 _ _ _ _ Hops Hi) as Hop; simpl in Hop; destruct Hc as [(Ha & Hs & Hr)|(Ha & t' & Hne & Hs & Hr)];
    cbn [sh_cache sh_threads sh_admitted].
  - left. split_and!; [done|done|]. intros j f r [[_ [=]]|[_ Hj]]%lookup_updated. by eapply Hr.
  - right. split; [done|]. exists t'. split_and!; [done|done|]. intros j f r [[_ [=]]|[_ Hj]]%lookup_updated. by eapply Hr.
  - left. split_and!; [done|by eapply check_only_serves|]. intros j f r' [[_ [= -> ->]]|[_ Hj]]%lookup_updated; [|by eapply Hr].
    simpl in Hop; subst f. unfold check in Hk. destruct (tc_get (sh_cache s) (sh_now s)) as [x|] eqn:Hg; [|done].
    apply Hs in Hg as ->. rewrite decide_False in Hk by naive_solver. done.
  - destruct (check_new o _ _ _ _ t' Hop Hne (Hs _ Hhor) Hk) as (-> & x & [= ->] & Hx).
    right. split; [done|]. exists t'. split_and!; [done|done|].
    intros j f r' [[_ [= -> ->]]|[_ Hj]]%lookup_updated; [by eauto|by eapply Hr].
  - left. split_and!; [done|by eapply check_only_serves|]. intros j f r' [[_ [=]]|[_ Hj]]%lookup_updated. by eapply Hr.
  - by destruct (check_new o _ _ _ _ t' Hop Hne (Hs _ Hhor) Hk) as (-> & x & [=] & Hx).
  - destruct (mints_fresh _ _ _ Hm) as (Htd & Htn & Hlt & Hhz). right. split; [lia|]. exists t. split_and!; [done| |].
    + intros n Hn. apply tc_store_get. split_and!; try done. lia.
    + intros j f r' [[_ [= _ <-]]|[_ Hj]]%lookup_updated; [done|]. by apply Hr in Hj.
  - exfalso. pose proof (Hq i o (sh_now s) Hi) as Hnone. rewrite (Hs _ Hhor) in Hnone. discriminate Hnone; lia.
  - left. split_and!; [done|done|]. intros j f r [[_ [=]]|[_ Hj]]%lookup_updated. by eapply Hr.
  - right. split; [done|]. exists t'. split_and!; [done|done|]. intros j f r [[_ [=]]|[_ Hj]]%lookup_updated. by eapply Hr.
Qed.

Lemma now_monotone s s' : step s s' → sh_now s ≤ sh_now s'.
Proof. by intros [? []|now Hn]. Qed.

Lemma reachable_coalesced ops c now s :
  Forall fails_on_dead ops → only_serves c dead → reachable ops c now s → sh_now s ≤ horizon → coalesced s.
Proof.
  intros Hops Hc. apply (reachable_ind (λ s, sh_now s ≤ horizon → coalesced s)).
  - intros _. split; simpl.
    + apply Forall_fmap. by eapply Forall_impl.
    + left. split_and!; [done|done|]. intros i f r. rewrite list_lookup_fmap, fmap_Some. by intros (o & _ & ?).
  - intros s1 s2 Hr Hs IH Hh. pose proof (now_monotone _ _ Hs). apply (step_coalesced s1 s2); [done|done| |apply IH; lia].
    by apply reachable_inv in Hr as (_ & ? & _).
Qed.

(** ** Progress *)

Definition weight (p : pc) : nat :=
  match p with Start _ => 3 | Check _ => 2 | Admitting _ => 1 | Returned _ _ | Raised _ => 0 end.
Definition work (s : shared) : nat := sum_list_with weight (sh_threads s).

Lemma work_insert l i p q :
  l !! i = Some p → (sum_list_with weight (<[i := q]> l) + weight p = sum_list_with weight l + weight q)%nat.
Proof.
  revert i. induction l as [|x l IH]; intros [|i] Hi; try done; simpl.
  - injection Hi as ->. lia.
  - specialize (IH i Hi). rewrite <-!Nat.add_assoc. exact (f_equal (Nat.add (weight x)) IH).
Qed.

Lemma thread_step_work s s' : thread_step s s' → (work s' < work s)%nat.
Proof.
  unfold work. intros [i o Hi _|i o c r Hi _|i o c Hi _|i o t e Hi _|i o Hi]; simpl;
    match goal with |- context [<[_ := ?q]> _] => pose proof (work_insert _ i _ q Hi) end; simpl in *; lia.
Qed.

Lemma thread_progress s :
  exclusive s → held s → forallb finished (sh_threads s) = false → ∃ s', thread_step s s'.
Proof.
  intros Hex Hh Hf. destruct (sh_lock s) as [i|] eqn:Hl.
  - destruct (Hh i Hl) as [p Hp]. pose proof (proj2 (Hex i p Hp) Hl) as Hc. destruct p as [| o | o | |]; try done.
    + destruct (check o (sh_cache s) (sh_now s)) as [c [r|]] eqn:Ek; eexists; [by eapply st_return|by eapply st_admit].
    + eexists. by eapply st_refused.
  - assert (∃ i p, sh_threads s !! i = Some p ∧ finished p = false) as (i & p & Hi & Hp).
    { clear -Hf. induction (sh_threads s) as [|x l IH]; [done|]. simpl in Hf. apply andb_false_iff in Hf as [Hx|Hx].
      - by exists 0%nat, x.
      - destruct (IH Hx) as (i & p & ? & ?). by exists (S i), p. }
    destruct p as [o|o|o| |]; try done.
    + eexists. by eapply st_acquire.
    + by apply (Hex i) in Hi as [Hc _]; rewrite Hc in Hl.
    + by apply (Hex i) in Hi as [Hc _]; rewrite Hc in Hl.
Qed.

Lemma count_unique f l :
  (∀ i j p q, l !! i = Some p → l !! j = Some q → f p = true → f q = true → i = j) → (count f l ≤ 1)%nat.
Proof.
  induction l as [|y l IH]; intros Hu; [unfold count; simpl; lia|].
  unfold count in *. simpl. destruct (f y) eqn:Ey; simpl.
  - fold (count f l). rewrite count_zero; [done|]. intros i p Hi. destruct (f p) eqn:Ep; [|done].
    by specialize (Hu (S i) 0%nat p y Hi eq_refl Ep Ey).
  - apply IH. intros i j p q Hi Hj Hp Hq. assert (S i = S j); [|lia]. by apply (Hu (S i) (S j) p q).
Qed.

Lemma admitting_unique s : exclusive s → (count is_admitting (sh_threads s) ≤ 1)%nat.
Proof.
  intros Hex. apply count_unique. intros i j p q Hi Hj Hp Hq.
  assert (∀ p, is_admitting p = true → critical p = true) as Hcrit by by intros [].
  apply Hcrit, (Hex i p Hi) in Hp. apply Hcrit, (Hex j q Hj) in Hq. congruence.
Qed.

Lemma threads_length ops c now s : reachable ops c now s → length (sh_threads s) = length ops.
Proof.
  apply (reachable_ind (λ s, length (sh_threads s) = length ops)); [simpl; by rewrite length_fmap|].
  intros s1 s2 _ [s' []|n _] IH; simpl; by rewrite ?length_insert.
Qed.

Lemma work_bound s : (work s ≤ 3 * length (sh_threads s))%nat.
Proof.
  unfold work. induction (sh_threads s) as [|p l IH]; [done|]. simpl.
  assert (weight p ≤ 3)%nat by (destruct p; simpl; lia). lia.
Qed.

Lemma run_to_end s :
  exclusive s ∧ quiet s ∧ held s →
  ∃ n s', nsteps thread_step n s s' ∧ (n ≤ work s)%nat ∧ forallb finished (sh_threads s') = true.
Proof.
  remember (work s) as w eqn:Ew. revert s Ew. induction (lt_wf w) as [w _ IH]. intros s -> Hinv.
  destruct (forallb finished (sh_threads s)) eqn:Ef; [exists 0%nat, s; split; [constructor|]; split; [lia|done]|].
  destruct (thread_progress s) as [s1 Hs]; [apply Hinv|apply Hinv|done|].
  pose proof (thread_step_work _ _ Hs). destruct (IH (work s1) ltac:(lia) s1 eq_refl) as (n & s' & Hn & Hle & Hfin).
  { eapply step_inv; [by apply st_thread|done]. }
  exists (S n), s'. split; [by econstructor|]. split; [lia|done].
Qed.
End steps.

(** ** The critical sections are the methods

    Run by one thread, each method of [Client] is its [check] on the cache of its AID, then the handshake
    if there is nothing to return. *)
Section sequential.
Context `{Ed25519} `{World}.

Definition put (a : pystr) (c : TicketCache) (st : client) : client :=
  set_tickets (<[a := c]> (c_tickets (touch a st))) (touch a st).

Lemma put_same a st : put a (cache_of st a) st = touch a st.
Proof. unfold put, touch, set_tickets. simpl. by rewrite insert_insert_eq. Qed.

Lemma refresh_ticket_check agent failed t st :
  let '(c, r) := check (Refresh failed) (cache_of st (aid agent)) (clock (c_readings st)) in
  _refresh_ticket agent failed t st =
  match r with
  | Some (Some tk) => (Ok tk, put (aid agent) c st)
  | _ => _admit_locked agent t (put (aid agent) c st)
  end.
Proof.
  rewrite refresh_ticket_run. unfold check. destruct (tc_get _ _); [case_decide|]; try done. by rewrite put_same.
Qed.

Lemma ticket_for_check agent t st :
  let '(c, r) := check TicketFor (cache_of st (aid agent)) (clock (c_readings st)) in
  _ticket_for agent t st =
  match r with
  | Some (Some tk) => (Ok tk, put (aid agent) c st)
  | _ => _admit_locked agent t (put (aid agent) c st)
  end.
Proof. rewrite ticket_for_run. unfold check. by destruct (tc_get _ _); rewrite put_same. Qed.

Lemma invalidate_ticket_check agent failed st :
  let '(c, _) := check (Drop failed) (cache_of st (aid agent)) (clock (c_readings st)) in
  _invalidate_ticket agent failed st = (Ok (), put (aid agent) c st).
Proof. rewrite invalidate_ticket_run. unfold check. case_decide; [done|]. by rewrite put_same. Qed.
End sequential.

(** ** Properties *)

(** One lock, one admission at a time, and no live ticket is thrown away: in every reachable state at
    most one thread is inside a critical section, and a step after which a ticket that was being served
    no longer is can only be the check of a caller that failed on that very ticket - never a refresh,
    an invalidation or an admission of anyone else. *)
Theorem live_ticket_kept mints ops c now s s' t :
  reachable mints ops c now s →
  (∀ i j p q, sh_threads s !! i = Some p → sh_threads s !! j = Some q →
     critical p = true → critical q = true → i = j) ∧
  (thread_step mints s s' → tc_get (sh_cache s) (sh_now s) = Some t → tc_get (sh_cache s') (sh_now s) ≠ Some t →
   ∃ i, sh_threads s !! i = Some (Check (Refresh t)) ∨ sh_threads s !! i = Some (Check (Drop t))).
Proof.
  intros (Hex & Hq & _)%reachable_inv. split.
  - intros i j p q Hi Hj Hp Hqq. apply (Hex i p Hi) in Hp. apply (Hex j q Hj) in Hqq. congruence.
  - intros [i o Hi _|i o c' r Hi Hc|i o c' Hi Hc|i o t' e Hi _|i o Hi] Hg Hd; cbn [sh_cache] in Hd; try done.
    + exists i. destruct (check_keeps _ _ _ _ _ _ Hc Hg Hd) as [->| ->]; eauto.
    + exists i. destruct (check_keeps _ _ _ _ _ _ Hc Hg Hd) as [->| ->]; eauto.
    + rewrite (Hq i o (sh_now s) Hi) in Hg; [done|lia].
Qed.

(** C8. N concurrent rejections cost one re-admission: when callers that all failed on one dead ticket
    (and any first-time callers) meet on a cache that holds at most that ticket, then however they
    interleave, as long as minted tickets are new and live to the horizon, at most one handshake
    succeeds, every handshake but that one and the one in flight was refused, and every refresh that
    returned handed out one and the same ticket, which is not the dead one and is still served. *)
Theorem refresh_coalesces mints dead horizon ops c now s :
  (∀ n t e, mints n t e → t ≠ dead ∧ t ≠ [] ∧ n < e ∧ horizon < n + (e - n) * 8 / 10) →
  Forall (fails_on_dead dead) ops → only_serves c dead → reachable mints ops c now s → sh_now s ≤ horizon →
  (sh_admitted s ≤ 1)%nat ∧
  sh_attempts s = (sh_admitted s + count is_raised (sh_threads s) + count is_admitting (sh_threads s))%nat ∧
  (count is_admitting (sh_threads s) ≤ 1)%nat ∧
  ∀ i f r, sh_threads s !! i = Some (Returned (Refresh f) r) →
    ∃ t, r = Some t ∧ t ≠ dead ∧ tc_get (sh_cache s) (sh_now s) = Some t.
Proof.
  intros Hm Hops Hc Hr Hh. pose proof (reachable_coalesced mints dead horizon Hm ops c now s Hops Hc Hr Hh) as [_ Hco].
  split; [destruct Hco as [[-> _]|[-> _]]; lia|]. split; [by eapply attempts_counted|]. split.
  - apply reachable_inv in Hr as (Hex & _). by apply admitting_unique.
  - intros i f r Hi. destruct Hco as [(_ & _ & Hn)|(_ & t & Hne & Hs & Ht)]; [by apply Hn in Hi|].
    apply Ht in Hi as ->. exists t. by split_and!; [| |apply Hs].
Qed.

(** Concurrent callers never get stuck: from every reachable state the threads can run to the end of
    their methods without waiting for anything but each other (a handshake ends, if need be by its
    deadline), and each thread takes at most three steps to do so. *)
Theorem refresh_never_stuck mints ops c now s :
  reachable mints ops c now s →
  ∃ n s', nsteps (thread_step mints) n s s' ∧ (n ≤ 3 * length ops)%nat ∧ forallb finished (sh_threads s') = true.
Proof.
  intros Hr. destruct (run_to_end mints s) as (n & s' & Hn & Hle & Hf); [by eapply reachable_inv|].
  exists n, s'. split; [done|]. split; [|done]. pose proof (work_bound s). rewrite (threads_length mints ops c now s) in * by done. lia.
Qed.

(** ** Witnesses: two callers reject the same ticket *)

Definition sample_mints (now : Z) (t : bytes) (e : Z) : Prop := 0 ≤ now ∧ t = [9] ∧ e = now + 2000.
Definition stale_cache : TicketCache := tc_store tc_init [1] 5000 0.
Definition two_rejected : list op := [Refresh [1]; Refresh [1]].

Lemma two_rejected_run : ∃ s, reachable sample_mints two_rejected stale_cache 0 s ∧ sh_now s = 0 ∧
  sh_threads s = [Returned (Refresh [1]) (Some [9]); Returned (Refresh [1]) (Some [9])].
Proof.
  eexists. split.
  - eapply rtc_l; [apply st_thread; by eapply (st_acquire _ _ 0)|].
    eapply rtc_l; [apply st_thread; by eapply (st_admit _ _ 0)|].
    eapply rtc_l; [apply st_thread; by eapply (st_admitted _ _ 0 _ [9] 2000)|].
    eapply rtc_l; [apply st_thread; by eapply (st_acquire _ _ 1)|].
    eapply rtc_l; [apply st_thread; by eapply (st_return _ _ 1)|]. apply rtc_refl.
  - split; reflexivity.
Qed.

Lemma refresh_coalesces_witness : ∃ s, reachable sample_mints two_rejected stale_cache 0 s ∧
  sh_threads s = [Returned (Refresh [1]) (Some [9]); Returned (Refresh [1]) (Some [9])] ∧ (sh_admitted s ≤ 1)%nat.
Proof.
  destruct two_rejected_run as (s & Hr & Hn & Ht). exists s. split; [exact Hr|]. split; [exact Ht|].
  apply (refresh_coalesces sample_mints [1] 1000 two_rejected stale_cache 0 s).
  - intros n t e (Hpos & -> & ->). split_and!; [done|done|lia|]. replace (n + 2000 - n) with 2000 by lia. change (2000 * 8 / 10) with 1600. lia.
  - repeat constructor.
  - apply only_serves_store.
  - exact Hr.
  - rewrite Hn. lia.
Defined.

Lemma refresh_never_stuck_witness : ∃ s n s', reachable sample_mints two_rejected stale_cache 0 s ∧
  nsteps (thread_step sample_mints) n s s' ∧ (n ≤ 6)%nat ∧ forallb finished (sh_threads s') = true.
Proof.
  destruct (refresh_never_stuck sample_mints two_rejected stale_cache 0 (start two_rejected stale_cache 0) (rtc_refl _ _))
    as (n & s' & Hn & Hle & Hf).
  exists (start two_rejected stale_cache 0), n, s'. split; [apply rtc_refl|]. split; [exact Hn|]. split; [exact Hle|exact Hf].
Defined.

Lemma live_ticket_kept_witness : ∃ s s', reachable sample_mints two_rejected stale_cache 0 s ∧
  thread_step sample_mints s s' ∧ tc_get (sh_cache s') 0 = None ∧
  ∃ i, sh_threads s !! i = Some (Check (Refresh [1])) ∨ sh_threads s !! i = Some (Check (Drop [1])).
Proof.
  assert (∃ s s', reachable sample_mints two_rejected stale_cache 0 s ∧ thread_step sample_mints s s' ∧
    sh_now s = 0 ∧ tc_get (sh_cache s) 0 = Some [1] ∧ tc_get (sh_cache s') 0 = None) as (s & s' & Hr & Hs & Hn & Hg & Hg').
  { do 2 eexists. split_and!.
    - eapply rtc_l; [apply st_thread; by eapply (st_acquire _ _ 0)|]. apply rtc_refl.
    - by eapply (st_admit _ _ 0).
    - reflexivity.
    - reflexivity.
    - reflexivity. }
  exists s, s'. split; [exact Hr|]. split; [exact Hs|]. split; [exact Hg'|].
  apply (live_ticket_kept sample_mints two_rejected stale_cache 0 s s' [1] Hr); [exact Hs|rewrite Hn; exact Hg|].
  rewrite Hn, Hg'. discriminate.
Defined.
