(* ===== verification/Admin.v ===== *)
(** * Admin: the operator client

    [admin.py]: the verbs of [SeamAdminClient] over the [SeamAdmin] and [SeamEvents] services, the enrolment
    proof check, the event stream with its deliberate cancellation, and the verification of a streamed
    record digest.

    A method runs in the monad [AM]: it threads the log of calls put on the wire and the number of times the
    channel's interceptor has run, and ends in a value or an exception. The server, the serializer, the time
    and the randomness are the class [AdminWorld]. Arguments have the types they are annotated with, except
    those the code itself tests; the refusals of protobuf's constructors are left out. *)

From stdpp Require Import base list numbers option strings sets.
From Stdlib Require Import SpecFloat.
From S2P Require Import Prelude Text Sha256 Base64 Keys Framing Floats Json JsonRead Dumps Jcs JcsRead RecordDigest.
From S2P Require Import Commitment Jws Dpop DpopCheck AdminAuth Errors Authorize Client.

(** ** Constants *)

Definition ENROLMENT_KIND_AGENT : pystr := lit "agent".
Definition ENROLMENT_KIND_OUTCOME_REPORTER : pystr := lit "outcome_reporter".
Definition ENROLMENT_KIND_CHANGESET_WORKER : pystr := lit "changeset_worker".
Definition ENROLMENT_KINDS : list pystr :=
  [ENROLMENT_KIND_AGENT; ENROLMENT_KIND_OUTCOME_REPORTER; ENROLMENT_KIND_CHANGESET_WORKER].

(** ** Messages *)

Record pb_EnrollPop := { pop_issued_at_ms : Z; pop_nonce : pystr; pop_signature : bytes }.

(** The request messages; [option] where the code sets a field or leaves it unset. *)
Inductive admin_request :=
| ErasureRequest (subject tenant : pystr) (confirm_count : option Z)
| EnrollTenantRequest (subject_aid tenant namespace : pystr) (pop : option pb_EnrollPop) (kind : option pystr)
| RevokeTenantRequest (subject_aid : pystr)
| RegisterPartyRequest (party_id : pystr) (pubkey : bytes)
| RemovePartyRequest (party_id : pystr)
| PlaceGrantRequest (tenant from_ns to_ns grantor : pystr) (expires_at : Z)
| RevokeGrantRequest (tenant from_ns to_ns revoker : pystr)
| AdminResumeRequest (session_id approver tenant namespace : pystr) (budget : Z) (raise_ : option pb_BudgetLimits)
| ListLegalHoldsRequest (tenant cursor : option pystr) (limit : option Z)
| HoldRef (decision_id : pystr)
| RetentionRequest (full_days sealed_digest_days commitment_only_days : Z)
| StreamEventsRequest (stream_id : pystr) (from_seq : Z) (ack follow : bool)
| ReportConsumedRequest (consumed_cursor : Z) (stream_id : pystr)
| RedriveEventsRequest (tenant : pystr) (from_seq : Z) (to_seq : option Z) (event_id : option pystr)
| NoFields.

Inductive admin_method :=
| PreviewErasure | EraseSubject | EnrollTenant | ListTenants | RevokeTenant | RegisterParty | RemoveParty
| PlaceGrant | RevokeGrant | ListGrants | AdminResumeSession | ListLegalHolds | PlaceLegalHold | ReleaseLegalHold
| EnforceRetention | AuditTrail | StreamEvents | ReportEventsConsumed | RedriveEvents.

Definition admin_path (m : admin_method) : pystr :=
  let admin (v : string) := lit "/seam.api.v1.SeamAdmin/" ++ lit v in
  let events (v : string) := lit "/seam.api.v1.SeamEvents/" ++ lit v in
  match m with
  | PreviewErasure => admin "PreviewErasure" | EraseSubject => admin "EraseSubject"
  | EnrollTenant => admin "EnrollTenant" | ListTenants => admin "ListTenants"
  | RevokeTenant => admin "RevokeTenant" | RegisterParty => admin "RegisterParty"
  | RemoveParty => admin "RemoveParty" | PlaceGrant => admin "PlaceGrant" | RevokeGrant => admin "RevokeGrant"
  | ListGrants => admin "ListGrants" | AdminResumeSession => admin "ResumeSession"
  | ListLegalHolds => admin "ListLegalHolds" | PlaceLegalHold => admin "PlaceLegalHold"
  | ReleaseLegalHold => admin "ReleaseLegalHold" | EnforceRetention => admin "EnforceRetention"
  | AuditTrail => admin "AuditTrail" | StreamEvents => events "StreamEvents"
  | ReportEventsConsumed => events "ReportEventsConsumed" | RedriveEvents => events "RedriveEvents"
  end.

(** The preview's [would_erase], and its fields no code reads. *)
Record ErasurePreview (Message : Type) := { would_erase : list Message; preview_rest : Message }.
Arguments would_erase {_} _.

(** What a method answers: the list the client takes out of it, where it does, and an opaque message else. *)
Definition admin_reply (Message : Type) (m : admin_method) : Type :=
  match m with
  | PreviewErasure => ErasurePreview Message
  | ListTenants | ListGrants | EnforceRetention | AuditTrail | RedriveEvents => list Message
  | _ => Message
  end.

(** ** The world and the monad *)

(** Deadlines in seconds; [None] is no deadline. *)
Record admin_sent := ASent {
  as_method : admin_method; as_request : admin_request; as_metadata : list (pystr * pystr); as_timeout : option spec_float;
}.

Class AdminWorld := {
  AMessage : Type;
  admin_serialize : admin_request → bytes;
  unix_time : nat → Z;           (** [int(time.time())] at the n-th signed call *)
  token_bytes16 : nat → bytes;   (** [secrets.token_bytes(16)] at the n-th signed call *)
  admin_serve (m : admin_method) : admin_request → list (pystr * pystr) → option spec_float → list admin_sent →
    res (admin_reply AMessage m);
}.

Record admin_state := { a_log : list admin_sent; a_signed : nat }.
Definition new_admin : admin_state := {| a_log := []; a_signed := 0 |}.

Definition AM (A : Type) : Type := admin_state → res A * admin_state.
Global Instance AM_ret : MRet AM := λ A a st, (Ok a, st).
Global Instance AM_bind : MBind AM := λ A B k m st,
  match m st with (Ok a, st') => k a st' | (Raise e, st') => (Raise e, st') end.
Global Instance AM_fmap : FMap AM := λ A B f m st,
  match m st with (Ok a, st') => (Ok (f a), st') | (Raise e, st') => (Raise e, st') end.
Definition alift {A} (r : res A) : AM A := λ st, (r, st).

(** ** The enrolment proof *)

(** The three attributes an [EnrollProof] and an [EnrollPop] share, as found; any other object is [NotAProof]. *)
Inductive pop_arg := NotAProof | Pop (issued_at_ms nonce signature : pyval).

Definition _enroll_pop_pb (pop : option pop_arg) : res (option pb_EnrollPop) :=
  match pop with
  | None => Ok None
  | Some NotAProof => Raise TypeError
  | Some (Pop issued_at_ms nonce signature) =>
    n ← validate_enroll_pop_nonce nonce;
    t ← _uint_slot issued_at_ms 64;
    match signature with
    | PStr _ => Raise TypeError
    | _ =>
      s ← py_bytes signature;
      _ ← guard_raise (zlen s =? 64) ValueError;
      Ok (Some {| pop_issued_at_ms := t; pop_nonce := n; pop_signature := s |})
    end
  end.

(** ** The verbs *)

Definition _tenant_metadata (tenant : option pystr) : option (list (pystr * pystr)) :=
  (λ t, [(lit "x-seam-tenant", t)]) <$> tenant.

Definition _require_stream_id (stream_id : pystr) : res () := guard_raise (negb (bool_decide (stream_id = []))) ValueError.

(** [except grpc.RpcError as e: raise map_rpc_error(e)] *)
Definition map_errors {A} (m : AM A) : AM A := λ st, let '(r, st') := m st in (mapped_call r, st').

Section verbs.
Context `{Ed25519} `{AdminWorld}.
(** The interceptor [connect] installed on the channel. *)
Context (auth : option interceptor).

Definition details_of (m : admin_method) (md : option (list (pystr * pystr))) : ClientCallDetails := {|
  d_method := PStr (admin_path m); d_timeout := PNone; d_metadata := md; d_credentials := PNone;
  d_wait_for_ready := PNone; d_compression := PNone;
|}.

(** The metadata a call leaves with. *)
Definition intercept (m : admin_method) (q : admin_request) (md : option (list (pystr * pystr)))
    : AM (list (pystr * pystr)) := λ st,
  match auth with
  | None => (Ok (default [] md), st)
  | Some (Bearer token) => (Ok (default [] (d_metadata (_with_auth token (details_of m md)))), st)
  | Some (Dpop it) =>
    let n := a_signed st in
    let iat := match da_clock it with None => PNone | Some f => f n end in
    ((λ d, default [] (d_metadata d))
       <$> _with_proof it (details_of m md) (admin_serialize q) iat (unix_time n) (token_bytes16 n),
     {| a_log := a_log st; a_signed := S n |})
  end.

(** A call of a generated stub. *)
Definition wire (m : admin_method) (q : admin_request) (timeout : option spec_float) (md : list (pystr * pystr))
    : AM (admin_reply AMessage m) := λ st,
  (admin_serve m q md timeout (a_log st),
   {| a_log := a_log st ++ [ASent m q md timeout]; a_signed := a_signed st |}).
Definition raw_call (m : admin_method) (q : admin_request) (md : option (list (pystr * pystr)))
    (timeout : option spec_float) : AM (admin_reply AMessage m) :=
  intercept m q md ≫= wire m q timeout.

(** A call of [self._admin], a [_MappedStub]. *)
Definition admin_rpc (m : admin_method) (q : admin_request) (md : option (list (pystr * pystr))) (timeout : spec_float)
    : AM (admin_reply AMessage m) := map_errors (raw_call m q md (Some timeout)).

Definition preview_erasure (tenant subject : pystr) (timeout : spec_float) : AM (ErasurePreview AMessage) :=
  admin_rpc PreviewErasure (ErasureRequest subject tenant None) None timeout.

Definition erase_subject (tenant subject : pystr) (confirm_count : Z) (timeout : spec_float) : AM AMessage :=
  admin_rpc EraseSubject (ErasureRequest subject tenant (Some confirm_count)) None timeout.

Definition erase_subject_confirmed (tenant subject : pystr) (timeout : spec_float) : AM AMessage :=
  preview ← preview_erasure tenant subject timeout;
  erase_subject tenant subject (zlen (would_erase preview)) timeout.

Definition enroll_tenant (subject_aid tenant namespace : pystr) (pop : option pop_arg) (kind : option pystr)
    (timeout : spec_float) : AM AMessage :=
  p ← alift (_enroll_pop_pb pop);
  _ ← alift (guard_raise (match kind with None => true | Some k => bool_decide (k ∈ ENROLMENT_KINDS) end) ValueError);
  admin_rpc EnrollTenant (EnrollTenantRequest subject_aid tenant namespace p kind) None timeout.

Definition list_tenants (timeout : spec_float) : AM (list AMessage) := admin_rpc ListTenants NoFields None timeout.

Definition revoke_tenant (subject_aid : pystr) (timeout : spec_float) : AM () :=
  (λ _, ()) <$> admin_rpc RevokeTenant (RevokeTenantRequest subject_aid) None timeout.

Definition register_party (party_id : pystr) (pubkey : bytes) (timeout : spec_float) : AM () :=
  (λ _, ()) <$> admin_rpc RegisterParty (RegisterPartyRequest party_id pubkey) None timeout.

Definition remove_party (party_id : pystr) (timeout : spec_float) : AM () :=
  (λ _, ()) <$> admin_rpc RemoveParty (RemovePartyRequest party_id) None timeout.

Definition place_grant (tenant from_ns to_ns grantor : pystr) (expires_at : Z) (timeout : spec_float) : AM () :=
  (λ _, ()) <$> admin_rpc PlaceGrant (PlaceGrantRequest tenant from_ns to_ns grantor expires_at) None timeout.

Definition revoke_grant (tenant from_ns to_ns revoker : pystr) (timeout : spec_float) : AM () :=
  (λ _, ()) <$> admin_rpc RevokeGrant (RevokeGrantRequest tenant from_ns to_ns revoker) None timeout.

Definition list_grants (timeout : spec_float) : AM (list AMessage) := admin_rpc ListGrants NoFields None timeout.

Definition admin_resume_session (session_id approver tenant namespace : pystr) (budget : Z)
    (raise_ : option BudgetLimits) (timeout : spec_float) : AM AMessage :=
  admin_rpc AdminResumeSession
    (AdminResumeRequest session_id approver tenant namespace budget (BudgetLimits_to_pb <$> raise_)) None timeout.

Definition list_legal_holds (tenant cursor : option pystr) (limit : option Z) (timeout : spec_float) : AM AMessage :=
  admin_rpc ListLegalHolds (ListLegalHoldsRequest tenant cursor limit) None timeout.

Definition place_legal_hold (decision_id : pystr) (tenant : option pystr) (timeout : spec_float) : AM () :=
  (λ _, ()) <$> admin_rpc PlaceLegalHold (HoldRef decision_id) (_tenant_metadata tenant) timeout.

Definition release_legal_hold (decision_id : pystr) (tenant : option pystr) (timeout : spec_float) : AM () :=
  (λ _, ()) <$> admin_rpc ReleaseLegalHold (HoldRef decision_id) (_tenant_metadata tenant) timeout.

Definition enforce_retention (full_days sealed_digest_days commitment_only_days : Z) (timeout : spec_float)
    : AM (list AMessage) :=
  admin_rpc EnforceRetention (RetentionRequest full_days sealed_digest_days commitment_only_days) None timeout.

Definition audit_trail (timeout : spec_float) : AM (list AMessage) := admin_rpc AuditTrail NoFields None timeout.

Definition report_events_consumed (consumed_cursor : Z) (stream_id : pystr) (timeout : spec_float) : AM () :=
  _ ← alift (_require_stream_id stream_id);
  (λ _, ()) <$> map_errors (raw_call ReportEventsConsumed (ReportConsumedRequest consumed_cursor stream_id) None
                              (Some timeout)).

Definition redrive_events (tenant : pystr) (from_seq : pyval) (to_seq : option pyval) (event_id : option pystr)
    (timeout : spec_float) : AM (list AMessage) :=
  _ ← alift (guard_raise (negb (bool_decide (tenant = []))) ValueError);
  f ← alift (_uint_slot from_seq 64);
  t ← alift (match to_seq with None => Ok None | Some v => Some <$> _uint_slot v 64 end);
  map_errors (raw_call RedriveEvents (RedriveEventsRequest tenant f t event_id) None (Some timeout)).
End verbs.

(** ** The event stream *)

(** A started call: open, by its place in the log, or broken because the interceptor refused it (grpc hands
    the refusal out at the first read). *)
Inductive stream_call := Open (id : nat) | Broken (e : exn).
(** What one read of a call gives. *)
Inductive stream_read (Message : Type) := Item (m : Message) | Exhausted | Failed (e : exn).
Arguments Item {_} _.
Arguments Exhausted {_}.
Arguments Failed {_} _.

(** grpc's side of a stream: the n-th read of a call, which may depend on whether it was cancelled, and what
    [cancel] answers. *)
Class StreamWorld `{AdminWorld} := {
  stream_next : nat → nat → bool → stream_read AMessage;
  stream_cancel : stream_call → bool;
}.

Record EventStream := {
  es_request : admin_request; es_timeout : option spec_float;   (** what [_start] sends *)
  es_call : option stream_call; es_cancelled : bool;
  es_reads : nat;   (** reads of the call so far *)
}.

Section stream.
Context `{Ed25519} `{StreamWorld}.
Context (auth : option interceptor).

Definition stream_events (stream_id : pystr) (from_seq : Z) (follow ack : bool) (timeout : option spec_float)
    : AM EventStream :=
  _ ← alift (_require_stream_id stream_id);
  _ ← alift (guard_raise (negb (ack && follow)) ValueError);
  mret {| es_request := StreamEventsRequest stream_id from_seq ack follow; es_timeout := timeout; es_call := None;
          es_cancelled := false; es_reads := 0 |}.

(** [self._call = self._start()] *)
Definition es_start (es : EventStream) (st : admin_state) : EventStream * admin_state :=
  let '(r, st') := intercept auth StreamEvents (es_request es) None st in
  let '(call, st'') :=
    match r with
    | Ok md => (Open (length (a_log st')),
                {| a_log := a_log st' ++ [ASent StreamEvents (es_request es) md (es_timeout es)];
                   a_signed := a_signed st' |})
    | Raise e => (Broken e, st')
    end in
  ({| es_request := es_request es; es_timeout := es_timeout es; es_call := Some call;
      es_cancelled := es_cancelled es; es_reads := es_reads es |}, st'').

(** [e.code() if callable(getattr(e, "code", None)) else None] *)
Definition error_code (e : exn) : option StatusCode :=
  match e with
  | RawRpcError r => match raw_code r with Some c => c | None => None end
  | SeamRpcError _ c _ _ => Some c
  | _ => None
  end.

(** The [try: return next(self._call)] of [__next__]. *)
Definition es_read (es : EventStream) (call : stream_call) : res AMessage * EventStream :=
  let read := match call with
              | Open id => stream_next id (es_reads es) (es_cancelled es)
              | Broken e => Failed e
              end in
  let r := match read with
           | Item m => Ok m
           | Exhausted => Raise StopIteration
           | Failed e =>
             if is_rpc_error e then
               if es_cancelled es && bool_decide (error_code e = Some CANCELLED) then Raise StopIteration
               else Raise (map_rpc_error e)
             else Raise e
           end in
  (r, {| es_request := es_request es; es_timeout := es_timeout es; es_call := es_call es;
         es_cancelled := es_cancelled es; es_reads := S (es_reads es) |}).

Definition es_next (es : EventStream) (st : admin_state) : res AMessage * EventStream * admin_state :=
  match es_call es with
  | None =>
    if es_cancelled es then (Raise StopIteration, es, st)
    else
      let '(es, st) := es_start es st in
      match es_call es with
      | Some call => let '(r, es) := es_read es call in (r, es, st)
      | None => (Raise StopIteration, es, st) (* [es_start] sets the call *)
      end
  | Some call => let '(r, es) := es_read es call in (r, es, st)
  end.

Definition es_cancel (es : EventStream) : bool * EventStream :=
  (match es_call es with Some call => stream_cancel call | None => true end,
   {| es_request := es_request es; es_timeout := es_timeout es; es_call := es_call es; es_cancelled := true;
      es_reads := es_reads es |}).
End stream.

(** ** Streamed record digests *)

(** A [SeamEvent] with a [DecisionSealed] payload: [option] for the fields with presence ([HasField]). *)
Record sealed_payload := {
  p_schema_version : Z; p_decision_id : pystr; p_tenant : pystr; p_namespace : pystr; p_ciphertext_digest : bytes;
  p_sealed_at : Z; p_outcome : pystr; p_mode : option pystr; p_policy_version : option pystr;
  p_supersedes : option pystr; p_context_digest : bytes; p_participation_digest : bytes;
  p_policy_rules_digest : bytes; p_classification : pystr; p_participants_digest : bytes;
  p_trust_basis_commitment : pystr; p_auth_method : pystr;
}.
Record SeamEvent := { ev_kind : pystr; ev_payload : sealed_payload; ev_digest : option bytes }.

Definition opt_str (o : option pystr) : pyval := match o with Some s => PStr s | None => PNone end.

(** The arguments of the recomputation: the wire values, an empty [policy_rules_digest] being absent. *)
Definition streamed_args (p : sealed_payload) : record_args := {|
  a_decision_id := PStr (p_decision_id p); a_tenant := PStr (p_tenant p); a_namespace := PStr (p_namespace p);
  a_ciphertext_digest := PBytes (p_ciphertext_digest p); a_sealed_at := PInt (p_sealed_at p);
  a_outcome := PStr (p_outcome p); a_mode := opt_str (p_mode p); a_policy_version := opt_str (p_policy_version p);
  a_supersedes := opt_str (p_supersedes p); a_context_digest := PBytes (p_context_digest p);
  a_participation_digest := PBytes (p_participation_digest p);
  a_policy_rules_digest := match p_policy_rules_digest p with [] => PNone | b => PBytes b end;
  a_classification := PStr (p_classification p); a_participants_digest := PBytes (p_participants_digest p);
  a_trust_basis_commitment := PStr (p_trust_basis_commitment p); a_auth_method := PStr (p_auth_method p);
  a_schema_version := PInt (p_schema_version p);
|}.

Definition verify_streamed_record_digest (e : SeamEvent) : res bool :=
  _ ← guard_raise (bool_decide (ev_kind e = lit "DECISION_SEALED")) ValueError;
  let p := ev_payload e in
  _ ← guard_raise (p_schema_version p =? 4) (UnsupportedRecordDigestVersion (PInt (p_schema_version p)));
  match ev_digest e with
  | None => Raise ValueError
  | Some digest =>
    if bool_decide (p_ciphertext_digest p = []) then Ok false
    else recomputed ← record_digest_v4 (streamed_args p); Ok (bool_decide (recomputed = digest))
  end.
