(* ===== verification/AdminCalls.v ===== *)
(** * AdminCalls: what the operator client puts on the wire

    Properties of [Admin] over every sequence of verbs and stream operations: each call carries a well-typed request of its method, each
    call of a key-bound client a proof the receiver takes for that call alone, no proof is used twice, and an
    erasure is confirmed with the preview's own count. [AdminStream] has the event stream. *)

From stdpp Require Import base list numbers option strings sets sorting.
From Stdlib Require Import SpecFloat.
From S2P Require Import Prelude Text Sha256 Base64 Keys Framing Floats Json JsonRead Dumps Jcs JcsRead RecordDigest.
From S2P Require Import Commitment Jws Dpop DpopCheck AdminAuth Errors Authorize Client Admin.

(** ** The verbs as data *)

Inductive admin_verb :=
| PreviewErasureV (tenant subject : pystr) | EraseSubjectV (tenant subject : pystr) (confirm_count : Z)
| EraseSubjectConfirmedV (tenant subject : pystr)
| EnrollTenantV (subject_aid tenant namespace : pystr) (pop : option pop_arg) (kind : option pystr)
| ListTenantsV | RevokeTenantV (subject_aid : pystr) | RegisterPartyV (party_id : pystr) (pubkey : bytes)
| RemovePartyV (party_id : pystr) | PlaceGrantV (tenant from_ns to_ns grantor : pystr) (expires_at : Z)
| RevokeGrantV (tenant from_ns to_ns revoker : pystr) | ListGrantsV
| ResumeSessionV (session_id approver tenant namespace : pystr) (budget : Z) (raise_ : option BudgetLimits)
| ListLegalHoldsV (tenant cursor : option pystr) (limit : option Z)
| PlaceLegalHoldV (decision_id : pystr) (tenant : option pystr)
| ReleaseLegalHoldV (decision_id : pystr) (tenant : option pystr)
| EnforceRetentionV (full_days sealed_digest_days commitment_only_days : Z) | AuditTrailV
| ReportEventsConsumedV (consumed_cursor : Z) (stream_id : pystr)
| RedriveEventsV (tenant : pystr) (from_seq : pyval) (to_seq : option pyval) (event_id : option pystr).

(** What a program does with a client: run a verb, open an event stream, read the [k]-th stream it opened or
    cancel it. *)
Inductive admin_op :=
| Verb (v : admin_verb) (timeout : spec_float)
| OpenStream (stream_id : pystr) (from_seq : Z) (follow ack : bool) (timeout : option spec_float)
| NextEvent (k : nat) | CancelStream (k : nat).

Definition ignore {A} (m : AM A) : AM () := (λ _, ()) <$> m.

Section run.
Context `{Ed25519} `{StreamWorld}.

Definition run_admin (auth : option interceptor) (v : admin_verb) (t : spec_float) : AM () :=
  match v with
  | PreviewErasureV a b => ignore (preview_erasure auth a b t)
  | EraseSubjectV a b n => ignore (erase_subject auth a b n t)
  | EraseSubjectConfirmedV a b => ignore (erase_subject_confirmed auth a b t)
  | EnrollTenantV a b c p k => ignore (enroll_tenant auth a b c p k t)
  | ListTenantsV => ignore (list_tenants auth t)
  | RevokeTenantV a => revoke_tenant auth a t
  | RegisterPartyV a b => register_party auth a b t
  | RemovePartyV a => remove_party auth a t
  | PlaceGrantV a b c d e => place_grant auth a b c d e t
  | RevokeGrantV a b c d => revoke_grant auth a b c d t
  | ListGrantsV => ignore (list_grants auth t)
  | ResumeSessionV a b c d e f => ignore (admin_resume_session auth a b c d e f t)
  | ListLegalHoldsV a b c => ignore (list_legal_holds auth a b c t)
  | PlaceLegalHoldV a b => place_legal_hold auth a b t
  | ReleaseLegalHoldV a b => release_legal_hold auth a b t
  | EnforceRetentionV a b c => ignore (enforce_retention auth a b c t)
  | AuditTrailV => ignore (audit_trail auth t)
  | ReportEventsConsumedV a b => report_events_consumed auth a b t
  | RedriveEventsV a b c d => ignore (redrive_events auth a b c d t)
  end.

(** One operation, on the streams opened so far and the client. *)
Definition run_op (auth : option interceptor) (o : admin_op) (hs : list EventStream) (st : admin_state) : list EventStream * admin_state :=
  match o with
  | Verb v t => (hs, (run_admin auth v t st).2)
  | OpenStream a b c d t => match stream_events a b c d t st with (Ok es, st') => (hs ++ [es], st') | (Raise _, st') => (hs, st') end
  | NextEvent k => match hs !! k with Some es => let '(_, es', st') := es_next auth es st in (<[k := es']> hs, st') | None => (hs, st) end
  | CancelStream k => match hs !! k with Some es => (<[k := (es_cancel es).2]> hs, st) | None => (hs, st) end
  end.

(** A sequence of operations, each run whatever the ones before answered. *)
Fixpoint run_ops (auth : option interceptor) (os : list admin_op) (hs : list EventStream) (st : admin_state) : admin_state :=
  match os with [] => st | o :: os => let '(hs', st') := run_op auth o hs st in run_ops auth os hs' st' end.
Definition run_all (auth : option interceptor) (os : list admin_op) (st : admin_state) : admin_state := run_ops auth os [] st.
End run.

(** ** What a well-typed call is *)

(** The message type of a method. *)
Definition takes (m : admin_method) (q : admin_request) : bool :=
  match m, q with
  | (PreviewErasure | EraseSubject), ErasureRequest _ _ _ | EnrollTenant, EnrollTenantRequest _ _ _ _ _
  | (ListTenants | ListGrants | AuditTrail), NoFields | RevokeTenant, RevokeTenantRequest _
  | RegisterParty, RegisterPartyRequest _ _ | RemoveParty, RemovePartyRequest _
  | PlaceGrant, PlaceGrantRequest _ _ _ _ _ | RevokeGrant, RevokeGrantRequest _ _ _ _
  | AdminResumeSession, AdminResumeRequest _ _ _ _ _ _ | ListLegalHolds, ListLegalHoldsRequest _ _ _
  | (PlaceLegalHold | ReleaseLegalHold), HoldRef _ | EnforceRetention, RetentionRequest _ _ _
  | StreamEvents, StreamEventsRequest _ _ _ _ | ReportEventsConsumed, ReportConsumedRequest _ _
  | RedriveEvents, RedriveEventsRequest _ _ _ _ => true
  | _, _ => false
  end.

Definition is_u64 (z : Z) : Prop := 0 ≤ z < 2 ^ 64.

(** The fields the client promises to have checked. *)
Definition well_formed (m : admin_method) (q : admin_request) : Prop :=
  match q with
  | ErasureRequest _ _ c => m = EraseSubject ↔ ∃ n, c = Some n
  | EnrollTenantRequest _ _ _ pop kind =>
    (∀ p, pop = Some p → is_u64 (pop_issued_at_ms p) ∧ length (pop_signature p) = 64%nat ∧
       1 ≤ zlen (pop_nonce p) ≤ 128 ∧ forallb is_b64url_char (pop_nonce p) = true) ∧
    (∀ k, kind = Some k → k ∈ ENROLMENT_KINDS)
  | StreamEventsRequest stream_id _ ack follow => stream_id ≠ [] ∧ ack && follow = false
  | ReportConsumedRequest _ stream_id => stream_id ≠ []
  | RedriveEventsRequest tenant from_seq to_seq _ =>
    tenant ≠ [] ∧ is_u64 from_seq ∧ (∀ z, to_seq = Some z → is_u64 z)
  | _ => True
  end.

Definition good_call (m : admin_method) (q : admin_request) : Prop := takes m q = true ∧ well_formed m q.

Lemma enroll_pop_pb_spec pop p :
  _enroll_pop_pb pop = Ok (Some p) →
  is_u64 (pop_issued_at_ms p) ∧ length (pop_signature p) = 64%nat ∧
  1 ≤ zlen (pop_nonce p) ≤ 128 ∧ forallb is_b64url_char (pop_nonce p) = true.
Proof.
  unfold _enroll_pop_pb, is_u64. destruct pop as [[|t n sg]|]; try done.
  intros (nv & Hn & (tv & [_ Ht]%uint_slot_Ok & Hs)%bind_Ok)%bind_Ok.
  assert (∃ s, zlen s = 64 ∧ p = {| pop_issued_at_ms := tv; pop_nonce := nv; pop_signature := s |}) as (s & Hl & ->).
  { destruct sg; try done; apply bind_Ok in Hs as (s & _ & (? & Hl%guard_raise_Ok%Z.eqb_eq & [= <-]%Ok_inj)%bind_Ok); eauto. }
  unfold validate_enroll_pop_nonce, ENROLL_POP_NONCE_MAX_LEN in Hn. destruct n as [| | | |ns| | | | | |]; try done.
  destruct ((1 <=? zlen ns) && (zlen ns <=? 128)) eqn:E; [|done]. cbn in Hn.
  destruct (forallb is_b64url_char ns) eqn:E2; [|done]. apply Ok_inj in Hn as <-.
  apply andb_true_iff in E as [?%Z.leb_le ?%Z.leb_le]. cbn. split_and!; (done || lia).
Qed.

(** ** Calls, over any preorder of client states *)

Definition calls_in (R : relation admin_state) {A} (m : AM A) : Prop := ∀ st, R st (m st).2.

Section calls.
Context (R : relation admin_state) `{!PreOrder R}.

Lemma calls_lift {A} (r : res A) : calls_in R (alift r).
Proof. intros st. cbn. reflexivity. Qed.

Lemma calls_bind {A B} (m : AM A) (k : A → AM B) :
  calls_in R m → (∀ a, calls_in R (k a)) → calls_in R (m ≫= k).
Proof.
  intros Hm Hk st. specialize (Hm st). unfold mbind, AM_bind. destruct (m st) as [[a|e] st1]; [|done].
  etrans; [exact Hm|apply Hk].
Qed.

Lemma calls_check {A B} (r : res A) (k : A → AM B) :
  (∀ a, r = Ok a → calls_in R (k a)) → calls_in R (alift r ≫= k).
Proof. intros Hk st. unfold mbind, AM_bind, alift. destruct r as [a|e]; [by apply Hk|]. cbn. reflexivity. Qed.

Lemma calls_fmap {A B} (f : A → B) (m : AM A) : calls_in R m → calls_in R (f <$> m).
Proof. intros Hm st. specialize (Hm st). unfold fmap, AM_fmap. by destruct (m st) as [[a|e] st1]. Qed.

Lemma calls_map_errors {A} (m : AM A) : calls_in R m → calls_in R (map_errors m).
Proof. intros Hm st. specialize (Hm st). unfold map_errors. by destruct (m st) as [r st1]. Qed.

(** Verbs only make good raw calls: what every good raw call satisfies, every verb does. *)
Context `{Ed25519} `{AdminWorld} (auth : option interceptor).
Context (raw_ok : ∀ m q md timeout, good_call m q → calls_in R (raw_call auth m q md timeout)).

Lemma calls_rpc m q md t : good_call m q → calls_in R (admin_rpc auth m q md t).
Proof. intros Hq. by apply calls_map_errors, raw_ok. Qed.

Ltac rpc := match goal with |- calls_in _ (admin_rpc _ ?m _ _ _) => apply (calls_rpc m) end.
Ltac raw := match goal with |- calls_in _ (raw_call _ ?m _ _ _) => apply (raw_ok m) end.

Lemma run_admin_calls v t : calls_in R (run_admin auth v t).
Proof.
  destruct v; cbn [run_admin];
    unfold ignore, erase_subject_confirmed, preview_erasure, erase_subject, enroll_tenant, list_tenants, revoke_tenant,
      register_party, remove_party, place_grant, revoke_grant, list_grants, admin_resume_session, list_legal_holds,
      place_legal_hold, release_legal_hold, enforce_retention, audit_trail, report_events_consumed, redrive_events;
    try (apply calls_fmap; rpc; by split).
  - apply calls_fmap; rpc. split; [done|]. cbn. split; [done|by intros [? ?]].
  - apply calls_fmap; rpc. split; [done|]. cbn. split; [eauto|done].
  - apply calls_fmap, calls_bind; [|intros pv]; rpc; split; try done; cbn;
      split; try done; [by intros [? ?]|by eauto].
  - apply calls_fmap, calls_check. intros p Hp. apply calls_check. intros ? Hk%guard_raise_Ok. rpc.
    split; [done|]. split; [intros x ->; by apply (enroll_pop_pb_spec pop)|].
    intros k ->. by apply bool_decide_eq_true in Hk.
  - apply calls_check. intros ? Hs%guard_raise_Ok%negb_true_iff%bool_decide_eq_false.
    apply calls_fmap, calls_map_errors; raw; by split.
  - apply calls_fmap, calls_check. intros ? Ht%guard_raise_Ok%negb_true_iff%bool_decide_eq_false.
    apply calls_check. intros f [_ Hf]%uint_slot_Ok. apply calls_check. intros to Hto.
    apply calls_map_errors; raw; split; [done|]. split_and!; [done..|]. intros z ->.
    destruct to_seq as [tv|]; [|done]. apply fmap_Ok in Hto as (x & [_ Hx]%uint_slot_Ok & [= ->]). done.
Qed.

(** A stream that sends what it was opened with makes a good raw call, and only once. *)
Definition good_stream (es : EventStream) : Prop := good_call StreamEvents (es_request es).

Lemma es_start_calls `{!StreamWorld} es st : (es_start auth es st).2 = (raw_call auth StreamEvents (es_request es) None (es_timeout es) st).2 ∧
  es_request (es_start auth es st).1 = es_request es.
Proof. unfold es_start, raw_call, mbind, AM_bind. by destruct (intercept _ _ _ _ _) as [[md|e] st1]. Qed.
Lemma es_next_calls `{!StreamWorld} es st : good_stream es → let '(_, es', st') := es_next auth es st in R st st' ∧ good_stream es'.
Proof.
  intros Hg. unfold es_next, es_read. destruct (es_call es) as [call|]; [by split|]. destruct (es_cancelled es); [by split|].
  pose proof (es_start_calls es st) as [Hs Hr]. destruct (es_start auth es st) as [es1 st1]. cbn [fst snd] in Hs, Hr.
  assert (R st st1) by (rewrite Hs; by apply raw_ok). destruct (es_call es1); unfold good_stream in *; cbn [es_request]; by rewrite Hr.
Qed.
Lemma stream_events_good a b c d t st es st' : stream_events a b c d t st = (Ok es, st') → good_stream es.
Proof.
  unfold stream_events, mbind, AM_bind, alift. intros E.
  destruct (_require_stream_id a) as [[]|] eqn:Ha; [|done]. apply guard_raise_Ok, negb_true_iff, bool_decide_eq_false in Ha.
  destruct (guard_raise (negb (d && c)) ValueError) as [[]|] eqn:Hf; [|done]. apply guard_raise_Ok, negb_true_iff in Hf.
  injection E as <- _. by split.
Qed.
Lemma stream_events_state a b c d t st : (stream_events a b c d t st).2 = st.
Proof. unfold stream_events, mbind, AM_bind, alift. by destruct (_require_stream_id a), (guard_raise (negb (d && c)) ValueError). Qed.

Lemma run_op_calls `{!StreamWorld} o hs st : Forall good_stream hs →
  let '(hs', st') := run_op auth o hs st in R st st' ∧ Forall good_stream hs'.
Proof.
  intros Hh. destruct o as [v t|a b c d t|k|k]; cbn [run_op].
  - split; [apply run_admin_calls|done].
  - pose proof (stream_events_state a b c d t st) as Hs. pose proof (stream_events_good a b c d t st) as Hg.
    destruct (stream_events a b c d t st) as [[es|e] st1]; cbn [snd] in Hs; subst st1; split; try done.
    apply Forall_app. split; [done|]. apply Forall_singleton. by eapply Hg.
  - destruct (hs !! k) as [es|] eqn:Ek; [|done]. pose proof (es_next_calls es st (Forall_lookup_1 _ _ _ _ Hh Ek)) as Hn.
    destruct (es_next auth es st) as [[r es'] st']. destruct Hn as [? ?]. split; [done|by apply Forall_insert].
  - destruct (hs !! k) as [es|] eqn:Ek; [|done]. split; [done|]. apply Forall_insert; [done|]. exact (Forall_lookup_1 _ _ _ _ Hh Ek).
Qed.
Lemma run_all_calls `{!StreamWorld} os st : R st (run_all auth os st).
Proof.
  unfold run_all. assert (Forall good_stream []) as Hh by constructor. revert Hh. generalize (@nil EventStream) as hs. revert st.
  induction os as [|o os IH]; intros st hs Hh; cbn [run_ops]; [reflexivity|].
  pose proof (run_op_calls o hs st Hh) as Ho. destruct (run_op auth o hs st) as [hs' st']. destruct Ho as [Ho Hh'].
  etrans; [exact Ho|by apply IH].
Qed.
End calls.

Lemma intercept_log `{Ed25519} `{AdminWorld} auth m q md st : a_log (intercept auth m q md st).2 = a_log st.
Proof. unfold intercept. by repeat case_match. Qed.

Lemma mapped_call_Raise {A} e : mapped_call (A := A) (Raise e) = Raise (map_rpc_error e).
Proof. by destruct e. Qed.

(** A raw call is refused before anything is sent, or sent once and answered by the server. *)
Lemma raw_call_run `{Ed25519} `{AdminWorld} auth m q md t st :
  (∃ e st', raw_call auth m q md t st = (Raise e, st') ∧ a_log st' = a_log st) ∨
  (∃ md' n, raw_call auth m q md t st
     = (admin_serve m q md' t (a_log st), {| a_log := a_log st ++ [ASent m q md' t]; a_signed := n |})).
Proof.
  unfold raw_call, mbind, AM_bind. pose proof (intercept_log auth m q md st) as E.
  destruct (intercept auth m q md st) as [[md'|e] st1]; cbn [snd] in E; [right|left; by eauto].
  exists md', (a_signed st1). unfold wire. by rewrite E.
Qed.

(** ** The type of the wire *)

Definition adds (P : admin_sent → Prop) (st st' : admin_state) : Prop :=
  ∃ l, a_log st' = a_log st ++ l ∧ Forall P l.

Global Instance adds_preorder P : PreOrder (adds P).
Proof.
  split.
  - intros st. exists []. by rewrite app_nil_r.
  - intros a b c (l1 & E1 & H1) (l2 & E2 & H2). exists (l1 ++ l2). rewrite E2, E1, (assoc_L (++)).
    split; [done|by apply Forall_app].
Qed.

(** C19. Only well-typed requests reach the management plane: over any sequence of verbs and of operations on event
    streams, with any arguments and under any credential, every call on the wire carries the message type of its
    method with the fields the client promises to have checked: an enrolment proof of a u64 time, a nonce of 1 to
    128 base64url characters and a 64-byte signature; a kind of the closed set; a confirmation count on an erasure
    and none on its preview; a non-empty stream, which is not acknowledged while it is followed; a re-drive of a named
    tenant with u64 bounds. *)
Theorem admin_wire_typed `{Ed25519} `{StreamWorld} auth os :
  Forall (λ s, good_call (as_method s) (as_request s)) (a_log (run_all auth os new_admin)).
Proof.
  assert (∀ m q md timeout, good_call m q →
    calls_in (adds (λ s, good_call (as_method s) (as_request s))) (raw_call auth m q md timeout)) as Hraw.
  { intros m q md timeout Hq st. destruct (raw_call_run auth m q md timeout st) as [(e & st' & -> & E)|(md' & n & ->)].
    - exists []. cbn [snd]. rewrite E, app_nil_r. by split.
    - eexists [_]. split; [done|]. by constructor. }
  by destruct (run_all_calls _ auth Hraw os new_admin) as (l & -> & Hl).
Qed.

(** ** Calls and the signatures they use *)

(** The calls added to the log are of the form [P n], for increasing numbers [n] of the interceptor's runs in
    between. *)
Definition step_calls (P : nat → admin_sent → Prop) (st st' : admin_state) : Prop :=
  ∃ l ns, a_log st' = a_log st ++ l ∧ Forall2 P ns l ∧ StronglySorted lt ns ∧
    Forall (λ n, a_signed st ≤ n < a_signed st')%nat ns ∧ (a_signed st ≤ a_signed st')%nat.

Global Instance step_calls_preorder P : PreOrder (step_calls P).
Proof.
  split.
  - intros st. exists [], []. rewrite app_nil_r. split_and!; try constructor.
  - intros a b c (l1 & ns1 & E1 & F1 & S1 & R1 & L1) (l2 & ns2 & E2 & F2 & S2 & R2 & L2).
    exists (l1 ++ l2), (ns1 ++ ns2). split_and!; [by rewrite E2, E1, (assoc_L (++))|by apply Forall2_app| | |lia].
    + apply StronglySorted_app_2; [|done|done]. intros x y Hx Hy.
      rewrite Forall_forall in R1, R2. apply R1 in Hx. apply R2 in Hy. lia.
    + apply Forall_app. split; eapply Forall_impl; [exact R1| |exact R2|]; simpl; lia.
Qed.

(** ** Calls of a key-bound client *)

Section dpop_calls.
Context `{Ed25519} `{AdminWorld} (it : DpopAuth).

(** The target of a method, and the time a proof names. *)
Definition call_htu (m : admin_method) : pystr := lit "grpc://" ++ da_aud it ++ admin_path m.
Definition call_iat (n : nat) : pyval := match da_clock it with None => PNone | Some f => f n end.

(** The call of the n-th run of the interceptor: the token under the DPoP scheme, and a proof made then. *)
Definition dpop_sent (n : nat) (s : admin_sent) : Prop :=
  ∃ md p, as_metadata s = md ++ [(lit "authorization", lit "DPoP " ++ da_token it); (lit "dpop", p)] ∧
    mgmt_dpop_proof (Some (da_key it)) (PStr (da_token it)) (PStr (lit "POST")) (PStr (call_htu (as_method s)))
      (PBytes (admin_serialize (as_request s))) (call_iat n) PNone (unix_time n) (token_bytes16 n) = Ok p.

Lemma raw_call_dpop m q md timeout : calls_in (step_calls dpop_sent) (raw_call (Some (Dpop it)) m q md timeout).
Proof.
  intros st. unfold raw_call, intercept, mbind, AM_bind. cbv zeta. set (n := a_signed st).
  destruct (_with_proof _ _ _ _ _ _) as [d|e] eqn:Ed; cbn [fmap res_fmap snd].
  - destruct (with_proof_spec it (details_of m md) (admin_path m) _ _ _ _ d eq_refl Ed) as (p & -> & Hp).
    exists [ASent m q (default [] md ++ [(lit "authorization", lit "DPoP " ++ da_token it); (lit "dpop", p)]) timeout], [n].
    unfold wire. cbn [snd a_log a_signed d_metadata with_metadata default from_option id].
    split_and!; [done| |repeat constructor| |lia].
    + constructor; [|constructor]. by exists (default [] md), p.
    + constructor; [lia|constructor].
  - exists [], []. cbn [a_log a_signed]. rewrite app_nil_r. split_and!; try constructor. done.
Qed.
End dpop_calls.

(** The time the proof of the n-th run of the interceptor names: the second the injected clock reads then, or, without
    one (and where it answers nothing), the wall clock's. *)
Definition signs_at `{AdminWorld} (it : DpopAuth) (n : nat) (i : Z) : Prop :=
  match da_clock it with
  | None => i = unix_time n
  | Some clock => clock n = PInt i ∨ clock n = PNone ∧ i = unix_time n
  end.

(** C17. Every call of a client connected with a key-bound token carries its own proof. Whichever verbs run, and
    whichever event streams are opened, read and cancelled, in whichever order and whatever the server answers, the calls
    on the wire belong to distinct runs of the interceptor, in order; and the call of the n-th has the token under the
    DPoP scheme and a proof that the receiver's check accepts exactly for this key's token, this gRPC method on the
    resolved audience, the exact serialized request, and a clock within 60 seconds of the one the client read in
    that run. *)
Theorem dpop_every_call `{Ed25519Laws} `{StreamWorld} seed it os st :
  new_OperatorDpopKey seed = Ok (da_key it) →
  let st' := run_all (Some (Dpop it)) os st in
  ∃ l ns, a_log st' = a_log st ++ l ∧ StronglySorted lt ns ∧ Forall (λ n, a_signed st ≤ n < a_signed st')%nat ns ∧
  Forall2 (λ n s, ∃ md p i, signs_at it n i ∧
    as_metadata s = md ++ [(lit "authorization", lit "DPoP " ++ da_token it); (lit "dpop", p)] ∧
    ∀ c, mgmt_dpop_check c p = true ↔
      mc_jkt c = _jkt (da_key it) ∧ mc_htm c = lit "POST" ∧
      mc_htu c = lit "grpc://" ++ da_aud it ++ admin_path (as_method s) ∧ Z.abs (mc_clock c - i) ≤ 60 ∧
      sha256 (mc_token c) = sha256 (da_token it) ∧ sha256 (mc_body c) = sha256 (admin_serialize (as_request s))) ns l.
Proof.
  intros Hk st'. destruct (run_all_calls (step_calls (dpop_sent it)) (Some (Dpop it)) (λ m q md t _, raw_call_dpop it m q md t) os st)
    as (l & ns & E & Hl & Hs & Hr & _).
  exists l, ns. split_and!; [done..|]. eapply Forall2_impl; [exact Hl|]. intros n s (md & p & Hmd & Hp).
  destruct (mgmt_dpop_proof_inv _ _ _ _ _ _ _ _ _ _ Hp) as (t & m & u & b & i & j & _ & _ & _ & _ & _ & _ & _ & _ & Hi & _).
  exists md, p, i. split_and!; [|done|].
  { unfold signs_at, call_iat in *. destruct (da_clock it) as [f|]; [|by injection Hi]. destruct (f n); try discriminate Hi; injection Hi; auto. }
  intros c. rewrite (proof_check seed _ _ _ _ _ _ _ _ _ _ c Hk Hp). split.
  - intros (Hj & Hm%PStr_inj & Hu%PStr_inj & (i' & Hi' & Hd) & (t' & Ht%PStr_inj & Hsh) & (b' & [= <-] & Hb)).
    rewrite Hi in Hi'. injection Hi' as <-. subst t'. by split_and!.
  - intros (Hj & Hm & Hu & Hd & Hsh & Hb). rewrite Hm, Hu. split_and!; eauto.
Qed.

(** No proof is sent twice: when the random ids drawn by the calls of a run are distinct, the proofs of all
    calls a key-bound client makes, over any sequence of verbs and stream operations, are pairwise distinct, so none is refused as
    already burned. *)
Theorem dpop_proofs_fresh `{Ed25519Laws} `{StreamWorld} seed it os :
  new_OperatorDpopKey seed = Ok (da_key it) →
  let st := run_all (Some (Dpop it)) os new_admin in
  (∀ i j, (i < j < a_signed st)%nat → token_bytes16 i ≠ token_bytes16 j) → (∀ i, Forall is_byte (token_bytes16 i)) →
  NoDup ((λ s, last (as_metadata s)) <$> a_log st).
Proof.
  intros Hk st Hinj Hb. apply new_key_spec in Hk as [_ Hk].
  destruct (run_all_calls (step_calls (dpop_sent it)) (Some (Dpop it)) (λ m q md t _, raw_call_dpop it m q md t) os new_admin)
    as (l & ns & E & Hl & Hs & Hr & _). fold st in E, Hr.
  rewrite E. cbn [new_admin a_log app]. clear E.
  assert (∀ n m s s', dpop_sent it n s → dpop_sent it m s' → last (as_metadata s) = last (as_metadata s') →
            token_bytes16 n = token_bytes16 m) as Hd.
  { intros n m s s' (md & p & Hmd & Hp) (md' & p' & Hmd' & Hp'). rewrite Hmd, Hmd', !last_app. cbn. intros [= <-].
    eapply (proof_fresh_inj (da_key it) (ed_public seed)); [by rewrite Hk|apply ed_public_bytes|done|done|done|done]. }
  clearbody st. induction Hl as [|n s ns l Hn Hl IH]; [constructor|]. apply StronglySorted_inv in Hs as [Hs Hlt].
  apply Forall_cons in Hr as [_ Hr]. rewrite fmap_cons. apply NoDup_cons. split; [|by apply IH].
  intros (s' & Heq & (i & Hi)%list_elem_of_lookup)%list_elem_of_fmap.
  destruct (Forall2_lookup_r _ _ _ _ _ Hl Hi) as (m & Hm & Hm').
  rewrite Forall_forall in Hlt, Hr. pose proof (Hlt m (list_elem_of_lookup_2 _ _ _ Hm)).
  destruct (Hr m (list_elem_of_lookup_2 _ _ _ Hm)). eapply (Hinj n m); [lia|]. exact (Hd n m s s' Hn Hm' Heq).
Qed.

(** ** Erasure *)

(** The erasure [s] among the calls [l] follows the preview it confirms: the two are all of [l], they name the same
    subject and tenant, the preview was answered, and the erasure asserts the number of records it listed. *)
Definition confirmed `{AdminWorld} (tenant subject : pystr) (t : spec_float) (before l : list admin_sent) (s : admin_sent) : Prop :=
  ∃ md pv, admin_serve PreviewErasure (ErasureRequest subject tenant None) md (Some t) before = Ok pv ∧
    l = [ASent PreviewErasure (ErasureRequest subject tenant None) md (Some t); s] ∧
    as_request s = ErasureRequest subject tenant (Some (zlen (would_erase pv))) ∧ as_timeout s = Some t.

(** An erasure is confirmed with its preview's own count: [erase_subject_confirmed] puts an [EraseSubject] on
    the wire only as the second of two calls, after a preview of the same subject and tenant that the server
    answered, with [confirm_count] the number of records that preview would erase and each call with the whole
    deadline; it succeeds only when both calls were made. *)
Theorem erase_confirmed `{Ed25519} `{AdminWorld} auth tenant subject t st :
  let '(r, st') := erase_subject_confirmed auth tenant subject t st in
  ∃ l, a_log st' = a_log st ++ l ∧ ((∃ m, r = Ok m) → length l = 2%nat) ∧
  ∀ s, s ∈ l → as_method s = EraseSubject → confirmed tenant subject t (a_log st) l s.
Proof.
  unfold erase_subject_confirmed, preview_erasure, erase_subject, admin_rpc, map_errors, mbind, AM_bind.
  destruct (raw_call_run auth PreviewErasure (ErasureRequest subject tenant None) None (Some t) st)
    as [(e & st' & -> & E)|(md & n & ->)].
  { rewrite mapped_call_Raise. exists []. rewrite E, app_nil_r. split; [done|]. split; [by intros [? ?]|].
    by intros s ?%not_elem_of_nil. }
  set (s1 := ASent PreviewErasure _ md (Some t)).
  destruct (admin_serve PreviewErasure _ md (Some t) (a_log st)) as [pv|e] eqn:Es.
  2: { rewrite mapped_call_Raise. exists [s1]. split; [done|]. split; [by intros [? ?]|].
       by intros s ->%list_elem_of_singleton. }
  cbn [mapped_call].
  destruct (raw_call_run auth EraseSubject (ErasureRequest subject tenant (Some (zlen (would_erase pv)))) None (Some t)
    {| a_log := a_log st ++ [s1]; a_signed := n |}) as [(e & st' & -> & E)|(md2 & n2 & ->)]; cbn [a_log] in *.
  - rewrite mapped_call_Raise. exists [s1]. split; [done|]. split; [by intros [? ?]|].
    by intros s ->%list_elem_of_singleton.
  - eexists. rewrite <-(assoc_L (++)). split; [done|]. split; [done|].
    intros s [->| ->%list_elem_of_singleton]%elem_of_cons; [done|]. intros _. by exists md, pv.
Qed.

(** ** The theorems at a concrete client *)

(** A server that previews two records and answers everything else with an empty reply. *)
Definition sample_reply (m : admin_method) : admin_reply Z m :=
  match m with
  | PreviewErasure => {| would_erase := [1; 2]; preview_rest := 0 |}
  | ListTenants | ListGrants | EnforceRetention | AuditTrail | RedriveEvents => []
  | _ => 0
  end.
Definition sample_admin_world : AdminWorld := {|
  AMessage := Z; admin_serialize := λ _, [1; 2]; unix_time := λ n, 1800000000 + Z.of_nat n;
  token_bytes16 := λ n, repeat 0 15 ++ [Z.of_nat n mod 256]; admin_serve := λ m _ _ _ _, Ok (sample_reply m);
|}.
Definition sample_auth : DpopAuth :=
  {| da_token := golden_token; da_key := sample_key; da_aud := DEFAULT_OPERATOR_AUD; da_clock := None |}.
(** A live tail of two events, then the cancellation; the runtime reports [CANCELLED] once cancelled. *)
Definition cancelled_error : exn := RawRpcError {| raw_code := Some (Some CANCELLED); raw_details := None; raw_trailing := None |}.
Definition sample_stream_world : @StreamWorld sample_admin_world := {|
  stream_next := λ _ n cancelled, if (cancelled : bool) then Failed cancelled_error
                                  else if (n <? 2)%nat then @Item (@AMessage sample_admin_world) (Z.of_nat n) else Exhausted;
  stream_cancel := λ _, true;
|}.
Definition sample_program : list admin_op :=
  [Verb (EraseSubjectConfirmedV (lit "acme") (lit "subject-7")) (f64_round_int 30);
   Verb (RedriveEventsV (lit "acme") (PInt (-1)) None None) (f64_round_int 5);
   OpenStream (lit "s-1") 0 true false None; NextEvent 0; NextEvent 0; CancelStream 0].
Definition sample_run : admin_state := @run_all toy_ed25519 sample_admin_world sample_stream_world (Some (Dpop sample_auth)) sample_program new_admin.

Example sample_run_calls :
  (as_method <$> a_log sample_run, as_request <$> a_log sample_run, a_signed sample_run)
  = ([PreviewErasure; EraseSubject; StreamEvents],
     [ErasureRequest (lit "subject-7") (lit "acme") None; ErasureRequest (lit "subject-7") (lit "acme") (Some 2);
      StreamEventsRequest (lit "s-1") 0 false true], 3%nat).
Proof. vm_compute. reflexivity. Qed.

Lemma dpop_every_call_witness :
  length (a_log sample_run) = 3%nat ∧ ∃ l ns, a_log sample_run = [] ++ l ∧ StronglySorted lt ns ∧
  Forall (λ n, 0 ≤ n < a_signed sample_run)%nat ns ∧
  Forall2 (λ n s, ∃ md p i, @signs_at sample_admin_world sample_auth n i ∧
    as_metadata s = md ++ [(lit "authorization", lit "DPoP " ++ golden_token); (lit "dpop", p)] ∧
    ∀ c, @mgmt_dpop_check toy_ed25519 c p = true ↔
      mc_jkt c = _jkt sample_key ∧ mc_htm c = lit "POST" ∧
      mc_htu c = lit "grpc://" ++ DEFAULT_OPERATOR_AUD ++ admin_path (as_method s) ∧ Z.abs (mc_clock c - i) ≤ 60 ∧
      sha256 (mc_token c) = sha256 golden_token ∧ sha256 (mc_body c) = sha256 [1; 2]) ns l.
Proof.
  split; [vm_compute; reflexivity|].
  exact (@dpop_every_call toy_ed25519 toy_ed25519_laws sample_admin_world sample_stream_world (repeat 0x42 32) sample_auth sample_program
    new_admin ltac:(vm_compute; reflexivity)).
Defined.

Lemma dpop_proofs_fresh_witness : NoDup ((λ s, last (as_metadata s)) <$> a_log sample_run).
Proof.
  assert (a_signed sample_run = 3%nat) as E by (vm_compute; reflexivity).
  apply (@dpop_proofs_fresh toy_ed25519 toy_ed25519_laws sample_admin_world sample_stream_world (repeat 0x42 32) sample_auth sample_program).
  - vm_compute. reflexivity.
  - change (run_all (Some (Dpop sample_auth)) sample_program new_admin) with sample_run. rewrite E. intros i j Hij.
    assert (i = 0 ∧ (j = 1 ∨ j = 2) ∨ i = 1 ∧ j = 2)%nat as [[-> [-> | ->]]|[-> ->]] by lia; discriminate.
  - intros i. change (token_bytes16 i) with (repeat 0 15 ++ [Z.of_nat i mod 256]). apply Forall_app.
    split; [repeat constructor; lia|]. constructor; [|constructor]. apply Z.mod_pos_bound. lia.
Defined.
