(* ===== verification/AdminStream.v ===== *)
(** * AdminStream: the event stream's protocol and streamed record digests

    Properties of [EventStream] (the handle [stream_events] returns) over every sequence of [next] and [cancel],
    and of [verify_streamed_record_digest]. *)

From stdpp Require Import base list numbers option strings sets.
From Stdlib Require Import SpecFloat.
From S2P Require Import Prelude Text Sha256 Keys Framing Floats RecordDigest AdminAuth Errors Client Admin AdminCalls.

(** ** Sequences of operations on a stream *)

Inductive es_op := DoNext | DoCancel.
Inductive es_out (M : Type) := GotNext (r : res M) | GotCancel (b : bool).
Arguments GotNext {_} _.
Arguments GotCancel {_} _.

Section stream.
Context `{Ed25519} `{StreamWorld} (auth : option interceptor).

Definition es_do (o : es_op) (es : EventStream) (st : admin_state) : es_out AMessage * EventStream * admin_state :=
  match o with
  | DoNext => let '(r, es, st) := es_next auth es st in (GotNext r, es, st)
  | DoCancel => let '(b, es) := es_cancel es in (GotCancel b, es, st)
  end.

(** The answers of a sequence of operations, and the state it ends in. *)
Fixpoint es_run (ops : list es_op) (es : EventStream) (st : admin_state) : list (es_out AMessage) * admin_state :=
  match ops with
  | [] => ([], st)
  | o :: ops => let '(r, es, st) := es_do o es st in let '(rs, st) := es_run ops es st in (r :: rs, st)
  end.

(** An answer a consumer may see: RPC failures are typed, and after a cancel none is the cancellation's own. *)
Definition es_ok (cancelled : bool) (o : es_out AMessage) : Prop :=
  match o with
  | GotNext (Raise e) =>
    (is_rpc_error e = true → ∃ cls c d t, e = SeamRpcError cls c d t) ∧
    (cancelled = true → error_code e ≠ Some CANCELLED)
  | _ => True
  end.

Lemma error_code_typed e : is_rpc_error e = true →
  ∃ cls c d t, map_rpc_error e = SeamRpcError cls c d t ∧ (c = CANCELLED → error_code e = Some CANCELLED).
Proof.
  intros He. destruct e; try done; do 4 eexists; (split; [reflexivity|]); cbn; [by intros ->|].
  repeat case_match; congruence.
Qed.

Lemma es_read_ok es call : es_ok (es_cancelled es) (GotNext (es_read es call).1).
Proof.
  unfold es_read. destruct (match call with Open _ => _ | Broken _ => _ end) as [m| |e]; cbn [fst es_ok]; [done|done|].
  destruct (is_rpc_error e) eqn:Er.
  - destruct (error_code_typed e Er) as (cls & c & d & t & -> & Hc).
    destruct (es_cancelled es); cbn [andb]; [|split; [by eauto|done]].
    case_bool_decide as Hcode; [done|]. split; [by eauto|]. cbn. intros _ [= ->]. by apply Hcode, Hc.
  - split; [by rewrite Er|]. by destruct e.
Qed.

Lemma es_read_state es call :
  let es' := (es_read es call).2 in
  es_request es' = es_request es ∧ es_timeout es' = es_timeout es ∧ es_call es' = es_call es ∧
  es_cancelled es' = es_cancelled es.
Proof. done. Qed.

(** Once the call was made, and once a stream was cancelled before it, nothing is sent any more. *)
Lemma es_run_quiet ops es st :
  (es_call es ≠ None ∨ es_cancelled es = true) → (es_run ops es st).2 = st.
Proof.
  revert es st. induction ops as [|[] ops IH]; intros es st Hq; [done| |]; cbn [es_run es_do].
  - unfold es_next. destruct (es_call es) as [call|] eqn:Ec.
    + destruct (es_read es call) as [r es'] eqn:Er. specialize (IH es' st).
      destruct (es_run ops es' st) as [rs st']. apply IH. left.
      pose proof (es_read_state es call) as (_ & _ & E & _). rewrite Er in E. cbn in E. by rewrite E, Ec.
    + destruct Hq as [|Hq]; [done|]. rewrite Hq. specialize (IH es st (or_intror Hq)).
      by destruct (es_run ops es st) as [rs st'].
  - specialize (IH (es_cancel es).2 st (or_intror eq_refl)). cbn in IH |- *.
    by destruct (es_run ops _ st) as [rs st'].
Qed.

Definition es_sent (es : EventStream) (s : admin_sent) : Prop :=
  as_method s = StreamEvents ∧ as_request s = es_request es ∧ as_timeout s = es_timeout es.

Lemma es_start_log es st :
  ∃ l, a_log (es_start auth es st).2 = a_log st ++ l ∧ (length l ≤ 1)%nat ∧ Forall (es_sent es) l.
Proof.
  unfold es_start. pose proof (intercept_log auth StreamEvents (es_request es) None st) as E.
  destruct (intercept _ _ _ _ _) as [[md|e] st1]; cbn [snd] in E |- *.
  - eexists [_]. cbn [a_log]. rewrite E. split; [done|]. split; [done|]. by repeat constructor.
  - exists []. rewrite E, app_nil_r. repeat split; [simpl; lia|constructor].
Qed.

Lemma es_start_call es st : es_call (es_start auth es st).1 ≠ None ∧ es_cancelled (es_start auth es st).1 = es_cancelled es.
Proof. unfold es_start. by destruct (intercept _ _ _ _ _) as [[md|e] st1]. Qed.

(** A run sends at most the one call of the stream. *)
Lemma es_run_sent ops es st :
  es_call es = None →
  ∃ l, a_log (es_run ops es st).2 = a_log st ++ l ∧ (length l ≤ 1)%nat ∧ Forall (es_sent es) l.
Proof.
  intros Hc. destruct ops as [|[] ops].
  { exists []. rewrite app_nil_r. repeat split; [simpl; lia|constructor]. }
  - cbn [es_run es_do]. unfold es_next. rewrite Hc. destruct (es_cancelled es) eqn:Hx.
    { pose proof (es_run_quiet ops es st (or_intror Hx)) as E. destruct (es_run ops es st) as [rs st']. cbn in E |- *.
      subst st'. exists []. rewrite app_nil_r. repeat split; [simpl; lia|constructor]. }
    pose proof (es_start_log es st) as Hl. pose proof (es_start_call es st) as [Hn _].
    destruct (es_start auth es st) as [es1 st1]. cbn [fst snd] in Hl, Hn.
    destruct (es_call es1) as [call|] eqn:Ec; [|done]. pose proof (es_read_state es1 call) as (_ & _ & E & _).
    destruct (es_read es1 call) as [r es2]. cbn [snd] in E.
    pose proof (es_run_quiet ops es2 st1) as Eq. destruct (es_run ops es2 st1) as [rs st']. cbn [snd] in Eq |- *.
    rewrite Eq; [done|]. left. congruence.
  - cbn [es_run es_do es_cancel]. pose proof (es_run_quiet ops (es_cancel es).2 st (or_intror eq_refl)) as Eq.
    cbn [es_cancel snd] in Eq. destruct (es_run ops _ st) as [rs st']. cbn [snd] in Eq |- *. subst st'.
    exists []. rewrite app_nil_r. repeat split; [simpl; lia|constructor].
Qed.

(** Was the stream cancelled before the [i]-th of these operations? *)
Definition cancelled_before (ops : list es_op) (i : nat) : bool :=
  existsb (λ o, match o with DoCancel => true | DoNext => false end) (take i ops).

Lemma es_next_ok es st :
  let '(r, es', _) := es_next auth es st in es_ok (es_cancelled es) (GotNext r) ∧ es_cancelled es' = es_cancelled es.
Proof.
  unfold es_next. destruct (es_call es) as [call|] eqn:Ec.
  { pose proof (es_read_ok es call) as Hr. pose proof (es_read_state es call) as (_ & _ & _ & Hx).
    by destruct (es_read es call). }
  destruct (es_cancelled es) eqn:Hx; [by cbn; rewrite Hx|].
  pose proof (es_start_call es st) as [Hn Hs]. destruct (es_start auth es st) as [es1 st1]. cbn [fst] in Hn, Hs.
  destruct (es_call es1) as [call|]; [|done].
  pose proof (es_read_ok es1 call) as Hr. pose proof (es_read_state es1 call) as (_ & _ & _ & Hy).
  destruct (es_read es1 call). cbn [fst snd] in Hr, Hy. rewrite Hs, Hx in Hr. split; [done|]. congruence.
Qed.

Lemma es_run_ok ops es st i o :
  (es_run ops es st).1 !! i = Some o → es_ok (es_cancelled es || cancelled_before ops i) o.
Proof.
  revert es st i. induction ops as [|[] ops IH]; intros es st i; [done| |]; cbn [es_run es_do].
  - pose proof (es_next_ok es st) as Hn. destruct (es_next auth es st) as [[r es1] st1]. destruct Hn as [Hn Hx].
    specialize (IH es1 st1). destruct (es_run ops es1 st1) as [rs st']. cbn [fst] in IH |- *.
    destruct i as [|i]; cbn [lookup list_lookup].
    + intros [= <-]. unfold cancelled_before. cbn. by rewrite orb_false_r.
    + intros Ho. rewrite <-Hx. by apply IH in Ho.
  - specialize (IH (es_cancel es).2 st). destruct (es_cancel es) as [b es1] eqn:Ec. cbn [snd] in IH.
    destruct (es_run ops es1 st) as [rs st']. cbn [fst] in IH |- *.
    destruct i as [|i]; cbn [lookup list_lookup]; [by intros [= <-]|].
    intros Ho. apply IH in Ho. unfold es_cancel in Ec. injection Ec as _ <-. cbn in Ho |- *. by rewrite orb_true_r.
Qed.

(** A cancel before the call was made settles every later read. *)
Lemma es_run_unstarted ops es st i r :
  es_call es = None → es_cancelled es = true → (es_run ops es st).1 !! i = Some (GotNext r) → r = Raise StopIteration.
Proof.
  revert es i. induction ops as [|[] ops IH]; intros es i Hc Hx; [done| |]; cbn [es_run es_do].
  - unfold es_next. rewrite Hc, Hx. specialize (IH es). destruct (es_run ops es st) as [rs st'].
    destruct i as [|i]; cbn [lookup list_lookup fst]; [by intros [= <-]|by apply IH].
  - cbn [es_cancel]. specialize (IH (es_cancel es).2). cbn [es_cancel snd] in IH.
    destruct (es_run ops _ st) as [rs st']. destruct i as [|i]; cbn [lookup list_lookup fst]; [done|]. by apply IH.
Qed.
End stream.

(** C39. The event stream over every sequence of [next] and [cancel]: nothing is sent by [stream_events] itself,
    and at most one [StreamEvents] call, with exactly the request and deadline given, by all the operations
    after it; when the stream is cancelled before it is read, nothing at all is sent and every [next] is a clean
    end; every RPC failure [next] raises is a typed one; and after a [cancel] no [next] raises the
    cancellation it asked for. *)
Theorem event_stream_protocol `{Ed25519} `{StreamWorld} auth stream_id from_seq follow ack timeout st ops es st1 :
  stream_events stream_id from_seq follow ack timeout st = (Ok es, st1) →
  st1 = st ∧
  let '(outs, st2) := es_run auth ops es st1 in
  (∃ l, a_log st2 = a_log st ++ l ∧ (length l ≤ 1)%nat ∧
     Forall (λ s, as_method s = StreamEvents ∧ as_request s = StreamEventsRequest stream_id from_seq ack follow ∧
                  as_timeout s = timeout) l) ∧
  (head ops = Some DoCancel → a_log st2 = a_log st ∧ ∀ i r, outs !! i = Some (GotNext r) → r = Raise StopIteration) ∧
  (∀ i e, outs !! i = Some (GotNext (Raise e)) →
     (is_rpc_error e = true → ∃ cls c d t, e = SeamRpcError cls c d t) ∧
     (cancelled_before ops i = true → error_code e ≠ Some CANCELLED)).
Proof.
  unfold stream_events, mbind, AM_bind, alift, mret, AM_ret.
  destruct (_require_stream_id stream_id); [|done]. destruct (guard_raise _ ValueError); [|done].
  intros [= <- <-]. split; [done|]. set (es0 := Build_EventStream _ _ _ _ _).
  pose proof (es_run_sent auth ops es0 st eq_refl) as Hl. pose proof (es_run_ok auth ops es0 st) as Hok.
  destruct ops as [|[] ops].
  - cbn in *. split; [done|]. split; [done|]. by intros i e ?.
  - destruct (es_run auth (DoNext :: ops) es0 st) as [outs st2]. cbn [fst snd] in Hl, Hok.
    split; [done|]. split; [done|]. intros i e Ho. by apply (Hok i _) in Ho.
  - pose proof (es_run_quiet auth ops (es_cancel es0).2 st (or_intror eq_refl)) as Hq.
    pose proof (λ i r, es_run_unstarted auth ops (es_cancel es0).2 st i r eq_refl eq_refl) as Hu.
    cbn [es_run es_do] in *. destruct (es_cancel es0) as [b es1]. cbn [snd] in Hq, Hu.
    destruct (es_run auth ops es1 st) as [outs st2]. cbn [fst snd] in *. subst st2.
    split; [done|]. split.
    + intros _. split; [done|]. intros [|i] r; [done|]. apply Hu.
    + intros i e Ho. by apply (Hok i _) in Ho.
Qed.

(** ** Streamed record digests *)

(** When the digest of a streamed record counts as verified: the event is a sealed decision of schema 4 with a
    non-empty sealed digest, and the digest it carries is the record digest of the very values on the wire. *)
Lemma streamed_digest_iff e :
  verify_streamed_record_digest e = Ok true ↔
  ev_kind e = lit "DECISION_SEALED" ∧ p_schema_version (ev_payload e) = 4 ∧ p_ciphertext_digest (ev_payload e) ≠ [] ∧
  ∃ d, ev_digest e = Some d ∧ record_digest_v4 (streamed_args (ev_payload e)) = Ok d.
Proof.
  unfold verify_streamed_record_digest. destruct (bool_decide_reflect (ev_kind e = lit "DECISION_SEALED")) as [Hk|Hk];
    cbn [guard_raise mbind res_bind]; [|by split; [|intros (? & _)]].
  destruct (Z.eqb_spec (p_schema_version (ev_payload e)) 4) as [Hv|Hv]; cbn [guard_raise mbind res_bind];
    [|by split; [|intros (_ & ? & _)]].
  destruct (ev_digest e) as [d|]; [|by split; [|intros (_ & _ & _ & ? & [=] & _)]].
  case_bool_decide as Hc; [by split; [|intros (_ & _ & ? & _)]|].
  destruct (record_digest_v4 _) as [d'|x]; cbn [mbind res_bind].
  - split; [intros [= ->%bool_decide_eq_true]; by eauto 6|]. intros (_ & _ & _ & ? & [= <-] & [= ->]).
    by rewrite bool_decide_true.
  - split; [done|]. by intros (_ & _ & _ & ? & _ & [=]).
Qed.

Lemma sub_digest_wire n t b d : required (_sub_digest n t (PBytes b) false) = Ok d → b = d.
Proof. unfold required, _sub_digest. cbn. destruct b; [done|]. cbn. by case_match; [|intros [= ->]]. Qed.

Lemma policy_digest_wire n t b o :
  _sub_digest n t (match b with [] => PNone | x :: l => PBytes (x :: l) end) true = Ok o → b = default [] o.
Proof. unfold _sub_digest. destruct b; cbn; [by intros [= <-]|]. by case_match; [|intros [= <-]]. Qed.

Lemma mandatory_text_wire n t s x : required (_mandatory_text n t (PStr s)) = Ok x → s = x.
Proof. unfold _mandatory_text. destruct s; [done|]. by intros [= <-]. Qed.

Lemma rd_text_wire s x : required (_rd_text (PStr s) false) = Ok x → s = x.
Proof. by intros [= <-]. Qed.

Lemma rd_opt_text_wire o x : _rd_text (opt_str o) true = Ok x → o = x.
Proof. by destruct o; intros [= <-]. Qed.

(** The payload a validated record was read from. *)
Definition payload_of (r : record_slots) : sealed_payload := {|
  p_schema_version := 4; p_decision_id := r_decision_id r; p_tenant := r_tenant r; p_namespace := r_namespace r;
  p_ciphertext_digest := r_ciphertext_digest r; p_sealed_at := r_sealed_at r; p_outcome := r_outcome r;
  p_mode := r_mode r; p_policy_version := r_policy_version r; p_supersedes := r_supersedes r;
  p_context_digest := r_context_digest r; p_participation_digest := r_participation_digest r;
  p_policy_rules_digest := default [] (r_policy_rules_digest r); p_classification := r_classification r;
  p_participants_digest := r_participants_digest r; p_trust_basis_commitment := r_trust_basis_commitment r;
  p_auth_method := r_auth_method r;
|}.

Lemma validate_streamed p r :
  p_schema_version p = 4 → validate_record (streamed_args p) = Ok r → p = payload_of r.
Proof.
  intros Hs. unfold validate_record. rewrite bind_Ok. intros (_ & _ & Hv).
  repeat (apply bind_Ok in Hv as (? & ? & Hv)). apply Ok_inj in Hv as <-. unfold payload_of, streamed_args in *.
  cbn [r_decision_id r_tenant r_namespace r_ciphertext_digest r_sealed_at r_outcome r_mode r_policy_version r_supersedes
    r_context_digest r_participation_digest r_policy_rules_digest r_classification r_participants_digest
    r_trust_basis_commitment r_auth_method a_decision_id a_tenant a_namespace a_ciphertext_digest a_sealed_at a_outcome
    a_mode a_policy_version a_supersedes a_context_digest a_participation_digest a_policy_rules_digest a_classification
    a_participants_digest a_trust_basis_commitment a_auth_method _as_bytes] in *.
  repeat match goal with
  | H : required (_sub_digest _ _ _ _) = Ok _ |- _ => apply sub_digest_wire in H
  | H : _sub_digest _ _ _ _ = Ok _ |- _ => apply policy_digest_wire in H
  | H : required (_mandatory_text _ _ _) = Ok _ |- _ => apply mandatory_text_wire in H
  | H : required (_rd_text _ _) = Ok _ |- _ => apply rd_text_wire in H
  | H : _rd_text _ _ = Ok _ |- _ => apply rd_opt_text_wire in H
  | H : _uint_slot _ _ = Ok _ |- _ => apply uint_slot_Ok in H as [H _]; injection H as H
  | H : Ok _ = Ok _ |- _ => apply Ok_inj in H
  end.
  destruct p. cbn [Admin.p_schema_version Admin.p_decision_id Admin.p_tenant Admin.p_namespace Admin.p_ciphertext_digest
    Admin.p_sealed_at Admin.p_outcome Admin.p_mode Admin.p_policy_version Admin.p_supersedes Admin.p_context_digest
    Admin.p_participation_digest Admin.p_policy_rules_digest Admin.p_classification Admin.p_participants_digest
    Admin.p_trust_basis_commitment Admin.p_auth_method] in *. by subst.
Qed.

(** The bytes the digest of a streamed event is the hash of. *)
Definition streamed_pre (e : SeamEvent) : res bytes := record_pre (streamed_args (ev_payload e)).

(** A verified streamed record is the record its digest commits to: two sealed-decision events that both verify
    and carry the same digest have the same payload in all seventeen values, absent and empty kept apart in the
    optional texts, unless their two preimages are a SHA-256 collision. *)
Theorem streamed_digest_binding e1 e2 :
  verify_streamed_record_digest e1 = Ok true → verify_streamed_record_digest e2 = Ok true →
  ev_digest e1 = ev_digest e2 →
  ev_payload e1 = ev_payload e2 ∨
  ∃ p q, streamed_pre e1 = Ok p ∧ streamed_pre e2 = Ok q ∧ sha256_collision p q.
Proof.
  intros (_ & Hs1 & _ & d1 & Hd1 & H1)%streamed_digest_iff (_ & Hs2 & _ & d2 & Hd2 & H2)%streamed_digest_iff Hd.
  assert (d1 = d2) as -> by congruence. rewrite record_digest_v4_pre in H1, H2.
  apply fmap_Ok in H1 as (p & Hp & ->), H2 as (q & Hq & Heq).
  apply sha256_eq_or_collision in Heq as [->|]; [left|by eauto 6].
  apply bind_Ok in Hp as (r1 & Hr1 & Hp), Hq as (r2 & Hr2 & Hq).
  rewrite (record_preimage_inj _ _ _ Hp Hq) in Hr1. apply validate_streamed in Hr1, Hr2; [|done..]. congruence.
Qed.

(** ** The theorems at a concrete stream *)

Definition sample_payload : sealed_payload := {|
  p_schema_version := 4; p_decision_id := lit "dec:1"; p_tenant := lit "acme"; p_namespace := lit "fraud";
  p_ciphertext_digest := repeat 1 32; p_sealed_at := 1760000000000; p_outcome := lit "approved"; p_mode := None;
  p_policy_version := Some []; p_supersedes := None; p_context_digest := repeat 2 32;
  p_participation_digest := repeat 3 32; p_policy_rules_digest := []; p_classification := lit "internal";
  p_participants_digest := repeat 4 32; p_trust_basis_commitment := lit "tb"; p_auth_method := lit "ticket";
|}.
Definition sample_event : SeamEvent := {|
  ev_kind := lit "DECISION_SEALED"; ev_payload := sample_payload;
  ev_digest := match record_digest_v4 (streamed_args sample_payload) with Ok d => Some d | Raise _ => None end;
|}.

Lemma streamed_digest_binding_witness :
  verify_streamed_record_digest sample_event = Ok true ∧
  (ev_payload sample_event = ev_payload sample_event ∨
   ∃ p q, record_pre (streamed_args sample_payload) = Ok p ∧ record_pre (streamed_args sample_payload) = Ok q ∧
          sha256_collision p q).
Proof.
  assert (verify_streamed_record_digest sample_event = Ok true) as H by (vm_compute; reflexivity).
  split; [exact H|]. exact (streamed_digest_binding sample_event sample_event H H eq_refl).
Defined.

Definition sample_ops : list es_op := [DoNext; DoNext; DoCancel; DoNext].
Definition sample_stream : EventStream := {|
  es_request := StreamEventsRequest (lit "cell-1") 0 false true; es_timeout := None; es_call := None;
  es_cancelled := false; es_reads := 0;
|}.
Definition sample_es_run := @es_run toy_ed25519 sample_admin_world sample_stream_world (Some (Bearer (lit "t"))) sample_ops
  sample_stream new_admin.

Lemma event_stream_protocol_witness :
  sample_es_run.1 = [GotNext (Ok 0); GotNext (Ok 1); GotCancel true; GotNext (Raise StopIteration)] ∧
  length (a_log sample_es_run.2) = 1%nat ∧
  ∃ l, a_log sample_es_run.2 = [] ++ l ∧ (length l ≤ 1)%nat ∧
    Forall (λ s, as_method s = StreamEvents ∧ as_request s = StreamEventsRequest (lit "cell-1") 0 false true ∧
                 as_timeout s = None) l.
Proof.
  split; [vm_compute; reflexivity|]. split; [vm_compute; reflexivity|].
  pose proof (@event_stream_protocol toy_ed25519 sample_admin_world sample_stream_world (Some (Bearer (lit "t")))
    (lit "cell-1") 0 true false None new_admin sample_ops sample_stream new_admin eq_refl) as [_ H].
  change (@es_run toy_ed25519 sample_admin_world sample_stream_world (Some (Bearer (lit "t"))) sample_ops
    sample_stream new_admin) with sample_es_run in H.
  destruct sample_es_run as [outs st2]. destruct H as [H _]. exact H.
Defined.
