(* ===== verification/Identity.v ===== *)
(** * Identity: the bootstrap file

    [identity.py]: the shared validator, the two loaders and the bytes of a new file. What opening a path and reading
    it gives is an argument ([read_file]); [IdentityFile] models the file system a file is created in. *)

From stdpp Require Import base list numbers option strings sets.
From Stdlib Require Import SpecFloat.
From S2P Require Import Prelude Text Sha256 Base64 Keys Framing Floats Json JsonRead Dumps Commitment Client.

(** ** The shape of a file *)

Definition ENV_POINTER : pystr := lit "SEAM_BOOTSTRAP_FILE".
Definition SCHEMA_VERSION : Z := 1.

(** [_AID_RE.fullmatch], [_SEED_HEX_RE.fullmatch] *)
Definition _AID_RE (s : pystr) : bool :=
  match strip_prefix aid_prefix s with
  | Some r => (zlen r =? 43) && forallb is_b64url_char r
  | None => false
  end.
Definition is_hex (c : Z) : bool := match hex_digit c with Some _ => true | None => false end.
Definition _SEED_HEX_RE (s : pystr) : bool := (zlen s =? 64) && forallb is_hex s.

Record LoadedIdentity := { li_agent : Agent; li_agent_id : pystr; li_tenant : pystr; li_endpoint : pystr }.
Record IdentityFacts := { if_agent_id : pystr; if_tenant : pystr; if_endpoint : pystr; if_aid : pystr }.

(** [v == 1] *)
Definition equals_one (v : pyval) : bool :=
  match v with
  | PInt z => z =? SCHEMA_VERSION
  | PBool b => b
  | PFloat f => f64_eqb f (f64_round_int SCHEMA_VERSION)
  | _ => false
  end.

(** [data.get(k)] *)
Definition get (k : pystr) (data : list (pyval * pyval)) : pyval := default PNone (dict_find k data).
Definition required_fields : list pystr := [lit "agent_id"; lit "tenant"; lit "endpoint"].

Section loading.
Context `{Ed25519}.
(** What opening a path and reading it gives, the [OSError] of either included, and the environment. *)
Context (read_file : pystr → res bytes) (environ : pystr → option pystr).
(** [str(v)] of a JSON value that is neither text nor an integer nor a boolean. *)
Context (other_str : pyval → pystr).

Definition py_str (v : pyval) : pystr :=
  match v with
  | PStr s => s
  | PInt z => str_of_int z
  | PBool b => if b then lit "True" else lit "False"
  | v => other_str v
  end.

(** The [try] of [_read_and_validate]. *)
Definition read_json (resolved : pystr) : res pyval :=
  try_except
    (try_except (b ← read_file resolved; s ← utf8_decode b; json_loads_str dict_pairs (universal_newlines s))
       CFileNotFoundError (λ _, Raise (IdentityFileError "bootstrap file not found")))
    CJSONDecodeError (λ _, Raise (IdentityFileError "bootstrap file is not valid JSON")).

Definition check_fields (data : list (pyval * pyval)) : res () :=
  _ ← guard_raise (equals_one (get (lit "version") data)) (IdentityFileError "bootstrap schema version unsupported");
  seed_hex ← match default (PStr []) (dict_find (lit "seed_hex") data) with
             | PStr s => if zlen s =? 64 then Ok s else Raise (IdentityFileError "seed_hex must be exactly 64 hex chars")
             | _ => Raise (IdentityFileError "seed_hex must be exactly 64 hex chars")
             end;
  _ ← guard_raise (_SEED_HEX_RE seed_hex) (IdentityFileError "seed_hex is not valid hex");
  _ ← guard_raise (forallb (λ k, py_truthy (get k data)) required_fields)
        (IdentityFileError "bootstrap file missing required field(s)");
  match dict_find (lit "aid") data with
  | None => Ok ()
  | Some (PStr s) => guard_raise (_AID_RE s) (IdentityFileError "aid is malformed")
  | Some _ => Raise (IdentityFileError "aid is malformed")
  end.

Definition _read_and_validate (path : option pystr) : res (list (pyval * pyval)) :=
  let resolved := match path with Some p => p | None => default [] (environ ENV_POINTER) end in
  _ ← guard_raise (negb (bool_decide (resolved = []))) (IdentityFileError "no bootstrap file");
  data ← read_json resolved;
  match data with
  | PDict data => _ ← check_fields data; Ok data
  | _ => Raise (IdentityFileError "bootstrap file is not a JSON object")
  end.

Definition item (k : pystr) (data : list (pyval * pyval)) : res pyval :=
  match dict_find k data with Some v => Ok v | None => Raise KeyError end.

Definition _decode_seed (seed_hex : pyval) : res bytes :=
  match seed_hex with PStr s => bytes_fromhex s | _ => Raise TypeError end.

Definition _derive_aid (seed_hex : pyval) : res pystr :=
  seed ← _decode_seed seed_hex;
  sk ← private_from_bytes seed;
  Ok (aid_from_pubkey (ed_public sk)).

Definition load_identity_file (path : option pystr) : res LoadedIdentity :=
  data ← _read_and_validate path;
  seed_hex ← item (lit "seed_hex") data;
  seed ← _decode_seed seed_hex;
  agent ← new_Agent seed;
  _ ← guard_raise (match dict_find (lit "aid") data with None => true | Some v => py_eq_str v (aid agent) end)
        (IdentityFileError "recorded aid does not match seed_hex");
  agent_id ← item (lit "agent_id") data;
  tenant ← item (lit "tenant") data;
  endpoint ← item (lit "endpoint") data;
  Ok {| li_agent := agent; li_agent_id := py_str agent_id; li_tenant := py_str tenant; li_endpoint := py_str endpoint |}.

(** A recorded [aid] has passed [_AID_RE], so it is text. *)
Definition load_identity_facts (path : option pystr) : res IdentityFacts :=
  data ← _read_and_validate path;
  aid ← match dict_find (lit "aid") data with
        | Some (PStr s) => Ok s
        | Some _ => Raise TypeError
        | None => seed_hex ← item (lit "seed_hex") data; _derive_aid seed_hex
        end;
  agent_id ← item (lit "agent_id") data;
  tenant ← item (lit "tenant") data;
  endpoint ← item (lit "endpoint") data;
  Ok {| if_agent_id := py_str agent_id; if_tenant := py_str tenant; if_endpoint := py_str endpoint; if_aid := aid |}.

(** ** The bytes of a file *)

Definition identity_object (agent : Agent) (agent_id tenant endpoint : pystr) : jval :=
  JObj [(lit "version", JInt SCHEMA_VERSION); (lit "seed_hex", JStr (hex_of_bytes (seed agent)));
        (lit "agent_id", JStr agent_id); (lit "tenant", JStr tenant); (lit "endpoint", JStr endpoint);
        (lit "aid", JStr (aid agent))].

(** [json.dumps] emits ASCII, so its UTF-8 encoding is itself. *)
Definition _identity_file_body (agent : Agent) (agent_id tenant endpoint : pystr) : res bytes :=
  b ← utf8_encode (dumps indented 0 (identity_object agent agent_id tenant endpoint)); Ok (b ++ [10]).
End loading.

(** ** What validation gives *)

Lemma utf8_decode_error b e : utf8_decode b = Raise e → e = UnicodeDecodeError.
Proof.
  revert e. induction b as [b IH] using (induction_ltof1 _ (@length Z)); intros e. unfold ltof in IH.
  destruct b as [|b0 r0]; [done|]. cbn [utf8_decode].
  repeat case_match; try congruence; intros Hr%fmap_Raise; (eapply IH, Hr; simpl; lia).
Qed.

Lemma fromhex_total s : forallb is_hex s = true → ∀ n, length s = (2 * n)%nat →
  ∃ b, bytes_fromhex s = Ok b ∧ length b = n.
Proof.
  intros Hs n. revert s Hs. induction n as [|n IH]; intros s Hs Hn.
  { destruct s; [by exists []|simpl in Hn; lia]. }
  destruct s as [|c [|d s]]; simpl in Hn; try lia. cbn [forallb] in Hs.
  apply andb_true_iff in Hs as [Hc [Hd Hs]%andb_true_iff]. destruct (IH s Hs) as (b & Eb & Hb); [lia|].
  unfold is_hex in Hc, Hd. destruct (hex_digit c) as [h|] eqn:Eh; [|done]. destruct (hex_digit d) as [l|] eqn:El; [|done].
  assert (is_space c = false) as Hsp.
  { unfold hex_digit in Eh. unfold is_space. cmp; done. }
  exists (h * 16 + l :: b). cbn [bytes_fromhex]. rewrite Hsp, Eh, El, Eb. split; [done|]. simpl. lia.
Qed.

Lemma get_found k data : py_truthy (get k data) = true → ∃ v, dict_find k data = Some v.
Proof. unfold get. destruct (dict_find k data) as [v|]; [by exists v|done]. Qed.

(** A validated file: its seed, its three fields, and its recorded identifier if any. *)
Record validated (data : list (pyval * pyval)) (sd : bytes) (agent_id tenant endpoint : pyval) (rec : option pystr) : Prop := {
  v_seed : ∃ s, dict_find (lit "seed_hex") data = Some (PStr s) ∧ bytes_fromhex s = Ok sd ∧ length sd = 32%nat;
  v_agent_id : dict_find (lit "agent_id") data = Some agent_id;
  v_tenant : dict_find (lit "tenant") data = Some tenant;
  v_endpoint : dict_find (lit "endpoint") data = Some endpoint;
  v_aid : dict_find (lit "aid") data = PStr <$> rec;
}.

Lemma check_fields_validated data u :
  check_fields data = Ok u → ∃ sd agent_id tenant endpoint rec, validated data sd agent_id tenant endpoint rec.
Proof.
  unfold check_fields.
  intros (_ & _ & (s & Hs & (_ & Hx%guard_raise_Ok & (_ & Hf%guard_raise_Ok & Ha)%bind_Ok)%bind_Ok)%bind_Ok)%bind_Ok.
  assert (dict_find (lit "seed_hex") data = Some (PStr s)) as Es.
  { destruct (dict_find (lit "seed_hex") data) as [v|]; [|done]. cbn [default from_option id] in Hs.
    destruct v; try done. destruct (zlen s0 =? 64); [|done]. by apply Ok_inj in Hs as ->. }
  unfold _SEED_HEX_RE in Hx. apply andb_true_iff in Hx as [Hl%Z.eqb_eq Hx].
  destruct (fromhex_total s Hx 32) as (sd & Esd & Hsd); [lia|].
  unfold required_fields in Hf. cbn [forallb] in Hf. rewrite !andb_true_iff in Hf. destruct Hf as (H1 & H2 & H3 & _).
  apply get_found in H1 as [v1 H1], H2 as [v2 H2], H3 as [v3 H3].
  assert (∃ rec, dict_find (lit "aid") data = PStr <$> rec) as [rec Hr].
  { destruct (dict_find (lit "aid") data) as [v|]; [|by exists None]. destruct v; try done. by eexists (Some _). }
  exists sd, v1, v2, v3, rec. split; eauto.
Qed.

Lemma check_fields_error data e : check_fields data = Raise e → ∃ r, e = IdentityFileError r.
Proof.
  unfold check_fields. intros [[_ ->]%guard_raise_Raise|(_ & _ & [Hs|(s & _ & [[_ ->]%guard_raise_Raise|(_ & _ &
    [[_ ->]%guard_raise_Raise|(_ & _ & Ha)]%bind_Raise)]%bind_Raise)]%bind_Raise)]%bind_Raise; [by eexists| |by eexists..|].
  - repeat case_match; simplify_eq; by eexists.
  - repeat case_match; simplify_eq; try (by eexists). apply guard_raise_Raise in Ha as [_ ->]. by eexists.
Qed.

Section properties.
Context `{Ed25519} (read_file : pystr → res bytes) (environ : pystr → option pystr) (other_str : pyval → pystr).
Abbreviation validate := (_read_and_validate read_file environ).
Abbreviation load := (load_identity_file read_file environ other_str).
Abbreviation facts := (load_identity_facts read_file environ other_str).

Lemma validate_validated path data :
  validate path = Ok data → ∃ sd agent_id tenant endpoint rec, validated data sd agent_id tenant endpoint rec.
Proof.
  unfold _read_and_validate. intros (_ & _ & (v & _ & Hv)%bind_Ok)%bind_Ok. destruct v; try done.
  apply bind_Ok in Hv as (u & Hc & [= <-]). by eapply check_fields_validated.
Qed.

Lemma load_validated path data sd i t e rec :
  validate path = Ok data → validated data sd i t e rec →
  load path = (if decide (rec = None ∨ rec = Some (aid {| seed := sd |}))
               then Ok {| li_agent := {| seed := sd |}; li_agent_id := py_str other_str i; li_tenant := py_str other_str t;
                          li_endpoint := py_str other_str e |}
               else Raise (IdentityFileError "recorded aid does not match seed_hex")).
Proof.
  intros Hv [(s & Es & Eb & Hl) Ei Et Ee Ea]. unfold load_identity_file, item. rewrite Hv. cbn [mbind res_bind].
  rewrite Es. cbn [mbind res_bind _decode_seed]. rewrite Eb. cbn [mbind res_bind]. unfold new_Agent.
  rewrite (proj2 (Z.eqb_eq (zlen sd) 32)) by lia. cbn [mbind res_bind]. rewrite Ea, Ei, Et, Ee.
  destruct rec as [r|]; cbn [fmap option_fmap option_map py_eq_str].
  - case_bool_decide as Hr; cbn [guard_raise mbind res_bind].
    + by rewrite decide_True by (right; by f_equal).
    + rewrite decide_False; [done|]. by intros [|[= ?]].
  - by rewrite decide_True by (by left).
Qed.

Lemma facts_validated path data sd i t e rec :
  validate path = Ok data → validated data sd i t e rec →
  facts path = Ok {| if_agent_id := py_str other_str i; if_tenant := py_str other_str t; if_endpoint := py_str other_str e;
                     if_aid := default (aid {| seed := sd |}) rec |}.
Proof.
  intros Hv [(s & Es & Eb & Hl) Ei Et Ee Ea]. unfold load_identity_facts, item. rewrite Hv. cbn [mbind res_bind].
  rewrite Ea, Ei, Et, Ee, Es. destruct rec as [r|]; cbn [fmap option_fmap option_map]; [done|].
  unfold _derive_aid. cbn [mbind res_bind _decode_seed]. rewrite Eb. cbn [mbind res_bind]. unfold private_from_bytes.
  by rewrite decide_True.
Qed.

(** The two loaders refuse the same files with the same refusal, and agree on what they return: they either both
    refuse a file, identically; or [load_identity_facts] returns the facts and [load_identity_file] returns an agent
    with these facts whose identifier is the one returned; or the file records an identifier that is not its seed's, which
    [load_identity_facts] returns as the file's claim and [load_identity_file] refuses. *)
Theorem identity_loaders_agree path :
  (∃ e, load_identity_file read_file environ other_str path = Raise e ∧
        load_identity_facts read_file environ other_str path = Raise e) ∨
  ∃ f, load_identity_facts read_file environ other_str path = Ok f ∧
    ((∃ l, load_identity_file read_file environ other_str path = Ok l ∧ if_aid f = aid (li_agent l) ∧
       if_agent_id f = li_agent_id l ∧ if_tenant f = li_tenant l ∧ if_endpoint f = li_endpoint l) ∨
     load_identity_file read_file environ other_str path = Raise (IdentityFileError "recorded aid does not match seed_hex") ∧
     ∃ data s a b, _read_and_validate read_file environ path = Ok data ∧
       dict_find (lit "aid") data = Some (PStr a) ∧ if_aid f = a ∧
       dict_find (lit "seed_hex") data = Some (PStr s) ∧ bytes_fromhex s = Ok b ∧ a ≠ aid {| seed := b |}).
Proof.
  destruct (validate path) as [data|e] eqn:Hv.
  2: { left. exists e. unfold load_identity_file, load_identity_facts. by rewrite Hv. }
  destruct (validate_validated path data Hv) as (sd & i & t & e & rec & Hd). right. eexists.
  split; [by eapply facts_validated|]. rewrite (load_validated path data sd i t e rec Hv Hd). cbn [if_aid].
  case_decide as Hr.
  - left. eexists. split; [reflexivity|]. cbn. split_and!; [|done..]. by destruct Hr as [->| ->].
  - right. split; [done|]. destruct rec as [a|]; [|by destruct Hr; left]. destruct Hd as [(s & Es & Eb & _) _ _ _ Ea].
    exists data, s, a, sd. split_and!; [done..|]. intros ->. apply Hr. by right.
Qed.

(** ** Refusals *)

Lemma read_json_error p e : read_json read_file p = Raise e →
  (∃ r, e = IdentityFileError r) ∨ (read_file p = Raise e ∧ e ≠ OSError ENOENT) ∨
  (e = UnicodeDecodeError ∧ ∃ b, read_file p = Ok b ∧ utf8_decode b = Raise e) ∨
  (e = ValueError ∧ ∃ b s, read_file p = Ok b ∧ utf8_decode b = Ok s ∧
     json_loads_str dict_pairs (universal_newlines s) = Raise e).
Proof.
  unfold read_json. destruct (read_file p) as [b|x] eqn:Er; cbn [mbind res_bind try_except].
  2: { destruct (isa x CFileNotFoundError) eqn:Hx; cbn [try_except]; [intros [= <-]; left; by eexists|].
       destruct (isa x CJSONDecodeError); [intros [= <-]; left; by eexists|]. intros [= ->]. right; left.
       split; [done|]. by intros ->. }
  destruct (utf8_decode b) as [s|x] eqn:Eu; cbn [mbind res_bind try_except].
  2: { assert (x = UnicodeDecodeError) as -> by by eapply utf8_decode_error. cbn. intros [= <-].
       right; right; left. split; [done|]. by exists b. }
  destruct (json_loads_str dict_pairs (universal_newlines s)) as [v|x] eqn:Ej; cbn [mbind res_bind try_except]; [done|].
  assert (∀ l x, dict_pairs l = Raise x → json_error x) as Hh by done.
  destruct (json_loads_str_error dict_pairs Hh _ _ Ej) as [-> | ->]; cbn; intros [= <-]; [left; by eexists|].
  right; right; right. split; [done|]. by exists b, s.
Qed.

(** What a loader raises for a file it cannot use: an [IdentityFileError], or one of three things that are not:
    whatever opening and reading raised other than a missing file, the [UnicodeDecodeError] of bytes that are
    not UTF-8, or the plain [ValueError] of an integer literal past the interpreter's digit limit. *)
Theorem identity_load_errors path e : load path = Raise e →
  (∃ r, e = IdentityFileError r) ∨
  ∃ p, p ≠ [] ∧ (path = Some p ∨ path = None ∧ environ ENV_POINTER = Some p) ∧
    (read_file p = Raise e ∧ e ≠ OSError ENOENT ∨
     (e = UnicodeDecodeError ∧ ∃ b, read_file p = Ok b ∧ utf8_decode b = Raise e) ∨
     (e = ValueError ∧ ∃ b s, read_file p = Ok b ∧ utf8_decode b = Ok s ∧
        json_loads_str dict_pairs (universal_newlines s) = Raise e)).
Proof.
  intros He. destruct (validate path) as [data|x] eqn:Hv.
  { destruct (validate_validated path data Hv) as (sd & i & t & ep & rec & Hd).
    rewrite (load_validated path data sd i t ep rec Hv Hd) in He. case_decide; simplify_eq. left. by eexists. }
  assert (x = e) as -> by (unfold load_identity_file in He; rewrite Hv in He; by injection He). clear He.
  unfold _read_and_validate in Hv. set (p := match path with Some p => p | None => _ end) in Hv.
  apply bind_Raise in Hv as [[_ ->]%guard_raise_Raise|(u & Hp%guard_raise_Ok%negb_true_iff%bool_decide_eq_false & Hv)];
    [left; by eexists|].
  assert (path = Some p ∨ path = None ∧ environ ENV_POINTER = Some p) as Hpath.
  { unfold p in Hp |- *. destruct path; [by left|right]. split; [done|]. by destruct (environ ENV_POINTER). }
  apply bind_Raise in Hv as [Hj|(v & _ & Hv)].
  - destruct (read_json_error p e Hj) as [?|Hr]; [by left|right]. by exists p.
  - left. destruct v; try (injection Hv as <-; by eexists).
    apply bind_Raise in Hv as [Hc|(? & _ & [=])]. by eapply check_fields_error.
Qed.
End properties.

(** ** A new file loads *)

(** A text that reads as [x], and a final newline. *)
Lemma reads_loads_line hook `{!DictHook hook} t x : reads hook t x → json_loads_str hook (t ++ [10]) = Ok x.
Proof.
  intros [Hst Hr]. unfold json_loads_str. rewrite skip_ws_starts by done.
  rewrite Hr; [done|rewrite length_app; lia|by repeat split].
Qed.

Ltac no_cr_lit := refine (proj1 (bool_decide_eq_false _) _); vm_compute; reflexivity.

Lemma no_cr_app s t : 13 ∉ s → 13 ∉ t → 13 ∉ s ++ t.
Proof. rewrite elem_of_app. tauto. Qed.

Lemma hex_of_bytes_chars b c : Forall is_byte b → c ∈ hex_of_bytes b → is_hex c = true ∧ scalar c.
Proof.
  intros Hb (x & Hc & Hx)%list_elem_of_bind. eapply Forall_forall in Hx; [|done]. unfold is_byte in Hx.
  assert (∃ d, 0 ≤ d < 16 ∧ c = hex_char d) as (d & Hd & ->).
  { apply elem_of_cons in Hc as [->|Hc]; [exists (x / 16); split; [dlia|done]|].
    apply list_elem_of_singleton in Hc as ->. exists (x mod 16). split; [dlia|done]. }
  unfold is_hex. rewrite (proj1 (hex_digit_char d Hd)). split; [done|]. unfold scalar, hex_char. cmp; lia.
Qed.

Lemma dumps_char_no_cr c : 13 ∉ dumps_char c.
Proof.
  assert (∀ u, 13 ∉ hex4_of u) as Hh.
  { intros u. unfold hex4_of. assert (∀ d, 0 ≤ d < 16 → 13 ≠ hex_char d) as Hd by (intros d ?; unfold hex_char; cmp; lia).
    rewrite !not_elem_of_cons. split_and!; try (apply Hd, Z.mod_pos_bound; lia). apply not_elem_of_nil. }
  unfold dumps_char. repeat (case_match; [no_cr_lit|]).
  case_match.
  - assert (c ≠ 13) by (intros ->; done). rewrite list_elem_of_singleton. congruence.
  - case_match; repeat apply no_cr_app; try apply Hh; no_cr_lit.
Qed.

Lemma dumps_str_no_cr s : 13 ∉ dumps_str s.
Proof.
  unfold dumps_str. apply not_elem_of_cons. split; [done|]. apply no_cr_app; [|no_cr_lit].
  intros (c & Hc & _)%list_elem_of_bind. by apply dumps_char_no_cr in Hc.
Qed.

Lemma no_cr_sep_join sep ts : 13 ∉ sep → Forall (λ t, 13 ∉ t) ts → 13 ∉ sep_join sep ts.
Proof.
  intros Hs. induction 1 as [|t ts Ht Hts IH]; [apply not_elem_of_nil|]. destruct ts as [|u ts]; [done|].
  rewrite sep_join_cons by done. by repeat apply no_cr_app.
Qed.

Lemma newline_no_cr st n : 13 ∉ newline st n.
Proof.
  unfold newline. destruct (indent st); [|apply not_elem_of_nil]. apply not_elem_of_cons. split; [done|].
  intros H%list_elem_of_In%repeat_spec. done.
Qed.

Lemma dumps_no_cr v : ∀ level, 13 ∉ dumps indented level v.
Proof.
  induction v as [|b|z|f|s|l IH|items IH] using jval_deep_ind; intros level.
  - no_cr_lit.
  - destruct b; no_cr_lit.
  - intros Hz. destruct (str_of_int_chars z 13 Hz); done.
  - cbn [dumps]. pose proof (float_repr_chars f) as Hf. destruct (is_finite f) eqn:E; [|destruct f as [[]|[]| |[] ? ?]; try done; no_cr_lit].
    intros Hc%list_elem_of_In. by apply (proj1 (forallb_forall _ _) (Hf eq_refl)) in Hc.
  - apply dumps_str_no_cr.
  - destruct l as [|x l]; [no_cr_lit|]. cbn [dumps].
    apply not_elem_of_cons. split; [done|]. repeat apply no_cr_app; try apply newline_no_cr; [|no_cr_lit].
    apply no_cr_sep_join.
    + apply not_elem_of_cons. split; [done|]. apply no_cr_app; [apply not_elem_of_nil|apply newline_no_cr].
    + apply Forall_fmap. eapply Forall_impl; [exact IH|]. intros q Hq. apply Hq.
  - destruct items as [|p items]; [no_cr_lit|]. cbn [dumps].
    apply not_elem_of_cons. split; [done|]. repeat apply no_cr_app; try apply newline_no_cr.
    + apply no_cr_sep_join.
      * apply not_elem_of_cons. split; [done|]. apply no_cr_app; [apply not_elem_of_nil|apply newline_no_cr].
      * apply Forall_fmap. eapply Forall_impl; [exact IH|]. intros q Hq. unfold compose.
        apply no_cr_app; [apply dumps_str_no_cr|]. apply not_elem_of_cons. split; [done|].
        apply no_cr_app; [no_cr_lit|apply Hq].
    + no_cr_lit.
Qed.

Lemma ascii_scalar s : is_ascii s = true → Forall scalar s.
Proof.
  intros Ha. apply Forall_forall. intros c Hc. unfold is_ascii in Ha.
  eapply forallb_forall in Ha; [|by apply list_elem_of_In]. unfold scalar. cmp; lia.
Qed.

(** Text a field can hold: not empty, and scalar (no lone surrogates). *)
Definition field_text (s : pystr) : Prop := s ≠ [] ∧ Forall scalar s.

Section roundtrip.
Context `{Ed25519Laws} (ag : Agent) (agent_id tenant endpoint : pystr).
Hypotheses (Hseed : length (seed ag) = 32%nat) (Hbytes : Forall is_byte (seed ag))
  (Hid : field_text agent_id) (Hten : field_text tenant) (Hend : field_text endpoint).

Lemma aid_shape : _AID_RE (aid ag) = true.
Proof.
  unfold _AID_RE, aid, aid_from_pubkey. rewrite strip_prefix_app.
  rewrite b64url_nopad_chars by apply ed_public_bytes. rewrite andb_true_r. apply Z.eqb_eq.
  rewrite b64url_nopad_length. unfold zlen. by rewrite ed_public_length.
Qed.

Lemma aid_scalar : Forall scalar (aid ag).
Proof. apply ascii_scalar, aid_from_pubkey_ascii, ed_public_bytes. Qed.

Lemma object_dumpable : dumpable (identity_object ag agent_id tenant endpoint).
Proof.
  constructor; [apply (bool_decide_unpack _); vm_compute; exact I| |].
  - repeat (apply Forall_cons_2; [apply ascii_scalar; reflexivity|]). apply Forall_nil_2.
  - rewrite !Forall_cons. cbn [snd]. split_and!; [apply dumpable_int|apply dumpable_str..|by apply Forall_nil_2];
      [vm_compute; discriminate| |apply Hid|apply Hten|apply Hend|apply aid_scalar].
    apply Forall_forall. intros c Hc. by apply (hex_of_bytes_chars (seed ag)).
Qed.

Definition identity_text : pystr := dumps indented 0 (identity_object ag agent_id tenant endpoint) ++ [10].

Lemma body_text : _identity_file_body ag agent_id tenant endpoint = Ok identity_text.
Proof. unfold _identity_file_body. by rewrite utf8_encode_ascii by by apply dumps_ascii. Qed.

(** The object a file reads as. *)
Definition identity_items : list (pyval * pyval) :=
  [(PStr (lit "version"), PInt 1); (PStr (lit "seed_hex"), PStr (hex_of_bytes (seed ag)));
   (PStr (lit "agent_id"), PStr agent_id); (PStr (lit "tenant"), PStr tenant); (PStr (lit "endpoint"), PStr endpoint);
   (PStr (lit "aid"), PStr (aid ag))].

Lemma text_reads (read_file : pystr → res bytes) path :
  read_file path = Ok identity_text → read_json read_file path = Ok (PDict identity_items).
Proof.
  intros Hr. unfold read_json. rewrite Hr. cbn [mbind res_bind].
  assert (is_ascii identity_text = true) as Ha by (unfold identity_text; by rewrite is_ascii_app, dumps_ascii).
  rewrite (utf8_decode_encode identity_text _ (utf8_encode_ascii _ Ha)). cbn [mbind res_bind].
  rewrite universal_newlines_id by (unfold identity_text; apply no_cr_app; [apply dumps_no_cr|no_cr_lit]).
  unfold identity_text.
  rewrite (reads_loads_line dict_pairs _ (py_of (identity_object ag agent_id tenant endpoint))); [done|].
  apply dumps_reads; [apply _|by split|apply object_dumpable].
Qed.

Lemma items_find :
  dict_find (lit "version") identity_items = Some (PInt 1) ∧
  dict_find (lit "seed_hex") identity_items = Some (PStr (hex_of_bytes (seed ag))) ∧
  dict_find (lit "agent_id") identity_items = Some (PStr agent_id) ∧
  dict_find (lit "tenant") identity_items = Some (PStr tenant) ∧
  dict_find (lit "endpoint") identity_items = Some (PStr endpoint) ∧
  dict_find (lit "aid") identity_items = Some (PStr (aid ag)).
Proof. by split_and!. Qed.

Lemma field_truthy s : field_text s → py_truthy (PStr s) = true.
Proof. by intros [? _]; destruct s. Qed.

Lemma items_validated :
  check_fields identity_items = Ok () ∧
  validated identity_items (seed ag) (PStr agent_id) (PStr tenant) (PStr endpoint) (Some (aid ag)).
Proof.
  destruct items_find as (Ev & Es & Ei & Et & Ee & Ea). split.
  - unfold check_fields, get, required_fields. cbn [forallb]. rewrite Ev, Es, Ei, Et, Ee, Ea.
    cbn [default from_option id]. rewrite !field_truthy by done. cbn [equals_one SCHEMA_VERSION Z.eqb Pos.eqb guard_raise mbind res_bind].
    assert (zlen (hex_of_bytes (seed ag)) = 64) as Hl by (unfold zlen; by rewrite hex_of_bytes_length, Hseed).
    rewrite Hl. cbn [Z.eqb Pos.eqb mbind res_bind].
    assert (_SEED_HEX_RE (hex_of_bytes (seed ag)) = true) as ->.
    { unfold _SEED_HEX_RE. rewrite Hl. apply forallb_forall. intros c Hc%list_elem_of_In.
      by apply (hex_of_bytes_chars (seed ag)). }
    cbn [andb guard_raise mbind res_bind]. by rewrite aid_shape.
  - split; [|done..]. exists (hex_of_bytes (seed ag)). split_and!; [done|by apply bytes_fromhex_hex|done].
Qed.

(** C21. A created file loads back: the bytes [_identity_file_body] writes for any agent, and any non-empty scalar
    texts, are accepted by both loaders, which return exactly that agent and those texts, and the agent's own
    identifier. *)
Theorem identity_roundtrip :
  ∃ body, _identity_file_body ag agent_id tenant endpoint = Ok body ∧
  ∀ read_file environ other_str path, path ≠ [] → read_file path = Ok body →
    load_identity_file read_file environ other_str (Some path)
    = Ok {| li_agent := ag; li_agent_id := agent_id; li_tenant := tenant; li_endpoint := endpoint |} ∧
    load_identity_facts read_file environ other_str (Some path)
    = Ok {| if_agent_id := agent_id; if_tenant := tenant; if_endpoint := endpoint; if_aid := aid ag |}.
Proof.
  exists identity_text. split; [apply body_text|]. intros read_file environ other_str path Hp Hr.
  assert (_read_and_validate read_file environ (Some path) = Ok identity_items) as Hv.
  { unfold _read_and_validate. rewrite bool_decide_false by done. cbn [negb guard_raise mbind res_bind].
    rewrite (text_reads read_file path Hr). cbn [mbind res_bind]. by rewrite (proj1 items_validated). }
  rewrite (load_validated read_file environ other_str _ _ _ _ _ _ _ Hv (proj2 items_validated)).
  rewrite (facts_validated read_file environ other_str _ _ _ _ _ _ _ Hv (proj2 items_validated)).
  destruct ag as [sd]. rewrite decide_True by by right. done.
Qed.
End roundtrip.

(** ** The theorems at concrete files *)

Definition sample_agent : Agent := {| seed := repeat 7 32 |}.

Lemma identity_roundtrip_witness :
  ∃ body, @_identity_file_body toy_ed25519 sample_agent (lit "ops") (lit "acme") (lit "h:1") = Ok body ∧
    @load_identity_file toy_ed25519 (λ _, Ok body) (λ _, None) (λ _, []) (Some (lit "f"))
    = Ok {| li_agent := sample_agent; li_agent_id := lit "ops"; li_tenant := lit "acme"; li_endpoint := lit "h:1" |}.
Proof.
  assert (∀ s, s ≠ [] → is_ascii s = true → field_text s) as Hf by (intros s ? ?; split; [done|by apply ascii_scalar]).
  destruct (@identity_roundtrip toy_ed25519 toy_ed25519_laws sample_agent (lit "ops") (lit "acme") (lit "h:1")) as (b & Hb & Hl).
  - reflexivity.
  - apply Forall_forall. intros x Hx%list_elem_of_In%repeat_spec. subst x. split; lia.
  - by apply Hf.
  - by apply Hf.
  - by apply Hf.
  - exists b. split; [exact Hb|]. apply (Hl (λ _, Ok b) (λ _, None) (λ _, []) (lit "f")); [discriminate|reflexivity].
Defined.

(** A missing file, read by either loader. *)
Lemma identity_load_errors_witness :
  (∃ r, UnicodeDecodeError = IdentityFileError r) ∨
  ∃ p, p ≠ [] ∧ (Some (lit "f") = Some p ∨ Some (lit "f") = None ∧ None = Some p) ∧
    ((Ok [0xFF] : res bytes) = Raise UnicodeDecodeError ∧ UnicodeDecodeError ≠ OSError ENOENT ∨
     (UnicodeDecodeError = UnicodeDecodeError ∧ ∃ b, Ok [0xFF] = Ok b ∧ utf8_decode b = Raise UnicodeDecodeError) ∨
     (UnicodeDecodeError = ValueError ∧ ∃ b s, Ok [0xFF] = Ok b ∧ utf8_decode b = Ok s ∧
        json_loads_str dict_pairs (universal_newlines s) = Raise UnicodeDecodeError)).
Proof.
  exact (@identity_load_errors toy_ed25519 (λ _, Ok [0xFF]) (λ _, None) (λ _, []) (Some (lit "f")) UnicodeDecodeError eq_refl).
Defined.

(** Files the loaders do not refuse as they say: a bootstrap file that is not UTF-8, or that holds an integer
    literal of more than 4300 digits, escapes both loaders as a [UnicodeDecodeError] or a plain [ValueError],
    not as the [IdentityFileError] promised for a malformed file. *)
Theorem identity_malformed_escapes `{Ed25519} environ other_str path :
  path ≠ [] →
  let load b := load_identity_file (λ _, Ok b) environ other_str (Some path) in
  load [0xFF] = Raise UnicodeDecodeError ∧ load (repeat 49 4301) = Raise ValueError.
Proof.
  intros Hp load. unfold load, load_identity_file, _read_and_validate. rewrite bool_decide_false by done.
  split; [done|]. cbn [negb guard_raise mbind res_bind].
  assert (read_json (λ _, Ok (repeat 49 4301)) path = Raise ValueError) as ->; [|done].
  vm_compute. reflexivity.
Qed.

Lemma identity_malformed_escapes_witness :
  @load_identity_file toy_ed25519 (λ _, Ok [0xFF]) (λ _, None) (λ _, []) (Some (lit "f")) = Raise UnicodeDecodeError.
Proof. apply (@identity_malformed_escapes toy_ed25519 (λ _, None) (λ _, []) (lit "f")). discriminate. Defined.
