(* ===== verification/IdentityFile.v ===== *)
(** * IdentityFile: creating the bootstrap file

    [create_identity_file] of [identity.py] over a file system shared with other processes: before each system call
    of this one, the others may change anything ([others]); a call may fail ([fails]); a [write] may accept only
    part of its buffer ([accepts]). The state records the file system before and after each call of this
    process, which is what a concurrent reader can see of it. *)

From stdpp Require Import base list numbers option strings sets gmap.
From S2P Require Import Prelude Text Sha256 Base64 Keys Dumps Commitment Client Identity.

(** ** Paths: the functions of [posixpath] the code calls *)

Definition slash : Z := 47.
(** The path up to and with its last slash, and the rest. *)
Fixpoint split_last (p : pystr) : pystr * pystr :=
  match p with
  | [] => ([], [])
  | c :: r => let '(h, t) := split_last r in
              match h with [] => if c =? slash then ([c], t) else ([], c :: t) | _ => (c :: h, t) end
  end.
Definition all_slashes (s : pystr) : bool := forallb (λ c, c =? slash) s.
Fixpoint rstrip_slash (s : pystr) : pystr :=
  match s with [] => [] | c :: r => if all_slashes (c :: r) then [] else c :: rstrip_slash r end.

Definition basename (p : pystr) : pystr := (split_last p).2.
Definition dirname (p : pystr) : pystr :=
  let head := (split_last p).1 in if all_slashes head then head else rstrip_slash head.
Definition path_join (a b : pystr) : pystr :=
  match b with
  | 47 :: _ => b
  | _ => if bool_decide (a = []) || bool_decide (last a = Some slash) then a ++ b else a ++ slash :: b
  end.

(** [path.split("/")] *)
Fixpoint split_slash (p : pystr) : list pystr :=
  match p with
  | [] => [[]]
  | c :: r => if c =? slash then [] :: split_slash r
              else match split_slash r with w :: ws => (c :: w) :: ws | [] => [[c]] end
  end.
(** The components kept by [normpath], last first. *)
Definition norm_step (rooted : bool) (acc : list pystr) (w : pystr) : list pystr :=
  if bool_decide (w = [] ∨ w = lit ".") then acc
  else if negb (bool_decide (w = lit "..")) || (negb rooted && bool_decide (acc = []))
          || bool_decide (head acc = Some (lit "..")) then w :: acc
  else match acc with _ :: acc => acc | [] => [] end.
Definition normpath (p : pystr) : pystr :=
  let initial := match p with 47 :: 47 :: 47 :: _ => 1%nat | 47 :: 47 :: _ => 2%nat | 47 :: _ => 1%nat | _ => 0%nat end in
  let comps := rev (foldl (norm_step (0 <? initial)%nat) [] (split_slash p)) in
  let joined := repeat slash initial ++ foldr (λ w s, match s with [] => w | _ => w ++ slash :: s end) [] comps in
  match joined with [] => lit "." | _ => joined end.
Definition abspath (cwd p : pystr) : pystr :=
  normpath (match p with 47 :: _ => p | _ => path_join cwd p end).

(** ** The file system *)

(** What a directory entry is: a regular file, by its inode, or anything else (a directory, a symbolic link). *)
Inductive node := File (ino : nat) | NotAFile.
Record fs := { entries : gmap pystr node; contents : gmap nat bytes }.

Class FsWorld := {
  resolve : pystr → pystr;         (** the directory entry a path names, as the kernel resolves it *)
  cwd : pystr;
  posix : bool; has_fchmod : bool; (** [os.name == "posix"], [hasattr(os, "fchmod")] *)
  others : nat → fs → fs;          (** what the other processes do before the n-th call of this one *)
  fails : nat → option oserror;    (** how the n-th call fails, when it does for a reason outside the model *)
  accepts : nat → nat;             (** one less than the bytes the n-th call would write *)
}.

Record fs_state := { now : fs; ncalls : nat; steps : list (fs * fs) }.
Definition FM (A : Type) : Type := fs_state → res A * fs_state.
Global Instance FM_ret : MRet FM := λ A a st, (Ok a, st).
Global Instance FM_bind : MBind FM := λ A B k m st,
  match m st with (Ok a, st') => k a st' | (Raise e, st') => (Raise e, st') end.
Definition flift {A} (r : res A) : FM A := λ st, (r, st).
(** [try: m except c: h], where the handler makes no call, and [try: m finally: f]. *)
Definition catch {A} (m : FM A) (c : exn_class) (h : exn → res A) : FM A := λ st,
  let '(r, st') := m st in (try_except r c h, st').
Definition finally {A} (m : FM A) (f : FM ()) : FM A := λ st,
  let '(r, st1) := m st in match f st1 with (Ok _, st2) => (r, st2) | (Raise e, st2) => (Raise e, st2) end.

(** An inode no entry and no content uses. *)
Definition inos (a : fs) : list nat :=
  (map_to_list (contents a)).*1 ++ omap (λ d, match d with File i => Some i | NotAFile => None end) (map_to_list (entries a)).*2.
Definition fresh_ino (a : fs) : nat := S (max_list (inos a)).

Section syscalls.
Context `{FsWorld}.

Definition syscall {A} (f : nat → fs → res A * fs) : FM A := λ st,
  let n := ncalls st in
  let a := others n (now st) in
  let '(r, b) := match fails n with Some e => (Raise (OSError e), a) | None => f n a end in
  (r, {| now := b; ncalls := S n; steps := steps st ++ [(a, b)] |}).

(** A call that leaves the tree alone: [fchmod], [fsync], [close], opening a directory. *)
Definition quiet_call : FM () := syscall (λ _ a, (Ok (), a)).

(** [os.open(p, O_WRONLY|O_CREAT|O_EXCL|O_NOFOLLOW, 0o600)]; a descriptor is the inode it writes. *)
Definition os_open_excl (p : pystr) : FM nat := syscall (λ _ a,
  match entries a !! resolve p with
  | Some _ => (Raise (OSError EEXIST), a)
  | None => let i := fresh_ino a in
            (Ok i, {| entries := <[resolve p := File i]> (entries a); contents := <[i := []]> (contents a) |})
  end).

(** [os.write(fd, view)] of a non-empty view: at least one byte, possibly not all. *)
Definition os_write (fd : nat) (view : bytes) : FM nat := syscall (λ n a,
  let k := Nat.min (S (accepts n)) (length view) in
  (Ok k, {| entries := entries a; contents := alter (λ c, c ++ take k view) fd (contents a) |})).

Definition os_link (p q : pystr) : FM () := syscall (λ _ a,
  match entries a !! resolve p, entries a !! resolve q with
  | None, _ => (Raise (OSError ENOENT), a)
  | Some NotAFile, _ => (Raise (OSError (EOther 1)), a)
  | Some (File _), Some _ => (Raise (OSError EEXIST), a)
  | Some (File i), None => (Ok (), {| entries := <[resolve q := File i]> (entries a); contents := contents a |})
  end).

Definition os_unlink (p : pystr) : FM () := syscall (λ _ a,
  match entries a !! resolve p with
  | None => (Raise (OSError ENOENT), a)
  | Some NotAFile => (Raise (OSError (EOther 21)), a)
  | Some (File _) => (Ok (), {| entries := delete (resolve p) (entries a); contents := contents a |})
  end).

(** ** Creating a file *)

(** [while view: view = view[os.write(fd, view):]]; each turn writes a byte, so the length is fuel enough. *)
Fixpoint write_all (fuel : nat) (fd : nat) (view : bytes) : FM () :=
  match view, fuel with
  | [], _ => mret ()
  | _, O => flift (Raise RecursionError)
  | _, S fuel => k ← os_write fd view; write_all fuel fd (drop k view)
  end.

Definition _fsync_dir : FM () :=
  if posix then _ ← quiet_call; finally quiet_call quiet_call else mret ().

Definition text_arg (v : pyval) : res pystr :=
  match v with PStr (c :: s) => Ok (c :: s) | _ => Raise (IdentityFileError "must be a non-empty string") end.

(** [os.link] and its handlers. *)
Definition publish (tmp final : pystr) : FM () :=
  catch (catch (os_link tmp final) CFileExistsError (λ _, Raise (IdentityFileError "refusing to overwrite existing path")))
    COSError (λ e, match e with
                   | OSError EEXIST => Raise (IdentityFileError "refusing to overwrite existing path")
                   | _ => Raise (IdentityFileError "cannot publish bootstrap file")
                   end).

Definition write_body (fd : nat) (body : bytes) : FM () :=
  finally (_ ← (if has_fchmod then quiet_call else mret ()); _ ← write_all (length body) fd body; quiet_call) quiet_call.

Definition temp_path (final hex : pystr) : pystr :=
  path_join (dirname (abspath cwd final)) (lit "." ++ basename final ++ lit "." ++ hex ++ lit ".tmp").

(** [token] is the seed [Agent.generate] draws and [hex] is [secrets.token_hex(8)]. *)
Definition create_identity_file `{Ed25519} (final : pystr) (agent_id tenant endpoint : pyval) (token : bytes) (hex : pystr)
    : FM (pystr * pystr) :=
  agent_id ← flift (text_arg agent_id);
  tenant ← flift (text_arg tenant);
  endpoint ← flift (text_arg endpoint);
  agent ← flift (generate token);
  body ← flift (_identity_file_body agent agent_id tenant endpoint);
  let tmp := temp_path final hex in
  fd ← catch (os_open_excl tmp) COSError (λ _, Raise (IdentityFileError "cannot create bootstrap file"));
  _ ← finally (_ ← write_body fd body; publish tmp final)
        (catch (os_unlink tmp) CFileNotFoundError (λ _, Ok ()));
  _ ← _fsync_dir;
  mret (final, aid agent).
End syscalls.

(** ** A small logic of calls *)

Definition read_at (a : fs) (p : pystr) : option bytes :=
  match entries a !! p with Some (File i) => contents a !! i | _ => None end.

Section logic.
Context `{FsWorld}.
(** The entries of the temporary file and of the file to create, and the bytes of the latter. *)
Context (T F : pystr) (body : bytes).

(** A call seen from outside, the temporary name apart: no existing entry changes, nor what it reads as; a new entry
    is the file's, and it reads as the whole body. *)
Definition safe_step (ab : fs * fs) : Prop := ∀ p, p ≠ T →
  (∀ d, entries ab.1 !! p = Some d → entries ab.2 !! p = Some d ∧ read_at ab.2 p = read_at ab.1 p) ∧
  (entries ab.1 !! p = None → entries ab.2 !! p = None ∨ p = F ∧ read_at ab.2 p = Some body).
Definition publishes (ab : fs * fs) : Prop :=
  entries ab.1 !! F = None ∧ entries ab.2 !! F ≠ None ∧ read_at ab.2 F = Some body.

(** The other processes do not touch the temporary file while it is there, nor link to it. *)
Definition leave_alone : Prop := ∀ n a i, entries a !! T = Some (File i) →
  entries (others n a) !! T = Some (File i) ∧ contents (others n a) !! i = contents a !! i ∧
  ∀ p, p ≠ T → entries (others n a) !! p = Some (File i) → entries a !! p = Some (File i).

(** The temporary file is this process's, holds [c], and has no other name. *)
Definition owned (c : bytes) (i : nat) (a : fs) : Prop :=
  entries a !! T = Some (File i) ∧ contents a !! i = Some c ∧ ∀ p, p ≠ T → entries a !! p ≠ Some (File i).

Definition safe (st : fs_state) : Prop := Forall safe_step (steps st).
Definition owns (c : bytes) (i : nat) (st : fs_state) : Prop := safe st ∧ owned c i (now st).
Definition published (st : fs_state) : Prop := safe st ∧ Exists publishes (steps st).

(** From a state in [P], the outcome and the state after are in [Q]. *)
Definition triple {A} (P : fs_state → Prop) (m : FM A) (Q : res A → fs_state → Prop) : Prop :=
  ∀ st, P st → let '(r, st') := m st in Q r st'.

Lemma triple_bind {A B} P (m : FM A) (k : A → FM B) Q R :
  triple P m Q → (∀ e st, Q (Raise e) st → R (Raise e) st) → (∀ a, triple (Q (Ok a)) (k a) R) → triple P (m ≫= k) R.
Proof.
  intros Hm He Hk st HP. specialize (Hm st HP). unfold mbind, FM_bind. destruct (m st) as [[a|e] st']; [|by apply He].
  by apply Hk.
Qed.

Lemma triple_finally {A} P (m : FM A) f Q (R : res A → fs_state → Prop) :
  triple P m Q → (∀ r, triple (Q r) f (λ rf st, R (match rf with Ok _ => r | Raise e => Raise e end) st)) →
  triple P (finally m f) R.
Proof.
  intros Hm Hf st HP. specialize (Hm st HP). unfold finally. destruct (m st) as [r st1]. specialize (Hf r st1 Hm).
  by destruct (f st1) as [[[]|e] st2].
Qed.

Lemma triple_catch {A} P (m : FM A) c h (Q : res A → fs_state → Prop) :
  triple P m (λ r st, Q (try_except r c h) st) → triple P (catch m c h) Q.
Proof. intros Hm st HP. specialize (Hm st HP). unfold catch. by destruct (m st). Qed.

Lemma triple_weaken {A} (P : fs_state → Prop) (m : FM A) (Q R : res A → fs_state → Prop) :
  triple P m Q → (∀ r st, Q r st → R r st) → triple P m R.
Proof. intros Hm HQ st HP. specialize (Hm st HP). destruct (m st). by apply HQ. Qed.

Lemma safe_step_refl a : safe_step (a, a).
Proof. intros p _. split; [done|by left]. Qed.

Lemma safe_snoc st ab n : safe st → safe_step ab → safe {| now := ab.2; ncalls := n; steps := steps st ++ [ab] |}.
Proof. intros Hs Hab. apply Forall_app. by split; [|constructor]. Qed.

Lemma same_safe st a n : safe st → safe {| now := a; ncalls := n; steps := steps st ++ [(a, a)] |}.
Proof. intros Hs. exact (safe_snoc st (a, a) n Hs (safe_step_refl a)). Qed.

Lemma owned_others c i n a : leave_alone → owned c i a → owned c i (others n a).
Proof.
  intros Hq (Ht & Hc & Hn). destruct (Hq n a i Ht) as (Ht' & Hc' & Hl). split; [done|]. split; [by rewrite Hc'|].
  intros p Hp He. by apply (Hn p Hp), Hl.
Qed.

(** ** The calls *)

Lemma quiet_safe (P : fs_state → Prop) :
  (∀ st, P st → safe st) →
  (∀ st n, P st → P {| now := others n (now st); ncalls := S n; steps := steps st ++ [(others n (now st), others n (now st))] |}) →
  triple P quiet_call (λ r st, P st ∧ ∀ e, r = Raise e → isa e COSError = true).
Proof.
  intros Hs HP st Hst. unfold quiet_call, syscall. destruct (fails (ncalls st)) as [e|].
  - split; [by apply HP|]. by intros ? [= <-].
  - split; [by apply HP|done].
Qed.

Lemma quiet_owns c i : leave_alone → triple (owns c i) quiet_call (λ r st, owns c i st ∧ ∀ e, r = Raise e → isa e COSError = true).
Proof.
  intros Hq. apply quiet_safe; [by intros st [? _]|]. intros st n [Hs Ho].
  split; [by apply same_safe|by apply owned_others].
Qed.

Lemma quiet_any : triple safe quiet_call (λ r st, safe st ∧ ∀ e, r = Raise e → isa e COSError = true).
Proof. apply quiet_safe; [done|]. intros st n Hs. by apply same_safe. Qed.

Lemma quiet_published : triple published quiet_call (λ r st, published st ∧ ∀ e, r = Raise e → isa e COSError = true).
Proof.
  apply quiet_safe; [by intros st [? _]|]. intros st n [Hs Hp].
  split; [by apply same_safe|]. apply Exists_app. by left.
Qed.

Lemma fresh_ino_content a : contents a !! fresh_ino a = None.
Proof.
  apply eq_None_not_Some. intros [c Hc%elem_of_map_to_list].
  assert (fresh_ino a ∈ inos a) as Hi%max_list_elem_of_le.
  { apply elem_of_app. left. apply list_elem_of_fmap. by exists (fresh_ino a, c). }
  unfold fresh_ino in Hi. lia.
Qed.

Lemma fresh_ino_entry a p : entries a !! p ≠ Some (File (fresh_ino a)).
Proof.
  intros Hp%elem_of_map_to_list.
  assert (fresh_ino a ∈ inos a) as Hi%max_list_elem_of_le.
  { apply elem_of_app. right. apply list_elem_of_omap. exists (File (fresh_ino a)). split; [|done].
    apply list_elem_of_fmap. by exists (p, File (fresh_ino a)). }
  unfold fresh_ino in Hi. lia.
Qed.

Lemma open_owns p : resolve p = T →
  triple safe (os_open_excl p) (λ r st, match r with Ok i => owns [] i st | Raise e => safe st ∧ isa e COSError = true end).
Proof.
  intros HT st Hs. unfold os_open_excl, syscall. set (a := others _ _).
  destruct (fails _) as [e|]; [split; [|done]; by apply same_safe|].
  rewrite HT. destruct (entries a !! T) as [d|] eqn:Ed;
    [split; [|done]; by apply same_safe|].
  set (i := fresh_ino a). set (b := Build_fs _ _). split.
  - apply (safe_snoc st (a, b)); [done|]. intros q Hq. cbn [fst snd].
    assert (entries b !! q = entries a !! q) as E by by apply lookup_insert_ne.
    split; [|intros E'; left; by rewrite E]. intros d Ed'. rewrite E. split; [done|]. unfold read_at. rewrite E, Ed'.
    destruct d as [j|]; [|done]. apply lookup_insert_ne. intros <-. exact (fresh_ino_entry a q Ed').
  - split; [apply lookup_insert_eq|]. split; [apply lookup_insert_eq|]. intros q Hq. cbn [now b entries].
    rewrite lookup_insert_ne by done. apply fresh_ino_entry.
Qed.

Lemma write_owns c i v : leave_alone → v ≠ [] →
  triple (owns c i) (os_write i v)
    (λ r st, match r with
             | Ok k => (1 ≤ k ≤ length v)%nat ∧ owns (c ++ take k v) i st
             | Raise e => owns c i st ∧ isa e COSError = true end).
Proof.
  intros Hq Hv st [Hs Ho]. apply (owned_others c i (ncalls st)) in Ho; [|done]. unfold os_write, syscall.
  set (a := others _ _) in *. destruct (fails _) as [e|].
  { split; [|done]. split; [|done]. by apply same_safe. }
  set (k := Nat.min _ _). set (b := Build_fs _ _). destruct Ho as (Ht & Hc & Hn). split.
  { unfold k. destruct v; [done|]. simpl. lia. }
  assert (∀ j, j ≠ i → contents b !! j = contents a !! j) as Hj by (intros j Hji; by apply lookup_alter_ne).
  split; [apply (safe_snoc st (a, b)); [done|]|split_and!; [done| |done]].
  - intros p Hp. cbn [fst snd]. split; [|by left]. intros d Hd. split; [done|]. unfold read_at.
    change (entries b) with (entries a). rewrite Hd. destruct d as [j|]; [|done]. apply Hj. intros ->. by apply (Hn p).
  - cbn [now contents]. unfold b. cbn [contents]. by rewrite lookup_alter_eq, Hc.
Qed.

Lemma write_all_owns i v : leave_alone → ∀ fuel c, (length v ≤ fuel)%nat →
  triple (owns c i) (write_all fuel i v)
    (λ r st, match r with Ok _ => owns (c ++ v) i st | Raise e => (∃ c', owns c' i st) ∧ isa e COSError = true end).
Proof.
  intros Hq fuel. revert v. induction fuel as [|fuel IH]; intros v c Hf.
  { destruct v; [|simpl in Hf; lia]. intros st Ho. cbn. by rewrite app_nil_r. }
  destruct v as [|x v]; [intros st Ho; cbn; by rewrite app_nil_r|]. cbn [write_all].
  eapply triple_bind; [by apply write_owns| |].
  - intros e st [Ho He]. split; [by exists c|done].
  - intros k st [Hk Ho]. specialize (IH (drop k (x :: v)) (c ++ take k (x :: v))). rewrite length_drop in IH.
    specialize (IH ltac:(lia) st Ho). by rewrite <-(assoc_L (++)), take_drop in IH.
Qed.

Lemma link_published p q i : leave_alone → resolve p = T → resolve q = F →
  triple (owns body i) (os_link p q)
    (λ r st, match r with Ok _ => published st | Raise e => safe st ∧ isa e COSError = true end).
Proof.
  intros Hq HT HF st [Hs Ho]. apply (owned_others body i (ncalls st)) in Ho; [|done]. unfold os_link, syscall.
  set (a := others _ _) in *. destruct Ho as (Ht & Hc & Hn).
  assert (∀ e, safe {| now := a; ncalls := S (ncalls st); steps := steps st ++ [(a, a)] |} ∧ isa (OSError e) COSError = true) as Hsame.
  { intros e. split; [|done]. by apply same_safe. }
  destruct (fails _) as [e|]; [done|]. rewrite HT, HF, Ht. destruct (entries a !! F) as [d|] eqn:Ef; [done|].
  set (b := Build_fs _ _). assert (read_at b F = Some body) as Hb.
  { unfold read_at, b. cbn [entries contents]. by rewrite lookup_insert_eq. }
  split.
  - apply (safe_snoc st (a, b)); [done|]. intros r Hr. cbn [fst snd]. destruct (decide (r = F)) as [->|Hrf].
    { split; [intros d Hd; congruence|]. intros _. by right. }
    assert (entries b !! r = entries a !! r) as E by by apply lookup_insert_ne.
    split; [|intros E'; left; by rewrite E]. intros d Hd. rewrite E. split; [done|]. unfold read_at. by rewrite E, Hd.
  - apply Exists_app. right. constructor. split_and!; [done| |done]. cbn [snd b entries]. by rewrite lookup_insert_eq.
Qed.

(** Unlinking the temporary name changes nothing else. *)
Lemma unlink_step p a : resolve p = T →
  safe_step (a, {| entries := delete (resolve p) (entries a); contents := contents a |}).
Proof.
  intros HT q Hq. rewrite HT. unfold read_at. cbn [fst snd entries contents]. rewrite lookup_delete_ne by done.
  split; [intros d ->; done|intros ->; by left].
Qed.

Lemma unlink_keeps (P : fs_state → Prop) p : resolve p = T →
  (∀ st ab n, P st → safe_step ab → P {| now := ab.2; ncalls := n; steps := steps st ++ [ab] |}) →
  triple P (catch (os_unlink p) CFileNotFoundError (λ _, Ok ())) (λ r st, P st ∧ ∀ e, r = Raise e → isa e COSError = true).
Proof.
  intros HT HP st Hs. unfold catch, os_unlink, syscall. set (a := others _ _).
  pose proof (λ n, HP st (a, a) n Hs (safe_step_refl a)) as Hsame. cbn [snd] in Hsame.
  destruct (fails _) as [e|]; cbn [try_except].
  { split; [done|]. intros e'. case_match; by intros [= <-]. }
  destruct (entries a !! resolve p) as [[i|]|]; cbn [try_except isa].
  - split; [|done]. exact (HP st _ _ Hs (unlink_step p a HT)).
  - split; [done|]. by intros e' [= <-].
  - done.
Qed.
End logic.

(** ** The whole operation *)

Section create.
Context `{FsWorld} (T F : pystr) (body : bytes) (Hq : leave_alone T).
Abbreviation safe := (safe T F body).
Abbreviation published := (published T F body).
Abbreviation owns := (owns T F body).

Lemma write_body_owns i :
  triple (owns [] i) (write_body i body)
    (λ r st, match r with Ok _ => owns body i st | Raise e => safe st ∧ isa e COSError = true end).
Proof.
  unfold write_body. eapply (triple_finally _ _ _ (λ r st,
    (∃ c, owns c i st ∧ (∀ u, r = Ok u → c = body)) ∧ ∀ e, r = Raise e → isa e COSError = true)).
  - apply triple_bind with (Q := λ r st, owns [] i st ∧ ∀ e, r = Raise e → isa e COSError = true).
    { destruct has_fchmod; [by apply quiet_owns|]. intros st Ho. by split. }
    { intros e st [Ho He]. split; [by exists []|exact He]. }
    intros []. apply triple_bind with (Q := λ r st,
      match r with Ok _ => owns ([] ++ body) i st | Raise e => (∃ c', owns c' i st) ∧ isa e COSError = true end).
    { intros st [Ho _]. revert st Ho. by apply write_all_owns. }
    { intros e st [[c Ho] He]. split; [by exists c|]. by intros ? [= <-]. }
    intros []. eapply triple_weaken; [by apply quiet_owns|]. intros r st [Ho He]. split; [|done]. by exists body.
  - intros r st [(c & Ho & Hc) He]. pose proof (quiet_owns T F body c i Hq st Ho) as Hcl.
    destruct (quiet_call st) as [[[]|e] st']; destruct Hcl as [Ho' He'].
    + destruct r as [[]|e]; [by rewrite (Hc () eq_refl) in Ho'|]. split; [apply Ho'|by apply He].
    + split; [apply Ho'|by apply He'].
Qed.

Lemma publish_published tmp final i : resolve tmp = T → resolve final = F →
  triple (owns body i) (publish tmp final)
    (λ r st, match r with Ok _ => published st | Raise e => safe st ∧ ∃ m, e = IdentityFileError m end).
Proof.
  intros HT HF. unfold publish. do 2 apply triple_catch.
  eapply triple_weaken; [by apply (link_published T F body)|]. intros [[]|e] st; [done|]. intros [Hs He].
  destruct e as [| | | | | | | | | | | | | | | | | | | | | | | | | |[]| | | | |]; try done; cbn; by eauto.
Qed.

(** Every failure of the file system calls after the file was opened is the caller's to see. *)
Definition refusal (e : exn) : Prop := (∃ m, e = IdentityFileError m) ∨ isa e COSError = true.

Lemma fsync_dir_keeps : triple published _fsync_dir (λ r st, published st ∧ ∀ e, r = Raise e → isa e COSError = true).
Proof.
  unfold _fsync_dir. destruct posix; [|intros st Hp; by split].
  eapply triple_bind; [apply quiet_published| |]; [done|]. intros [].
  eapply (triple_finally _ _ _ (λ r st, published st ∧ ∀ e, r = Raise e → isa e COSError = true)).
  - intros st [Hp _]. revert st Hp. apply quiet_published.
  - intros r st [Hp He]. pose proof (quiet_published T F body st Hp) as Hc.
    destruct (quiet_call st) as [[[]|e] st']; destruct Hc; by split.
Qed.
End create.

(** C20. [create_identity_file] is atomic and never clobbers, whatever the other processes do around the temporary
    file, whichever calls fail and however short the writes are. Seen from outside, no call of it changes an
    entry that exists or what it reads as; the only entry it ever adds is the one asked for, and from its first
    moment that entry reads as the whole body; it succeeds only when it has added it, with the new agent's
    identifier; and it fails with an [IdentityFileError] or the [OSError] of the call that failed. *)
Theorem create_identity_atomic `{Ed25519} `{FsWorld} final ai te en token hex body st :
  ai ≠ [] → te ≠ [] → en ≠ [] → length token = 32%nat → steps st = [] →
  _identity_file_body {| seed := token |} ai te en = Ok body →
  leave_alone (resolve (temp_path final hex)) →
  let '(r, st') := create_identity_file final (PStr ai) (PStr te) (PStr en) token hex st in
  Forall (safe_step (resolve (temp_path final hex)) (resolve final) body) (steps st') ∧
  (∀ v, r = Ok v → v = (final, aid {| seed := token |}) ∧ Exists (publishes (resolve final) body) (steps st')) ∧
  (∀ e, r = Raise e → (∃ m, e = IdentityFileError m) ∨ isa e COSError = true).
Proof.
  intros Hai Hte Hen Htok Hst Hbody Hq. set (T := resolve (temp_path final hex)) in *. set (F := resolve final).
  assert (∀ s, s ≠ [] → text_arg (PStr s) = Ok s) as Ht by by intros [].
  unfold create_identity_file. unfold mbind at 1 2 3 4 5, FM_bind at 1 2 3 4 5, flift. rewrite !Ht by done.
  unfold generate, new_Agent. rewrite (proj2 (Z.eqb_eq (zlen token) 32)) by (by unfold zlen; rewrite Htok).
  rewrite Hbody. cbv zeta.
  enough (triple (safe T F body)
    (fd ← catch (os_open_excl (temp_path final hex)) COSError (λ _, Raise (IdentityFileError "cannot create bootstrap file"));
     _ ← finally (_ ← write_body fd body; publish (temp_path final hex) final)
           (catch (os_unlink (temp_path final hex)) CFileNotFoundError (λ _, Ok ()));
     _ ← _fsync_dir; mret (final, aid {| seed := token |}))
    (λ r st', safe T F body st' ∧
       (∀ v, r = Ok v → v = (final, aid {| seed := token |}) ∧ Exists (publishes F body) (steps st')) ∧
       ∀ e, r = Raise e → refusal e)) as Htr.
  { apply (Htr st). unfold safe. by rewrite Hst. }
  apply triple_bind with (Q := λ r st, match r with Ok i => owns T F body [] i st | Raise e => safe T F body st ∧ refusal e end).
  { apply triple_catch. eapply triple_weaken; [by apply (open_owns T F body)|].
    intros [i|e] st1; [done|]. intros [Hs He]. cbn [try_except]. rewrite He. split; [done|]. left. by eexists. }
  { intros e st1 [Hs He]. split_and!; [done..|]. by intros ? [= <-]. }
  intros i. apply triple_bind with (Q := λ r st, match r with Ok _ => published T F body st
                                                 | Raise e => safe T F body st ∧ refusal e end).
  - apply triple_finally with (Q := λ r st, match r with Ok _ => published T F body st
                                            | Raise e => safe T F body st ∧ refusal e end).
    + eapply triple_bind; [by apply (write_body_owns T F body)| |].
      * intros e st1 [Hs He]. split; [done|by right].
      * intros []. eapply triple_weaken; [by apply (publish_published T F body)|].
        intros [[]|e] st1; [done|]. intros [Hs He]. split; [done|by left].
    + intros [[]|e].
      * eapply triple_weaken; [apply (unlink_keeps T F body (published T F body)); [done|]|].
        { intros st1 ab n [Hs Hp] Hab. split; [by apply safe_snoc|]. apply Exists_app. by left. }
        intros [[]|e] st1 [Hp He]; [done|]. split; [apply Hp|right; by apply He].
      * eapply triple_weaken; [apply (unlink_keeps T F body (λ st, safe T F body st ∧ refusal e)); [done|]|].
        { intros st1 ab n [Hs Hr] Hab. split; [by apply safe_snoc|done]. }
        intros [[]|e'] st1 [[Hs Hr] He]; [done|]. split; [done|right; by apply He].
  - intros e st1 [Hs He]. split_and!; [done..|]. by intros ? [= <-].
  - intros []. eapply triple_bind; [apply (fsync_dir_keeps T F body)| |].
    + intros e st1 [[Hs _] He]. split_and!; [done..|]. intros e' [= <-]. right. by apply He.
    + intros [] st1 [[Hs Hp] _]. cbn. split_and!; [done| |done]. by intros v [= <-].
Qed.

(** ** The theorem at a concrete file system *)

(** Short writes, and another process that creates a file of its own before the third call. *)
Definition sample_fs_world : FsWorld := {|
  resolve := abspath (lit "/home/ops"); cwd := lit "/home/ops"; posix := true; has_fchmod := true;
  others := λ n a, if (n =? 2)%nat
                   then {| entries := <[lit "/home/ops/other" := NotAFile]> (entries a); contents := contents a |} else a;
  fails := λ _, None; accepts := λ _, 99%nat;
|}.
Definition sample_fs : fs_state := {| now := {| entries := ∅; contents := ∅ |}; ncalls := 0; steps := [] |}.
Definition sample_final : pystr := lit "../ops/id.json".
Definition sample_hex : pystr := lit "00112233aabbccdd".
Definition sample_create := @create_identity_file sample_fs_world toy_ed25519 sample_final (PStr (lit "ops")) (PStr (lit "acme"))
  (PStr (lit "h:1")) (repeat 7 32) sample_hex sample_fs.

Example sample_paths :
  @temp_path sample_fs_world sample_final sample_hex = lit "/home/ops/.id.json.00112233aabbccdd.tmp" ∧
  @resolve sample_fs_world sample_final = lit "/home/ops/id.json".
Proof. split; vm_compute; reflexivity. Qed.

Lemma sample_leave_alone : @leave_alone sample_fs_world (@resolve sample_fs_world (@temp_path sample_fs_world sample_final sample_hex)).
Proof.
  assert (@resolve sample_fs_world (@temp_path sample_fs_world sample_final sample_hex)
          = lit "/home/ops/.id.json.00112233aabbccdd.tmp") as -> by (vm_compute; reflexivity).
  intros n a i Ha. cbn [others sample_fs_world]. destruct (n =? 2)%nat; [|done]. cbn [entries contents].
  rewrite lookup_insert_ne by discriminate. split_and!; [done|done|]. intros p Hp.
  destruct (decide (lit "/home/ops/other" = p)) as [<-|Hne]; [by rewrite lookup_insert_eq|by rewrite lookup_insert_ne].
Qed.

Definition sample_body : bytes :=
  match @_identity_file_body toy_ed25519 {| seed := repeat 7 32 |} (lit "ops") (lit "acme") (lit "h:1") with
  | Ok b => b | Raise _ => []
  end.

Lemma create_identity_atomic_witness :
  sample_create.1 = Ok (sample_final, @aid toy_ed25519 {| seed := repeat 7 32 |}) ∧
  Exists (publishes (@resolve sample_fs_world sample_final) sample_body) (steps sample_create.2).
Proof.
  pose proof (@create_identity_atomic toy_ed25519 sample_fs_world sample_final (lit "ops") (lit "acme") (lit "h:1")
    (repeat 7 32) sample_hex sample_body sample_fs ltac:(discriminate) ltac:(discriminate) ltac:(discriminate)
    eq_refl eq_refl ltac:(vm_compute; reflexivity) sample_leave_alone) as Hc.
  assert (sample_create.1 = Ok (sample_final, @aid toy_ed25519 {| seed := repeat 7 32 |})) as E by (vm_compute; reflexivity).
  change (@create_identity_file sample_fs_world toy_ed25519 sample_final (PStr (lit "ops")) (PStr (lit "acme"))
    (PStr (lit "h:1")) (repeat 7 32) sample_hex sample_fs) with sample_create in Hc.
  destruct sample_create as [r st']. split; [exact E|]. exact (proj2 (proj1 (proj2 Hc) _ E)).
Defined.
