(* ===== verification/Aio.v ===== *)
(** * Aio: the asynchronous client

    [aio.py]. An [async] method is a coroutine: a tree whose nodes are the points where it touches something shared
    (an RPC it awaits, the lock of an AID, the clock, the ticket caches) and whose branches are what it gets
    back there, an exception included; what runs between two nodes is atomic on the event loop. The handlers
    ([co_catch], [async_with]) are programs over that tree, so that they run on a cancellation as well, which
    arrives as a [CancelledError] at an awaited node. [exec] runs one coroutine alone; [AioTasks] runs many.

    [_registry_lock] is never held across an [await], so taking it never waits: [_cache_and_lock] is one
    synchronous step. The stream wrapper [_MappedStream] is in [StubProxy]: no method
    of the client streams. *)

From stdpp Require Import base list numbers option strings gmap.
From Stdlib Require Import SpecFloat.
From S2P Require Import Prelude Text Sha256 Base64 Keys Framing Json Dumps Jcs RecordDigest Commitment Errors Authorize.
From S2P Require Import Outcome Client Verbs Verify.

(** ** Coroutines *)

Section coroutines.
Context `{World}.

Inductive co (A : Type) : Type :=
| Return (r : res A)
| Call (m : method) (q : request) (md : option call_md) (t : seconds) (k : res (reply Message m) → co A)
| Acquire (a : pystr) (k : res () → co A)
| Release (a : pystr) (k : co A)
| Registry (a : pystr) (k : co A)
| Clock (k : Z → co A)
| GetCache (a : pystr) (k : TicketCache → co A)
| SetCache (a : pystr) (f : TicketCache → TicketCache) (k : co A).
Arguments Return {A} r.
Arguments Call {A} m q md t k.
Arguments Acquire {A} a k.
Arguments Release {A} a k.
Arguments Registry {A} a k.
Arguments Clock {A} k.
Arguments GetCache {A} a k.
Arguments SetCache {A} a f k.

(** [await m], then [k] of its value. *)
Fixpoint co_then {A B} (c : co A) (k : res A → co B) : co B :=
  match c with
  | Return r => k r
  | Call m q md t k' => Call m q md t (λ r, co_then (k' r) k)
  | Acquire a k' => Acquire a (λ r, co_then (k' r) k)
  | Release a c => Release a (co_then c k)
  | Registry a c => Registry a (co_then c k)
  | Clock k' => Clock (λ z, co_then (k' z) k)
  | GetCache a k' => GetCache a (λ x, co_then (k' x) k)
  | SetCache a f c => SetCache a f (co_then c k)
  end.

Global Instance co_ret : MRet co := λ A a, Return (Ok a).
Global Instance co_bind : MBind co := λ A B k c, co_then c (λ r, match r with Ok a => k a | Raise e => Return (Raise e) end).
Global Instance co_fmap : FMap co := λ A B f c, co_then c (λ r, Return (f <$> r)).
Definition co_lift {A} (r : res A) : co A := Return r.
(** [try: c except ...: h e], where [h] is [None] on an exception no clause names. *)
Definition co_catch {A} (c : co A) (h : exn → option (co A)) : co A :=
  co_then c (λ r, match r with
                  | Ok a => Return (Ok a)
                  | Raise e => match h e with Some c' => c' | None => Return (Raise e) end
                  end).
(** [async with lock: c]: released however [c] ends. *)
Definition async_with {A} (a : pystr) (c : co A) : co A :=
  Acquire a (λ r, match r with
                  | Ok _ => co_then c (λ r, Release a (Return r))
                  | Raise e => Return (Raise e)
                  end).

(** Alone on the loop: every lock is free, every call is answered. *)
Fixpoint exec {A} (c : co A) (st : client) : res A * client :=
  match c with
  | Return r => (r, st)
  | Call m q md t k =>
    exec (k (serve m q md t (c_log st)))
      {| c_tickets := c_tickets st; c_readings := c_readings st; c_log := c_log st ++ [Sent m q md t] |}
  | Acquire _ k => exec (k (Ok ())) st
  | Release _ c => exec c st
  | Registry a c => exec c (set_tickets (<[a := cache_of st a]> (c_tickets st)) st)
  | Clock k => exec (k (clock (c_readings st)))
                 {| c_tickets := c_tickets st; c_readings := S (c_readings st); c_log := c_log st |}
  | GetCache a k => exec (k (cache_of st a)) st
  | SetCache a f c => exec c (set_tickets (<[a := f (cache_of st a)]> (c_tickets st)) st)
  end.
End coroutines.
Arguments Return {_ A} r.
Arguments Call {_ A} m q md t k.
Arguments Acquire {_ A} a k.
Arguments Release {_ A} a k.
Arguments Registry {_ A} a k.
Arguments Clock {_ A} k.
Arguments GetCache {_ A} a k.
Arguments SetCache {_ A} a f k.

(** ** The client *)

Module Async.
Section client.
Context `{Ed25519} `{AuthorizeVerdictEnum} `{World}.
Context (_agent : option Agent).

Definition _now_ms : co Z := Clock (λ z, Return (Ok z)).

(** [await self.<stub>.<m>(q, timeout=timeout, metadata=md)] on an [_AioMappedStub]. *)
Definition rpc (m : method) (q : request) (md : option call_md) (timeout : seconds) : co (reply Message m) :=
  Call m q md timeout (λ r, Return (mapped_call r)).

Definition _presentation (agent : Agent) (timeout : seconds) : co bytes :=
  ch ← rpc IssueChallenge IssueChallengeRequest None timeout;
  now ← _now_ms;
  body ← co_lift (build_presentation (seed agent) (ch_receiver_aid ch) (ch_nonce ch) now);
  mret (presentation_json body).

(** The cache and the lock of one AID are named by it. *)
Definition _cache_and_lock (a : pystr) : co () := Registry a (mret ()).
Definition cache_get (a : pystr) : co (option bytes) :=
  now ← _now_ms; GetCache a (λ c, mret (tc_get c now)).

Definition _admit_locked (agent : Agent) (timeout : seconds) : co bytes :=
  p ← _presentation agent timeout;
  ticket ← rpc Admit (PinnedPresentation p) None timeout;
  now ← _now_ms;
  SetCache (aid agent) (λ c, tc_store c (at_ticket ticket) (at_expires_at_ms ticket) now) (mret (at_ticket ticket)).

Definition client_admit (agent : Agent) (timeout : seconds) : co bytes :=
  _ ← _cache_and_lock (aid agent);
  async_with (aid agent) (_admit_locked agent timeout).

Definition _ticket_for (agent : Agent) (timeout : seconds) : co bytes :=
  _ ← _cache_and_lock (aid agent);
  async_with (aid agent)
    (ticket ← cache_get (aid agent);
     match ticket with None => _admit_locked agent timeout | Some ticket => mret ticket end).

Definition _refresh_ticket (agent : Agent) (failed : bytes) (timeout : seconds) : co bytes :=
  _ ← _cache_and_lock (aid agent);
  async_with (aid agent)
    (current ← cache_get (aid agent);
     let readmit := SetCache (aid agent) tc_invalidate (_admit_locked agent timeout) in
     match current with
     | Some current => if decide (current ≠ failed) then mret current else readmit
     | None => readmit
     end).

Definition _invalidate_ticket (agent : Agent) (failed : bytes) : co () :=
  _ ← _cache_and_lock (aid agent);
  async_with (aid agent)
    (current ← cache_get (aid agent);
     if decide (current = Some failed) then SetCache (aid agent) tc_invalidate (mret ()) else mret ()).

Definition _forget_burned_ticket (signer : Agent) (ticket : bytes) (rpc_full_name : pystr) (e : exn) : co () :=
  if bool_decide (rpc_full_name ∈ _REPLAY_GUARDED) && (is_session_unavailable e || is_tenant_moving e)
  then _invalidate_ticket signer ticket else mret ().

Definition _signer (credential : option Agent) : option Agent :=
  match credential with Some c => Some c | None => _agent end.

(** [await send(credential_metadata(...))] with the clause the three call sites share. *)
Definition send_signed {A} (signer : Agent) (ticket : bytes) (rpc_full_name resource_id : pystr)
    (body : option request) (send : option call_md → co A) : co A :=
  co_catch
    (md ← co_lift (credential_metadata (seed signer) ticket rpc_full_name resource_id (SerializeToString <$> body));
     send (Some md))
    (λ e, if is_class UnavailableError e || is_class FailedPreconditionError e
          then Some (_ ← _forget_burned_ticket signer ticket rpc_full_name e; co_lift (Raise e))
          else None).

Definition _signed_once {A} (credential : option Agent) (rpc_full_name resource_id : pystr)
    (body : option request) (send : option call_md → co A) (timeout : seconds) : co A :=
  match _signer credential with
  | None => send None
  | Some signer =>
    ticket ← _ticket_for signer timeout;
    send_signed signer ticket rpc_full_name resource_id body send
  end.

Definition _credentialed_call {A} (credential : option Agent) (rpc_full_name resource_id : pystr)
    (body : option request) (send : option call_md → co A) (timeout : seconds) (retry : bool) : co A :=
  match _signer credential with
  | None => send None
  | Some signer =>
    ticket ← _ticket_for signer timeout;
    first ← co_catch (inl <$> send_signed signer ticket rpc_full_name resource_id body send)
      (λ e, if is_class UnauthenticatedError e
            then Some (if negb retry then _ ← _invalidate_ticket signer ticket; co_lift (Raise e)
                       else inr <$> _refresh_ticket signer ticket timeout)
            else None);
    match first with
    | inl response => mret response
    | inr ticket => send_signed signer ticket rpc_full_name resource_id body send
    end
  end.

Definition authorize_attempt (agent : Agent) (args : authorize_args) (timeout : seconds) (t : bytes)
    : co AuthorizeResponse :=
  q ← co_lift (build_authorize_request t (seed agent) args);
  rpc Authorize (AuthorizeMessage q) None timeout.

Definition authorize (agent : Agent) (a : authorize_args) (timeout : seconds) : co AuthorizeResult :=
  canonical ← co_lift (_resolve_canonical (ar_tool_input a) (ar_canonical a));
  _ ← _cache_and_lock (aid agent);
  ticket ← async_with (aid agent)
    (ticket ← cache_get (aid agent);
     match ticket with None => _admit_locked agent timeout | Some ticket => mret ticket end);
  resp ← co_catch (authorize_attempt agent (with_canonical a canonical) timeout ticket)
    (λ e, if is_class UnauthenticatedError e
          then Some (ticket ← _refresh_ticket agent ticket timeout;
                     authorize_attempt agent (with_canonical a canonical) timeout ticket)
          else None);
  co_lift (result_of resp).
End client.

Section verbs.
Context `{Ed25519} `{World} (_agent : option Agent).

(** ** Decisions *)

Definition run_decision (pb_string : pyval → res pystr) (agent : Agent) (session_id : pystr)
    (participants : list pystr) (votes : pyval) (features : option str_dict) (on_behalf_of : list pystr)
    (timeout : seconds) : co Message :=
  vs ← co_lift (_vote_messages pb_string votes);
  p ← _presentation agent timeout;
  let req := RunDecisionRequest session_id participants vs p on_behalf_of (default [] features) in
  rpc RunDecision req None timeout.

Definition get_escalation (authorize_id : pystr) (credential : option Agent) (timeout : seconds) : co Message :=
  _credentialed_call _agent credential (lit "/seam.api.v1.SeamAuthorization/GetEscalation") authorize_id None
    (λ md, rpc GetEscalation (EscalationRef authorize_id) md timeout) timeout true.

(** ** Sessions *)

Definition open_session (agent : Agent) (session_id : pystr) (participants : list pystr) (budget : Z)
    (limits : option BudgetLimits) (mode : pystr) (on_behalf_of : list pystr) (credential : option Agent)
    (timeout : seconds) : co Message :=
  p ← _presentation agent timeout;
  let req := OpenSessionRequest session_id participants budget mode p on_behalf_of (BudgetLimits_to_pb <$> limits) in
  _signed_once _agent credential (lit "/seam.api.v1.SeamCoordination/OpenSession") [] (Some req)
    (λ md, rpc OpenSession req md timeout) timeout.

Definition submit_proposal (session_id proposer proposal_id choice : pystr) (usage : option StepUsage)
    (credential : option Agent) (timeout : seconds) : co Message :=
  let req := ProposalRequest session_id proposer proposal_id choice usage in
  _credentialed_call _agent credential (lit "/seam.api.v1.SeamCoordination/SubmitProposal") [] (Some req)
    (λ md, rpc SubmitProposal req md timeout) timeout true.

Definition submit_vote (session_id voter proposal_id value reason : pystr) (usage : option StepUsage)
    (credential : option Agent) (timeout : seconds) : co Message :=
  let req := VoteRequest session_id voter proposal_id value reason usage in
  _credentialed_call _agent credential (lit "/seam.api.v1.SeamCoordination/SubmitVote") [] (Some req)
    (λ md, rpc SubmitVote req md timeout) timeout true.

Definition submit_evaluation (session_id evaluator proposal_id recommendation : pystr)
    (confidence : option spec_float) (reason : pystr) (rationale_ref : option pystr) (usage : option StepUsage)
    (credential : option Agent) (timeout : seconds) : co Message :=
  let req := EvaluationRequest session_id evaluator proposal_id recommendation reason confidence rationale_ref usage in
  _credentialed_call _agent credential (lit "/seam.api.v1.SeamCoordination/SubmitEvaluation") [] (Some req)
    (λ md, rpc SubmitEvaluation req md timeout) timeout true.

Definition submit_objection (session_id objector proposal_id reason severity : pystr) (usage : option StepUsage)
    (credential : option Agent) (timeout : seconds) : co Message :=
  let req := ObjectionRequest session_id objector proposal_id reason severity usage in
  _credentialed_call _agent credential (lit "/seam.api.v1.SeamCoordination/SubmitObjection") [] (Some req)
    (λ md, rpc SubmitObjection req md timeout) timeout true.

Definition submit_commit (session_id commitment_id action : pystr) (supersedes : option pystr)
    (usage : option StepUsage) (credential : option Agent) (timeout : seconds) : co Message :=
  let req := CommitRequest session_id commitment_id action supersedes usage in
  _credentialed_call _agent credential (lit "/seam.api.v1.SeamCoordination/SubmitCommit") [] (Some req)
    (λ md, rpc SubmitCommit req md timeout) timeout true.

Definition submit_approval_request (session_id requester request_id action : pystr) (required_approvals : pyval)
    (usage : option StepUsage) (credential : option Agent) (timeout : seconds) : co Message :=
  n ← co_lift (_u32 required_approvals);
  let req := ApprovalRequestRequest session_id requester request_id action n usage in
  _credentialed_call _agent credential (lit "/seam.api.v1.SeamCoordination/SubmitApprovalRequest") [] (Some req)
    (λ md, rpc SubmitApprovalRequest req md timeout) timeout true.

Definition submit_ballot (session_id voter request_id : pystr) (choice : Z) (reason : pystr)
    (usage : option StepUsage) (credential : option Agent) (timeout : seconds) : co Message :=
  let req := BallotRequest session_id voter request_id choice reason usage in
  _credentialed_call _agent credential (lit "/seam.api.v1.SeamCoordination/SubmitBallot") [] (Some req)
    (λ md, rpc SubmitBallot req md timeout) timeout true.

(** The tombstone, its deprecation warning left out. *)
Definition resume_session (session_id : pystr) (budget : Z) (raise_ : option BudgetLimits) (timeout : seconds)
    : co Message :=
  rpc ResumeSession (ResumeRequest session_id budget (BudgetLimits_to_pb <$> raise_)) None timeout.

Definition cancel_session (session_id : pystr) (credential : option Agent) (timeout : seconds) : co Message :=
  let req := SessionRef session_id in
  _signed_once _agent credential (lit "/seam.api.v1.SeamCoordination/CancelSession") [] (Some req)
    (λ md, rpc CancelSession req md timeout) timeout.

Definition expire_session (session_id : pystr) (credential : option Agent) (timeout : seconds) : co Message :=
  let req := SessionRef session_id in
  _signed_once _agent credential (lit "/seam.api.v1.SeamCoordination/ExpireSession") [] (Some req)
    (λ md, rpc ExpireSession req md timeout) timeout.

(** ** Reads *)

Definition session_status (session_id : pystr) (credential : option Agent) (timeout : seconds) : co Message :=
  _credentialed_call _agent credential (lit "/seam.api.v1.SeamCoordination/SessionStatus") session_id None
    (λ md, rpc SessionStatus (SessionRef session_id) md timeout) timeout true.

Definition get_decision (decision_id : pystr) (credential : option Agent) (timeout : seconds) : co Message :=
  _credentialed_call _agent credential (lit "/seam.api.v1.SeamCoordination/GetDecision") decision_id None
    (λ md, rpc GetDecision (DecisionRef decision_id) md timeout) timeout true.

Definition replay_decision (decision_id : pystr) (credential : option Agent) (timeout : seconds) : co Message :=
  _credentialed_call _agent credential (lit "/seam.api.v1.SeamCoordination/ReplayDecision") decision_id None
    (λ md, rpc ReplayDecision (DecisionRef decision_id) md timeout) timeout true.

Definition get_commitment_proof (decision_id : pystr) (credential : option Agent) (timeout : seconds)
    : co CommitmentProof :=
  _credentialed_call _agent credential (lit "/seam.api.v1.SeamCoordination/GetCommitmentProof") decision_id None
    (λ md, rpc GetCommitmentProof (DecisionRef decision_id) md timeout) timeout true.

Definition who_am_i (credential : option Agent) (timeout : seconds) : co Message :=
  _credentialed_call _agent credential (lit "/seam.api.v1.SeamTrust/WhoAmI") [] None
    (λ md, rpc WhoAmI Empty md timeout) timeout true.

(** ** Outcomes and context *)

Definition report_outcome (decision_id : pystr) (correct : bool) (verified_by : option pystr)
    (idempotency_key reward metrics : pyval) (observed_at : option ObservedAt) (credential : option Agent)
    (timeout : seconds) : co bool :=
  key ← co_lift (_check_idempotency_key idempotency_key);
  fields ← co_lift (_set_outcome_fields reward metrics observed_at);
  let '(r, m, t) := fields in
  let req := ReportOutcomeRequest decision_id correct key r m t verified_by in
  _credentialed_call _agent credential (lit "/seam.api.v1.SeamCoordination/ReportOutcome") [] (Some req)
    (λ md, rpc ReportOutcome req md timeout) timeout true.

Definition register_context (content : bytes) (fidelity : pystr) (derived_from : option (list pystr))
    (credential : option Agent) (timeout : seconds) : co pystr :=
  let req := RegisterContextRequest content fidelity (or_empty derived_from) in
  _credentialed_call _agent credential (lit "/seam.api.v1.SeamContext/RegisterContext") [] (Some req)
    (λ md, rpc RegisterContext req md timeout) timeout true.

Definition resolve_context (refs : list pystr) (credential : option Agent) (timeout : seconds) : co (list Message) :=
  let req := ResolveContextRequest refs in
  _credentialed_call _agent credential (lit "/seam.api.v1.SeamContext/ResolveContext") [] (Some req)
    (λ md, rpc ResolveContext req md timeout) timeout true.

(** ** Uncredentialed trust reads *)

Definition issuer_aid (timeout : seconds) : co pystr := rpc IssuerAid Empty None timeout.
Definition server_info (timeout : seconds) : co pystr := runtime_version <$> rpc ServerInfo Empty None timeout.
Definition server_wire_features (timeout : seconds) : co (list pystr) :=
  wire_features <$> rpc ServerInfo Empty None timeout.

Definition verify_commitment (commitment : pb_Commitment) (signed_artifact : bytes) (timeout : seconds) : co bool :=
  rpc VerifyCommitment (VerifyCommitmentRequest commitment signed_artifact) None timeout.
Definition verify_party_anchor (party_id : pystr) (anchor : bytes) (tenant : pystr) (timeout : seconds) : co bool :=
  rpc VerifyPartyAnchor (VerifyAnchorRequest party_id anchor tenant) None timeout.
Definition verify_party_attestation (party_id : pystr) (attestation : bytes) (timeout : seconds) : co bool :=
  rpc VerifyPartyAttestation (VerifyAttestationRequest party_id attestation) None timeout.

(** [now] is the second [verify_tct] reads off the clock. *)
Definition verify_decision `{ExplanationKindEnum} (decision_id expected_issuer : pystr) (credential : option Agent)
    (timeout : seconds) (now : Z) : co bool :=
  proof ← get_commitment_proof decision_id credential timeout;
  if decide (cp_issuer_aid proof ≠ expected_issuer)
  then co_lift (Raise (IssuerMismatchError (cp_issuer_aid proof) expected_issuer))
  else
    let c := cp_commitment proof in
    artifact ← co_lift (utf8_decode (cm_signed_artifact c));
    mret (verify_tct expected_issuer artifact (commitment_view c) now).

Definition run_verb (v : verb) (cred : option Agent) (t : seconds) : co (reply Message (method_of v)) :=
  match v return co (reply Message (method_of v)) with
  | VGetEscalation a => get_escalation a cred t
  | VOpenSession a s ps b l m o => open_session a s ps b l m o cred t
  | VSubmitProposal s p i c u => submit_proposal s p i c u cred t
  | VSubmitVote s v i x r u => submit_vote s v i x r u cred t
  | VSubmitEvaluation s e i rec c r ref u => submit_evaluation s e i rec c r ref u cred t
  | VSubmitObjection s o i r sev u => submit_objection s o i r sev u cred t
  | VSubmitCommit s c a sup u => submit_commit s c a sup u cred t
  | VSubmitApprovalRequest s r i a n u => submit_approval_request s r i a n u cred t
  | VSubmitBallot s v i c r u => submit_ballot s v i c r u cred t
  | VCancelSession s => cancel_session s cred t
  | VExpireSession s => expire_session s cred t
  | VSessionStatus s => session_status s cred t
  | VGetDecision d => get_decision d cred t
  | VReplayDecision d => replay_decision d cred t
  | VGetCommitmentProof d => get_commitment_proof d cred t
  | VWhoAmI => who_am_i cred t
  | VReportOutcome d c v k r m o => report_outcome d c v k r m o cred t
  | VRegisterContext c f d => register_context c f d cred t
  | VResolveContext r => resolve_context r cred t
  end.
End verbs.
End Async.

(** ** Alone, a coroutine is the synchronous method *)

Section equivalence.
Context `{Ed25519} `{AuthorizeVerdictEnum} `{World}.

(** The same run from every state; [≡ₘ] is preserved by everything the methods are built from. *)
Definition same_run {A} (m1 m2 : M A) : Prop := ∀ st, m1 st = m2 st.
Infix "≡ₘ" := same_run (at level 70).

Lemma exec_then {A B} (c : co A) (k : res A → co B) st :
  exec (co_then c k) st = let '(r, st') := exec c st in exec (k r) st'.
Proof. revert st. induction c; intros st; cbn [co_then exec]; try done; auto. Qed.

Lemma exec_bind {A B} (c : co A) (k : A → co B) m (k' : A → M B) :
  exec c ≡ₘ m → (∀ a, exec (k a) ≡ₘ k' a) → exec (c ≫= k) ≡ₘ (m ≫= k').
Proof.
  intros Hc Hk st. unfold mbind, co_bind, M_bind. rewrite exec_then, <-Hc.
  destruct (exec c st) as [[a|e] st']; [apply Hk|done].
Qed.

Lemma exec_fmap {A B} (f : A → B) (c : co A) m : exec c ≡ₘ m → exec (f <$> c) ≡ₘ (f <$> m).
Proof.
  intros Hc st. unfold fmap, co_fmap, M_fmap. rewrite exec_then, <-Hc. by destruct (exec c st) as [[a|e] st'].
Qed.

Lemma exec_catch {A} (c : co A) h m h' :
  exec c ≡ₘ m →
  (∀ e, match h e, h' e with Some c, Some m => exec c ≡ₘ m | None, None => True | _, _ => False end) →
  exec (co_catch c h) ≡ₘ catch m h'.
Proof.
  intros Hc Hh st. unfold co_catch, catch. rewrite exec_then, <-Hc. destruct (exec c st) as [[a|e] st']; [done|].
  specialize (Hh e). by destruct (h e), (h' e).
Qed.

Lemma exec_async_with {A} a (c : co A) m : exec c ≡ₘ m → exec (async_with a c) ≡ₘ m.
Proof. intros Hc st. unfold async_with. cbn [exec]. rewrite exec_then, <-Hc. by destruct (exec c st). Qed.

Lemma exec_lift {A} (r : res A) : exec (co_lift r) ≡ₘ lift r.
Proof. done. Qed.
Lemma exec_ret {A} (a : A) : exec (mret a) ≡ₘ mret a.
Proof. done. Qed.
Lemma exec_rpc m q md t : exec (Async.rpc m q md t) ≡ₘ rpc m q md t.
Proof. done. Qed.
Lemma exec_now : exec Async._now_ms ≡ₘ _now_ms.
Proof. done. Qed.

Ltac same_run := repeat first
  [apply exec_lift | apply exec_ret
  |match goal with |- same_run (exec (Async.rpc ?m ?q ?md ?t)) _ => exact (exec_rpc m q md t) end
  |apply exec_now | apply exec_fmap
  |apply exec_bind; [|intros ?]].

Lemma exec_presentation agent t : exec (Async._presentation agent t) ≡ₘ _presentation agent t.
Proof. unfold Async._presentation, _presentation. same_run. Qed.

Lemma exec_admit_locked agent t : exec (Async._admit_locked agent t) ≡ₘ _admit_locked agent t.
Proof.
  apply exec_bind; [apply exec_presentation|intros p]. same_run. by intros st.
Qed.

(** Reading one's cache under its lock. *)
Lemma exec_cached {A} a (c : option bytes → co A) (m : option bytes → M A) :
  (∀ o, exec (c o) ≡ₘ m o) →
  exec (_ ← Async._cache_and_lock a; async_with a (o ← Async.cache_get a; c o))
  ≡ₘ (cache ← _cache_and_lock a; now ← _now_ms; m (tc_get cache now)).
Proof.
  intros Hc st. unfold Async._cache_and_lock, Async.cache_get, Async._now_ms, _cache_and_lock, _now_ms, mbind, co_bind, M_bind, mret, co_ret.
  cbn [co_then async_with exec]. rewrite exec_then. cbn [co_then exec set_tickets c_tickets c_readings c_log].
  set (st1 := Build_client _ _ _). assert (cache_of st1 a = cache_of st a) as ->.
  { unfold cache_of at 1, st1. cbn [c_tickets]. by rewrite lookup_insert_eq. }
  rewrite Hc. fold (cache_of st a). by destruct (m _ st1).
Qed.

Lemma exec_ticket_for agent t : exec (Async._ticket_for agent t) ≡ₘ _ticket_for agent t.
Proof.
  intros st. unfold Async._ticket_for. etrans; [apply exec_cached|].
  - intros o. instantiate (1 := λ o, match o with None => _admit_locked agent t | Some tk => mret tk end).
    destruct o; [apply exec_ret|apply exec_admit_locked].
  - done.
Qed.

Lemma exec_refresh_ticket agent failed t : exec (Async._refresh_ticket agent failed t) ≡ₘ _refresh_ticket agent failed t.
Proof.
  intros st. unfold Async._refresh_ticket. etrans; [apply exec_cached|].
  - intros o. instantiate (1 := λ o, let readmit := _ ← update_cache (aid agent) tc_invalidate; _admit_locked agent t in
      match o with Some current => if decide (current ≠ failed) then mret current else readmit | None => readmit end).
    assert (exec (SetCache (aid agent) tc_invalidate (Async._admit_locked agent t))
            ≡ₘ (_ ← update_cache (aid agent) tc_invalidate; _admit_locked agent t)) as Hr.
    { intros st1. apply exec_admit_locked. }
    destruct o; [case_decide; [apply exec_ret|]|]; apply Hr.
  - done.
Qed.

Lemma exec_invalidate_ticket agent failed : exec (Async._invalidate_ticket agent failed) ≡ₘ _invalidate_ticket agent failed.
Proof.
  intros st. unfold Async._invalidate_ticket. etrans; [apply exec_cached|].
  - intros o. instantiate (1 := λ o, if decide (o = Some failed) then update_cache (aid agent) tc_invalidate else mret ()).
    intros st1. by case_decide.
  - done.
Qed.

Lemma exec_forget_burned signer tk p e : exec (Async._forget_burned_ticket signer tk p e) ≡ₘ _forget_burned_ticket signer tk p e.
Proof.
  unfold Async._forget_burned_ticket, _forget_burned_ticket. case_match; [apply exec_invalidate_ticket|apply exec_ret].
Qed.

Section paths.
Context {A : Type} (bound cred : option Agent) (p resource : pystr) (body : option request).
Context (send : option call_md → co A) (send' : option call_md → M A).
Context (Hsend : ∀ md, exec (send md) ≡ₘ send' md).

Lemma exec_send_signed signer tk :
  exec (Async.send_signed signer tk p resource body send) ≡ₘ send_signed signer tk p resource body send'.
Proof.
  apply exec_catch.
  - apply exec_bind; [apply exec_lift|intros md; apply Hsend].
  - intros e. destruct (is_class UnavailableError e || is_class FailedPreconditionError e); [|done].
    apply exec_bind; [apply exec_forget_burned|intros _; apply exec_lift].
Qed.

Lemma exec_signed_once t :
  exec (Async._signed_once bound cred p resource body send t) ≡ₘ _signed_once bound cred p resource body send' t.
Proof.
  unfold Async._signed_once, _signed_once. change (Async._signer bound cred) with (_signer bound cred).
  destruct (_signer bound cred) as [signer|]; [|apply Hsend].
  apply exec_bind; [apply exec_ticket_for|intros tk; apply exec_send_signed].
Qed.

Lemma exec_credentialed_call t retry :
  exec (Async._credentialed_call bound cred p resource body send t retry)
  ≡ₘ _credentialed_call bound cred p resource body send' t retry.
Proof.
  unfold Async._credentialed_call, _credentialed_call. change (Async._signer bound cred) with (_signer bound cred).
  destruct (_signer bound cred) as [signer|]; [|apply Hsend].
  apply exec_bind; [apply exec_ticket_for|intros tk].
  apply exec_bind; [|intros [a|tk2]; [apply exec_ret|apply exec_send_signed]].
  apply exec_catch; [apply exec_fmap, exec_send_signed|]. intros e.
  destruct (is_class UnauthenticatedError e); [|done]. destruct (negb retry).
  - apply exec_bind; [apply exec_invalidate_ticket|intros _; apply exec_lift].
  - apply exec_fmap, exec_refresh_ticket.
Qed.
End paths.

Lemma exec_authorize agent a t : exec (Async.authorize agent a t) ≡ₘ authorize agent a t.
Proof.
  assert (∀ b tk, exec (Async.authorize_attempt agent b t tk) ≡ₘ authorize_attempt agent b t tk) as Hatt.
  { intros b tk. unfold Async.authorize_attempt, authorize_attempt. same_run. }
  apply exec_bind; [apply exec_lift|intros canonical].
  assert (∀ (k : bytes → co AuthorizeResult) st,
    exec (_ ← Async._cache_and_lock (aid agent);
          tk ← async_with (aid agent) (o ← Async.cache_get (aid agent);
            match o with None => Async._admit_locked agent t | Some tk => mret tk end); k tk) st
    = exec (tk ← Async._ticket_for agent t; k tk) st) as Hassoc by done.
  intros st. rewrite Hassoc. revert st. apply exec_bind; [apply exec_ticket_for|intros tk].
  apply exec_bind; [|intros resp; apply exec_lift]. apply exec_catch; [apply Hatt|]. intros e.
  destruct (is_class UnauthenticatedError e); [|done].
  apply exec_bind; [apply exec_refresh_ticket|intros tk2; apply Hatt].
Qed.

Lemma exec_run_decision pb_string agent s ps vs fs ob t :
  exec (Async.run_decision pb_string agent s ps vs fs ob t) ≡ₘ run_decision pb_string agent s ps vs fs ob t.
Proof.
  apply exec_bind; [apply exec_lift|intros v]. apply exec_bind; [apply exec_presentation|intros p].
  exact (exec_rpc RunDecision _ None t).
Qed.

Lemma exec_verify_decision `{ExplanationKindEnum} bound d issuer cred t now :
  exec (Async.verify_decision bound d issuer cred t now) ≡ₘ verify_decision bound d issuer cred t now.
Proof.
  apply exec_bind; [apply exec_credentialed_call; intros md; exact (exec_rpc GetCommitmentProof _ md t)|intros proof].
  case_decide; [apply exec_lift|]. apply exec_bind; [apply exec_lift|intros artifact; apply exec_ret].
Qed.

(** C9. The asynchronous client is the synchronous one: run without contention or cancellation, [authorize], [admit],
    [run_decision], [verify_decision] and each of the nineteen credentialed verbs of the async client make the
    same calls with the same metadata, leave the same ticket caches and end in the same value or exception as the
    synchronous method with the same arguments. *)
Theorem aio_matches_sync `{ExplanationKindEnum} bound v cred agent a t pb_string s ps vs fs ob d issuer now st :
  exec (Async.run_verb bound v cred t) st = run_verb bound v cred t st ∧
  exec (Async.authorize agent a t) st = authorize agent a t st ∧
  exec (Async.run_decision pb_string agent s ps vs fs ob t) st = run_decision pb_string agent s ps vs fs ob t st ∧
  exec (Async.verify_decision bound d issuer cred t now) st = verify_decision bound d issuer cred t now st ∧
  exec (Async.client_admit agent t) st = client_admit agent t st.
Proof.
  split; [|split; [apply exec_authorize|split; [apply exec_run_decision|split; [apply exec_verify_decision|]]]].
  2: { exact (exec_async_with (aid agent) _ _ (exec_admit_locked agent t) _). }
  revert st. change (exec (Async.run_verb bound v cred t) ≡ₘ run_verb bound v cred t).
  destruct v; cbn [Async.run_verb run_verb];
    try (apply exec_credentialed_call || apply exec_signed_once); try (intros md; apply exec_rpc).
  - apply exec_bind; [apply exec_presentation|intros p]. apply exec_signed_once. intros md. apply exec_rpc.
  - apply exec_bind; [apply exec_lift|intros n]. apply exec_credentialed_call. intros md. apply exec_rpc.
  - do 2 (apply exec_bind; [apply exec_lift|intros ?]). case_match. case_match.
    apply exec_credentialed_call. intros md. apply exec_rpc.
Qed.
End equivalence.
