(* ===== verification/AioTasks.v ===== *)
(** * AioTasks: many coroutines of one client on one event loop

    Tasks of [Aio] interleave: each step lets one task pass one node of its coroutine, an awaited call is sent and
    answered in two steps and may be answered in any way, and a task that waits, for an answer or for a lock, may
    be cancelled. On the event loop a task runs on to its next [await], so the schedules here include the real
    ones. The lock discipline of the methods is a predicate on coroutines, proved once per method; what it gives
    over every schedule is proved once for all. *)

From stdpp Require Import base list numbers option strings gmap relations.
From Stdlib Require Import SpecFloat.
From S2P Require Import Prelude Text Keys Framing RecordDigest Commitment Errors Authorize Outcome Client Verbs Verify Aio.

(** ** The lock discipline *)

Section discipline.
Context `{Ed25519} `{AuthorizeVerdictEnum} `{World}.

(** From holding [h] to holding [h'], however the coroutine's awaits end: locks are not nested, each is released
    by its holder, and a cache is touched only under its own lock. *)
Fixpoint keeps {A} (h h' : option pystr) (c : co A) : Prop :=
  match c with
  | Return _ => h = h'
  | Call _ _ _ _ k => ∀ r, keeps h h' (k r)
  | Acquire a k => h = None ∧ keeps (Some a) h' (k (Ok ())) ∧ ∀ e, keeps None h' (k (Raise e))
  | Release a c => h = Some a ∧ keeps None h' c
  | Registry _ c => keeps h h' c
  | Clock k => ∀ z, keeps h h' (k z)
  | GetCache a k => h = Some a ∧ ∀ x, keeps h h' (k x)
  | SetCache a _ c => h = Some a ∧ keeps h h' c
  end.

Lemma keeps_then {A B} h h' h'' (c : co A) (k : res A → co B) :
  keeps h h' c → (∀ r, keeps h' h'' (k r)) → keeps h h'' (co_then c k).
Proof.
  intros Hc Hk. revert h Hc.
  induction c as [r|m q md t k' IH|a k' IH|a c IH|a c IH|k' IH|a k' IH|a f c IH]; intros h; cbn [keeps co_then].
  - by intros ->.
  - intros Hc r. by apply IH.
  - intros (-> & Ho & He). split_and!; [done|by apply IH|intros e; by apply IH].
  - intros [-> Hc]. split; [done|by apply IH].
  - apply IH.
  - intros Hc z. by apply IH.
  - intros [-> Hc]. split; [done|]. intros x. by apply IH.
  - intros [-> Hc]. split; [done|by apply IH].
Qed.

Lemma co_keeps_bind {A B} h h' (c : co A) (k : A → co B) :
  keeps h h' c → (∀ a, keeps h' h' (k a)) → keeps h h' (c ≫= k).
Proof. intros Hc Hk. eapply keeps_then; [done|]. by intros [a|e]. Qed.

Lemma co_keeps_fmap {A B} h h' (f : A → B) (c : co A) : keeps h h' c → keeps h h' (f <$> c).
Proof. intros Hc. by eapply keeps_then. Qed.

Lemma keeps_catch {A} h h' (c : co A) g :
  keeps h h' c → (∀ e c', g e = Some c' → keeps h' h' c') → keeps h h' (co_catch c g).
Proof. intros Hc Hg. eapply keeps_then; [done|]. intros [a|e]; [done|]. destruct (g e) eqn:E; [by eapply Hg|done]. Qed.

Lemma keeps_async_with {A} a (c : co A) : keeps (Some a) (Some a) c → keeps None None (async_with a c).
Proof. intros Hc. cbn [async_with keeps]. split_and!; [done| |done]. by eapply keeps_then; [|intros r]. Qed.

Lemma keeps_lift {A} h (r : res A) : keeps h h (co_lift r).
Proof. done. Qed.
Lemma co_keeps_ret {A} h (a : A) : keeps h h (mret a : co A).
Proof. done. Qed.
Lemma keeps_rpc h m q md t : keeps h h (Async.rpc m q md t).
Proof. done. Qed.

#[local] Hint Resolve co_keeps_bind co_keeps_fmap keeps_catch keeps_async_with keeps_lift co_keeps_ret keeps_rpc : core.

Lemma keeps_presentation h agent t : keeps h h (Async._presentation agent t).
Proof. unfold Async._presentation. repeat (apply co_keeps_bind; [done|intros ?]). done. Qed.

Lemma keeps_admit_locked agent t : keeps (Some (aid agent)) (Some (aid agent)) (Async._admit_locked agent t).
Proof.
  unfold Async._admit_locked. apply co_keeps_bind; [apply keeps_presentation|intros p].
  repeat (apply co_keeps_bind; [done|intros ?]). done.
Qed.

Lemma keeps_cached {A} a (k : option bytes → co A) :
  (∀ o, keeps (Some a) (Some a) (k o)) →
  keeps None None (_ ← Async._cache_and_lock a; async_with a (o ← Async.cache_get a; k o)).
Proof.
  intros Hk. apply co_keeps_bind; [done|intros _]. apply keeps_async_with, co_keeps_bind; [done|done].
Qed.

Lemma keeps_ticket_for agent t : keeps None None (Async._ticket_for agent t).
Proof. apply keeps_cached. intros [tk|]; [done|apply keeps_admit_locked]. Qed.

Lemma keeps_refresh_ticket agent failed t : keeps None None (Async._refresh_ticket agent failed t).
Proof.
  apply keeps_cached. intros [tk|]; [case_decide; [done|]|]; (split; [done|apply keeps_admit_locked]).
Qed.

Lemma keeps_invalidate_ticket agent failed : keeps None None (Async._invalidate_ticket agent failed).
Proof. apply keeps_cached. intros o. by case_decide. Qed.

Lemma keeps_forget_burned signer tk p e : keeps None None (Async._forget_burned_ticket signer tk p e).
Proof. unfold Async._forget_burned_ticket. case_match; [apply keeps_invalidate_ticket|done]. Qed.

Section paths.
Context {A : Type} (bound cred : option Agent) (p resource : pystr) (body : option request).
Context (send : option call_md → co A) (Hsend : ∀ md, keeps None None (send md)).

Lemma keeps_send_signed signer tk : keeps None None (Async.send_signed signer tk p resource body send).
Proof.
  apply keeps_catch; [by apply co_keeps_bind|]. intros e c'. case_match; [|done]. intros [= <-].
  apply co_keeps_bind; [apply keeps_forget_burned|done].
Qed.

Lemma keeps_signed_once t : keeps None None (Async._signed_once bound cred p resource body send t).
Proof.
  unfold Async._signed_once. destruct (Async._signer bound cred); [|apply Hsend].
  apply co_keeps_bind; [apply keeps_ticket_for|intros tk; apply keeps_send_signed].
Qed.

Lemma keeps_credentialed_call t retry : keeps None None (Async._credentialed_call bound cred p resource body send t retry).
Proof.
  unfold Async._credentialed_call. destruct (Async._signer bound cred); [|apply Hsend].
  apply co_keeps_bind; [apply keeps_ticket_for|intros tk].
  apply co_keeps_bind; [|intros [x|tk2]; [done|apply keeps_send_signed]].
  apply keeps_catch; [apply co_keeps_fmap, keeps_send_signed|]. intros e c'. case_match; [|done]. intros [= <-].
  destruct (negb retry).
  - apply co_keeps_bind; [apply keeps_invalidate_ticket|done].
  - apply co_keeps_fmap, keeps_refresh_ticket.
Qed.
End paths.

Lemma keeps_run_verb bound v cred t : keeps None None (Async.run_verb bound v cred t).
Proof.
  destruct v; cbn [Async.run_verb]; try (apply keeps_credentialed_call || apply keeps_signed_once); try done.
  - apply co_keeps_bind; [apply keeps_presentation|intros p]. by apply keeps_signed_once.
  - apply co_keeps_bind; [done|intros n]. by apply keeps_credentialed_call.
  - do 2 (apply co_keeps_bind; [done|intros ?]). case_match. case_match. by apply keeps_credentialed_call.
Qed.

Lemma keeps_authorize agent a t : keeps None None (Async.authorize agent a t).
Proof.
  assert (∀ b tk, keeps None None (Async.authorize_attempt agent b t tk)) as Hatt by (intros b tk; by apply co_keeps_bind).
  apply co_keeps_bind; [done|intros c]. apply co_keeps_bind; [done|intros _]. apply co_keeps_bind.
  { apply keeps_async_with, co_keeps_bind; [done|]. intros [tk|]; [done|apply keeps_admit_locked]. }
  intros tk. apply co_keeps_bind; [|done]. apply keeps_catch; [apply Hatt|]. intros e c'. case_match; [|done].
  intros [= <-]. apply co_keeps_bind; [apply keeps_refresh_ticket|intros tk2; apply Hatt].
Qed.

Lemma keeps_admit agent t : keeps None None (Async.client_admit agent t).
Proof. apply co_keeps_bind; [done|intros _]. apply keeps_async_with, keeps_admit_locked. Qed.
End discipline.

(** ** The event loop *)

Section loop.
Context `{World}.

(** A task between two nodes, or with a call in flight. *)
Inductive task := Running (c : co ()) | InFlight (m : method) (k : res (reply Message m) → co ()).
Definition finished (t : task) : bool := match t with Running (Return _) => true | _ => false end.

Record loop := { l_client : client; l_locks : gmap pystr nat; l_tasks : list task }.
Definition with_task (s : loop) (i : nat) (t : task) (cl : client) (locks : gmap pystr nat) : loop :=
  {| l_client := cl; l_locks := locks; l_tasks := <[i := t]> (l_tasks s) |}.

(** The answer of a call is the server's, the runtime's (a deadline, a broken channel) or a cancellation: any. *)
Inductive step (s : loop) : loop → Prop :=
| a_send i m q md t k : l_tasks s !! i = Some (Running (Call m q md t k)) →
    step s (with_task s i (InFlight m k)
      {| c_tickets := c_tickets (l_client s); c_readings := c_readings (l_client s);
         c_log := c_log (l_client s) ++ [Sent m q md t] |} (l_locks s))
| a_answer i m k r : l_tasks s !! i = Some (InFlight m k) →
    step s (with_task s i (Running (k r)) (l_client s) (l_locks s))
| a_acquire i a k : l_tasks s !! i = Some (Running (Acquire a k)) → l_locks s !! a = None →
    step s (with_task s i (Running (k (Ok ()))) (l_client s) (<[a := i]> (l_locks s)))
| a_release i a c : l_tasks s !! i = Some (Running (Release a c)) →
    step s (with_task s i (Running c) (l_client s) (delete a (l_locks s)))
| a_registry i a c : l_tasks s !! i = Some (Running (Registry a c)) →
    step s (with_task s i (Running c)
      (set_tickets (<[a := cache_of (l_client s) a]> (c_tickets (l_client s))) (l_client s)) (l_locks s))
| a_clock i k : l_tasks s !! i = Some (Running (Clock k)) →
    step s (with_task s i (Running (k (clock (c_readings (l_client s)))))
      {| c_tickets := c_tickets (l_client s); c_readings := S (c_readings (l_client s)); c_log := c_log (l_client s) |}
      (l_locks s))
| a_get i a k : l_tasks s !! i = Some (Running (GetCache a k)) →
    step s (with_task s i (Running (k (cache_of (l_client s) a))) (l_client s) (l_locks s))
| a_set i a f c : l_tasks s !! i = Some (Running (SetCache a f c)) →
    step s (with_task s i (Running c)
      (set_tickets (<[a := f (cache_of (l_client s) a)]> (c_tickets (l_client s))) (l_client s)) (l_locks s)).

(** A task that waits for a lock may be cancelled instead of getting it. *)
Inductive step_or_cancel (s : loop) : loop → Prop :=
| a_step s' : step s s' → step_or_cancel s s'
| a_cancel_wait i a k j : l_tasks s !! i = Some (Running (Acquire a k)) → l_locks s !! a = Some j →
    step_or_cancel s (with_task s i (Running (k (Raise CancelledError))) (l_client s) (l_locks s)).

Definition start (cs : list (co ())) (st : client) : loop := {| l_client := st; l_locks := ∅; l_tasks := Running <$> cs |}.

(** ** Who holds what *)

Definition task_keeps (h : option pystr) (t : task) : Prop :=
  match t with Running c => keeps h None c | InFlight _ k => ∀ r, keeps h None (k r) end.

(** [hs] is what each task holds. *)
Definition holds (hs : list (option pystr)) (s : loop) : Prop :=
  Forall2 task_keeps hs (l_tasks s) ∧ ∀ a i, l_locks s !! a = Some i ↔ hs !! i = Some (Some a).

Lemma holds_task hs s i t : holds hs s → l_tasks s !! i = Some t → ∃ h, hs !! i = Some h ∧ task_keeps h t.
Proof. intros [Hf _] Ht. destruct (Forall2_lookup_r _ _ _ _ _ Hf Ht) as (h & ? & ?). by exists h. Qed.

Lemma holds_same hs s i t t' cl : holds hs s → l_tasks s !! i = Some t → (∀ h, task_keeps h t → task_keeps h t') →
  holds hs (with_task s i t' cl (l_locks s)).
Proof.
  intros Hh Ht Hk. destruct (holds_task hs s i t Hh Ht) as (h & Hi & Hkt). destruct Hh as [Hf Hl]. split; [|done].
  cbn [with_task l_tasks]. rewrite <-(list_insert_id hs i h Hi). apply Forall2_insert; [done|by apply Hk].
Qed.

Lemma step_holds hs s s' : holds hs s → step_or_cancel s s' → ∃ hs', holds hs' s'.
Proof.
  intros Hh [s1 [i m q md t k Ht|i m k r Ht|i a k Ht Hfree|i a c Ht|i a c Ht|i k Ht|i a k Ht|i a f c Ht]|i a k j Ht Hheld].
  - exists hs. by eapply holds_same.
  - exists hs. eapply holds_same; [done|done|]. intros h Hk. apply Hk.
  - destruct (holds_task hs s i _ Hh Ht) as (h & Hi & (-> & Hk & _)). destruct Hh as [Hf Hl].
    exists (<[i := Some a]> hs). split; cbn [with_task l_tasks l_locks]; [by apply Forall2_insert|].
    intros b j. destruct (decide (b = a)) as [->|Hb].
    + rewrite lookup_insert_eq. split.
      * intros [= <-]. apply list_lookup_insert_eq. by eapply lookup_lt_Some.
      * destruct (decide (i = j)) as [->|Hij]; [done|]. rewrite list_lookup_insert_ne by done. rewrite <-Hl. congruence.
    + rewrite lookup_insert_ne, Hl by done. destruct (decide (i = j)) as [->|Hij]; [|by rewrite list_lookup_insert_ne].
      rewrite Hi, list_lookup_insert_eq by (by eapply lookup_lt_Some). split; [done|]. by intros [= ?].
  - destruct (holds_task hs s i _ Hh Ht) as (h & Hi & [-> Hk]). destruct Hh as [Hf Hl].
    exists (<[i := None]> hs). split; cbn [with_task l_tasks l_locks]; [by apply Forall2_insert|].
    intros b j. destruct (decide (b = a)) as [->|Hb].
    + rewrite lookup_delete_eq. split; [done|]. destruct (decide (i = j)) as [->|Hij].
      * by rewrite list_lookup_insert_eq by (by eapply lookup_lt_Some).
      * rewrite list_lookup_insert_ne by done. intros Hj%Hl. apply Hl in Hi. congruence.
    + rewrite lookup_delete_ne, Hl by done. destruct (decide (i = j)) as [->|Hij]; [|by rewrite list_lookup_insert_ne].
      rewrite Hi, list_lookup_insert_eq by (by eapply lookup_lt_Some). split; [by intros [= ?]|done].
  - exists hs. by eapply holds_same.
  - exists hs. eapply holds_same; [done|done|]. intros h Hk. apply Hk.
  - exists hs. eapply holds_same; [done|done|]. intros h [_ Hk]. apply Hk.
  - exists hs. eapply holds_same; [done|done|]. by intros h [_ Hk].
  - exists hs. destruct (holds_task hs s i _ Hh Ht) as (h & Hi & (-> & _)). eapply holds_same; [done|done|].
    intros h (-> & _ & Hk). apply Hk.
Qed.

Lemma start_holds cs st : Forall (keeps None None) cs → holds (replicate (length cs) None) (start cs st).
Proof.
  intros Hcs. split.
  - apply Forall2_fmap_r. induction Hcs; constructor; done.
  - intros a i. cbn [start l_locks]. rewrite lookup_empty. split; [done|]. by intros [[=] _]%lookup_replicate.
Qed.

Lemma reachable_holds cs st s : Forall (keeps None None) cs → rtc step_or_cancel (start cs st) s → ∃ hs, holds hs s.
Proof.
  intros Hcs Hr. revert Hr. apply (rtc_ind_r (λ s, ∃ hs, holds hs s)); [by eexists; apply start_holds|].
  intros s1 s2 _ Hs [hs Hh]. by eapply step_holds.
Qed.

(** ** Progress *)

(** A task that holds a lock is not at [Acquire], and one that is anywhere else can go on. *)
Lemma task_can_step s i t : l_tasks s !! i = Some t → finished t = false →
  (∃ s', step s s') ∨ ∃ a k, t = Running (Acquire a k).
Proof.
  intros Ht Hf. destruct t as [c|m k]; [destruct c|]; try done; try (left; eexists; by econstructor); by eauto.
  Unshelve. all: exact (Raise CancelledError).
Qed.

Lemma loop_progress hs s : holds hs s → forallb finished (l_tasks s) = false → ∃ s', step s s'.
Proof.
  intros Hh Hf. assert (∃ i t, l_tasks s !! i = Some t ∧ finished t = false) as (i & t & Ht & Hft).
  { clear -Hf. induction (l_tasks s) as [|x l IH]; [done|]. simpl in Hf. apply andb_false_iff in Hf as [Hx|Hx].
    - by exists 0%nat, x.
    - destruct (IH Hx) as (i & t & ? & ?). by exists (S i), t. }
  destruct (task_can_step s i t Ht Hft) as [?|(a & k & ->)]; [done|].
  destruct (l_locks s !! a) as [j|] eqn:El; [|eexists; by eapply a_acquire].
  apply (proj2 Hh) in El as Hj. destruct (Forall2_lookup_l _ _ _ _ _ (proj1 Hh) Hj) as (u & Hu & Hk).
  assert (finished u = false) as Hfu by (destruct u as [[]|]; done).
  destruct (task_can_step s j u Hu Hfu) as [?|(b & k' & ->)]; [done|]. by destruct Hk.
Qed.

(** ** Termination *)

(** [t'] is what a step makes of [t]. *)
Definition next (t' t : task) : Prop :=
  match t with
  | Running (Return _) => False
  | Running (Call m _ _ _ k) => t' = InFlight m k
  | Running (Acquire _ k) => ∃ r, t' = Running (k r)
  | Running (Release _ c) | Running (Registry _ c) | Running (SetCache _ _ c) => t' = Running c
  | Running (Clock k) => ∃ z, t' = Running (k z)
  | Running (GetCache _ k) => ∃ x, t' = Running (k x)
  | InFlight _ k => ∃ r, t' = Running (k r)
  end.

Lemma task_acc t : Acc next t.
Proof.
  assert (∀ c, Acc next (Running c)) as Hr.
  { intros c. induction c as [r|m q md t' k IH|a k IH|a c IH|a c IH|k IH|a k IH|a f c IH]; constructor; intros y Hy;
      cbn [next] in Hy; [done|subst y|destruct Hy as [? ->]; apply IH|subst y; exact IH|subst y; exact IH
      |destruct Hy as [? ->]; apply IH|destruct Hy as [? ->]; apply IH|subst y; exact IH].
    constructor. intros z [r ->]. apply IH. }
  destruct t as [c|m k]; [apply Hr|]. constructor. intros y [r ->]. apply Hr.
Qed.

Definition next_tasks (l' l : list task) : Prop := ∃ i t t', l !! i = Some t ∧ next t' t ∧ l' = <[i := t']> l.

Lemma tasks_acc l : Acc next_tasks l.
Proof.
  induction l as [|x l IH].
  { constructor. by intros l' (i & t & t' & ? & _). }
  revert l IH. induction (task_acc x) as [x _ IHx]. intros l Hl. induction Hl as [l Hl IHl].
  constructor. intros l' ([|i] & t & t' & Ht & Hn & ->).
  - injection Ht as ->. by apply IHx.
  - apply IHl. by exists i, t, t'.
Qed.

Lemma step_next s s' : step_or_cancel s s' → next_tasks (l_tasks s') (l_tasks s).
Proof. intros [? []|]; do 3 eexists; (split; [done|]); (split; [by cbn; eauto|done]). Qed.

Lemma loop_acc s : Acc (flip step_or_cancel) s.
Proof.
  remember (l_tasks s) as l eqn:E. revert s E. induction (tasks_acc l) as [l _ IH]. intros s ->. constructor.
  intros s' Hs. by apply (IH (l_tasks s') (step_next s s' Hs)).
Qed.
End loop.

(** ** The client's tasks *)

Section jobs.
Context `{Ed25519} `{AuthorizeVerdictEnum} `{World} (bound : option Agent).

Inductive job :=
| JVerb (v : verb) (cred : option Agent) (t : seconds)
| JAuthorize (agent : Agent) (a : authorize_args) (t : seconds)
| JAdmit (agent : Agent) (t : seconds).
Definition job_co (j : job) : co () :=
  match j with
  | JVerb v cred t => (λ _, ()) <$> Async.run_verb bound v cred t
  | JAuthorize agent a t => (λ _, ()) <$> Async.authorize agent a t
  | JAdmit agent t => (λ _, ()) <$> Async.client_admit agent t
  end.

Lemma jobs_keep js : Forall (keeps None None) (job_co <$> js).
Proof.
  apply Forall_fmap, Forall_true. intros [v cred t|agent a t|agent t]; apply co_keeps_fmap;
    [apply keeps_run_verb|apply keeps_authorize|apply keeps_admit].
Qed.

Definition touches (t : task) (a : pystr) : Prop :=
  match t with Running (GetCache b _) | Running (SetCache b _ _) => b = a | _ => False end.

(** C10. The locks of the async client over every schedule: however its verbs, authorizations and admissions interleave,
    with every call answered in any way and any task cancelled at any await, a task touches a ticket cache only
    while it holds that identity's lock, so no two tasks are at the same cache; every lock is held by a task
    that has not ended; and a task that has ended, by a cancellation as well, holds none. *)
Theorem aio_locks_kept js st s :
  rtc step_or_cancel (start (job_co <$> js) st) s →
  (∀ i t a, l_tasks s !! i = Some t → touches t a → l_locks s !! a = Some i) ∧
  (∀ i j t u a, l_tasks s !! i = Some t → l_tasks s !! j = Some u → touches t a → touches u a → i = j) ∧
  (∀ i a, l_locks s !! a = Some i → ∃ t, l_tasks s !! i = Some t ∧ finished t = false).
Proof.
  intros [hs Hh]%reachable_holds; [|apply jobs_keep].
  assert (∀ i t a, l_tasks s !! i = Some t → touches t a → l_locks s !! a = Some i) as Ht.
  { intros i t a Hi Ha. destruct (holds_task hs s i t Hh Hi) as (h & Hh' & Hk). apply (proj2 Hh).
    destruct t as [[]|]; try done; cbn in Ha, Hk; destruct Hk as [-> _]; by subst. }
  split; [done|]. split.
  - intros i j t u a Hi Hj Ha Hb. apply (Ht i t a) in Ha; [|done]. apply (Ht j u a) in Hb; [|done]. congruence.
  - intros i a Hl%(proj2 Hh). destruct (Forall2_lookup_l _ _ _ _ _ (proj1 Hh) Hl) as (t & Hi & Hk). exists t.
    split; [done|]. by destruct t as [[]|].
Qed.

(** C11. Every schedule of the async client ends, with every task done: there is no infinite run, and a state from which
    no step is possible other than cancelling a waiter is one where all tasks have ended. So no task waits
    forever, whatever the answers, the order and the cancellations. *)
Theorem aio_always_ends js st s :
  rtc step_or_cancel (start (job_co <$> js) st) s →
  Acc (flip step_or_cancel) s ∧ ((∀ s', ¬ step s s') → forallb finished (l_tasks s) = true).
Proof.
  intros [hs Hh]%reachable_holds; [|apply jobs_keep]. split; [apply loop_acc|]. intros Hstuck.
  destruct (forallb finished (l_tasks s)) eqn:Ef; [done|]. destruct (loop_progress hs s Hh Ef) as [s' Hs]. by apply Hstuck in Hs.
Qed.
End jobs.

(** ** Cancellation and the caches

    One task among others, seen from one identity [a]: at an await the others may have changed anything but the cache of
    [a] while the task holds its lock, and the await ends in any way. *)

Section cancellation.
Context `{Ed25519} `{World} (a : pystr).

Definition rely (held : bool) (st st1 : client) : Prop := held = true → cache_of st1 a = cache_of st a.

(** However the awaits of [c] end, it ends in [Q]: whether the lock of [a] is held then, the cache of [a] as it was
    when the lock was last taken, if it was, the outcome and the client. *)
Fixpoint always {A} (held : bool) (taken : option TicketCache) (c : co A)
    (Q : bool → option TicketCache → res A → client → Prop) (st : client) : Prop :=
  match c with
  | Return r => Q held taken r st
  | Call _ _ _ _ k => ∀ ans st1, rely held st st1 → always held taken (k ans) Q st1
  | Acquire b k =>
    ∀ st1, rely held st st1 →
      always (if decide (b = a) then true else held) (if decide (b = a) then Some (cache_of st1 a) else taken)
        (k (Ok ())) Q st1 ∧
      always held taken (k (Raise CancelledError)) Q st1
  | Release b c => always (if decide (b = a) then false else held) taken c Q st
  | Registry b c => always held taken c Q (set_tickets (<[b := cache_of st b]> (c_tickets st)) st)
  | Clock k => ∀ z, always held taken (k z) Q st
  | GetCache b k => always held taken (k (cache_of st b)) Q st
  | SetCache b f c => always held taken c Q (set_tickets (<[b := f (cache_of st b)]> (c_tickets st)) st)
  end.

Lemma always_weaken {A} held taken (c : co A) Q R st :
  always held taken c Q st → (∀ h g r st, Q h g r st → R h g r st) → always held taken c R st.
Proof.
  intros Hc HQ. revert held taken st Hc.
  induction c as [r|m q md t k IH|b k IH|b c IH|b c IH|k IH|b k IH|b f c IH]; intros held taken st; cbn [always]; auto.
  intros Hc st1 Hr. destruct (Hc st1 Hr). by split; apply IH.
Qed.

Lemma always_then {A B} held taken (c : co A) (k : res A → co B) Q st :
  always held taken c (λ h g r st1, always h g (k r) Q st1) st → always held taken (co_then c k) Q st.
Proof.
  revert held taken st.
  induction c as [r|m q md t k' IH|b k' IH|b c IH|b c IH|k' IH|b k' IH|b f c IH]; intros held taken st;
    cbn [always co_then]; auto.
  intros Hc st1 Hr. destruct (Hc st1 Hr). by split; apply IH.
Qed.

Lemma always_bind {A B} held taken (c : co A) (k : A → co B) Q st :
  always held taken c (λ h g r st1, match r with Ok x => always h g (k x) Q st1 | Raise e => Q h g (Raise e) st1 end) st →
  always held taken (c ≫= k) Q st.
Proof. intros Hc. apply always_then. eapply always_weaken; [done|]. by intros h g [x|e] st1. Qed.

(** The handshake under the lock: the cache is as it was until the new ticket is stored in one step. *)
Lemma always_admit_locked agent t taken st : aid agent = a →
  always true taken (Async._admit_locked agent t)
    (λ h g r st', h = true ∧ g = taken ∧
       match r with
       | Ok tk => ∃ e n, cache_of st' a = tc_store (cache_of st a) tk e n
       | Raise _ => cache_of st' a = cache_of st a
       end) st.
Proof.
  intros Ha. unfold Async._admit_locked, Async._presentation. do 2 apply always_bind. intros [ch|x] st1 Hr1;
    specialize (Hr1 eq_refl); cbn [always mapped_call].
  2: { by destruct (is_rpc_error x). }
  apply always_bind. intros z. apply always_bind. cbn [always]. destruct (build_presentation _ _ _ _) as [p|x]; cbn [always co_lift]; [|done].
  apply always_bind. intros [tk|x] st2 Hr2; specialize (Hr2 eq_refl); cbn [always mapped_call].
  2: { destruct (is_rpc_error x); rewrite Hr2, Hr1; by split_and!. }
  apply always_bind. intros n. cbn [always]. split_and!; [done..|]. rewrite Ha, Hr2, Hr1.
  rewrite cache_of_insert. by eauto.
Qed.

(** Taking the lock of [a], after registering its cache. *)
Lemma always_locked {A} (c : co A) Q st :
  (∀ st1, always true (Some (cache_of st1 a)) c (λ _ g r st', Q false g r st') st1) →
  (∀ st1, Q false None (Raise CancelledError) st1) →
  always false None (_ ← Async._cache_and_lock a; async_with a c) Q st.
Proof.
  intros Hc Hx. apply always_bind. cbn [always Async._cache_and_lock mret co_ret async_with].
  intros st1 _. rewrite !decide_True by done. split; [|done]. apply always_then.
  eapply always_weaken; [apply Hc|]. intros h g r st' HQ. cbn [always]. by rewrite decide_True.
Qed.

Lemma always_cache_get {A} taken (k : option bytes → co A) Q st :
  (∀ z, always true taken (k (tc_get (cache_of st a) z)) Q st) → always true taken (o ← Async.cache_get a; k o) Q st.
Proof. intros Hk. apply always_bind. cbn. intros z. apply Hk. Qed.
End cancellation.

(** C12. A cancelled or failed admission leaves the cache consistent: however the awaits of [admit] and of
    [_refresh_ticket] end, with a cancellation as well, and whatever other tasks do meanwhile, the lock is given back;
    [admit] leaves the cache exactly as it found it under the lock, or with the new ticket stored in one step;
    and a refresh that got the lock and does not return a ticket leaves the cache empty, so that the rejected
    ticket is never served again, while one that returns leaves the other task's newer ticket in place or the
    one it was admitted with. *)
Theorem aio_cancel_consistent `{Ed25519} `{World} agent failed t st :
  always (aid agent) false None (Async.client_admit agent t)
    (λ held taken r st', held = false ∧
       match taken, r with
       | Some c, Ok tk => ∃ e n, cache_of st' (aid agent) = tc_store c tk e n
       | Some c, Raise _ => cache_of st' (aid agent) = c
       | None, r => r = Raise CancelledError
       end) st ∧
  always (aid agent) false None (Async._refresh_ticket agent failed t)
    (λ held taken r st', held = false ∧
       match taken, r with
       | Some c, Ok tk =>
         cache_of st' (aid agent) = c ∧ tk ≠ failed ∧ (∃ now, tc_get c now = Some tk) ∨
         ∃ e n, cache_of st' (aid agent) = tc_store (tc_invalidate c) tk e n
       | Some c, Raise _ => ∀ now, tc_get (cache_of st' (aid agent)) now = None
       | None, r => r = Raise CancelledError
       end) st.
Proof.
  split; apply always_locked; try (by intros st1; split); intros st1.
  - eapply always_weaken; [by apply always_admit_locked|]. intros h g r st' (_ & -> & Hr). split; [done|]. by destruct r.
  - apply always_cache_get. intros z.
    assert (always (aid agent) true (Some (cache_of st1 (aid agent)))
      (SetCache (aid agent) tc_invalidate (Async._admit_locked agent t))
      (λ _ g r st', false = false ∧
         match g, r with
         | Some c, Ok tk =>
           cache_of st' (aid agent) = c ∧ tk ≠ failed ∧ (∃ now, tc_get c now = Some tk) ∨
           ∃ e n, cache_of st' (aid agent) = tc_store (tc_invalidate c) tk e n
         | Some c, Raise _ => ∀ now, tc_get (cache_of st' (aid agent)) now = None
         | None, r => r = Raise CancelledError
         end) st1) as Hre.
    { cbn [always]. eapply always_weaken; [by apply always_admit_locked|]. intros h g r st' (_ & -> & Hr).
      rewrite cache_of_insert in Hr. split; [done|]. destruct r; [by right|]. intros now. by rewrite Hr. }
    destruct (tc_get (cache_of st1 (aid agent)) z) as [current|] eqn:Eg; [case_decide as Hd|]; [|exact Hre..].
    cbn [always mret co_ret]. split; [done|]. left. split_and!; [done|done|by eexists].
Qed.

(** ** The theorems at two tasks of one identity *)

Definition sample_jobs : list job := [JVerb vote_verb (Some voter) sample_timeout; JAdmit voter sample_timeout].
Definition sample_cos : list (@co sample_world ()) := @job_co toy_ed25519 sample_enum sample_world None <$> sample_jobs.

(** The first task has taken the lock of its identity and is about to look at the cache. *)
Lemma aio_locks_kept_witness : ∃ s t, rtc (@step_or_cancel sample_world) (@start sample_world sample_cos new_client) s ∧
  l_tasks s !! 0%nat = Some t ∧ touches t (@aid toy_ed25519 voter) ∧ l_locks s !! (@aid toy_ed25519 voter) = Some 0%nat.
Proof.
  assert (∃ s t, rtc (@step_or_cancel sample_world) (@start sample_world sample_cos new_client) s ∧
    l_tasks s !! 0%nat = Some t ∧ touches t (@aid toy_ed25519 voter)) as (s & t & Hr & Ht & Ha).
  { do 2 eexists. split.
    - eapply rtc_l; [apply a_step; by eapply (a_registry _ 0)|]. eapply rtc_l; [apply a_step; by eapply (a_acquire _ 0)|].
      eapply rtc_l; [apply a_step; by eapply (a_clock _ 0)|]. apply rtc_refl.
    - split; reflexivity. }
  exists s, t. split; [exact Hr|]. split; [exact Ht|]. split; [exact Ha|].
  exact (proj1 (@aio_locks_kept toy_ed25519 sample_enum sample_world None sample_jobs new_client s Hr) 0%nat t _ Ht Ha).
Defined.

Lemma aio_always_ends_witness : Acc (flip (@step_or_cancel sample_world)) (@start sample_world sample_cos new_client).
Proof.
  apply (@aio_always_ends toy_ed25519 sample_enum sample_world None sample_jobs new_client
    (@start sample_world sample_cos new_client)). apply rtc_refl.
Defined.
