(* ===== verification/Package.v ===== *)
(** * Package: how the package is imported ([seam_sdk/__init__.py] and the top level of every module)

    The modules import one another, [__init__] imports them all, and importing any of them imports [__init__] first;
    so every import happens while some module is half executed. The top-level statements of every module are data
    ([stmt], in their order) and [import_module] is Python's import system over them: [sys.modules], the parent package
    first, a name looked up in a module that may be unfinished, a failed module taken out again. Two modules are
    loaded by other repositories as single files, without the package ([standalone]). *)

From stdpp Require Import base list option gmap sets strings.
From S2P Require Import Prelude Script.

Local Open Scope string_scope.

(** ** Top-level statements *)

Inductive stmt :=
| Std (names : list string)                    (** imports of the standard library *)
| Third (package : string) (names : list string) (** imports of an installed package *)
| Gen (names : list string)                    (** imports of the generated [seam_sdk._gen] *)
| From (module : string) (names : list string) (** [from .module import names] *)
| Sub (module name : string)                   (** [from . import module as name] *)
| Defs (names : list string)                   (** definitions that read no name of the module as they run *)
| Uses (name : string) (names : list string)   (** a definition whose bases, decorators, defaults or value read [names] *)
| Dataclass (name : string).                   (** a class under [@dataclass] *)

(** ** The modules *)

Definition init_body : list stmt := [
  Sub "aio" "aio";
  From "_authorize" ["AuthorizeResult"; "canonicalize_tool_input"];
  From "_collective" ["CollectiveOutcome"; "collective_outcome_of"];
  From "_policy" ["PolicyEnforcement"; "policy_enforcement_of"];
  From "_seal" ["SealAttestation"; "seal_attestation_of"];
  From "admin" ["DEFAULT_ADMIN_TIMEOUT_S"; "ENROLMENT_KIND_AGENT"; "ENROLMENT_KIND_CHANGESET_WORKER";
    "ENROLMENT_KIND_OUTCOME_REPORTER"; "ENROLMENT_KINDS"; "KNOWN_KINDS"; "SeamAdminClient";
    "verify_streamed_record_digest"];
  Gen ["BallotChoice"];
  From "client" ["DEFAULT_TIMEOUT_S"; "Agent"; "BudgetLimits"; "SeamClient"; "StepUsage"];
  From "crypto" ["aid_from_pubkey"; "build_presentation"; "call_sig"; "call_sig_payload"; "call_sig_v3";
    "call_sig_v3_payload"; "EnrollProof"; "enroll_pop"; "enroll_pop_payload"; "explanation_digest";
    "jcs_canonicalize"; "record_digest_v4"; "participants_digest_v4"; "context_digest_v4"; "ContextProvenanceError";
    "RECEIPT_KEY_STATUSES"; "derived_uuid"; "pop_message_id"; "RecordDigestStripError";
    "UnsupportedRecordDigestVersion"; "tool_input_digest"; "verify_chain_head_attestation";
    "verify_chain_head_attestation_message"; "verify_tct"];
  From "ids" ["DecisionId"; "InvalidDecisionIdError"; "InvalidSessionIdError"; "decision_id_for_session";
    "is_valid_session_id"; "parse_decision_id"; "validate_session_id"];
  From "identity" ["IdentityFacts"; "IdentityFileError"; "LoadedIdentity"; "create_identity_file";
    "load_identity_facts"; "load_identity_file"];
  From "errors" ["AlreadyExistsError"; "CanonicalizationError"; "DeadlineExceededError";
    "FailedPreconditionError"; "InternalError"; "InvalidArgumentError"; "IssuerMismatchError"; "NotFoundError";
    "PermissionDeniedError"; "ProtocolViolationError"; "ResourceExhaustedError"; "SeamError"; "SeamRpcError";
    "UnauthenticatedError"; "UnavailableError"; "UnimplementedError"; "UnknownCollectiveVerdictError";
    "UnknownVerdictError"; "SESSION_UNAVAILABLE_REASON"; "TENANT_MOVING_REASON"; "WRONG_CELL_REASON";
    "is_retryable"; "is_session_unavailable"; "is_tenant_moving"; "is_wrong_cell"; "map_rpc_error"];
  From "dpop" ["DEFAULT_OPERATOR_AUD"; "MGMT_DPOP_MAX_BODY_BYTES"; "MGMT_DPOP_MAX_IAT"; "MGMT_DPOP_MAX_JTI_BYTES";
    "MGMT_DPOP_MAX_PROOF_BYTES"; "DpopError"; "DpopKeyError"; "OperatorDpopKey"; "mgmt_dpop_grpc_htu";
    "mgmt_dpop_http_headers"; "mgmt_dpop_http_htu"; "mgmt_dpop_proof"; "new_mgmt_dpop_jti"];
  From "_outcome" ["OUTCOME_METRICS_MAX"; "WIRE_FEATURE_ENROLL_KIND"; "WIRE_FEATURE_OUTCOME_OBSERVED_AT";
    "WIRE_FEATURE_OUTCOME_REWARD_METRICS"];
  From "tenant" ["TENANT_HEADER"; "AioTenantInterceptor"; "TenantInterceptor"];
  From "retry" ["DEFAULT_RETRY_BUDGET_S"; "with_session_retry"; "with_session_retry_async"]].

Definition _authorize_body : list stmt := [
  Std ["annotations"; "dataclass"; "Mapping"; "Optional"; "Sequence"];
  Gen ["pb"];
  From "crypto" ["call_sig_v3"; "jcs_canonicalize"; "request_sig"; "tool_input_digest"];
  From "errors" ["CanonicalizationError"; "ProtocolViolationError"; "UnknownVerdictError"];
  Uses "_VERDICT_NAMES" ["pb"];
  Dataclass "AuthorizeResult";
  Defs ["result_of"; "TicketCache"; "canonicalize_tool_input"; "_resolve_canonical"; "build_authorize_request";
    "credential_metadata"]].

Definition _collective_body : list stmt := [
  Std ["annotations"; "dataclass"; "Optional"; "Union"];
  Gen ["pb"];
  From "errors" ["UnknownCollectiveVerdictError"];
  Uses "_VERDICT_NAMES" ["pb"];
  Dataclass "CollectiveOutcome";
  Defs ["collective_outcome_of"; "_decode_collective"]].

Definition _outcome_body : list stmt := [
  Std ["annotations"; "math"; "re"; "datetime"; "timezone"; "Dict"; "Mapping"; "Optional"; "Tuple"; "Union"];
  Defs ["WIRE_FEATURE_ENROLL_KIND"; "WIRE_FEATURE_OUTCOME_REWARD_METRICS"; "WIRE_FEATURE_OUTCOME_OBSERVED_AT";
    "OUTCOME_METRICS_MAX"];
  Uses "_METRIC_KEY" ["re"];
  Defs ["_U64_MAX"];
  Uses "_EPOCH" ["datetime"; "timezone"];
  Uses "ObservedAt" ["Union"; "datetime"];
  Defs ["_finite"; "_observed_at_millis"; "check_outcome_fields"]].

Definition _policy_body : list stmt := [
  Std ["annotations"; "dataclass"; "Optional"; "Union"];
  Gen ["pb"];
  Dataclass "PolicyEnforcement";
  Defs ["policy_enforcement_of"]].

Definition _seal_body : list stmt := [
  Std ["annotations"; "dataclass"; "Optional"];
  Gen ["pb"];
  From "_collective" ["CollectiveOutcome"; "_decode_collective"];
  Uses "_AVAILABILITY_NAMES" ["pb"];
  Uses "_REASON_NAMES" ["pb"];
  Defs ["_UNRECOGNIZED"];
  Dataclass "SealAttestation";
  Defs ["seal_attestation_of"]].

Definition admin_body : list stmt := [
  Std ["annotations"; "collections"; "Callable"; "Iterator"; "Optional"; "Sequence"];
  Third "grpc" ["grpc"];
  Gen ["pb"];
  Gen ["rpc"];
  Gen ["ev"];
  Sub "client" "_client";
  From "errors" ["_MappedStub"; "map_rpc_error"];
  From "crypto" ["EnrollProof"; "UnsupportedRecordDigestVersion"; "_uint_slot"; "record_digest_v4";
    "validate_enroll_pop_nonce"];
  From "dpop" ["DEFAULT_OPERATOR_AUD"; "Clock"; "DpopError"; "DpopKeyError"; "OperatorDpopKey";
    "_peek_token_claims"; "_token_cnf_jkt"; "mgmt_dpop_grpc_htu"; "mgmt_dpop_proof"];
  Defs ["DEFAULT_ADMIN_TIMEOUT_S"; "__all__"; "ENROLMENT_KIND_AGENT"; "ENROLMENT_KIND_OUTCOME_REPORTER";
    "ENROLMENT_KIND_CHANGESET_WORKER"];
  Uses "ENROLMENT_KINDS" ["ENROLMENT_KIND_AGENT"; "ENROLMENT_KIND_OUTCOME_REPORTER";
    "ENROLMENT_KIND_CHANGESET_WORKER"];
  Defs ["KNOWN_KINDS"; "verify_streamed_record_digest"];
  Uses "_ClientCallDetails" ["collections"; "grpc"];
  Defs ["_tenant_metadata"; "_require_stream_id"];
  Uses "_BearerAuthInterceptor" ["grpc"];
  Uses "_DpopAuthInterceptor" ["grpc"];
  Defs ["_resolve_operator_aud"; "_management_auth"; "EventStream"];
  Uses "SeamAdminClient" ["DEFAULT_ADMIN_TIMEOUT_S"];
  Defs ["_enroll_pop_pb"]].

Definition aio_body : list stmt := [
  Std ["annotations"; "asyncio"; "json"; "warnings"; "Awaitable"; "Callable"; "Mapping"; "Optional"; "Sequence";
    "TypeVar"];
  Third "grpc" ["grpc"];
  Third "grpc" ["grpc"];
  From "_authorize" ["AuthorizeResult"; "TicketCache"; "_resolve_canonical"; "build_authorize_request";
    "credential_metadata"; "result_of"];
  From "client" ["DEFAULT_TIMEOUT_S"; "Agent"; "BudgetLimits"; "StepUsage"; "_check_idempotency_key";
    "_set_outcome_fields"; "_now_ms"; "_submit_retry_doc"; "_vote_messages"; "commitment_view"; "_u32";
    "_REPLAY_GUARDED"];
  From "crypto" ["build_presentation"; "verify_tct"];
  From "errors" ["FailedPreconditionError"; "IssuerMismatchError"; "UnauthenticatedError"; "UnavailableError";
    "is_session_unavailable"; "is_tenant_moving"; "map_rpc_error"];
  From "_outcome" ["ObservedAt"];
  From "tenant" ["AioTenantInterceptor"];
  Gen ["pb"];
  Gen ["rpc"];
  Gen ["ev"];
  Uses "_T" ["TypeVar"];
  Defs ["_MappedStream"; "_AioMappedStub"];
  Uses "SeamClient" ["DEFAULT_TIMEOUT_S"; "_submit_retry_doc"]].

Definition client_body : list stmt := [
  Std ["annotations"; "json"; "secrets"; "threading"; "warnings"; "dataclass"; "Callable"; "Dict"; "Mapping";
    "Optional"; "Sequence"; "TypeVar"];
  Third "grpc" ["grpc"];
  Third "cryptography" ["Ed25519PrivateKey"];
  From "_authorize" ["AuthorizeResult"; "TicketCache"; "_resolve_canonical"; "build_authorize_request";
    "credential_metadata"; "result_of"];
  From "crypto" ["EnrollProof"; "aid_from_pubkey"; "build_presentation"; "enroll_pop"; "new_enroll_pop_nonce";
    "verify_tct"];
  From "errors" ["FailedPreconditionError"; "IssuerMismatchError"; "SeamError"; "UnauthenticatedError";
    "UnavailableError"; "_MappedStub"; "is_session_unavailable"; "is_tenant_moving"];
  From "_outcome" ["ObservedAt"; "check_outcome_fields"];
  From "tenant" ["TenantInterceptor"];
  Gen ["pb"];
  Gen ["rpc"];
  Gen ["ev"];
  Uses "_T" ["TypeVar"];
  Defs ["_REPLAY_GUARDED"; "_vote_messages"; "_now_ms"; "DEFAULT_TIMEOUT_S"; "_SUBMIT_RETRY_NOTE";
    "_submit_retry_doc"; "Agent"];
  Dataclass "BudgetLimits";
  Dataclass "StepUsage";
  Defs ["_u32"];
  Uses "SeamClient" ["DEFAULT_TIMEOUT_S"; "_submit_retry_doc"];
  Uses "_EXPLANATION_KIND_WORDS" ["pb"];
  Defs ["commitment_view"; "_set_outcome_fields"; "_check_idempotency_key"]].

Definition crypto_body : list stmt := [
  Std ["annotations"; "base64"; "hashlib"; "struct"; "uuid"; "json"; "time"; "Any"; "_NamedTuple"];
  Third "cryptography" ["Ed25519PrivateKey"; "Ed25519PublicKey"];
  Defs ["_PROOF_DOMAIN"; "_b64url_nopad"; "_b64url_decode"; "aid_from_pubkey"; "derived_uuid";
    "POP_MESSAGE_ID_TAG"; "pop_message_id"; "build_presentation"; "_aid_to_pubkey"; "EXPLANATION_KINDS";
    "_be64_frame"; "explanation_digest"; "_commitment_explanation_digest"; "_seam_commitment_digest";
    "COMMITMENT_EXT_KEY"; "ATTESTATION_GRANT"; "_no_duplicate_keys"; "verify_tct"; "_JCS_ESCAPES"; "_MAX_SAFE_INT";
    "_jcs_string"; "_jcs_number"; "_jcs_int"; "_jcs_write"; "jcs_canonicalize"; "tool_input_digest";
    "CALL_SIG_CONTEXT"; "call_sig_payload"; "call_sig"; "REQUEST_SIG_CONTEXT"; "request_sig_payload"; "request_sig";
    "_frame"; "_SUB_DIGEST_LEN"; "RecordDigestStripError"; "_as_bytes"; "_sub_digest"; "_rd_enc"; "_rd_opt_text";
    "_rd_text"; "_mandatory_text"; "_uint_slot"; "_require_int"; "_opt_bytes"; "PARTICIPANTS_DIGEST_DOMAIN_V4";
    "RECORD_DIGEST_SCHEMA_VERSION"; "UnsupportedRecordDigestVersion"; "participants_digest_v4"; "record_digest_v4";
    "CHAIN_HEAD_ATTESTATION_DOMAIN_V1"; "CHAIN_HEAD_ATTESTATION_DOMAIN_V2"; "_chain_head_attestation_digest";
    "verify_chain_head_attestation"; "verify_chain_head_attestation_message"; "CALL_SIG_V3_CONTEXT"; "_frame";
    "call_sig_v3_payload"; "call_sig_v3"; "ENROLL_POP_V1_CONTEXT"; "ENROLL_POP_NONCE_MAX_LEN";
    "_ENROLL_POP_NONCE_CHARS"; "validate_enroll_pop_nonce"; "new_enroll_pop_nonce"; "enroll_pop_payload"];
  Uses "EnrollProof" ["_NamedTuple"];
  Defs ["enroll_pop"; "verify_enroll_pop"; "CONTEXT_PROVENANCE_DOMAIN_V4"; "RECEIPT_KEY_STATUSES";
    "ContextProvenanceError"; "_CTX_TEXT"; "_CTX_OPT_TAIL"; "_ctx_get"; "context_digest_v4"]].

Definition dpop_body : list stmt := [
  Std ["annotations"; "base64"; "hashlib"; "json"; "re"; "secrets"; "time"; "Callable"; "Mapping"; "Any"];
  Third "cryptography" ["Ed25519PrivateKey"];
  Defs ["__all__"; "DEFAULT_OPERATOR_AUD"; "MGMT_DPOP_MAX_PROOF_BYTES"; "MGMT_DPOP_MAX_BODY_BYTES";
    "MGMT_DPOP_MAX_JTI_BYTES"; "MGMT_DPOP_MAX_IAT"];
  Uses "_B64URL" ["re"];
  Uses "_TOKEN_CHARS" ["re"];
  Uses "_PRINTABLE" ["re"];
  Uses "_METHOD" ["re"];
  Defs ["DpopError"];
  Uses "DpopKeyError" ["DpopError"];
  Defs ["_b64url"; "_b64url_32"; "_sha256_b64url"; "_json"; "OperatorDpopKey"; "new_mgmt_dpop_jti";
    "_check_token"; "mgmt_dpop_proof"];
  Uses "mgmt_dpop_grpc_htu" ["DEFAULT_OPERATOR_AUD"];
  Defs ["mgmt_dpop_http_htu"; "mgmt_dpop_http_headers"; "_peek_token_claims"; "_token_cnf_jkt"];
  Uses "Clock" ["Callable"]].

Definition errors_body : list stmt := [
  Std ["annotations"];
  Third "grpc" ["grpc"];
  Defs ["SeamError"];
  Uses "CanonicalizationError" ["SeamError"];
  Uses "IssuerMismatchError" ["SeamError"];
  Uses "UnknownVerdictError" ["SeamError"];
  Uses "UnknownCollectiveVerdictError" ["SeamError"];
  Uses "ProtocolViolationError" ["SeamError"];
  Defs ["_normalized_trailing_metadata"];
  Uses "SeamRpcError" ["SeamError"; "grpc"];
  Defs ["SEAM_ERROR_DOMAIN"; "PROTOCOL_REASON"; "SESSION_UNAVAILABLE_REASON"; "WRONG_CELL_REASON";
    "TENANT_MOVING_REASON"; "_STATUS_DETAILS_KEY"; "_ERROR_INFO_TYPE"; "_RETRY_INFO_TYPE"; "_Truncated"; "_varint";
    "_fields"; "_status_details"; "_decode_error_info"; "_decode_retry_delay"];
  Uses "InvalidArgumentError" ["SeamRpcError"];
  Uses "FailedPreconditionError" ["SeamRpcError"];
  Uses "PermissionDeniedError" ["SeamRpcError"];
  Uses "UnauthenticatedError" ["SeamRpcError"];
  Uses "NotFoundError" ["SeamRpcError"];
  Uses "AlreadyExistsError" ["SeamRpcError"];
  Uses "ResourceExhaustedError" ["SeamRpcError"];
  Uses "UnavailableError" ["SeamRpcError"];
  Defs ["is_session_unavailable"; "is_wrong_cell"; "is_tenant_moving"; "is_retryable"];
  Uses "DeadlineExceededError" ["SeamRpcError"];
  Uses "UnimplementedError" ["SeamRpcError"];
  Uses "InternalError" ["SeamRpcError"];
  Uses "_BY_CODE" ["grpc"; "InvalidArgumentError"; "FailedPreconditionError"; "PermissionDeniedError";
    "UnauthenticatedError"; "NotFoundError"; "AlreadyExistsError"; "ResourceExhaustedError"; "UnavailableError";
    "DeadlineExceededError"; "UnimplementedError"; "InternalError"];
  Defs ["map_rpc_error"; "_MappedStub"]].

Definition identity_body : list stmt := [
  Std ["annotations"; "errno"; "json"; "os"; "re"; "secrets"; "dataclass"; "Optional"; "Tuple"; "Union"];
  Third "cryptography" ["Ed25519PrivateKey"];
  From "client" ["Agent"];
  From "crypto" ["aid_from_pubkey"];
  Defs ["ENV_POINTER"; "SCHEMA_VERSION"];
  Uses "_AID_RE" ["re"];
  Uses "_SEED_HEX_RE" ["re"];
  Defs ["_SEED_LEN_MESSAGE"];
  Uses "PathLike" ["Union"];
  Defs ["IdentityFileError"];
  Dataclass "LoadedIdentity";
  Dataclass "IdentityFacts";
  Defs ["load_identity_file"; "load_identity_facts"; "_read_and_validate"; "_decode_seed"; "_derive_aid";
    "create_identity_file"; "_identity_file_body"; "_fsync_dir"]].

Definition ids_body : list stmt := [
  Std ["annotations"; "re"; "NamedTuple"];
  Defs ["__all__"; "DECISION_ID_PREFIX"; "SESSION_ID_MAX_BYTES"; "SESSION_ID_TOKEN_MIN_LEN"];
  Uses "_TOKEN" ["re"];
  Uses "_TENANT" ["re"];
  Uses "_UUID_SHAPE" ["re"];
  Uses "_CANONICAL_UUID_V4_V7" ["re"];
  Defs ["InvalidSessionIdError"; "InvalidDecisionIdError"];
  Uses "DecisionId" ["NamedTuple"];
  Defs ["_session_refusal"; "validate_session_id"; "is_valid_session_id"; "_check_tenant";
    "decision_id_for_session"; "parse_decision_id"]].

Definition retry_body : list stmt := [
  Std ["annotations"; "asyncio"; "random"; "time"; "Awaitable"; "Callable"; "Optional"; "TypeVar"];
  From "errors" ["SeamRpcError"; "is_retryable"];
  Uses "T" ["TypeVar"];
  Defs ["DEFAULT_RETRY_BUDGET_S"; "DEFAULT_RETRY_BASE_DELAY_S"; "DEFAULT_RETRY_MAX_DELAY_S";
    "DEFAULT_RETRY_MAX_ATTEMPTS"; "_next_delay"];
  Uses "with_session_retry" ["DEFAULT_RETRY_BUDGET_S"; "DEFAULT_RETRY_BASE_DELAY_S"; "DEFAULT_RETRY_MAX_DELAY_S";
    "DEFAULT_RETRY_MAX_ATTEMPTS"; "time"; "random"];
  Uses "with_session_retry_async" ["DEFAULT_RETRY_BUDGET_S"; "DEFAULT_RETRY_BASE_DELAY_S";
    "DEFAULT_RETRY_MAX_DELAY_S"; "DEFAULT_RETRY_MAX_ATTEMPTS"; "asyncio"; "random"]].

Definition tenant_body : list stmt := [
  Std ["annotations"; "collections"];
  Third "grpc" ["grpc"];
  Defs ["TENANT_HEADER"];
  Uses "_CallDetails" ["collections"; "grpc"];
  Defs ["_require_tenant"; "_with_tenant"];
  Uses "TenantInterceptor" ["grpc"];
  Uses "AioTenantInterceptor" ["grpc"]].

(** The names [from seam_sdk import *] gives. *)
Definition __all__ : list string :=
  ["Agent"; "DEFAULT_OPERATOR_AUD"; "MGMT_DPOP_MAX_BODY_BYTES"; "MGMT_DPOP_MAX_IAT"; "MGMT_DPOP_MAX_JTI_BYTES";
   "MGMT_DPOP_MAX_PROOF_BYTES"; "DpopError"; "DpopKeyError"; "OperatorDpopKey"; "mgmt_dpop_grpc_htu";
   "mgmt_dpop_http_headers"; "mgmt_dpop_http_htu"; "mgmt_dpop_proof"; "new_mgmt_dpop_jti"; "create_identity_file";
   "load_identity_file"; "load_identity_facts"; "LoadedIdentity"; "IdentityFacts"; "IdentityFileError";
   "SeamClient"; "SeamAdminClient"; "BudgetLimits"; "StepUsage"; "BallotChoice"; "aio"; "aid_from_pubkey";
   "build_presentation"; "verify_tct"; "explanation_digest"; "AuthorizeResult"; "canonicalize_tool_input";
   "CollectiveOutcome"; "collective_outcome_of"; "PolicyEnforcement"; "policy_enforcement_of"; "SealAttestation";
   "seal_attestation_of"; "DEFAULT_TIMEOUT_S"; "DEFAULT_ADMIN_TIMEOUT_S"; "jcs_canonicalize"; "tool_input_digest";
   "call_sig"; "call_sig_payload"; "call_sig_v3"; "call_sig_v3_payload"; "EnrollProof"; "enroll_pop";
   "enroll_pop_payload"; "ENROLMENT_KIND_AGENT"; "ENROLMENT_KIND_CHANGESET_WORKER";
   "ENROLMENT_KIND_OUTCOME_REPORTER"; "ENROLMENT_KINDS"; "WIRE_FEATURE_ENROLL_KIND";
   "WIRE_FEATURE_OUTCOME_OBSERVED_AT"; "WIRE_FEATURE_OUTCOME_REWARD_METRICS"; "OUTCOME_METRICS_MAX"; "KNOWN_KINDS";
   "verify_streamed_record_digest"; "record_digest_v4"; "participants_digest_v4"; "context_digest_v4";
   "ContextProvenanceError"; "RECEIPT_KEY_STATUSES"; "derived_uuid"; "pop_message_id"; "RecordDigestStripError";
   "UnsupportedRecordDigestVersion"; "DecisionId"; "InvalidDecisionIdError"; "InvalidSessionIdError";
   "decision_id_for_session"; "is_valid_session_id"; "parse_decision_id"; "validate_session_id";
   "verify_chain_head_attestation"; "verify_chain_head_attestation_message"; "SeamError"; "CanonicalizationError";
   "map_rpc_error"; "SESSION_UNAVAILABLE_REASON"; "is_retryable"; "is_session_unavailable";
   "DEFAULT_RETRY_BUDGET_S"; "with_session_retry"; "with_session_retry_async"; "TENANT_HEADER"; "TenantInterceptor";
   "AioTenantInterceptor"; "TENANT_MOVING_REASON"; "WRONG_CELL_REASON"; "is_tenant_moving"; "is_wrong_cell";
   "IssuerMismatchError"; "SeamRpcError"; "InvalidArgumentError"; "FailedPreconditionError";
   "PermissionDeniedError"; "UnauthenticatedError"; "NotFoundError"; "ProtocolViolationError"; "AlreadyExistsError";
   "ResourceExhaustedError"; "UnavailableError"; "DeadlineExceededError"; "UnimplementedError"; "InternalError";
   "UnknownVerdictError"; "UnknownCollectiveVerdictError"].

Definition body_list : list (string * list stmt) :=
  [("seam_sdk", init_body); ("_authorize", _authorize_body); ("_collective", _collective_body);
   ("_outcome", _outcome_body); ("_policy", _policy_body); ("_seal", _seal_body); ("admin", admin_body);
   ("aio", aio_body); ("client", client_body); ("crypto", crypto_body); ("dpop", dpop_body);
   ("errors", errors_body); ("identity", identity_body); ("ids", ids_body); ("retry", retry_body);
   ("tenant", tenant_body)].
Definition bodies : gmap string (list stmt) := list_to_map body_list.

(** ** The import system *)

(** What is installed, and whether [seam_sdk._gen] was generated. *)
Record Env := MkEnv { grpc : bool; cryptography : bool; generated : bool }.
Definition installed (env : Env) (package : string) : bool :=
  if decide (package = "grpc") then grpc env else if decide (package = "cryptography") then cryptography env else false.

Inductive fault :=
| ModuleNotFound (name : string)
| CannotImport (module name : string)
| NoParentPackage
| NameError (name : string)
| DataclassModule     (** [@dataclass] looks its module up in [sys.modules] *)
| OutOfFuel.

(** The namespaces, [sys.modules], and the modules executed so far, in order. *)
Record State := MkState { spaces : gmap string (gset string); modules : gset string; ran : list string }.
Abbreviation Py := (Script State fault).
Global Instance State_eq_dec : EqDecision State.
Proof. solve_decision. Defined.
Definition start : State := MkState ∅ ∅ [].

Definition root : string := "seam_sdk".
Definition space (m : string) (s : State) : gset string := default ∅ (spaces s !! m).
Definition bind_names (m : string) (names : list string) : Py () :=
  modify (λ s, MkState (<[m := list_to_set names ∪ space m s]> (spaces s)) (modules s) (ran s)).
Definition new_module (m : string) : Py () :=
  modify (λ s, MkState (<[m := ∅]> (spaces s)) ({[m]} ∪ modules s) (ran s ++ [m])).
Definition drop_module (m : string) : Py () := modify (λ s, MkState (spaces s) (modules s ∖ {[m]}) (ran s)).
Definition asks {A} (f : State → A) : Py A := λ s, (Done (f s), s).
Definition loaded (m : string) : Py bool := asks (λ s, bool_decide (m ∈ modules s)).

(** A name read from the module's own namespace. *)
Definition read_name (m n : string) : Py () := b ← asks (λ s, bool_decide (n ∈ space m s)); require b (NameError n).

(** [getattr(module, name)] of [from module import name], with its second look into [sys.modules]. *)
Definition attribute (m n : string) : Py () :=
  b ← asks (λ s, bool_decide (n ∈ space m s) || (bool_decide (m = root) && bool_decide (n ∈ modules s)));
  require b (CannotImport m n).

Section imports.
Context (env : Env).

(** One statement of the module [m], given how to import another module of the package. *)
Definition exec (import : string → Py ()) (m : string) (c : stmt) : Py () :=
  match c with
  | Std names => bind_names m names
  | Third p names => _ ← require (installed env p) (ModuleNotFound p); bind_names m names
  | Gen names => _ ← require (generated env) (ModuleNotFound "seam_sdk._gen"); bind_names m names
  | From m' names => _ ← import m'; _ ← each (attribute m') names; bind_names m names
  | Sub m' n =>
    there ← asks (λ s, bool_decide (m' ∈ space root s));
    _ ← (if there : bool then mret () else import m');
    _ ← attribute root m'; bind_names m [n]
  | Defs names => bind_names m names
  | Uses n names => _ ← each (read_name m) names; bind_names m [n]
  | Dataclass n => _ ← read_name m "dataclass"; b ← loaded m; _ ← require b DataclassModule; bind_names m [n]
  end.

(** [importlib.import_module]: the parent package first, which may have imported [m] on its way. *)
Fixpoint import_module (fuel : nat) (m : string) : Py () :=
  there ← loaded m;
  if there : bool then mret () else
  match fuel with
  | O => fail OutOfFuel
  | S fuel =>
    _ ← (if decide (m = root) then mret () else import_module fuel root);
    there ← loaded m;
    if there : bool then mret () else
    match bodies !! m with
    | None => fail (ModuleNotFound m)
    | Some body =>
      _ ← new_module m;
      _ ← handling (each (exec (import_module fuel) m) body) (λ x, _ ← drop_module m; fail x);
      if decide (m = root) then mret () else bind_names root [m]
    end
  end.

(** Each module enters [sys.modules] before it imports another, so no more than these are under way at once. *)
Definition import_fuel : nat := S (size bodies).
Definition import_all (ms : list string) : Py () := each (import_module import_fuel) ms.

(** A module loaded as a single file: in no package, and not in [sys.modules]. *)
Definition standalone (m : string) : Py () :=
  match bodies !! m with
  | None => fail (ModuleNotFound m)
  | Some body =>
    each (λ c, match c with
               | Gen _ => fail (ModuleNotFound "seam_sdk")
               | From _ _ | Sub _ _ => fail NoParentPackage
               | _ => exec (λ _, fail NoParentPackage) "" c
               end) body
  end.
End imports.

(** ** Every import works, in any order *)

Lemma body_in m : is_Some (bodies !! m) ↔ m ∈ body_list.*1.
Proof.
  split.
  - intros [b Hb%elem_of_list_to_map_2]. apply list_elem_of_fmap. by exists (m, b).
  - intros Hm. destruct (bodies !! m) eqn:E; [done|]. by apply not_elem_of_list_to_map_2 in E.
Qed.

Lemma import_again env fuel m s : m ∈ modules s → import_module env fuel m s = (Done (), s).
Proof.
  intros Hm. assert (E : ∀ (k : Py ()), (there ← loaded m; if there : bool then mret () else k) s = (Done (), s)).
  { intros k. unfold loaded, asks, mbind, script_bind. by rewrite bool_decide_eq_true_2. }
  destruct fuel; apply E.
Qed.
Lemma import_rest env ms s : (∀ m, m ∈ ms → m ∈ modules s) → import_all env ms s = (Done (), s).
Proof.
  induction ms as [|m ms IH]; intros Hm; [done|]. unfold import_all. cbn [each]. unfold mbind, script_bind.
  rewrite import_again by (apply Hm; by left). apply IH. intros m' ?. apply Hm. by right.
Qed.
Lemma import_Failed env m ms s x s' : import_module env import_fuel m s = (Failed x, s') → import_all env (m :: ms) s = (Failed x, s').
Proof. intros E. unfold import_all. cbn [each]. unfold mbind, script_bind. by rewrite E. Qed.

(** A module's import is that of the package, when the package imports it. *)
Lemma import_by_root env fuel m s s' : m ≠ root → m ∉ modules s → import_module env fuel root s = (Done (), s') → m ∈ modules s' →
  import_module env (S fuel) m s = (Done (), s').
Proof.
  intros Hr Hm Hi Hm'. cbn [import_module]. unfold loaded, asks, mbind, script_bind.
  rewrite bool_decide_eq_false_2, decide_False by done. rewrite Hi. by rewrite bool_decide_eq_true_2.
Qed.
Lemma import_by_root_Failed env fuel m s x s' : m ≠ root → m ∉ modules s → import_module env fuel root s = (Failed x, s') →
  import_module env (S fuel) m s = (Failed x, s').
Proof.
  intros Hr Hm Hi. cbn [import_module]. unfold loaded, asks, mbind, script_bind.
  rewrite bool_decide_eq_false_2, decide_False by done. by rewrite Hi.
Qed.

(** The interpreter after the package was imported. *)
Definition everything : Env := MkEnv true true true.
Definition full : State := (import_module everything (size bodies) root start).2.

Definition reaches_full (r : outcome fault () * State) : bool :=
  match r with (Done _, s) => bool_decide (s = full) | _ => false end.
Lemma reaches_full_true r : reaches_full r = true → r = (Done (), full).
Proof.
  destruct r as [[[]|x|e] s]; cbn [reaches_full]; intros H; [|discriminate H|discriminate H].
  apply bool_decide_eq_true in H as ->. reflexivity.
Qed.
Lemma full_modules : modules full = list_to_set body_list.*1.
Proof. apply (bool_decide_unpack _). vm_compute. exact I. Qed.

(** Whichever module is asked for first, the same modules run in the same order. *)
Lemma import_first m : m ∈ body_list.*1 → import_module everything import_fuel m start = (Done (), full).
Proof.
  intros Hm. destruct (decide (m = root)) as [->|Hr]; [apply reaches_full_true; vm_compute; reflexivity|].
  apply import_by_root; [done|by apply not_elem_of_empty|apply reaches_full_true; vm_compute; reflexivity|].
  rewrite full_modules. by apply elem_of_list_to_set.
Qed.

Definition not_found (env : Env) (o : outcome fault () * State) : bool :=
  match o with
  | (Failed (ModuleNotFound p), _) => negb (installed env p || (bool_decide (p = "seam_sdk._gen") && generated env))
  | _ => false
  end.
Lemma import_missing env m : grpc env && cryptography env && generated env = false → m ∈ body_list.*1 →
  not_found env (import_module env import_fuel m start) = true.
Proof.
  intros He Hm. destruct (decide (m = root)) as [->|Hr]; [destruct env as [[] [] []]; try discriminate He; vm_compute; reflexivity|].
  assert (Hn : not_found env (import_module env (size bodies) root start) = true)
    by (destruct env as [[] [] []]; try discriminate He; vm_compute; reflexivity).
  destruct (import_module env (size bodies) root start) as [[[]|x|] s] eqn:E; try discriminate Hn.
  unfold import_fuel. by rewrite (import_by_root_Failed _ _ _ _ _ _ Hr (not_elem_of_empty m) E).
Qed.

(** [full] is computed once. *)
Definition offers_all (names : gset string) : bool := bool_decide (Forall (λ n, n ∈ names) __all__).
Lemma full_facts : NoDup (ran full) ∧ Forall (λ n, n ∈ space root full) __all__.
Proof.
  split; [apply (bool_decide_unpack _); vm_compute; exact I|].
  assert (H : offers_all (space root full) = true) by (vm_compute; reflexivity). exact (proj1 (bool_decide_eq_true _) H).
Qed.

(** C37. The package imports. In a fresh interpreter with gRPC, cryptography and the generated modules, importing any modules of
    the package in any order succeeds: no name is looked up before its module has defined it, every module's body
    runs exactly once, and every name [__all__] lists, each listed once, is there. Without one of the three every import
    fails, naming one that is missing. *)
Theorem imports_in_any_order env m ms : Forall (λ m, is_Some (bodies !! m)) (m :: ms) →
  let '(o, s) := import_all env (m :: ms) start in
  if grpc env && cryptography env && generated env
  then o = Done () ∧ NoDup (ran s) ∧ (∀ m, m ∈ modules s ↔ is_Some (bodies !! m)) ∧ NoDup __all__ ∧ Forall (λ n, n ∈ space root s) __all__
  else ∃ p, o = Failed (ModuleNotFound p) ∧ installed env p = false ∧ (p = "seam_sdk._gen" → generated env = false).
Proof.
  intros Hms. assert (Hin : ∀ m', m' ∈ m :: ms → m' ∈ body_list.*1).
  { intros m' Hm'. apply body_in. rewrite Forall_forall in Hms. by apply Hms. }
  destruct (grpc env && cryptography env && generated env) eqn:E.
  - assert (env = everything) as -> by (destruct env as [[] [] []]; try discriminate E; done).
    pose proof (import_first m (Hin m ltac:(by left))) as Hf.
    destruct full_facts as [Hr Ha]. pose proof full_modules as Hmod.
    assert (Er : import_all everything (m :: ms) start = (Done (), full)).
    { unfold import_all. cbn [each]. unfold mbind, script_bind. rewrite Hf. apply import_rest. intros m' Hm'.
      rewrite Hmod. apply elem_of_list_to_set, Hin. by right. }
    rewrite Er. split_and!; [done|done| |apply (bool_decide_unpack _); vm_compute; exact I|done].
    intros m'. rewrite Hmod, body_in. apply elem_of_list_to_set.
  - pose proof (import_missing env m E (Hin m ltac:(by left))) as Hf.
    destruct (import_module env import_fuel m start) as [[|x|] s] eqn:Em; try discriminate Hf.
    rewrite (import_Failed _ _ _ _ _ _ Em). destruct x as [p| | | | |]; try discriminate Hf. exists p. split; [done|].
    cbn [not_found] in Hf. apply negb_true_iff, orb_false_iff in Hf as [Hp Hg]. split; [done|]. intros ->. exact Hg.
Qed.

Lemma imports_in_any_order_witness :
  let '(o, s) := import_all everything ["retry"; "_seal"; "seam_sdk"; "retry"] start in
  o = Done () ∧ NoDup (ran s) ∧ (∀ m, m ∈ modules s ↔ is_Some (bodies !! m)) ∧ NoDup __all__ ∧ Forall (λ n, n ∈ space root s) __all__.
Proof.
  apply (imports_in_any_order everything "retry" ["_seal"; "seam_sdk"; "retry"]).
  repeat constructor; apply (bool_decide_unpack _); vm_compute; exact I.
Defined.

(** ** Loaded as a single file *)

(** The modules that load without the package, and what each needs installed. *)
Definition standalone_needs (m : string) : option (Env → bool) :=
  if decide (m ∈ ["crypto"; "dpop"]) then Some cryptography
  else if decide (m ∈ ["errors"; "tenant"]) then Some grpc
  else if decide (m ∈ ["ids"; "_outcome"]) then Some (λ _, true) else None.

(** For every module, by evaluation. *)
Ltac each_module :=
  let l := eval vm_compute in (body_list.*1) in change (body_list.*1) with l;
  repeat (apply Forall_cons; split; [vm_compute; reflexivity|]); apply Forall_nil; exact I.

Lemma standalone_listed env : Forall (λ m, match (standalone env m start).1 with Done _ => true | _ => false end =
  match standalone_needs m with Some f => f env | None => false end) body_list.*1.
Proof. destruct env as [[] [] []]; each_module. Qed.

Lemma standalone_needs_in m : is_Some (standalone_needs m) → m ∈ body_list.*1.
Proof.
  unfold standalone_needs. intros [f Hf].
  repeat (case_decide as Hl; [clear - Hl; revert m Hl; apply Forall_forall, (bool_decide_unpack _); vm_compute; exact I|clear Hl]). discriminate Hf.
Qed.

(** The files other repositories load on their own do load: [errors.py] where gRPC is installed, [crypto.py] where
    cryptography is, without the package and the generated modules. These six modules do, and no other. *)
Theorem standalone_loads env m :
  (standalone env m start).1 = Done () ↔ ∃ f, standalone_needs m = Some f ∧ f env = true.
Proof.
  destruct (decide (m ∈ body_list.*1)) as [Hm|Hm].
  - pose proof (standalone_listed env) as H. rewrite Forall_forall in H. specialize (H m Hm).
    destruct (standalone env m start) as [[[]|x|e] s]; destruct (standalone_needs m) as [f|]; cbn in H |- *;
      (split; [intros E|intros (g & E & Hg)]); try discriminate E; try discriminate H; [by exists f|done|..]; injection E as <-; congruence.
  - assert (Eb : bodies !! m = None) by (apply eq_None_not_Some; by rewrite body_in).
    unfold standalone. rewrite Eb. split; [intros E; discriminate E|]. intros (f & Hf & _). destruct Hm. apply standalone_needs_in. by exists f.
Qed.
